(* ===== verification/_CoqProject ===== *)
-Q . S2P
Prelude.v
GoTime.v
Simulation.v
GoStrings.v
GoJson.v
GoJsonScan.v
GoJsonDecode.v
Base64.v
Sha256.v
Authz.v
Ber.v
Wire.v
GoUrl.v
GoUrlParse.v
GoUrlRoundTrip.v
GoMime.v
GoHttp.v
OidcTypes.v
OidcStore.v
OidcCodec.v
OidcVerify.v
OidcDiscovery.v
OidcCache.v
OidcLogin.v
OidcFlow.v
OidcIntrospection.v
Security.v
AuditLog.v
GoFloat.v
GoDuration.v
Config.v
Transactions.v
Migrate.v
Postgres.v
AuditSchema.v
Ids.v
Problem.v
Middleware.v
Cors.v
Concurrency.v
Health.v
App.v
LdapReader.v
Metrics.v
DirectoryMetrics.v
Certificates.v
CertificateContract.v
Validation.v
MinimalApp.v
