(* ===== verification/Prelude.v ===== *)
(** * StumpfWorks Framework: verification development

    The framework (Go, under [src/]) is a library for HTTP services: an
    application lifecycle ([core/app]), layered configuration ([core/config]),
    middleware, metrics, health and problem responses ([web/]), an OpenID Connect
    client ([auth/oidc]), permissions ([authz]), an audit log ([audit]), a
    PostgreSQL pool with migrations ([data/]), an LDAP directory reader
    ([directory/ldap]) and certificate policy ([security/certificates]).  A
    service wires them together: the application serves routes inside middleware;
    handlers complete logins against the issuer, look users up in the directory,
    check permissions, write audit events in transactions, and answer with
    problem documents; metrics observe requests and lookups.

    ** How the code is modelled

    Pure functions are functions; a Go [(value, error)] is a [result]; a method
    that mutates its receiver returns the new record; operations under a mutex
    are single steps, and claims about concurrent use quantify over every
    sequence of steps.  Shared mutable objects are addresses in a heap where the
    code depends on it: login transactions ([OidcStore], [OidcLogin]) and request
    objects ([GoHttp], since [r.WithContext] copies a request).  Byte loops are
    byte loops, [int64] and [uint64] wrap where the code relies on their width,
    and durations are nanoseconds.  What the sources only call (go-jose, the LDAP
    and PostgreSQL clients, HTTP transports, X.509, AES-GCM, the Unicode case
    tables, the marshalling of arbitrary Go values) is an argument or a type class
    whose fields are the calls and whose laws are their documented behaviour;
    concrete instances show that each set of laws can be met.  The rest of the
    standard library in use is executable: JSON text and its decoding into Go
    values, URLs and forms, media types, duration texts, binary64 arithmetic and
    its shortest decimal text, cookies, SHA-256, base64, UTF-8, hexadecimal and
    canonical header names.

    ** Files

    - [Prelude]: results, bytes, slices, Go's [==], hints and tactics.
    - [Simulation]: labelled transition systems, their traces, and forward
      simulation as a class that gives trace refinement.
    - [GoTime], [GoDuration], [GoFloat], [GoStrings], [GoHttp], [GoMime],
      [Base64], [Sha256]: the standard library in use: instants and durations and
      their texts; [float64] and its text; byte strings, UTF-8 and [strconv];
      requests, response writers (committed and informational statuses,
      status-tracking wrappers) and the router with its table of method patterns;
      media types.
    - [GoJson], [GoJsonScan], [GoJsonDecode]: the JSON encoder; the scanner of
      [encoding/json] as a parser, equivalent to an inductive grammar and inverse
      to the encoder; decoding into Go types as data, with folded field names,
      repeated members and unknown fields, and the errors of [Decoder.Decode].
    - [GoUrl], [GoUrlParse], [GoUrlRoundTrip]: form values; [url.Parse],
      [URL.String], [Hostname] and [Port]; printed URLs read back.
    - [Authz] ([authz/permissions.go]): [Parse] is the byte loop, the grammar is
      separate; sets are exactly the parsed keys, bounded.
    - [Ber], [Wire] ([directory/ldap/framing.go], [boundedConn] of [reader.go]):
      the validator decides an inductive grammar of definite-length BER messages
      of bounded depth; the framed connection delivers only whole valid messages
      under any read sizes and is transparent to a valid stream.
    - [LdapReader] ([directory/ldap/reader.go]): [New], and [GetUser] over a
      network argument as the calls it makes, deferred ones included, with the
      protocol a connection is used by; redacted forms ([redaction.go]).
    - [OidcTypes], [OidcStore], [OidcCodec], [OidcVerify], [OidcDiscovery],
      [OidcCache], [OidcLogin], [OidcIntrospection] ([auth/oidc/*.go]): the
      pending-login store on a heap of transactions; sealed transactions over an
      AEAD; token and key vetting; discovery; the age-bounded configuration;
      [Begin] and [complete] with the token request; introspection.
    - [OidcFlow]: the store and the login client together, with the abstract
      ticket office that the store implements.
    - [Security] ([security/sensitive.go], [core/logging]): sensitive keys, and
      the JSON logger as the attributes it writes, groups included.
    - [Certificates] ([security/certificates/verify.go]): peer and issued
      certificates over an X.509 interface.
    - [CertificateContract] ([internal/testutil/certificatecontract],
      [security/certificates/consumer_contract_test.go]): the conformance suites
      case by case, the adapters under test, and certificate issuing as an
      interface.
    - [AuditLog], [AuditSchema] ([audit/event.go], [audit/postgres]): event
      validation with recursive metadata, the append-only table, and the embedded
      migration with the constraints it declares.
    - [Config] ([core/config/config.go]): defaults, file, environment, overrides,
      validation.
    - [Transactions]: sessions with a durable state and at most one transaction,
      shared by the next two.
    - [Migrate], [Postgres] ([data/]): migration files and their application in one
      transaction, whatever a file does to the session; pool options, [Open] and [WithinTransaction].
    - [Ids], [Problem] ([core/id], [core/errors], [web/problem]): identifiers,
      coded errors and problem documents.
    - [Middleware], [Cors], [Concurrency] ([web/middleware]): the standard chain,
      cross-origin policy and the limiter as a transition system with a clock and
      timers, with the room it implements.
    - [Metrics], [DirectoryMetrics] ([web/metrics]): registry, exposition, bearer
      protection; the registry as the observer of directory lookups.
    - [Health] ([web/health]): readiness under every order of arrivals, and the
      JSON documents it answers with.
    - [App] ([core/app]): registration of routes, middleware and resources,
      composition, run and shutdown.
    - [MinimalApp] ([examples/minimal-app/main.go]): [main] as a composition of
      the models of the packages it calls.
    - [Validation] ([web/validation], [core/version]): bounded JSON input and
      build metadata.

    In each file the definitions come first, in a module named after the
    component; a [...Correct] module holds the lemmas, and a [...Properties] module
    the theorems and evaluations of them at concrete inputs.

    ** What the theorems show

    - Grammars and decisions: the BER validator, [Authz.Parse], audit validation,
      certificate policy, JSON input and configuration accept exactly the bytes their
      specification says ([validateBERFrame_decides_grammar],
      [Parse_accepts_grammar], [Validate_accepts], [VerifyIssued_exact],
      [DecodeJSON_exact], [LoadWithOverrides_layers]), and integer settings are
      loaded as the integers their texts denote or not at all, never wrapped
      ([LoadWithOverrides_never_wraps]).
    - Login: every interleaving of store operations is a behaviour of an office
      that hands each ticket out at most once and never holds more than its bound
      ([store_refines_ticket_office]); a login is taken exactly with its own
      browser binding, unused and at most five minutes old ([Take_succeeds_iff]); one that was exchanged is never
      exchanged again ([exchanged_login_is_spent]); an identity comes
      only from a token signed by a vetted key with the right issuer, audience,
      nonce and dates; an honest login completes, for a provider that sees only the
      address, the callback and the exchange ([honest_login_completes]); a sealed transaction opens only
      for the client that sealed it.
    - The wire: only valid messages reach the LDAP library, whatever the peer
      sends, within the byte budget; a valid stream is delivered unchanged; a
      lookup says nothing to the network but one dial, bind and search, and closes
      its connection on every path ([GetUser_one_entry]).
    - State over time: the configuration cache serves the last successful
      refresh and only while it is fresh; migrations apply all or nothing, unless a
      file itself ends the transaction or changes the bookkeeping
      ([Apply_all_or_nothing]), and a second run changes nothing; transactions commit
      exactly when the callback succeeds; the limiter is a timed room that seats at
      most its maximum and turns requests away only once they have waited for the
      queue timeout or, without a queue, when it is full ([limiter_refines_room]);
      readiness is truthful; the server runs under the configured limits, and
      resources are released once, in reverse order ([Run_releases_resources]).
    - Exchanges: panics are contained, one truthful log line per request,
      security headers on every response, cross-origin grants only as configured,
      metrics exactly as observed and only for the token's holder, and no secret
      attribute in the log at any depth ([NewJSON_hides_secrets]).
    - Compositions: once its configuration loads, the example service fails only
      for reasons outside the program and closes what it opened
      ([main_fails_only_outside]); a client of it reads, through the chain, the
      limiter and the router, exactly the health documents of its checks
      ([health_end_to_end]), which decode to what was reported
      ([respond_document_roundtrip]), as the bytes of problem responses decode to the
      details that were given ([Write_document_roundtrip]); the certificate policy passes both
      conformance suites ([RunPeer_passes], [RunIssued_passes]); events that pass
      validation are storable under the audit schema, and stay
      ([audit_store_on_its_schema]); every directory lookup is counted once,
      under labels of a closed set ([lookups_counted]).

    ** Recursion and bounds

    Recursion that is not structural has fuel equal to the length of what it
    consumes: the BER validator (with [validateBERFrame_terminates]: every step
    consumes bytes), UTF-8 decoding, SHA-256 blocks, the terms of a duration
    ([terms_never_stuck]), the parameters of a media type
    ([parameters_never_stuck]).  The JSON parser has two units for each byte
    ([parse_never_stuck]).  The search for the shortest text of a float ends once
    all its binary digits are shown ([shortest_reads_back]).  The read loop of [Wire]
    stops after the frame limit of the source.  No theorem assumes that fuel
    suffices.

    ** Not modelled

    The bytes of log lines (the attributes they carry are); the texts of the
    decoder's errors, which no response contains; SQL beyond the constraints of the
    audit table; the parsing of flags; the router's own answers (redirects, 404 and
    405), which are an argument; and patterns with wildcards or hosts, which no
    program under [src/] registers.

    Two observations came out of the model: around the standard chain the metrics
    middleware counts every request as "unmatched", because the chain serves a copy
    of the request ([Metrics.MetricsProperties.Middleware_labels]); and the status
    trackers report an informational status as the final one
    ([Middleware.MiddlewareProperties.early_hints_status]). *)

From stdpp Require Export base tactics list gmap strings option numbers sorting.
From Stdlib Require Export ZArith Lia ZifyBool ZifyNat ZifyN.
From Stdlib Require Export Ascii.
From Stdlib Require String.
From Stdlib.Strings Require Byte.

#[global] Open Scope Z_scope.

(** ** Results: Go's [(value, error)] pairs *)

(** A fallible Go call either returns a value and a nil error, or an error.
    The error type is chosen per component. *)
Inductive result (E A : Type) : Type :=
  | Ok (a : A)
  | Err (e : E).
Arguments Ok {E A} a.
Arguments Err {E A} e.

Definition is_ok {E A} (r : result E A) : bool :=
  match r with Ok _ => true | Err _ => false end.

#[export] Instance result_ret E : MRet (result E) := fun A a => Ok a.
#[export] Instance result_bind E : MBind (result E) := fun A B f r =>
  match r with Ok a => f a | Err e => Err e end.
#[export] Instance result_fmap E : FMap (result E) := fun A B f r =>
  match r with Ok a => Ok (f a) | Err e => Err e end.

#[export] Instance result_eq_dec E A `{EqDecision E, EqDecision A} :
  EqDecision (result E A).
Proof. solve_decision. Defined.

Section result_lemmas.
Context {E A B : Type}.
Implicit Types (r : result E A) (f : A -> result E B).

Lemma bind_Ok_inv r f b :
  (r ≫= f) = Ok b -> exists a, r = Ok a /\ f a = Ok b.
Proof. destruct r; simpl; [eauto|discriminate]. Qed.

Lemma bind_Err_inv r f e :
  (r ≫= f) = Err e -> r = Err e \/ exists a, r = Ok a /\ f a = Err e.
Proof. destruct r; simpl; [eauto|]. intros [= ->]. by left. Qed.

Lemma is_ok_true r : is_ok r = true <-> exists a, r = Ok a.
Proof. destruct r; simpl; naive_solver eauto. Qed.

Lemma is_ok_false r : is_ok r = false <-> exists e, r = Err e.
Proof. destruct r; simpl; naive_solver. Qed.
End result_lemmas.

(** ** Bytes, strings and machine integers *)

(** A Go [string] is a sequence of bytes, kept as a Rocq [string]; a Go
    [[]byte] is a [list byte].  Go's [len] of either is its number of bytes. *)
Abbreviation byte := Byte.byte.

Definition len (s : string) : Z := Z.of_nat (String.length s).
Definition blen {A} (l : list A) : Z := Z.of_nat (length l).

(** The bytes of a string, as characters and as bytes. *)
Abbreviation chars := String.list_ascii_of_string.
Abbreviation of_chars := String.string_of_list_ascii.
Abbreviation bytes_of := String.list_byte_of_string.
Abbreviation string_of := String.string_of_list_byte.

Lemma chars_of_chars l : chars (of_chars l) = l.
Proof. apply String.list_ascii_of_string_of_list_ascii. Qed.
Lemma of_chars_chars s : of_chars (chars s) = s.
Proof. apply String.string_of_list_ascii_of_string. Qed.

(** The value of a byte, in [0, 255]. *)
Definition code (c : ascii) : Z := Z.of_N (N_of_ascii c).
Definition bval (b : byte) : Z := Z.of_N (Byte.to_N b).

(** The byte with a given value, taken modulo 256 as a Go conversion does. *)
Definition byte_of (z : Z) : byte :=
  match Byte.of_N (Z.to_N (z mod 256)) with Some b => b | None => Byte.x00 end.

(** [int64(x)] and [uint64(x)] conversions. *)
Definition wrapU64 (z : Z) : Z := z mod 2 ^ 64.
Definition wrapS64 (z : Z) : Z := (z + 2 ^ 63) mod 2 ^ 64 - 2 ^ 63.

Definition in_int64 (z : Z) : Prop := - 2 ^ 63 <= z < 2 ^ 63.

#[export] Instance byte_eq_dec : EqDecision byte := Byte.byte_eq_dec.
#[export] Program Instance byte_countable : Countable byte :=
  inj_countable' Byte.to_N
    (fun n => match Byte.of_N n with Some b => b | None => Byte.x00 end) _.
Next Obligation. intros b; simpl. by rewrite Byte.of_to_N. Qed.

Lemma code_range c : 0 <= code c < 256.
Proof. unfold code. pose proof (Ascii.N_ascii_bounded c). lia. Qed.

Lemma code_inj c d : code c = code d -> c = d.
Proof.
  unfold code. intros H%N2Z.inj.
  by rewrite <- (ascii_N_embedding c), <- (ascii_N_embedding d), H.
Qed.

Lemma bval_range b : 0 <= bval b < 256.
Proof. unfold bval. pose proof (Byte.to_N_bounded b). lia. Qed.

Lemma byte_of_bval b : byte_of (bval b) = b.
Proof.
  unfold byte_of, bval. rewrite Z.mod_small by (pose proof (bval_range b); unfold bval in *; lia).
  by rewrite N2Z.id, Byte.of_to_N.
Qed.

Lemma bval_byte_of z : bval (byte_of z) = z mod 256.
Proof.
  unfold byte_of, bval. pose proof (Z.mod_pos_bound z 256 eq_refl).
  destruct (Byte.of_N _) as [b|] eqn:E.
  - rewrite (Byte.to_of_N _ E). lia.
  - apply Byte.of_N_None_iff in E. lia.
Qed.

Lemma bval_inj b c : bval b = bval c -> b = c.
Proof. intros H. by rewrite <- (byte_of_bval b), H, byte_of_bval. Qed.

Lemma len_nonneg s : 0 <= len s.
Proof. unfold len; lia. Qed.

Lemma blen_nonneg {A} (l : list A) : 0 <= blen l.
Proof. unfold blen; lia. Qed.

Lemma len_app s t : len (s +:+ t) = len s + len t.
Proof. unfold len. induction s; simpl; [done|]. unfold String.app in *; simpl. lia. Qed.

Lemma blen_app {A} (l k : list A) : blen (l ++ k) = blen l + blen k.
Proof. unfold blen. rewrite length_app. lia. Qed.

Lemma blen_cons {A} (x : A) l : blen (x :: l) = 1 + blen l.
Proof. unfold blen. simpl length. lia. Qed.

Lemma len_chars s : len s = blen (chars s).
Proof. unfold len, blen. induction s; simpl; lia. Qed.

Lemma len_bytes_of s : blen (bytes_of s) = len s.
Proof.
  rewrite len_chars. unfold String.list_byte_of_string, blen.
  by rewrite List.length_map.
Qed.

Lemma len_string_of l : len (string_of l) = blen l.
Proof. rewrite <- len_bytes_of. by rewrite String.list_byte_of_string_of_list_byte. Qed.

Lemma len_0 s : len s = 0 <-> s = "".
Proof. unfold len. destruct s; simpl; naive_solver lia. Qed.

Lemma wrapS64_small z : in_int64 z -> wrapS64 z = z.
Proof. unfold in_int64, wrapS64. intros. rewrite Z.mod_small; lia. Qed.

Lemma wrapS64_wrapU64 z : wrapS64 (wrapU64 z) = wrapS64 z.
Proof. unfold wrapS64, wrapU64. by rewrite Zplus_mod_idemp_l. Qed.

(** ** Slices *)

(** [l[from:to]] of a Go slice expression within bounds. *)
Definition slice {A} (l : list A) (from to : Z) : list A :=
  take (Z.to_nat (to - from)) (drop (Z.to_nat from) l).

Lemma slice_middle {A} (pre mid suf : list A) :
  slice (pre ++ mid ++ suf) (blen pre) (blen pre + blen mid) = mid.
Proof.
  unfold slice, blen. rewrite Nat2Z.id, drop_app_length.
  replace (Z.to_nat _) with (length mid) by lia. apply take_app_length.
Qed.

Lemma slice_at {A} (pre mid suf : list A) from to :
  from = blen pre -> to = from + blen mid -> slice (pre ++ mid ++ suf) from to = mid.
Proof. intros -> ->. apply slice_middle. Qed.

Lemma drop_at {A} (pre suf : list A) from : from = blen pre -> drop (Z.to_nat from) (pre ++ suf) = suf.
Proof. intros ->. unfold blen. rewrite Nat2Z.id. apply drop_app_length. Qed.

Lemma blen_slice {A} (l : list A) from to :
  0 <= from -> from <= to -> to <= blen l -> blen (slice l from to) = to - from.
Proof. unfold slice, blen. intros. rewrite length_take, length_drop. lia. Qed.

(** ** Finite sets *)

Lemma size_list_to_set_le `{Countable A} (l : list A) : (size (list_to_set l : gset A) <= length l)%nat.
Proof.
  induction l as [|x l IH]; [done|].
  rewrite list_to_set_cons, size_union_alt, size_singleton. simpl.
  assert (size ((list_to_set l : gset A) ∖ {[x]}) <= size (list_to_set l : gset A))%nat
    by (apply subseteq_size; set_solver). lia.
Qed.

(** ** Equality tests of the code as booleans *)

(** Go's [==] on strings, bytes and comparable values. *)
Notation "x == y" := (bool_decide (x = y)) (at level 70, no associativity) : go_scope.
Notation "x != y" := (negb (bool_decide (x = y))) (at level 70, no associativity) : go_scope.
Delimit Scope go_scope with go.
#[global] Open Scope go_scope.

(** ** Automation *)

Create HintDb swf discriminated.
#[export] Hint Resolve code_range bval_range len_nonneg blen_nonneg : swf.
#[export] Hint Rewrite len_app @blen_app @blen_cons : swf.

(** Split the boolean guards of the code into propositions. *)
Ltac split_guards :=
  repeat match goal with
  | H : (_ || _) = false |- _ => apply orb_false_iff in H; destruct H
  | H : (_ && _) = true |- _ => apply andb_true_iff in H; destruct H
  | H : negb _ = false |- _ => apply negb_false_iff in H
  | H : negb _ = true |- _ => apply negb_true_iff in H
  | H : bool_decide _ = true |- _ => apply bool_decide_eq_true_1 in H
  | H : bool_decide _ = false |- _ => apply bool_decide_eq_false_1 in H
  | H : is_ok _ = true |- _ => apply is_ok_true in H; destruct H
  | H : is_ok _ = false |- _ => apply is_ok_false in H; destruct H
  end.

(** Case analysis on every test of a function's body, discarding the branches
    whose result contradicts the hypotheses. *)
Ltac crush_cases :=
  repeat (case_match; try discriminate); simplify_eq/=; split_guards.

(** Facts about lengths and byte values, for [lia]. *)
Ltac bounds :=
  repeat match goal with
  | |- context [len ?s] =>
      lazymatch goal with H : 0 <= len s |- _ => fail | _ => pose proof (len_nonneg s) end
  | H : context [len ?s] |- _ =>
      lazymatch goal with H' : 0 <= len s |- _ => fail | _ => pose proof (len_nonneg s) end
  | |- context [blen ?s] =>
      lazymatch goal with H : 0 <= blen s |- _ => fail | _ => pose proof (blen_nonneg s) end
  | H : context [blen ?s] |- _ =>
      lazymatch goal with H' : 0 <= blen s |- _ => fail | _ => pose proof (blen_nonneg s) end
  | |- context [bval ?s] =>
      lazymatch goal with H : 0 <= bval s < 256 |- _ => fail | _ => pose proof (bval_range s) end
  | H : context [bval ?s] |- _ =>
      lazymatch goal with H' : 0 <= bval s < 256 |- _ => fail | _ => pose proof (bval_range s) end
  end.
