(* ===== verification/GoTime.v ===== *)
(** * Instants and durations: the part of Go's [time] package in use

    A [time.Time] is its instant, in nanoseconds since the Unix epoch; locations
    and monotonic readings, which no modelled comparison uses, are left out.  A
    [time.Duration] is a number of nanoseconds.  [Sub] saturates at the bounds
    of [int64] as Go's does; [Add] is exact. *)

From S2P Require Import Prelude.

Abbreviation time := Z (only parsing).
Abbreviation Duration := Z (only parsing).

Definition Millisecond : Duration := 1000000.
Definition Second : Duration := 1000 * Millisecond.
Definition Minute : Duration := 60 * Second.
Definition Hour : Duration := 60 * Minute.

(** Seconds between January 1 of year 1, Go's zero time, and the Unix epoch. *)
Definition unixToInternal : Z := 62135596800.

Definition zeroTime : time := - unixToInternal * Second.
Definition IsZero (t : time) : bool := t =? zeroTime.

Definition Add (t : time) (d : Duration) : time := t + d.
Definition After (t u : time) : bool := u <? t.
Definition Before (t u : time) : bool := t <? u.

Definition minDuration : Duration := - 2 ^ 63.
Definition maxDuration : Duration := 2 ^ 63 - 1.
Definition Sub (t u : time) : Duration := Z.max minDuration (Z.min maxDuration (t - u)).

(** [t.UnixNano()], truncated to [int64]; [time.Unix(0, nsec)] and
    [time.Unix(sec, 0)], the latter wrapping in the internal second count. *)
Definition UnixNano (t : time) : Z := wrapS64 t.
Definition UnixOfNanos (nsec : Z) : time := nsec.
Definition UnixOfSeconds (sec : Z) : time :=
  (wrapS64 (sec + unixToInternal) - unixToInternal) * Second.

(** Comparisons with a saturated difference agree with exact ones for every
    bound that a [Duration] can hold. *)
Lemma Sub_gt_exact t u d : 0 <= d < maxDuration -> (d <? Sub t u) = (d <? t - u).
Proof. unfold Sub, minDuration, maxDuration. lia. Qed.

Lemma Sub_ge_exact t u d : minDuration < d <= maxDuration -> (d <=? Sub t u) = (d <=? t - u).
Proof. unfold Sub, minDuration, maxDuration. lia. Qed.

(** Constants and comparisons of this file, unfolded for [lia]. *)
Ltac unfold_time :=
  unfold After, Before, Add, IsZero, zeroTime, unixToInternal, UnixOfNanos,
    Hour, Minute, Second, Millisecond in *.
