(* ===== verification/Simulation.v ===== *)
(** * Labelled transition systems and forward simulation

    A component that runs under interleaving is a transition system whose labels
    are the events its clients can see; an abstract specification is another.
    A forward simulation shows that every visible trace of the first is one of
    the second. *)

From S2P Require Import Prelude.

(** States, initial states, and steps, silent ([None]) or with one event. *)
Record Lts (L : Type) := {
  lts_state : Type;
  lts_init : lts_state -> Prop;
  lts_step : lts_state -> option L -> lts_state -> Prop
}.
Arguments lts_state {L}. Arguments lts_init {L}. Arguments lts_step {L}.

(** The visible events of a label. *)
Definition seen {L} (l : option L) : list L := option_list l.

Inductive runs {L} (M : Lts L) : lts_state M -> list L -> lts_state M -> Prop :=
  | runs_nil s : runs M s [] s
  | runs_cons s1 l s2 tr s3 : lts_step M s1 l s2 -> runs M s2 tr s3 -> runs M s1 (seen l ++ tr) s3.

#[export] Hint Constructors runs : swf.

Definition traces {L} (M : Lts L) (tr : list L) : Prop :=
  exists s s', lts_init M s /\ runs M s tr s'.

(** [C] refines [A]: it shows nothing that [A] cannot show. *)
Definition refines {L} (C A : Lts L) : Prop := forall tr, traces C tr -> traces A tr.

(** What a component promises when it implements a specification through [R]. *)
Class ForwardSimulation {L} (C A : Lts L) (R : lts_state C -> lts_state A -> Prop) : Prop := {
  sim_init c : lts_init C c -> exists a, lts_init A a /\ R c a;
  sim_step c l c' a : lts_step C c l c' -> R c a -> exists a', runs A a (seen l) a' /\ R c' a'
}.

Section runs.
Context {L : Type} {M : Lts L}.

Lemma runs_app s1 s2 s3 tr1 tr2 : runs M s1 tr1 s2 -> runs M s2 tr2 s3 -> runs M s1 (tr1 ++ tr2) s3.
Proof. induction 1; intros H3; [done|]. rewrite <- app_assoc. eauto with swf. Qed.

Lemma runs_one s1 l s2 : lts_step M s1 l s2 -> runs M s1 (seen l) s2.
Proof. intros Hs. rewrite <- (app_nil_r (seen l)). eauto with swf. Qed.

(** A run splits where its trace does. *)
Lemma runs_split s1 s3 tr : runs M s1 tr s3 -> forall tr1 tr2, tr = tr1 ++ tr2 ->
  exists s2, runs M s1 tr1 s2 /\ runs M s2 tr2 s3.
Proof.
  induction 1 as [s|s1 l s2 tr s3 Hs Hr IH]; intros tr1 tr2 He.
  - symmetry in He. apply app_nil in He as [-> ->]. eauto with swf.
  - destruct l as [e|]; cbn [seen option_list app] in He.
    + destruct tr1 as [|e' tr1]; cbn [app] in He.
      * subst tr2. exists s1. split; [constructor|]. change (e :: tr) with (seen (Some e) ++ tr). eauto with swf.
      * injection He as <- He. destruct (IH tr1 tr2 He) as (s & H1 & H2). exists s. split; [|done].
        change (e :: tr1) with (seen (Some e) ++ tr1). eauto with swf.
    + destruct (IH tr1 tr2 He) as (s & H1 & H2). exists s. split; [|done].
      change tr1 with (seen (@None L) ++ tr1). eauto with swf.
Qed.

(** Invariants along runs. *)
Lemma runs_invariant (P : lts_state M -> Prop) s tr s' :
  (forall s1 l s2, lts_step M s1 l s2 -> P s1 -> P s2) -> runs M s tr s' -> P s -> P s'.
Proof. intros Hstep. induction 1; eauto. Qed.
End runs.

Section refinement.
Context {L : Type} {C A : Lts L} {R : lts_state C -> lts_state A -> Prop} `{!ForwardSimulation C A R}.

Lemma simulation_runs c tr c' : runs C c tr c' -> forall a, R c a -> exists a', runs A a tr a' /\ R c' a'.
Proof using All.
  induction 1 as [c|c1 l c2 tr c3 Hs _ IH]; intros a HR; [eauto with swf|].
  destruct (sim_step _ _ _ _ Hs HR) as (a2 & Ha & HR2). destruct (IH a2 HR2) as (a3 & Ha3 & HR3).
  exists a3. split; [by eapply runs_app|done].
Qed.

Lemma simulation_refines : refines C A.
Proof using All.
  intros tr (c & c' & Hi & Hr). destruct (sim_init c Hi) as (a & Ha & HR).
  destruct (simulation_runs _ _ _ Hr a HR) as (a' & Hr' & _). by exists a, a'.
Qed.
End refinement.

#[export] Instance refines_preorder L : PreOrder (@refines L).
Proof. split; [by intros M tr|]. intros M1 M2 M3 H12 H23 tr Ht. auto. Qed.
