(* ===== verification/GoStrings.v ===== *)
(** * Strings: the parts of Go's [strings], [unicode/utf8] and [strconv] in use

    All functions work on the bytes of a string.  White space is Go's
    [unicode.IsSpace], in its UTF-8 encodings. *)

From S2P Require Import Prelude.

(** ** Prefixes, suffixes and case *)

Fixpoint stripPrefix (p l : list ascii) : option (list ascii) :=
  match p, l with
  | [], l => Some l
  | a :: p, b :: l => if a == b then stripPrefix p l else None
  | _ :: _, [] => None
  end.

Definition HasPrefix (s p : string) : bool := bool_decide (is_Some (stripPrefix (chars p) (chars s))).
Definition HasSuffix (s p : string) : bool :=
  bool_decide (is_Some (stripPrefix (rev (chars p)) (rev (chars s)))).

(** [strings.CutPrefix]. *)
Definition CutPrefix (s p : string) : string * bool :=
  match stripPrefix (chars p) (chars s) with
  | Some rest => (of_chars rest, true)
  | None => (s, false)
  end.

Definition isUpper (c : ascii) : bool := (code "A" <=? code c) && (code c <=? code "Z").
Definition isLower (c : ascii) : bool := (code "a" <=? code c) && (code c <=? code "z").
Definition isDigit (c : ascii) : bool := (code "0" <=? code c) && (code c <=? code "9").

Definition lowerASCII (c : ascii) : ascii :=
  if isUpper c then ascii_of_N (Z.to_N (code c + 32)) else c.
Definition upperASCII (c : ascii) : ascii :=
  if isLower c then ascii_of_N (Z.to_N (code c - 32)) else c.

(** [strings.EqualFold(s, t)] for a [t] of ASCII letters other than k and s,
    the only ones with case variants outside ASCII. *)
Definition equalFoldASCII (s t : string) : bool :=
  map lowerASCII (chars s) == map lowerASCII (chars t).

(** ** White space *)

(** The multi-byte white-space runes: U+0085, U+00A0, U+1680, U+2000 to
    U+200A, U+2028, U+2029, U+202F, U+205F and U+3000, as byte values. *)
Definition spaceRunes : list (list Z) :=
  [[9]; [10]; [11]; [12]; [13]; [32]; [0xc2; 0x85]; [0xc2; 0xa0]; [0xe1; 0x9a; 0x80];
   [0xe2; 0x80; 0x80]; [0xe2; 0x80; 0x81]; [0xe2; 0x80; 0x82]; [0xe2; 0x80; 0x83];
   [0xe2; 0x80; 0x84]; [0xe2; 0x80; 0x85]; [0xe2; 0x80; 0x86]; [0xe2; 0x80; 0x87];
   [0xe2; 0x80; 0x88]; [0xe2; 0x80; 0x89]; [0xe2; 0x80; 0x8a]; [0xe2; 0x80; 0xa8];
   [0xe2; 0x80; 0xa9]; [0xe2; 0x80; 0xaf]; [0xe2; 0x81; 0x9f]; [0xe3; 0x80; 0x80]].

Definition asciis (zs : list Z) : list ascii := map (fun z => ascii_of_N (Z.to_N z)) zs.

(** What is left of [l] behind the first of the given sequences it starts with. *)
Fixpoint stripOne (seqs : list (list ascii)) (l : list ascii) : option (list ascii) :=
  match seqs with
  | [] => None
  | p :: seqs =>
      match stripPrefix p l with
      | Some rest => Some rest
      | None => stripOne seqs l
      end
  end.

Fixpoint stripAll (fuel : nat) (seqs : list (list ascii)) (l : list ascii) : list ascii :=
  match fuel with
  | O => l
  | S fuel =>
      match stripOne seqs l with
      | Some rest => stripAll fuel seqs rest
      | None => l
      end
  end.

Definition trimLeft (l : list ascii) : list ascii :=
  stripAll (length l) (map asciis spaceRunes) l.
Definition trimRight (l : list ascii) : list ascii :=
  rev (stripAll (length l) (map (fun s => rev (asciis s)) spaceRunes) (rev l)).

Definition TrimSpace (s : string) : string := of_chars (trimRight (trimLeft (chars s))).

Example TrimSpace_sample : TrimSpace (of_chars (asciis [32; 9; 65; 32; 66; 0xc2; 0xa0])) = "A B".
Proof. reflexivity. Qed.

(** ** UTF-8 *)

Definition between (lo hi z : Z) : bool := (lo <=? z) && (z <=? hi).
Definition cont (z : Z) : bool := between 0x80 0xbf z.

(** [utf8.DecodeRune]: the rune and its width; [RuneError] with width 1 for
    bytes that start no valid encoding. *)
Definition RuneError : Z := 0xfffd.

Definition decodeRune (l : list Z) : Z * nat :=
  match l with
  | [] => (RuneError, 0%nat)
  | b0 :: rest =>
      if b0 <? 0x80 then (b0, 1%nat)
      else
        match rest with
        | b1 :: rest =>
            if between 0xc2 0xdf b0 && cont b1 then
              ((b0 - 0xc0) * 64 + (b1 - 0x80), 2%nat)
            else
              match rest with
              | b2 :: rest =>
                  if between 0xe0 0xef b0 && cont b1 && cont b2 &&
                     (if b0 =? 0xe0 then 0xa0 <=? b1 else true) &&
                     (if b0 =? 0xed then b1 <=? 0x9f else true) then
                    ((b0 - 0xe0) * 4096 + (b1 - 0x80) * 64 + (b2 - 0x80), 3%nat)
                  else
                    match rest with
                    | b3 :: _ =>
                        if between 0xf0 0xf4 b0 && cont b1 && cont b2 && cont b3 &&
                           (if b0 =? 0xf0 then 0x90 <=? b1 else true) &&
                           (if b0 =? 0xf4 then b1 <=? 0x8f else true) then
                          ((b0 - 0xf0) * 262144 + (b1 - 0x80) * 4096 + (b2 - 0x80) * 64 + (b3 - 0x80),
                           4%nat)
                        else (RuneError, 1%nat)
                    | [] => (RuneError, 1%nat)
                    end
              | [] => (RuneError, 1%nat)
              end
        | [] => (RuneError, 1%nat)
        end
  end.

(** The runes of [range s]. *)
Fixpoint runesFrom (fuel : nat) (l : list Z) : list (Z * nat) :=
  match fuel, l with
  | S fuel, _ :: _ => let r := decodeRune l in r :: runesFrom fuel (drop (snd r) l)
  | _, _ => []
  end.

Definition byteValues (s : string) : list Z := map code (chars s).
Definition runes (s : string) : list Z := map fst (runesFrom (String.length s) (byteValues s)).

(** [utf8.ValidString]: no rune is the width-1 error. *)
Definition ValidString (s : string) : bool :=
  forallb (fun r => negb ((fst r =? RuneError) && (snd r =? 1)%nat))
    (runesFrom (String.length s) (byteValues s)).

Example ValidString_sample :
  ValidString (of_chars (asciis [0xe2; 0x82; 0xac])) = true /\
  ValidString (of_chars (asciis [0xed; 0xa0; 0x80])) = false.
Proof. split; reflexivity. Qed.

(** ** Numbers: [strconv] *)

(** The value of a string of decimal digits, as [ParseUint] accumulates it. *)
Fixpoint decimal (acc : Z) (l : list ascii) : option Z :=
  match l with
  | [] => Some acc
  | c :: rest => if isDigit c then decimal (acc * 10 + (code c - code "0")) rest else None
  end.

(** [strconv.ParseInt(s, 10, bits)]: an optional sign, at least one digit, and a
    value that fits. *)
Definition ParseInt (bits : Z) (s : string) : option Z :=
  let digits neg l :=
    match l with
    | [] => None
    | _ =>
        v ← decimal 0 l;
        let z := if neg : bool then - v else v in
        if (- 2 ^ (bits - 1) <=? z) && (z <? 2 ^ (bits - 1)) then Some z else None
    end in
  match chars s with
  | c :: rest =>
      if c == "-"%char then digits true rest
      else if c == "+"%char then digits false rest
      else digits false (chars s)
  | [] => None
  end.

(** [strconv.Atoi] where [int] has 64 bits. *)
Definition Atoi (s : string) : option Z := ParseInt 64 s.

Definition ParseBool (s : string) : option bool :=
  if bool_decide (s ∈ ["1"; "t"; "T"; "true"; "TRUE"; "True"]) then Some true
  else if bool_decide (s ∈ ["0"; "f"; "F"; "false"; "FALSE"; "False"]) then Some false
  else None.

Example ParseInt_sample :
  ParseInt 32 "-2147483648" = Some (- 2 ^ 31) /\ ParseInt 32 "2147483648" = None /\
  ParseInt 32 "+7" = Some 7 /\ ParseInt 32 "-" = None /\ ParseInt 32 "1_0" = None.
Proof. repeat split. Qed.

Lemma ParseInt_range bits s z : ParseInt bits s = Some z -> - 2 ^ (bits - 1) <= z < 2 ^ (bits - 1).
Proof.
  unfold ParseInt. intros HP. destruct (chars s) as [|c rest]; [done|].
  repeat case_match; simplify_eq; try done;
    (apply bind_Some in HP as (v & _ & HP); case_match; [|done]; simplify_eq; lia).
Qed.

(** ** Case mapping and replacement *)

Definition isASCII (s : string) : bool := forallb (fun c => code c <? 0x80) (chars s).

(** [utf8.AppendRune]. *)
Definition encodeRune (r : Z) : list ascii :=
  let three := [0xe0 + r / 4096; 0x80 + r / 64 mod 64; 0x80 + r mod 64] in
  asciis
    (if (r <? 0) || (0x10ffff <? r) || between 0xd800 0xdfff r then [0xef; 0xbf; 0xbd]
     else if r <? 0x80 then [r]
     else if r <? 0x800 then [0xc0 + r / 64; 0x80 + r mod 64]
     else if r <? 0x10000 then three
     else [0xf0 + r / 262144; 0x80 + r / 4096 mod 64; 0x80 + r / 64 mod 64; 0x80 + r mod 64]).

(** The Unicode case tables outside ASCII. *)
Class UnicodeCase := { lowerRune : Z -> Z; upperRune : Z -> Z }.

(** [strings.ToLower] and [strings.ToUpper]: bytewise on ASCII, else rune by
    rune with invalid bytes replaced. *)
Definition mapRunes (ascii_ : ascii -> ascii) (rune : Z -> Z) (s : string) : string :=
  if isASCII s then of_chars (map ascii_ (chars s))
  else of_chars (flat_map (fun r =>
    encodeRune (if r <? 0x80 then code (ascii_ (ascii_of_N (Z.to_N r))) else rune r)) (runes s)).

Definition ToLower `{UnicodeCase} (s : string) : string := mapRunes lowerASCII lowerRune s.
Definition ToUpper `{UnicodeCase} (s : string) : string := mapRunes upperASCII upperRune s.

(** [strings.ReplaceAll(s, old, new)] for one-byte [old] and [new]. *)
Definition replaceChar (old new : ascii) (s : string) : string :=
  of_chars (map (fun c => if c == old then new else c) (chars s)).

Lemma chars_inj s t : chars s = chars t -> s = t.
Proof. intros H. by rewrite <- (of_chars_chars s), H, of_chars_chars. Qed.

Lemma chars_app s t : chars (s +:+ t) = chars s ++ chars t.
Proof. induction s; simpl; [done|]. unfold String.app in *. simpl. by f_equal. Qed.

Lemma stripPrefix_Some p l rest : stripPrefix p l = Some rest <-> l = p ++ rest.
Proof.
  revert l. induction p as [|a p IH]; intros l; simpl; [naive_solver|].
  destruct l as [|b l]; [naive_solver|]. case_match; split_guards; subst.
  - rewrite IH. naive_solver.
  - naive_solver.
Qed.

Lemma HasSuffix_true s p : HasSuffix s p = true <-> exists pre, chars s = pre ++ chars p.
Proof.
  unfold HasSuffix. rewrite bool_decide_eq_true. split.
  - intros [rest Hr%stripPrefix_Some]. exists (rev rest).
    by rewrite <- (rev_involutive (chars s)), Hr, rev_app_distr, rev_involutive.
  - intros [pre ->]. exists (rev pre). apply stripPrefix_Some. by rewrite rev_app_distr.
Qed.

(** ** Hexadecimal: [hex.EncodeToString] *)

Definition hexChar (i : Z) : ascii := nth (Z.to_nat i) (chars "0123456789abcdef") "0"%char.
Definition hexEncode (bs : list byte) : string :=
  of_chars (flat_map (fun b => [hexChar (bval b / 16); hexChar (bval b mod 16)]) bs).

Lemma hexChar_inj i j : 0 <= i < 16 -> 0 <= j < 16 -> hexChar i = hexChar j -> i = j.
Proof.
  intros Hi Hj He.
  assert (Hall : forallb (fun a => forallb (fun b => implb (hexChar (Z.of_nat a) == hexChar (Z.of_nat b))
    (a =? b)%nat) (seq 0 16)) (seq 0 16) = true) by (vm_compute; reflexivity).
  rewrite forallb_forall in Hall. specialize (Hall (Z.to_nat i) ltac:(apply in_seq; lia)).
  rewrite forallb_forall in Hall. specialize (Hall (Z.to_nat j) ltac:(apply in_seq; lia)).
  rewrite !Z2Nat.id, He, bool_decide_true in Hall by (done || lia). simpl in Hall. lia.
Qed.

Lemma hexEncode_inj bs cs : hexEncode bs = hexEncode cs -> bs = cs.
Proof.
  unfold hexEncode. intros He. apply (f_equal chars) in He. rewrite !chars_of_chars in He.
  revert cs He. induction bs as [|b bs IH]; intros [|c cs]; simpl; intros He; try done.
  injection He as H1 H2 H3. bounds.
  apply hexChar_inj in H1; [|lia|lia]. apply hexChar_inj in H2; [|lia|lia].
  f_equal; [apply bval_inj; lia|auto].
Qed.

(** ** ASCII strings have one rune per byte *)

Lemma runesFrom_ascii l : Forall (fun z => 0 <= z < 0x80) l -> forall fuel, (length l <= fuel)%nat ->
  map fst (runesFrom fuel l) = l.
Proof.
  induction 1 as [|z l Hz _ IH]; intros fuel Hf; [by destruct fuel|]. simpl in Hf.
  destruct fuel as [|fuel]; [lia|]. cbn [runesFrom]. unfold decodeRune.
  destruct (Z.ltb_spec z 0x80); [|lia]. cbn [snd map fst drop]. by rewrite IH by lia.
Qed.

Lemma runes_ascii s : isASCII s = true -> runes s = byteValues s.
Proof.
  intros Ha. unfold runes. apply runesFrom_ascii.
  - unfold byteValues, isASCII in *. rewrite forallb_forall in Ha. rewrite Forall_forall.
    intros z (c & <- & Hc)%list_elem_of_In%in_map_iff. apply Ha in Hc. pose proof (code_range c). lia.
  - unfold byteValues. rewrite length_map. apply Nat.eq_le_incl. clear. induction s; simpl; congruence.
Qed.

(** ** Trimming keeps every byte that no white-space rune contains *)

Lemma stripAll_keeps c seqs : Forall (fun p => c ∉ p) seqs -> forall fuel l, c ∈ l -> c ∈ stripAll fuel seqs l.
Proof.
  intros Hs. assert (Hone : forall l rest, stripOne seqs l = Some rest -> c ∈ l -> c ∈ rest).
  { induction Hs as [|p seqs Hp Hs IH]; intros l rest; cbn [stripOne]; [done|].
    destruct (stripPrefix p l) as [r|] eqn:E; [|by apply IH]. intros [= <-]. apply stripPrefix_Some in E as ->.
    rewrite elem_of_app. by intros [?|?]. }
  induction fuel as [|fuel IH]; intros l Hl; cbn [stripAll]; [done|].
  destruct (stripOne seqs l) as [rest|] eqn:E; [|done]. apply IH. by eapply Hone.
Qed.

Lemma elem_of_rev {A} (x : A) l : x ∈ rev l <-> x ∈ l.
Proof. by rewrite !list_elem_of_In, <- in_rev. Qed.

Lemma TrimSpace_keeps c s : Forall (fun p => c ∉ asciis p) spaceRunes -> c ∈ chars s -> c ∈ chars (TrimSpace s).
Proof.
  intros Hc Hs. unfold TrimSpace, trimRight, trimLeft. rewrite chars_of_chars, elem_of_rev.
  apply stripAll_keeps; [|rewrite elem_of_rev; apply stripAll_keeps; [|done]]; rewrite Forall_map.
  - eapply Forall_impl; [exact Hc|]. intros p Hp. by rewrite elem_of_rev.
  - exact Hc.
Qed.

(** ** All bytes *)

(** A test on bytes holds everywhere when it holds on the 256 of them. *)
Lemma ascii_all (f : ascii -> bool) :
  forallb (fun k => f (ascii_of_N (N.of_nat k))) (seq 0 256) = true -> forall c, f c = true.
Proof.
  rewrite forallb_forall. intros Hall c.
  rewrite <- (ascii_N_embedding c), <- (N2Nat.id (N_of_ascii c)).
  apply Hall, in_seq. pose proof (N_ascii_bounded c). lia.
Qed.
