(* ===== verification/GoJson.v ===== *)
(** * JSON values and their text, as Go's [encoding/json] prints it

    Values are printed without white space, with HTML characters and the line
    separators U+2028 and U+2029 escaped and invalid UTF-8 replaced. *)

From S2P Require Import Prelude GoStrings.

#[local] Set Warnings "-register-all".

(** A JSON value; numbers keep their text, objects their members in order,
    repeated names included. *)
Inductive json :=
  | JNull
  | JBool (b : bool)
  | JNumber (text : string)
  | JString (s : string)
  | JArray (items : list json)
  | JObject (fields : list (string * json)).

(** Induction that reaches into arrays and objects. *)
Section json_induction.
Variable P : json -> Prop.
Hypothesis Hnull : P JNull.
Hypothesis Hbool : forall b, P (JBool b).
Hypothesis Hnumber : forall t, P (JNumber t).
Hypothesis Hstring : forall s, P (JString s).
Hypothesis Harray : forall items, Forall P items -> P (JArray items).
Hypothesis Hobject : forall fields, Forall (fun kv => P (snd kv)) fields -> P (JObject fields).

Fixpoint json_nested_ind (v : json) : P v :=
  match v with
  | JNull => Hnull
  | JBool b => Hbool b
  | JNumber t => Hnumber t
  | JString s => Hstring s
  | JArray items =>
      Harray items ((fix go items : Forall P items :=
        match items with [] => Forall_nil_2 P | v :: vs => Forall_cons_2 P v vs (json_nested_ind v) (go vs) end) items)
  | JObject fields =>
      Hobject fields ((fix go fields : Forall (fun kv => P (snd kv)) fields :=
        match fields with
        | [] => Forall_nil_2 _
        | kv :: kvs => Forall_cons_2 (fun kv => P (snd kv)) kv kvs (json_nested_ind (snd kv)) (go kvs)
        end) fields)
  end.
End json_induction.

Module Json.

Definition dquote : ascii := ascii_of_N 34.
Definition newline : ascii := ascii_of_N 10.

(** The escape of a byte below 0x80 that may not stand for itself. *)
Definition shortEscapes : list (Z * ascii) :=
  [(0x5c, "\"%char); (0x22, dquote); (0x08, "b"%char); (0x0c, "f"%char); (0x0a, "n"%char); (0x0d, "r"%char);
   (0x09, "t"%char)].

(** [htmlSafeSet]. *)
Definition htmlSafe (z : Z) : bool :=
  (0x20 <=? z) && negb (bool_decide (z ∈ [0x22; 0x26; 0x3c; 0x3e; 0x5c])).

Definition escapeByte (z : Z) : list ascii :=
  match find (fun p => fst p =? z) shortEscapes with
  | Some p => ["\"%char; snd p]
  | None => ["\"%char; "u"%char; "0"%char; "0"%char; hexChar (z / 16); hexChar (z mod 16)]
  end.

(** The characters of a string literal between its quotes; [fuel] bounds the
    number of runes. *)
Fixpoint escapeFrom (fuel : nat) (l : list Z) : list ascii :=
  match fuel, l with
  | S fuel, b :: rest =>
      if b <? 0x80 then
        (if htmlSafe b then asciis [b] else escapeByte b) ++ escapeFrom fuel rest
      else
        let '(r, w) := decodeRune l in
        (if (r =? RuneError) && (w =? 1)%nat then chars "\ufffd"
         else if r =? 0x2028 then chars "\u2028"
         else if r =? 0x2029 then chars "\u2029"
         else asciis (take w l)) ++ escapeFrom fuel (drop w l)
  | _, _ => []
  end.

Definition escape (s : string) : list ascii := escapeFrom (String.length s) (byteValues s).

Definition quoteString (s : string) : list ascii := dquote :: escape s ++ [dquote].

Definition join (sep : list ascii) (ls : list (list ascii)) : list ascii :=
  match ls with [] => [] | l :: ls => l ++ flat_map (fun x => sep ++ x) ls end.

(** One line of text without its end. *)
Fixpoint encode (v : json) : list ascii :=
  match v with
  | JNull => chars "null"
  | JBool b => chars (if b then "true" else "false")
  | JNumber text => chars text
  | JString s => quoteString s
  | JArray items => "["%char :: join [","%char] (map encode items) ++ ["]"%char]
  | JObject fields =>
      "{"%char :: join [","%char] (map (fun kv => quoteString (fst kv) ++ ":"%char :: encode (snd kv)) fields)
        ++ ["}"%char]
  end.

Definition sampleText : string := of_chars (asciis [60; 9; 0xc3; 0xa9; 0xff; 0xe2; 0x80; 0xa8]).
Example escape_sample : of_chars (escape sampleText) =
  "\u003c\t" +:+ of_chars (asciis [0xc3; 0xa9]) +:+ "\ufffd\u2028".
Proof. vm_compute. reflexivity. Qed.

End Json.

