(* ===== verification/GoJsonScan.v ===== *)
(** * Reading JSON text: the scanner of Go's [encoding/json]

    String and number literals are recognised by the state functions of the
    scanner, values by recursive descent, with the limit on nesting; an error
    tells whether the text ended too early or is malformed.  The reader accepts
    exactly an inductive grammar, and reads back what [Json.encode] writes. *)

From S2P Require Import Prelude GoStrings GoJson.

#[local] Set Warnings "-register-all".

(** [OutOfFuel] is never returned ([JsonScanCorrect.parse_never_stuck]). *)
Inductive scanError := Truncated | Malformed | OutOfFuel.

#[export] Instance scanError_eq_dec : EqDecision scanError.
Proof. solve_decision. Defined.

Module JsonScan.
Import Json.

(** [isSpace]. *)
Definition isSpace (c : ascii) : bool :=
  (c == " "%char) || (c == ascii_of_N 9) || (c == ascii_of_N 13) || (c == ascii_of_N 10).

Fixpoint skipSpace (l : list ascii) : list ascii :=
  match l with
  | c :: t => if isSpace c then skipSpace t else l
  | [] => []
  end.

(** *** String literals *)

Definition hexValue (c : ascii) : option Z :=
  if isDigit c then Some (code c - code "0")
  else if between (code "a") (code "f") (code c) then Some (code c - code "a" + 10)
  else if between (code "A") (code "F") (code c) then Some (code c - code "A" + 10)
  else None.

(** [stateInString], [stateInStringEsc] and [stateInStringEscU] to
    [stateInStringEscU123], with the number of digits still to come. *)
Inductive stringState := InString | InStringEsc | InStringEscU (n : nat).

(** The bytes an escape of one letter stands for. *)
Definition letterEscapes : list (ascii * Z) :=
  [("b"%char, 0x08); ("f"%char, 0x0c); ("n"%char, 0x0a); ("r"%char, 0x0d); ("t"%char, 0x09);
   ("\"%char, 0x5c); ("/"%char, 0x2f); (dquote, 0x22)].

Definition letterEscape (c : ascii) : option Z := snd <$> List.find (fun p => fst p == c) letterEscapes.

Definition stringStep (st : stringState) (c : ascii) : option stringState :=
  match st with
  | InString => if c == "\"%char then Some InStringEsc else if code c <? 0x20 then None else Some InString
  | InStringEsc =>
      match letterEscape c with
      | Some _ => Some InString
      | None => if c == "u"%char then Some (InStringEscU 3) else None
      end
  | InStringEscU n =>
      match hexValue c with
      | Some _ => Some (match n with O => InString | S n => InStringEscU n end)
      | None => None
      end
  end.

(** From behind the opening quote: the text up to the closing one, and the rest. *)
Fixpoint scanString (st : stringState) (l : list ascii) : result scanError (list ascii * list ascii) :=
  match l with
  | [] => Err Truncated
  | c :: t =>
      match st with
      | InString => if c == dquote then Ok ([], t) else
          match stringStep st c with
          | Some st => r ← scanString st t; Ok (c :: fst r, snd r)
          | None => Err Malformed
          end
      | _ =>
          match stringStep st c with
          | Some st => r ← scanString st t; Ok (c :: fst r, snd r)
          | None => Err Malformed
          end
      end
  end.

(** [getu4] behind the letter u. *)
Definition getu4 (l : list ascii) : option (Z * list ascii) :=
  match l with
  | c1 :: c2 :: c3 :: c4 :: t =>
      h1 ← hexValue c1; h2 ← hexValue c2; h3 ← hexValue c3; h4 ← hexValue c4;
      Some (((h1 * 16 + h2) * 16 + h3) * 16 + h4, t)
  | _ => None
  end.

(** [utf16.DecodeRune] of a pair, if it is one. *)
Definition surrogatePair (r1 r2 : Z) : option Z :=
  if between 0xd800 0xdbff r1 && between 0xdc00 0xdfff r2 then
    Some ((r1 - 0xd800) * 1024 + (r2 - 0xdc00) + 0x10000)
  else None.

(** The second half of a pair, if the text goes on with one. *)
Definition secondHalf (r : Z) (l : list ascii) : option (Z * list ascii) :=
  match l with
  | a :: b :: t =>
      if (a == "\"%char) && (b == "u"%char) then
        r2t ← getu4 t; pair ← surrogatePair r (fst r2t); Some (pair, snd r2t)
      else None
  | _ => None
  end.

(** [unquoteBytes] of a scanned literal: escapes are resolved, a lone surrogate
    and every invalid byte become U+FFFD. *)
Fixpoint unquoteFrom (fuel : nat) (l : list ascii) : list ascii :=
  match fuel, l with
  | S fuel, c :: t =>
      if c == "\"%char then
        match t with
        | [] => []
        | d :: t =>
            match letterEscape d with
            | Some z => asciis [z] ++ unquoteFrom fuel t
            | None =>
                match getu4 t with
                | None => []
                | Some (r, t) =>
                    if between 0xd800 0xdfff r then
                      match secondHalf r t with
                      | Some (r, t) => encodeRune r ++ unquoteFrom fuel t
                      | None => encodeRune RuneError ++ unquoteFrom fuel t
                      end
                    else encodeRune r ++ unquoteFrom fuel t
                end
            end
        end
      else if code c <? 0x80 then c :: unquoteFrom fuel t
      else let '(r, w) := decodeRune (map code l) in encodeRune r ++ unquoteFrom fuel (drop w l)
  | _, _ => []
  end.

Definition unquote (l : list ascii) : string := of_chars (unquoteFrom (length l) l).

(** *** Number literals *)

(** [stateNeg], [state0], [state1], [stateDot], [stateDot0], [stateE],
    [stateESign] and [stateE0]; [NumStart] is before the first byte. *)
Inductive numberState := NumStart | Neg | Zero | Digits | Dot | Dot0 | E | ESign | E0.

Definition numberStep (st : numberState) (c : ascii) : option numberState :=
  let exponent := if (c == "e"%char) || (c == "E"%char) then Some E else None in
  let fraction := if c == "."%char then Some Dot else exponent in
  let first := if c == "0"%char then Some Zero else if isDigit c then Some Digits else None in
  match st with
  | NumStart => if c == "-"%char then Some Neg else first
  | Neg => first
  | Zero => fraction
  | Digits => if isDigit c then Some Digits else fraction
  | Dot => if isDigit c then Some Dot0 else None
  | Dot0 => if isDigit c then Some Dot0 else exponent
  | E => if (c == "+"%char) || (c == "-"%char) then Some ESign else if isDigit c then Some E0 else None
  | ESign | E0 => if isDigit c then Some E0 else None
  end.

(** The states in which a number may end. *)
Definition numberEnds (st : numberState) : bool :=
  match st with Zero | Digits | Dot0 | E0 => true | _ => false end.

(** The longest number literal and the rest. *)
Fixpoint scanNumber (st : numberState) (l : list ascii) : result scanError (list ascii * list ascii) :=
  match l with
  | [] => if numberEnds st then Ok ([], []) else Err Truncated
  | c :: t =>
      match numberStep st c with
      | Some st => r ← scanNumber st t; Ok (c :: fst r, snd r)
      | None => if numberEnds st then Ok ([], l) else Err Malformed
      end
  end.

(** The rest of a literal name. *)
Fixpoint scanWord (word l : list ascii) : result scanError (list ascii) :=
  match word, l with
  | [], l => Ok l
  | _ :: _, [] => Err Truncated
  | a :: word, c :: l => if a == c then scanWord word l else Err Malformed
  end.

(** *** Values *)

Definition maxNestingDepth : Z := 10000.

(** A value, the elements of an array from behind its bracket and the members of
    an object from behind its brace, with the rest of the text; [depth] is the
    number of arrays and objects that are open.  Two steps of [fuel] per byte are
    enough. *)
Fixpoint parseValue (fuel : nat) (depth : Z) (l : list ascii) {struct fuel} : result scanError (json * list ascii) :=
  match fuel with
  | O => Err OutOfFuel
  | S fuel =>
      match skipSpace l with
      | [] => Err Truncated
      | c :: t =>
          if c == "{"%char then
            if maxNestingDepth <=? depth then Err Malformed
            else
              match skipSpace t with
              | [] => Err Truncated
              | d :: t' =>
                  if d == "}"%char then Ok (JObject [], t')
                  else r ← parseMembers fuel (depth + 1) t; Ok (JObject (fst r), snd r)
              end
          else if c == "["%char then
            if maxNestingDepth <=? depth then Err Malformed
            else
              match skipSpace t with
              | [] => Err Truncated
              | d :: t' =>
                  if d == "]"%char then Ok (JArray [], t')
                  else r ← parseElements fuel (depth + 1) t; Ok (JArray (fst r), snd r)
              end
          else if c == dquote then r ← scanString InString t; Ok (JString (unquote (fst r)), snd r)
          else if c == "t"%char then r ← scanWord (chars "rue") t; Ok (JBool true, r)
          else if c == "f"%char then r ← scanWord (chars "alse") t; Ok (JBool false, r)
          else if c == "n"%char then r ← scanWord (chars "ull") t; Ok (JNull, r)
          else r ← scanNumber NumStart (c :: t); Ok (JNumber (of_chars (fst r)), snd r)
      end
  end
with parseElements (fuel : nat) (depth : Z) (l : list ascii) {struct fuel}
    : result scanError (list json * list ascii) :=
  match fuel with
  | O => Err OutOfFuel
  | S fuel =>
      r ← parseValue fuel depth l;
      match skipSpace (snd r) with
      | [] => Err Truncated
      | c :: t =>
          if c == ","%char then rs ← parseElements fuel depth t; Ok (fst r :: fst rs, snd rs)
          else if c == "]"%char then Ok ([fst r], t)
          else Err Malformed
      end
  end
with parseMembers (fuel : nat) (depth : Z) (l : list ascii) {struct fuel}
    : result scanError (list (string * json) * list ascii) :=
  match fuel with
  | O => Err OutOfFuel
  | S fuel =>
      match skipSpace l with
      | [] => Err Truncated
      | c :: t =>
          if c != dquote then Err Malformed
          else
            k ← scanString InString t;
            match skipSpace (snd k) with
            | [] => Err Truncated
            | c :: t =>
                if c != ":"%char then Err Malformed
                else
                  r ← parseValue fuel depth t;
                  let member := (unquote (fst k), fst r) in
                  match skipSpace (snd r) with
                  | [] => Err Truncated
                  | c :: t =>
                      if c == ","%char then rs ← parseMembers fuel depth t; Ok (member :: fst rs, snd rs)
                      else if c == "}"%char then Ok ([member], t)
                      else Err Malformed
                  end
            end
      end
  end.

(** The next value of a text, and what follows it. *)
Definition parse (l : list ascii) : result scanError (json * list ascii) := parseValue (2 * length l + 1) 0 l.

(** [checkValid] and the value: one value with nothing but white space around. *)
Definition parseAll (l : list ascii) : option json :=
  match parse l with
  | Ok (v, rest) => match skipSpace rest with [] => Some v | _ => None end
  | Err _ => None
  end.

Example parse_sample :
  parse (chars " [1.5e+3 , -0,true,{}, null ] x") =
  Ok (JArray [JNumber "1.5e+3"; JNumber "-0"; JBool true; JObject []; JNull], chars " x").
Proof. vm_compute. reflexivity. Qed.
Example parse_rejects : map parse [chars "[1,]"; chars "[01]"; chars "{a:1}"; chars "1."; chars "[1"] =
  [Err Malformed; Err Malformed; Err Malformed; Err Truncated; Err Truncated].
Proof. vm_compute. reflexivity. Qed.

(** A pair of surrogates, a lone one, and bytes that are no UTF-8. *)
Example unquote_sample :
  unquote (chars "\ud83d\ude00\ud83d\u0041" ++ asciis [0xff; 0xc3; 0xa9]) =
  of_chars (asciis [0xf0; 0x9f; 0x98; 0x80; 0xef; 0xbf; 0xbd; 65; 0xef; 0xbf; 0xbd; 0xc3; 0xa9]).
Proof. vm_compute. reflexivity. Qed.

End JsonScan.

(** ** The grammar *)

Module JsonGrammar.
Import Json JsonScan.

Definition spaces (l : list ascii) : Prop := Forall (fun c => isSpace c = true) l.

(** The text of a string between its quotes, and that of a number. *)
Definition stringText (raw : list ascii) : Prop := scanString InString (raw ++ [dquote]) = Ok (raw, []).
Definition numberText (text : list ascii) : Prop := scanNumber NumStart text = Ok (text, []).

Definition words : list (string * json) := [("true", JBool true); ("false", JBool false); ("null", JNull)].

(** [value d l v]: with [d] arrays and objects open, [l] is a text of [v], white
    space before it included.  [elements] and [members] are the texts between
    the brackets, white space around included. *)
Inductive value : Z -> list ascii -> json -> Prop :=
  | value_word d ws w v : spaces ws -> (w, v) ∈ words -> value d (ws ++ chars w) v
  | value_number d ws t : spaces ws -> numberText t -> value d (ws ++ t) (JNumber (of_chars t))
  | value_string d ws raw : spaces ws -> stringText raw ->
      value d (ws ++ dquote :: raw ++ [dquote]) (JString (unquote raw))
  | value_empty_array d ws ws' : spaces ws -> spaces ws' -> d < maxNestingDepth ->
      value d (ws ++ "["%char :: ws' ++ ["]"%char]) (JArray [])
  | value_array d ws l items : spaces ws -> d < maxNestingDepth -> elements (d + 1) l items ->
      value d (ws ++ "["%char :: l ++ ["]"%char]) (JArray items)
  | value_empty_object d ws ws' : spaces ws -> spaces ws' -> d < maxNestingDepth ->
      value d (ws ++ "{"%char :: ws' ++ ["}"%char]) (JObject [])
  | value_object d ws l fields : spaces ws -> d < maxNestingDepth -> members (d + 1) l fields ->
      value d (ws ++ "{"%char :: l ++ ["}"%char]) (JObject fields)
with elements : Z -> list ascii -> list json -> Prop :=
  | elements_one d l v ws : value d l v -> spaces ws -> elements d (l ++ ws) [v]
  | elements_more d l v ws l' vs : value d l v -> spaces ws -> elements d l' vs ->
      elements d (l ++ ws ++ ","%char :: l') (v :: vs)
with members : Z -> list ascii -> list (string * json) -> Prop :=
  | members_one d ws raw ws1 l v ws2 : spaces ws -> stringText raw -> spaces ws1 -> value d l v -> spaces ws2 ->
      members d (ws ++ dquote :: raw ++ dquote :: ws1 ++ ":"%char :: l ++ ws2) [(unquote raw, v)]
  | members_more d ws raw ws1 l v ws2 l' kvs : spaces ws -> stringText raw -> spaces ws1 -> value d l v ->
      spaces ws2 -> members d l' kvs ->
      members d (ws ++ dquote :: raw ++ dquote :: ws1 ++ ":"%char :: l ++ ws2 ++ ","%char :: l')
        ((unquote raw, v) :: kvs).

Scheme value_mut := Minimality for value Sort Prop
  with elements_mut := Minimality for elements Sort Prop
  with members_mut := Minimality for members Sort Prop.
Combined Scheme grammar_ind from value_mut, elements_mut, members_mut.

(** A text that may follow a value: the next byte does not continue a number. *)
Definition numberChar (c : ascii) : bool := isDigit c || bool_decide (c ∈ chars ".eE+-").
Definition follows (t : list ascii) : Prop := match t with c :: _ => numberChar c = false | [] => True end.
Definition mayFollow (v : json) (t : list ascii) : Prop := match v with JNumber _ => follows t | _ => True end.

End JsonGrammar.

(** ** The reader decides the grammar *)

Module JsonScanCorrect.
Import Json JsonScan JsonGrammar.

Lemma skipSpace_split l : exists ws, spaces ws /\ l = ws ++ skipSpace l.
Proof.
  induction l as [|c l (ws & Hws & Hl)]; simpl; [exists []; by split; [constructor|]|].
  destruct (isSpace c) eqn:Hc; [|exists []; by split; [constructor|]].
  exists (c :: ws). split; [by constructor|]. simpl. by f_equal.
Qed.

Lemma skipSpace_app ws l : spaces ws -> skipSpace (ws ++ l) = skipSpace l.
Proof. induction 1 as [|c ws Hc _ IH]; [done|]. simpl. by rewrite Hc. Qed.

Lemma skipSpace_stop ws c t : spaces ws -> isSpace c = false -> skipSpace (ws ++ c :: t) = c :: t.
Proof. intros Hws Hc. rewrite skipSpace_app by done. simpl. by rewrite Hc. Qed.

Lemma skipSpace_length l : (length (skipSpace l) <= length l)%nat.
Proof. induction l as [|c l IH]; simpl; [done|]. destruct (isSpace c); simpl; lia. Qed.

Lemma scanString_split st l raw rest : scanString st l = Ok (raw, rest) ->
  l = raw ++ dquote :: rest /\ forall t, scanString st (raw ++ dquote :: t) = Ok (raw, t).
Proof.
  revert st raw. induction l as [|c l IH]; intros st raw; [by destruct st|].
  assert (Hnext : match stringStep st c with
                  | Some st => r ← scanString st l; Ok (c :: fst r, snd r)
                  | None => Err Malformed
                  end = Ok (raw, rest) -> exists raw', raw = c :: raw' /\ l = raw' ++ dquote :: rest /\
            (forall t, match stringStep st c with
                  | Some st => r ← scanString st (raw' ++ dquote :: t); Ok (c :: fst r, snd r)
                  | None => Err Malformed
                  end = Ok (raw, t))).
  { destruct (stringStep st c) as [st'|]; [|done]. intros ([raw' rest'] & Hr & [= <- <-])%bind_Ok_inv.
    apply IH in Hr as [-> Ht]. exists raw'. split_and!; [done..|]. intros t. by rewrite Ht. }
  cbn [scanString]. destruct st.
  - destruct (decide (c = dquote)) as [->|Hc].
    { rewrite bool_decide_true by done. by intros [= <- <-]. }
    rewrite bool_decide_false by done. intros (raw' & -> & -> & Ht)%Hnext. split; [done|]. intros t. cbn [app scanString].
    rewrite bool_decide_false by done. apply Ht.
  - intros (raw' & -> & -> & Ht)%Hnext. split; [done|exact Ht].
  - intros (raw' & -> & -> & Ht)%Hnext. split; [done|exact Ht].
Qed.

Lemma stringText_scan raw t : stringText raw -> scanString InString (raw ++ dquote :: t) = Ok (raw, t).
Proof. by intros [_ Ht]%scanString_split. Qed.

Lemma numberStep_char st c st' : numberStep st c = Some st' -> numberChar c = true.
Proof.
  unfold numberStep, numberChar. intros Hs. destruct (isDigit c) eqn:Hd; [done|]. simpl.
  apply bool_decide_eq_true_2. repeat (case_match; try discriminate); split_guards; subst;
    repeat match goal with H : (_ || _) = true |- _ => apply orb_true_iff in H as [H|H]; split_guards; subst end;
    try (by apply (bool_decide_eq_true_1 _)); done.
Qed.

Lemma scanNumber_split st l text rest : scanNumber st l = Ok (text, rest) ->
  l = text ++ rest /\ scanNumber st text = Ok (text, []).
Proof.
  revert st text. induction l as [|c l IH]; intros st text; cbn [scanNumber].
  { case_match eqn:He; [|done]. intros [= <- <-]. simpl. by rewrite He. }
  destruct (numberStep st c) as [st'|] eqn:Hs.
  - intros ([text' rest'] & Hr & [= <- <-])%bind_Ok_inv. apply IH in Hr as [-> Ht]. split; [done|].
    cbn [scanNumber]. by rewrite Hs, Ht.
  - case_match eqn:He; [|done]. intros [= <- <-]. split; [done|]. simpl. by rewrite He.
Qed.

Lemma scanNumber_app text t : follows t -> forall st, scanNumber st text = Ok (text, []) ->
  scanNumber st (text ++ t) = Ok (text, t).
Proof.
  intros Hf. induction text as [|c text IH]; intros st; cbn [app scanNumber].
  - case_match eqn:He; [|done]. intros _. destruct t as [|c t]; simpl; [by rewrite He|].
    destruct (numberStep st c) as [st'|] eqn:Hs; [|by rewrite He].
    apply numberStep_char in Hs. simpl in Hf. congruence.
  - destruct (numberStep st c) as [st'|] eqn:Hs; [|by destruct (numberEnds st)].
    intros ([text' rest'] & Hr & [= -> ->])%bind_Ok_inv. by rewrite IH.
Qed.

Lemma scanWord_split word l rest : scanWord word l = Ok rest <-> l = word ++ rest.
Proof.
  revert l. induction word as [|a word IH]; intros l; simpl; [naive_solver|].
  destruct l as [|c l]; [naive_solver|]. case_match; split_guards; subst; [rewrite IH|]; naive_solver.
Qed.

(** What a number starts with. *)
Lemma numberStart c st : numberStep NumStart c = Some st ->
  isSpace c = false /\ c ∉ ["{"%char; "["%char; dquote; "t"%char; "f"%char; "n"%char; "]"%char; "}"%char].
Proof.
  intros Hs. assert (Hall : (if numberStep NumStart c then negb (isSpace c) &&
    negb (bool_decide (c ∈ ["{"%char; "["%char; dquote; "t"%char; "f"%char; "n"%char; "]"%char; "}"%char])) else true) = true).
  { clear. revert c. apply ascii_all. vm_compute. reflexivity. }
  rewrite Hs in Hall. by split_guards.
Qed.

Lemma numberText_cons text : numberText text -> exists c t st, text = c :: t /\ numberStep NumStart c = Some st.
Proof.
  unfold numberText. destruct text as [|c t]; [done|]. cbn [scanNumber].
  destruct (numberStep NumStart c) as [st|] eqn:Hs; [|done]. eauto.
Qed.

Lemma words_spec w v : (w, v) ∈ words -> exists c t, chars w = c :: t /\ isSpace c = false /\ c <> "]"%char.
Proof.
  unfold words. rewrite !elem_of_cons, elem_of_nil.
  intros [[= -> ->]|[[= -> ->]|[[= -> ->]|[]]]]; eexists _, _; by split_and!.
Qed.

(** Where a value begins. *)
Lemma value_start d l v : value d l v ->
  exists ws c t, l = ws ++ c :: t /\ spaces ws /\ isSpace c = false /\ c <> "]"%char.
Proof.
  destruct 1 as [d ws w v Hws Hw|d ws t Hws Hn| | | | |]; try (eexists _, _, _; by split_and!).
  - apply words_spec in Hw as (c & t & -> & Hc & Hb). by eexists _, _, _.
  - apply numberText_cons in Hn as (c & t' & st & -> & Hs). eexists ws, c, t'.
    apply numberStart in Hs as [Hsp Hc]. split_and!; try done. intros ->. apply Hc. by apply (bool_decide_eq_true_1 _).
Qed.

Lemma elements_start d l vs : elements d l vs ->
  exists ws c t, l = ws ++ c :: t /\ spaces ws /\ isSpace c = false /\ c <> "]"%char.
Proof.
  destruct 1 as [d l v ws Hv _|d l v ws l' vs Hv _ _]; apply value_start in Hv as (ws' & c & t & -> & Hws & Hc & Hb);
    rewrite <- app_assoc; cbn [app]; by eexists _, _, _.
Qed.

Lemma members_start d l kvs : members d l kvs -> exists ws t, l = ws ++ dquote :: t /\ spaces ws.
Proof. destruct 1; by eexists _, _. Qed.

Lemma value_length d l v : value d l v -> (0 < length l)%nat.
Proof. intros (ws & c & t & -> & _)%value_start. rewrite length_app. simpl. lia. Qed.

(** Decide the comparisons of bytes whose answer is known. *)
Ltac eval_tests :=
  repeat match goal with
  | |- context [bool_decide (?a = ?b)] =>
      first [rewrite (bool_decide_true (a = b)) by reflexivity | rewrite (bool_decide_false (a = b)) by (done || congruence)]
  end; cbn [negb].

(** The reader at the first byte of a value, an element or a member. *)
Ltac at_start H :=
  lazymatch goal with fuel : nat |- _ => destruct fuel as [|fuel]; [lia|] end;
  cbn [parseValue parseElements parseMembers]; cbn [String.list_ascii_of_string];
  repeat (rewrite <- app_assoc || cbn [app]);
  rewrite ?(skipSpace_stop _ _ _ H) by reflexivity; eval_tests.

Lemma parse_word d ws w v fuel t : spaces ws -> (w, v) ∈ words -> (0 < fuel)%nat ->
  parseValue fuel d ((ws ++ chars w) ++ t) = Ok (v, t).
Proof.
  intros Hws Hw Hf. unfold words in Hw. rewrite !elem_of_cons, elem_of_nil in Hw.
  destruct Hw as [[= -> ->]|[[= -> ->]|[[= -> ->]|[]]]]; at_start Hws;
    rewrite (proj2 (scanWord_split _ _ t)) by reflexivity; reflexivity.
Qed.

Lemma parse_number d ws text fuel t : spaces ws -> numberText text -> follows t -> (0 < fuel)%nat ->
  parseValue fuel d ((ws ++ text) ++ t) = Ok (JNumber (of_chars text), t).
Proof.
  intros Hws Hn Ht Hf. pose proof (scanNumber_app text t Ht NumStart Hn) as Hscan.
  apply numberText_cons in Hn as (c & text' & st & -> & Hs). apply numberStart in Hs as [Hc Hnot].
  destruct fuel as [|fuel]; [lia|]. cbn [parseValue]. rewrite <- app_assoc. cbn [app] in *.
  rewrite skipSpace_stop by done.
  rewrite !not_elem_of_cons in Hnot. destruct Hnot as (H1 & H2 & H3 & H4 & H5 & H6 & _).
  rewrite !bool_decide_false by done. by rewrite Hscan.
Qed.

Lemma space_not_number c : isSpace c = true -> numberChar c = false.
Proof.
  intros Hc. assert (Hall : implb (isSpace c) (negb (numberChar c)) = true) by (clear; revert c; apply ascii_all; by vm_compute).
  rewrite Hc in Hall. simpl in Hall. by split_guards.
Qed.

Lemma mayFollow_separator v ws c t : spaces ws -> numberChar c = false -> mayFollow v (ws ++ c :: t).
Proof.
  intros Hws Hc. destruct v; try exact I. simpl. destruct Hws as [|d ws Hd _]; [done|]. by apply space_not_number.
Qed.

(** Every text of the grammar is read, up to its end. *)
Lemma grammar_complete :
  (forall d l v, value d l v -> forall fuel t, mayFollow v t -> (2 * length l < fuel)%nat ->
     parseValue fuel d (l ++ t) = Ok (v, t)) /\
  (forall d l vs, elements d l vs -> forall fuel t, (2 * length l + 1 < fuel)%nat ->
     parseElements fuel d (l ++ "]"%char :: t) = Ok (vs, t)) /\
  (forall d l kvs, members d l kvs -> forall fuel t, (2 * length l + 1 < fuel)%nat ->
     parseMembers fuel d (l ++ "}"%char :: t) = Ok (kvs, t)).
Proof.
  apply grammar_ind.
  - intros d ws w v Hws Hw fuel t _ Hf. apply parse_word; try done. lia.
  - intros d ws text Hws Hn fuel t Ht Hf. apply parse_number; try done. lia.
  - intros d ws raw Hws Hr fuel t _ Hf. at_start Hws. by rewrite stringText_scan.
  - intros d ws ws' Hws Hws' Hd fuel t _ Hf. at_start Hws. rewrite (proj2 (Z.leb_gt _ _)) by lia.
    rewrite skipSpace_stop by done. by eval_tests.
  - intros d ws l items Hws Hd He IH fuel t _ Hf. rewrite length_app in Hf. simpl in Hf. rewrite length_app in Hf.
    at_start Hws. rewrite (proj2 (Z.leb_gt _ _)) by lia.
    rewrite IH by lia. apply elements_start in He as (ws' & c & t' & -> & Hws' & Hc & Hb).
    rewrite <- app_assoc. cbn [app]. rewrite skipSpace_stop by done. by rewrite bool_decide_false.
  - intros d ws ws' Hws Hws' Hd fuel t _ Hf. at_start Hws. rewrite (proj2 (Z.leb_gt _ _)) by lia.
    rewrite skipSpace_stop by done. by eval_tests.
  - intros d ws l kvs Hws Hd He IH fuel t _ Hf. rewrite length_app in Hf. simpl in Hf. rewrite length_app in Hf.
    at_start Hws. rewrite (proj2 (Z.leb_gt _ _)) by lia.
    rewrite IH by lia. apply members_start in He as (ws' & t' & -> & Hws').
    rewrite <- app_assoc. cbn [app]. rewrite skipSpace_stop by done. by eval_tests.
  - intros d l v ws Hv IH Hws fuel t Hf. rewrite length_app in Hf. at_start Hws.
    rewrite IH by (lia || by apply mayFollow_separator). cbn [mbind result_bind fst snd].
    rewrite skipSpace_stop by done. by eval_tests.
  - intros d l v ws l' vs Hv IHv Hws He IHe fuel t Hf. rewrite !length_app in Hf. simpl in Hf. at_start Hws.
    rewrite IHv by (lia || by apply mayFollow_separator). cbn [mbind result_bind fst snd].
    rewrite skipSpace_stop by done. eval_tests. by rewrite IHe by lia.
  - intros d ws raw ws1 l v ws2 Hws Hr Hws1 Hv IH Hws2 fuel t Hf. at_start Hws.
    rewrite stringText_scan by done. cbn [mbind result_bind fst snd].
    rewrite skipSpace_stop by done. eval_tests.
    repeat (rewrite length_app in Hf; simpl in Hf).
    rewrite IH by (lia || by apply mayFollow_separator). cbn [mbind result_bind fst snd].
    rewrite skipSpace_stop by done. by eval_tests.
  - intros d ws raw ws1 l v ws2 l' kvs Hws Hr Hws1 Hv IH Hws2 Hm IHm fuel t Hf. at_start Hws.
    rewrite stringText_scan by done. cbn [mbind result_bind fst snd].
    rewrite skipSpace_stop by done. eval_tests.
    repeat (rewrite length_app in Hf; simpl in Hf).
    rewrite IH by (lia || by apply mayFollow_separator). cbn [mbind result_bind fst snd].
    rewrite skipSpace_stop by done. eval_tests. by rewrite IHm by lia.
Qed.

(** What is read is a text of the grammar. *)
Definition soundAt (fuel : nat) : Prop :=
  (forall d l v t, parseValue fuel d l = Ok (v, t) -> exists l1, l = l1 ++ t /\ value d l1 v) /\
  (forall d l vs t, parseElements fuel d l = Ok (vs, t) -> exists l1, l = l1 ++ "]"%char :: t /\ elements d l1 vs) /\
  (forall d l kvs t, parseMembers fuel d l = Ok (kvs, t) -> exists l1, l = l1 ++ "}"%char :: t /\ members d l1 kvs).

(** The white space and the first byte that [skipSpace] finds in [l]. *)
Ltac skip_to l c t ws Hws Hl :=
  destruct (skipSpace_split l) as (ws & Hws & Hl); destruct (skipSpace l) as [|c t]; [done|].

(** Decide a comparison of bytes, with the byte replaced by what it equals. *)
Ltac test_byte c x H := destruct (decide (c = x)) as [->|H]; [eval_tests|rewrite (bool_decide_false (c = x)) by done].

Lemma sound_value fuel d l v t : soundAt fuel -> parseValue (S fuel) d l = Ok (v, t) ->
  exists l1, l = l1 ++ t /\ value d l1 v.
Proof.
  intros (_ & IHe & IHm). cbn [parseValue]. skip_to l c r ws Hws Hl. subst l.
  test_byte c "{"%char H1.
  { case_match eqn:Hd; [done|]. skip_to r c r' ws' Hws' Hr. test_byte c "}"%char H2.
    - intros [= <- <-]. subst r. exists (ws ++ "{"%char :: ws' ++ ["}"%char]).
      split; [by repeat (rewrite <- app_assoc || cbn [app])|]. constructor; try done. lia.
    - intros ([kvs t'] & (l1 & -> & Hm)%IHm & [= <- <-])%bind_Ok_inv. exists (ws ++ "{"%char :: l1 ++ ["}"%char]).
      split; [by repeat (rewrite <- app_assoc || cbn [app])|]. constructor; try done. lia. }
  test_byte c "["%char H2.
  { case_match eqn:Hd; [done|]. skip_to r c r' ws' Hws' Hr. test_byte c "]"%char H3.
    - intros [= <- <-]. subst r. exists (ws ++ "["%char :: ws' ++ ["]"%char]).
      split; [by repeat (rewrite <- app_assoc || cbn [app])|]. constructor; try done. lia.
    - intros ([vs t'] & (l1 & -> & He)%IHe & [= <- <-])%bind_Ok_inv. exists (ws ++ "["%char :: l1 ++ ["]"%char]).
      split; [by repeat (rewrite <- app_assoc || cbn [app])|]. constructor; try done. lia. }
  test_byte c dquote H3.
  { intros ([raw t'] & Hs & [= <- <-])%bind_Ok_inv. apply scanString_split in Hs as [-> Hs].
    exists (ws ++ dquote :: raw ++ [dquote]). split; [by repeat (rewrite <- app_assoc || cbn [app])|].
    apply value_string; [done|apply Hs]. }
  assert (Hword : forall w b rest, w = String.String b rest -> (w, v) ∈ words ->
    (r ← scanWord (chars rest) r; Ok (v, r)) = Ok (v, t) -> exists l1, ws ++ b :: r = l1 ++ t /\ value d l1 v).
  { intros w b rest -> Hw (t' & ->%scanWord_split & [= ->])%bind_Ok_inv. eexists. split; [|by apply (value_word d ws _ v Hws Hw)].
    by rewrite <- app_assoc. }
  test_byte c "t"%char H4.
  { intros Hr. pose proof Hr as (? & _ & [= <- _])%bind_Ok_inv. by apply (Hword "true" _ "rue" eq_refl); [left|]. }
  test_byte c "f"%char H5.
  { intros Hr. pose proof Hr as (? & _ & [= <- _])%bind_Ok_inv. by apply (Hword "false" _ "alse" eq_refl); [right; left|]. }
  test_byte c "n"%char H6.
  { intros Hr. pose proof Hr as (? & _ & [= <- _])%bind_Ok_inv. by apply (Hword "null" _ "ull" eq_refl); [do 2 right; left|]. }
  intros ([text t'] & Hs & [= <- <-])%bind_Ok_inv. apply scanNumber_split in Hs as [-> Hs].
  exists (ws ++ text). split; [by rewrite <- app_assoc|]. by apply value_number.
Qed.

Lemma sound_elements fuel d l vs t : soundAt fuel -> parseElements (S fuel) d l = Ok (vs, t) ->
  exists l1, l = l1 ++ "]"%char :: t /\ elements d l1 vs.
Proof.
  intros (IHv & IHe & _). cbn [parseElements]. intros ([v r] & (l1 & -> & Hv)%IHv & HE)%bind_Ok_inv. revert HE. cbn [fst snd].
  skip_to r c r' ws Hws Hr. subst r. test_byte c ","%char H1.
  - intros ([vs' t'] & (l2 & -> & He)%IHe & [= <- <-])%bind_Ok_inv. exists (l1 ++ ws ++ ","%char :: l2).
    split; [by repeat (rewrite <- app_assoc || cbn [app])|]. by constructor.
  - test_byte c "]"%char H2; [|done]. intros [= <- <-]. exists (l1 ++ ws).
    split; [by rewrite <- app_assoc|]. by constructor.
Qed.

Lemma sound_members fuel d l kvs t : soundAt fuel -> parseMembers (S fuel) d l = Ok (kvs, t) ->
  exists l1, l = l1 ++ "}"%char :: t /\ members d l1 kvs.
Proof.
  intros (IHv & _ & IHm). cbn [parseMembers]. skip_to l c r ws Hws Hl. subst l. test_byte c dquote H0; [|done].
  intros ([raw r1] & Hs & HM)%bind_Ok_inv. apply scanString_split in Hs as [-> Hs]. revert HM. cbn [fst snd].
  skip_to r1 c r2 ws1 Hws1 Hr1. subst r1. test_byte c ":"%char H1; [|done].
  intros ([v r3] & (l1 & -> & Hv)%IHv & HM)%bind_Ok_inv. revert HM. cbn [fst snd]. cbv zeta.
  skip_to r3 c r4 ws2 Hws2 Hr3. subst r3. test_byte c ","%char H2.
  - intros ([kvs' t'] & (l2 & -> & Hm)%IHm & [= <- <-])%bind_Ok_inv.
    exists (ws ++ dquote :: raw ++ dquote :: ws1 ++ ":"%char :: l1 ++ ws2 ++ ","%char :: l2).
    split; [by repeat (rewrite <- app_assoc || cbn [app])|]. constructor; try done. apply Hs.
  - test_byte c "}"%char H3; [|done]. intros [= <- <-].
    exists (ws ++ dquote :: raw ++ dquote :: ws1 ++ ":"%char :: l1 ++ ws2).
    split; [by repeat (rewrite <- app_assoc || cbn [app])|]. constructor; try done. apply Hs.
Qed.

Lemma grammar_sound fuel : soundAt fuel.
Proof.
  induction fuel as [|fuel IH]; [by split_and!|].
  split_and!; intros; [by eapply sound_value|by eapply sound_elements|by eapply sound_members].
Qed.

(** *** The fuel is enough *)

Lemma scanString_fuel st l : scanString st l <> Err OutOfFuel.
Proof.
  revert st. induction l as [|c l IH]; intros st; [by destruct st|].
  assert (Hnext : match stringStep st c with
                  | Some st => r ← scanString st l; Ok (c :: fst r, snd r)
                  | None => Err Malformed
                  end <> Err OutOfFuel).
  { destruct (stringStep st c) as [st'|]; [|done]. intros [Hr|(a & _ & Ha)]%bind_Err_inv; [by apply IH in Hr|done]. }
  cbn [scanString]. destruct st; [|exact Hnext..]. destruct (bool_decide (c = dquote)); [done|exact Hnext].
Qed.

Lemma scanNumber_fuel st l : scanNumber st l <> Err OutOfFuel.
Proof.
  revert st. induction l as [|c l IH]; intros st; cbn [scanNumber]; [by destruct (numberEnds st)|].
  destruct (numberStep st c) as [st'|]; [|by destruct (numberEnds st)].
  intros [Hr|(a & _ & Ha)]%bind_Err_inv; [by apply IH in Hr|done].
Qed.

Lemma scanWord_fuel word l : scanWord word l <> Err OutOfFuel.
Proof. revert l. induction word as [|a word IH]; intros [|c l]; simpl; try done. case_match; [apply IH|done]. Qed.

Lemma elements_length d l vs : elements d l vs -> (0 < length l)%nat.
Proof. destruct 1 as [d l v ws Hv _|d l v ws l' vs Hv _ _]; apply value_length in Hv; rewrite length_app; lia. Qed.

Lemma parse_not_stuck fuel :
  (forall d l, (2 * length l < fuel)%nat -> parseValue fuel d l <> Err OutOfFuel) /\
  (forall d l, (2 * length l + 1 < fuel)%nat -> parseElements fuel d l <> Err OutOfFuel) /\
  (forall d l, (2 * length l + 1 < fuel)%nat -> parseMembers fuel d l <> Err OutOfFuel).
Proof.
  induction fuel as [|fuel (IHv & IHe & IHm)]; [split_and!; lia|].
  destruct (grammar_sound fuel) as (Sv & _ & _). split_and!; intros d l Hf.
  - cbn [parseValue]. pose proof (skipSpace_length l) as Hs. destruct (skipSpace l) as [|c t]; [done|].
    simpl in Hs. repeat (case_match; try done); intros [Hr|(? & ? & Hr)]%bind_Err_inv; try done; revert Hr;
      first [apply IHe; lia|apply IHm; lia|apply scanString_fuel|apply scanNumber_fuel|apply scanWord_fuel].
  - cbn [parseElements]. intros [Hr|([v r] & (l1 & -> & Hv)%Sv & Hr)]%bind_Err_inv; [revert Hr; apply IHv; lia|].
    apply value_length in Hv. rewrite length_app in Hf. cbn [fst snd] in Hr.
    pose proof (skipSpace_length r). destruct (skipSpace r) as [|c t]; [done|]. simpl in *.
    repeat (case_match; try done). apply bind_Err_inv in Hr as [Hr|(? & ? & Hr)]; [|done]. revert Hr. apply IHe. lia.
  - cbn [parseMembers]. pose proof (skipSpace_length l). destruct (skipSpace l) as [|c t]; [done|].
    case_match; [done|]. intros [Hr|([raw r] & [-> _]%scanString_split & Hr)]%bind_Err_inv; [by apply scanString_fuel in Hr|].
    cbn [fst snd length] in *. rewrite length_app in *. simpl in *.
    pose proof (skipSpace_length r). destruct (skipSpace r) as [|c' t']; [done|]. case_match; [done|]. simpl in *.
    apply bind_Err_inv in Hr as [Hr|([v r'] & (l1 & -> & Hv)%Sv & Hr)]; [revert Hr; apply IHv; lia|].
    apply value_length in Hv. rewrite length_app in *. cbn [fst snd] in Hr.
    pose proof (skipSpace_length r'). destruct (skipSpace r') as [|c'' t'']; [done|]. simpl in *.
    repeat (case_match; try done). apply bind_Err_inv in Hr as [Hr|(? & ? & Hr)]; [|done]. revert Hr. apply IHm. lia.
Qed.

Lemma parse_never_stuck l : parse l <> Err OutOfFuel.
Proof. apply parse_not_stuck. lia. Qed.

(** *** The next value of a text *)

Lemma parse_sound l v t : parse l = Ok (v, t) -> exists l1, l = l1 ++ t /\ value 0 l1 v.
Proof. apply grammar_sound. Qed.

Lemma parse_complete l v t : value 0 l v -> mayFollow v t -> parse (l ++ t) = Ok (v, t).
Proof.
  intros Hv Ht. destruct grammar_complete as (Hc & _). apply (Hc 0 l v Hv); [done|]. rewrite length_app. lia.
Qed.

Lemma parseAll_iff l v : parseAll l = Some v <-> exists l1 ws, l = l1 ++ ws /\ value 0 l1 v /\ spaces ws.
Proof.
  unfold parseAll. split.
  - destruct (parse l) as [[v' t]|] eqn:Hp; [|done]. apply parse_sound in Hp as (l1 & -> & Hv).
    destruct (skipSpace_split t) as (ws & Hws & Ht). destruct (skipSpace t); [|done]. intros [= ->].
    rewrite app_nil_r in Ht. subst t. eauto.
  - intros (l1 & ws & -> & Hv & Hws). rewrite (parse_complete l1 v ws); [|done|].
    + by rewrite <- (app_nil_r ws), skipSpace_app.
    + destruct v; try exact I. destruct Hws as [|c ws Hc Hws]; [exact I|]. by apply (mayFollow_separator (JNumber text) []);
        [constructor|apply space_not_number].
Qed.

End JsonScanCorrect.

(** ** Reading what was written *)

Module JsonRoundTrip.
Import Json JsonScan JsonGrammar JsonScanCorrect.

(** The values whose text denotes them: strings are UTF-8, numbers are number
    literals, and the nesting is within the limit. *)
Inductive printable : Z -> json -> Prop :=
  | printable_null d : printable d JNull
  | printable_bool d b : printable d (JBool b)
  | printable_number d t : numberText (chars t) -> printable d (JNumber t)
  | printable_string d s : ValidString s = true -> printable d (JString s)
  | printable_array d items : d < maxNestingDepth -> Forall (printable (d + 1)) items -> printable d (JArray items)
  | printable_object d fields : d < maxNestingDepth ->
      Forall (fun kv => ValidString (fst kv) = true /\ printable (d + 1) (snd kv)) fields -> printable d (JObject fields).

(** A piece of a string's text that leaves the scanner inside the string. *)
Definition passes (x : list ascii) : Prop :=
  forall t, scanString InString (x ++ t) = (r ← scanString InString t; Ok (x ++ fst r, snd r)).

Lemma passes_nil : passes [].
Proof. intros t. simpl. by destruct (scanString InString t) as [[]|]. Qed.

Lemma passes_app x y : passes x -> passes y -> passes (x ++ y).
Proof.
  intros Hx Hy t. rewrite <- app_assoc, Hx, Hy. destruct (scanString InString t) as [[]|]; [|done].
  cbn. by rewrite app_assoc.
Qed.

Lemma passes_text x : passes x -> stringText x.
Proof.
  intros Hx. unfold stringText. rewrite Hx.
  change (scanString InString [dquote]) with (Ok (E := scanError) ([] : list ascii, [] : list ascii)).
  cbn. by rewrite app_nil_r.
Qed.

Lemma passes_plain c : c <> dquote -> c <> "\"%char -> 0x20 <= code c -> passes [c].
Proof.
  intros H1 H2 H3 t. cbn [app scanString stringStep]. rewrite !bool_decide_false by done.
  by rewrite (proj2 (Z.ltb_ge _ _)).
Qed.

Lemma ascii_code z : 0 <= z < 256 -> code (ascii_of_N (Z.to_N z)) = z.
Proof. intros Hz. unfold code. rewrite N_ascii_embedding by lia. lia. Qed.

Lemma passes_wide zs : Forall (fun z => 0x80 <= z < 256) zs -> passes (asciis zs).
Proof.
  induction 1 as [|z zs Hz _ IH]; [apply passes_nil|]. change (asciis (z :: zs)) with (asciis [z] ++ asciis zs).
  apply passes_app; [|done]. apply passes_plain; try (intros He%(f_equal code)); rewrite ascii_code in * by lia; [| |lia];
    vm_compute in He; lia.
Qed.

(** The state the scanner is in behind a text without a closing quote. *)
Fixpoint stateAfter (st : stringState) (l : list ascii) : option stringState :=
  match l with
  | [] => Some st
  | c :: l =>
      match st with
      | InString => if c == dquote then None else stringStep st c ≫= fun st => stateAfter st l
      | _ => stringStep st c ≫= fun st => stateAfter st l
      end
  end.

Lemma scanString_after st x st' t : stateAfter st x = Some st' ->
  scanString st (x ++ t) = (r ← scanString st' t; Ok (x ++ fst r, snd r)).
Proof.
  revert st. induction x as [|c x IH]; intros st; cbn [app stateAfter].
  - intros [= ->]. by destruct (scanString st' t) as [[]|].
  - assert (Hnext : (stringStep st c ≫= fun st => stateAfter st x) = Some st' ->
      match stringStep st c with
      | Some st => r ← scanString st (x ++ t); Ok (c :: fst r, snd r)
      | None => Err Malformed
      end = (r ← scanString st' t; Ok (c :: x ++ fst r, snd r))).
    { destruct (stringStep st c) as [st1|]; [|done]. intros ->%IH. by destruct (scanString st' t) as [[]|]. }
    cbn [scanString]. destruct st; [|exact Hnext..]. destruct (bool_decide (c = dquote)); [done|exact Hnext].
Qed.

Lemma passes_after x : stateAfter InString x = Some InString -> passes x.
Proof. intros Hx t. by apply scanString_after. Qed.

(** A byte below 0x80 as the encoder writes it: the scanner passes it and the
    reader takes it back. *)
Definition written (b : Z) : list ascii := if htmlSafe b then asciis [b] else escapeByte b.

Lemma written_byte b : 0 <= b < 0x80 ->
  passes (written b) /\ (1 <= length (written b))%nat /\
  forall fuel t, unquoteFrom (S fuel) (written b ++ t) = asciis [b] ++ unquoteFrom fuel t.
Proof.
  intros Hb. assert (Hin : b ∈ seqZ 0 128) by (apply elem_of_seqZ; lia). revert Hin. clear Hb.
  assert (Hall : Forall (fun b => passes (written b) /\ (1 <= length (written b))%nat /\
    forall fuel t, unquoteFrom (S fuel) (written b ++ t) = asciis [b] ++ unquoteFrom fuel t) (seqZ 0 128)).
  { let l := eval vm_compute in (seqZ 0 128) in change (seqZ 0 128) with l.
    repeat (apply Forall_cons; split; [split_and!;
      [apply passes_after; vm_compute; reflexivity|vm_compute; lia|intros fuel t; reflexivity]|]).
    constructor. }
  rewrite Forall_forall in Hall. apply Hall.
Qed.

(** What a valid rune outside ASCII is made of, and that its bytes alone decide. *)
Lemma decodeRune_wide b rest r w : 0x80 <= b -> Forall (fun z => 0 <= z < 256) (b :: rest) ->
  decodeRune (b :: rest) = (r, w) -> (r =? RuneError) && (w =? 1)%nat = false ->
  Forall (fun z => 0x80 <= z < 256) (take w (b :: rest)) /\ (2 <= w <= length (b :: rest))%nat /\
  encodeRune r = asciis (take w (b :: rest)) /\ forall t, decodeRune (take w (b :: rest) ++ t) = (r, w).
Proof.
  intros Hb Hf. unfold decodeRune at 1, cont, between. rewrite (proj2 (Z.ltb_ge b 0x80)) by lia.
  apply Forall_cons in Hf as [Hb0 Hf].
  destruct rest as [|b1 rest]; [intros [= <- <-]; discriminate|]. apply Forall_cons in Hf as [Hb1 Hf].
  lazymatch goal with |- (if ?c then _ else _) = _ -> _ => destruct c eqn:E1 end.
  { intros [= <- <-] _. simpl take. rewrite ?take_0. split_and!; [repeat constructor; lia|simpl; lia|simpl; lia| |].
    - unfold encodeRune, between. repeat (case_match; try lia). do 2 f_equal; [lia|]. f_equal. lia.
    - intros t. cbn [app]. unfold decodeRune, cont, between. by rewrite (proj2 (Z.ltb_ge b 0x80)), E1 by lia. }
  destruct rest as [|b2 rest]; [intros [= <- <-]; discriminate|]. apply Forall_cons in Hf as [Hb2 Hf].
  lazymatch goal with |- (if ?c then _ else _) = _ -> _ => destruct c eqn:E2 end.
  { intros [= <- <-] _. simpl take. rewrite ?take_0. split_and!; [repeat constructor; lia|simpl; lia|simpl; lia| |].
    - unfold encodeRune, between. repeat (case_match; try lia); (do 2 f_equal; [lia|]; f_equal; [lia|]; f_equal; lia).
    - intros t. cbn [app]. unfold decodeRune, cont, between. by rewrite (proj2 (Z.ltb_ge b 0x80)), E1, E2 by lia. }
  destruct rest as [|b3 rest]; [intros [= <- <-]; discriminate|]. apply Forall_cons in Hf as [Hb3 Hf].
  lazymatch goal with |- (if ?c then _ else _) = _ -> _ => destruct c eqn:E3 end; [|intros [= <- <-]; discriminate].
  intros [= <- <-] _. simpl take. rewrite ?take_0. split_and!; [repeat (apply Forall_cons; split; [lia|]); constructor|simpl; lia|simpl; lia| |].
  - assert (0x10000 <= (b - 240) * 262144 + (b1 - 128) * 4096 + (b2 - 128) * 64 + (b3 - 128) <= 0x10ffff).
    { destruct (Z.eqb_spec b 240), (Z.eqb_spec b 244); lia. }
    unfold encodeRune, between. repeat (case_match; try lia);
      (do 2 f_equal; [lia|]; f_equal; [lia|]; f_equal; [lia|]; f_equal; lia).
  - intros t. cbn [app]. unfold decodeRune, cont, between. by rewrite (proj2 (Z.ltb_ge b 0x80)), E1, E2, E3 by lia.
Qed.

Lemma codes_asciis zs : Forall (fun z => 0 <= z < 256) zs -> map code (asciis zs) = zs.
Proof. induction 1 as [|z zs Hz _ IH]; [done|]. simpl. by rewrite ascii_code, IH. Qed.

Lemma unquoteFrom_wide fuel c t : c <> "\"%char -> 0x80 <= code c ->
  unquoteFrom (S fuel) (c :: t) =
  let '(r, w) := decodeRune (map code (c :: t)) in encodeRune r ++ unquoteFrom fuel (drop w (c :: t)).
Proof. intros H1 H2. cbn [unquoteFrom]. rewrite bool_decide_false by done. by rewrite (proj2 (Z.ltb_ge _ _)). Qed.

(** A rune outside ASCII as the encoder writes it. *)
Definition writtenRune (r : Z) (bytes : list Z) : list ascii :=
  if r =? 0x2028 then chars "\u2028" else if r =? 0x2029 then chars "\u2029" else asciis bytes.

Lemma written_rune b rest r w : 0x80 <= b -> Forall (fun z => 0 <= z < 256) (b :: rest) ->
  decodeRune (b :: rest) = (r, w) -> (r =? RuneError) && (w =? 1)%nat = false ->
  let x := writtenRune r (take w (b :: rest)) in
  passes x /\ (1 <= length x)%nat /\
  forall fuel t, unquoteFrom (S fuel) (x ++ t) = asciis (take w (b :: rest)) ++ unquoteFrom fuel t.
Proof.
  intros Hb Hf Hd Hr. destruct (decodeRune_wide b rest r w Hb Hf Hd Hr) as (Hw & [Hw2 Hwl] & Henc & Hpre).
  unfold writtenRune. cbv zeta. rewrite <- Henc.
  destruct (Z.eqb_spec r 0x2028) as [->|_]; [split_and!; [by apply passes_after; vm_compute|simpl; lia|reflexivity]|].
  destruct (Z.eqb_spec r 0x2029) as [->|_]; [split_and!; [by apply passes_after; vm_compute|simpl; lia|reflexivity]|].
  rewrite Henc. set (bytes := take w (b :: rest)) in *.
  assert (Hl : length (asciis bytes) = w) by (unfold asciis, bytes; rewrite length_map, length_take; lia).
  split_and!; [by apply passes_wide|lia|]. intros fuel t.
  assert (Hcodes : map code (asciis bytes ++ t) = bytes ++ map code t).
  { rewrite map_app, codes_asciis; [done|]. eapply Forall_impl; [exact Hw|]. simpl. lia. }
  replace (asciis bytes ++ t) with (ascii_of_N (Z.to_N b) :: asciis (tail bytes) ++ t) in *.
  2: { unfold bytes. destruct w; [lia|done]. }
  apply Forall_cons in Hf as [Hb' _].
  rewrite unquoteFrom_wide, Hcodes, Hpre; 
    [|intros He%(f_equal code); rewrite ascii_code in He by lia; vm_compute in He; lia|rewrite ascii_code; lia].
  rewrite Henc. f_equal. f_equal.
  change (ascii_of_N (Z.to_N b) :: asciis (tail bytes) ++ t) with (asciis (b :: tail bytes) ++ t).
  replace (b :: tail bytes) with bytes by (unfold bytes; destruct w; [lia|done]). rewrite <- Hl at 1. apply drop_app_length.
Qed.

Lemma escapeFrom_read : forall fuel l, Forall (fun z => 0 <= z < 256) l -> (length l <= fuel)%nat ->
  forallb (fun r => negb ((fst r =? RuneError) && (snd r =? 1)%nat)) (runesFrom fuel l) = true ->
  passes (escapeFrom fuel l) /\
  forall fuel', (length (escapeFrom fuel l) <= fuel')%nat -> unquoteFrom fuel' (escapeFrom fuel l) = asciis l.
Proof.
  assert (Hstep : forall x y z l, passes x /\ (1 <= length x)%nat /\
      (forall fuel t, unquoteFrom (S fuel) (x ++ t) = z ++ unquoteFrom fuel t) ->
    passes y /\ (forall fuel', (length y <= fuel')%nat -> unquoteFrom fuel' y = asciis l) ->
    passes (x ++ y) /\ forall fuel', (length (x ++ y) <= fuel')%nat -> unquoteFrom fuel' (x ++ y) = z ++ asciis l).
  { intros x y z l (Hp & Hl & Hx) [Hq Hy]. split; [by apply passes_app|]. intros fuel' Hf. rewrite length_app in Hf.
    destruct fuel' as [|fuel']; [lia|]. by rewrite Hx, Hy by lia. }
  induction fuel as [|fuel IH]; intros l Hl Hlen Hv.
  { destruct l; [|simpl in Hlen; lia]. split; [apply passes_nil|]. by intros []. }
  destruct l as [|b l]; [split; [apply passes_nil|by intros []]|]. cbn [escapeFrom runesFrom forallb] in *.
  apply andb_true_iff in Hv as [Hr Hv]. simpl in Hlen. apply Forall_cons in Hl as Hl'. destruct Hl' as [Hb Hl'].
  destruct (Z.ltb_spec b 0x80) as [Hlt|Hge].
  - unfold decodeRune in Hv. rewrite (proj2 (Z.ltb_lt b 0x80)) in Hv by lia. cbn [snd drop] in Hv.
    change (asciis (b :: l)) with (asciis [b] ++ asciis l). apply Hstep; [apply written_byte; lia|]. apply IH; [done|lia|done].
  - destruct (decodeRune (b :: l)) as [r w] eqn:Hd. cbn [fst snd] in *. apply negb_true_iff in Hr. rewrite Hr.
    destruct (decodeRune_wide b l r w Hge Hl Hd Hr) as (_ & [Hw2 Hwl] & _ & _).
    replace (asciis (b :: l)) with (asciis (take w (b :: l)) ++ asciis (drop w (b :: l)))
      by (unfold asciis; by rewrite <- map_app, take_drop).
    apply Hstep; [by apply written_rune|]. apply IH; [by apply Forall_drop|rewrite length_drop; simpl in *; lia|done].
Qed.

Lemma quoteString_read s : ValidString s = true -> stringText (escape s) /\ unquote (escape s) = s.
Proof.
  intros Hv. destruct (escapeFrom_read (String.length s) (byteValues s)) as [Hp Hu]; [..|exact Hv|].
  - apply Forall_forall. intros z (c & <- & _)%list_elem_of_In%in_map_iff. apply code_range.
  - unfold byteValues. rewrite length_map. apply Nat.eq_le_incl. clear. induction s; simpl; congruence.
  - split; [by apply passes_text|]. unfold unquote. rewrite Hu by done. apply chars_inj. rewrite chars_of_chars.
    unfold byteValues, asciis. rewrite map_map.
    rewrite <- (map_id (chars s)) at 2. apply map_ext. intros c. unfold code. by rewrite N2Z.id, ascii_N_embedding.
Qed.

(** *** Whole values *)

Lemma join_cons sep l l' ls : join sep (l :: l' :: ls) = l ++ sep ++ join sep (l' :: ls).
Proof. cbn [join flat_map]. by rewrite <- !app_assoc. Qed.

Lemma encode_elements d v vs : value d (encode v) v -> Forall (fun v => value d (encode v) v) vs ->
  elements d (join [","%char] (map encode (v :: vs))) (v :: vs).
Proof.
  intros Hv Hvs. revert v Hv. induction Hvs as [|v' vs Hv' _ IH]; intros v Hv; cbn [map].
  - apply (elements_one d (encode v) v []); [done|constructor].
  - rewrite join_cons. apply (elements_more d (encode v) v []); [done|constructor|]. by apply IH.
Qed.

Definition encodeMember (kv : string * json) : list ascii := quoteString (fst kv) ++ ":"%char :: encode (snd kv).

Lemma encodeMember_app kv t :
  encodeMember kv ++ t = dquote :: escape (fst kv) ++ dquote :: ":"%char :: encode (snd kv) ++ t.
Proof. unfold encodeMember, quoteString. by repeat (rewrite <- app_assoc || cbn [app]). Qed.

Lemma encode_members d kv kvs :
  Forall (fun kv => ValidString (fst kv) = true /\ value d (encode (snd kv)) (snd kv)) (kv :: kvs) ->
  members d (join [","%char] (map encodeMember (kv :: kvs))) (kv :: kvs).
Proof.
  assert (Hnil : spaces []) by constructor.
  revert kv. induction kvs as [|kv' kvs IH]; intros [k v] [[Hk Hv] Hkvs]%Forall_cons; cbn [fst snd] in *;
    destruct (quoteString_read k Hk) as [Ht Hu]; cbn [map].
  - cbn [join flat_map]. rewrite encodeMember_app. cbn [fst snd].
    pose proof (members_one d [] (escape k) [] (encode v) v [] Hnil Ht Hnil Hv Hnil) as Hm.
    by rewrite Hu in Hm.
  - rewrite join_cons, encodeMember_app. cbn [fst snd].
    pose proof (members_more d [] (escape k) [] (encode v) v [] _ _ Hnil Ht Hnil Hv Hnil (IH kv' Hkvs)) as Hm.
    by rewrite Hu in Hm.
Qed.

Lemma encode_value v : forall d, printable d v -> value d (encode v) v.
Proof.
  assert (Hnil : spaces []) by constructor.
  induction v as [|b|t|s|items IH|fields IH] using json_nested_ind; intros d Hp; inversion Hp; subst.
  - by apply (value_word d [] "null"); [|do 2 right; left].
  - destruct b; [by apply (value_word d [] "true"); [|left]|by apply (value_word d [] "false"); [|right; left]].
  - rewrite <- (of_chars_chars t) at 2. by apply (value_number d []).
  - match goal with H : ValidString s = true |- _ => destruct (quoteString_read s H) as [Ht Hu] end.
    rewrite <- Hu at 2. by apply (value_string d []).
  - destruct items as [|v vs]; [by apply (value_empty_array d [] [])|]. apply (value_array d []); [done..|].
    assert (Hall : Forall (fun v => value (d + 1) (encode v) v) (v :: vs)).
    { rewrite Forall_forall in *. eauto. }
    apply Forall_cons in Hall as [Hv Hvs]. by apply encode_elements.
  - destruct fields as [|kv kvs]; [by apply (value_empty_object d [] [])|]. apply (value_object d []); [done..|].
    apply encode_members. rewrite Forall_forall in *. naive_solver.
Qed.

(** The next value of a text that starts with a printed value is that value. *)
Lemma parse_encode v t : printable 0 v -> mayFollow v t -> parse (encode v ++ t) = Ok (v, t).
Proof. intros Hv%encode_value Ht. by apply parse_complete. Qed.

Lemma parseAll_encode v ws : printable 0 v -> spaces ws -> parseAll (encode v ++ ws) = Some v.
Proof. intros Hv%encode_value Hws. apply parseAll_iff. eauto. Qed.

End JsonRoundTrip.
