(* ===== verification/GoJsonDecode.v ===== *)
(** * Decoding JSON into Go values ([json.Unmarshal], [json.Decoder])

    Go types and values are data, and [store] does what the decoder does by
    reflection: names match exactly or else by case folding, repeated members
    store again into what is there, null leaves most values alone, the elements of
    a slice are stored over those its array held before, and the first mismatch is
    remembered while the rest is still stored. *)

From S2P Require Import Prelude GoStrings GoJson GoJsonScan.

#[local] Set Warnings "-register-all".

(** The types the framework decodes into; [TAny] is [any]. *)
Inductive gotype :=
  | TString | TBool | TInt (bits : Z) | TPointer (t : gotype) | TSlice (t : gotype)
  | TStruct (fields : list (string * gotype)) | TAny.

(** Their values.  [VSlice n cells] is a slice of length [n]; [cells] is what its
    array is known to hold, cells beyond being zero.  An [any] holds a JSON value,
    nil being null. *)
Inductive goval :=
  | VString (s : string) | VBool (b : bool) | VInt (z : Z) | VNil | VPointer (v : goval)
  | VSlice (n : nat) (cells : list goval) | VStruct (vs : list goval) | VAny (v : json).

Inductive storeError := TypeMismatch | UnknownField (name : string).

Section gotype_induction.
Variable P : gotype -> Prop.
Hypothesis Hstring : P TString.
Hypothesis Hbool : P TBool.
Hypothesis Hint : forall bits, P (TInt bits).
Hypothesis Hpointer : forall t, P t -> P (TPointer t).
Hypothesis Hslice : forall t, P t -> P (TSlice t).
Hypothesis Hstruct : forall fields, Forall (fun f => P (snd f)) fields -> P (TStruct fields).
Hypothesis Hany : P TAny.

Fixpoint gotype_nested_ind (t : gotype) : P t :=
  match t with
  | TString => Hstring
  | TBool => Hbool
  | TInt bits => Hint bits
  | TPointer t => Hpointer t (gotype_nested_ind t)
  | TSlice t => Hslice t (gotype_nested_ind t)
  | TStruct fields =>
      Hstruct fields ((fix go fields : Forall (fun f => P (snd f)) fields :=
        match fields with
        | [] => Forall_nil_2 _
        | f :: fs => Forall_cons_2 (fun f => P (snd f)) f fs (gotype_nested_ind (snd f)) (go fs)
        end) fields)
  | TAny => Hany
  end.
End gotype_induction.

Module JsonDecode.
Import Json JsonScan.

Fixpoint zero (t : gotype) : goval :=
  match t with
  | TString => VString ""
  | TBool => VBool false
  | TInt _ => VInt 0
  | TPointer _ | TSlice _ => VNil
  | TStruct fields => VStruct (map (fun f => zero (snd f)) fields)
  | TAny => VAny JNull
  end.

(** *** Names *)

(** [foldName] as far as it tells names of ASCII letters apart: besides the case
    of letters, U+017F folds with s and U+212A with k. *)
Definition foldRune (r : Z) : Z :=
  if between (code "a") (code "z") r then r - 32
  else if r =? 0x17f then code "S" else if r =? 0x212a then code "K" else r.
Definition foldName (s : string) : list Z := map foldRune (runes s).

(** The field a name stands for: an exact match, else the first folded one. *)
Definition findField {A} (fields : list (string * A)) (name : string) : option (nat * A) :=
  match list_find (fun f => fst f = name) fields with
  | Some (i, f) => Some (i, snd f)
  | None =>
      match list_find (fun f => foldName (fst f) = foldName name) fields with
      | Some (i, f) => Some (i, snd f)
      | None => None
      end
  end.

(** *** Numbers as [float64] *)

(** The digits of a number literal before its exponent, the number of them behind
    the point, and its exponent, which [strconv] stops reading at five digits. *)
Fixpoint significand (m frac : Z) (point : bool) (l : list ascii) : Z * Z * list ascii :=
  match l with
  | c :: t =>
      if isDigit c then significand (m * 10 + (code c - code "0")) (if point then frac + 1 else frac) point t
      else if c == "."%char then significand m frac true t
      else if c == "-"%char then significand m frac point t
      else (m, frac, t)
  | [] => (m, frac, [])
  end.

Definition exponentOf (l : list ascii) : Z :=
  let digits := fold_left (fun e c => if e <? 10000 then e * 10 + (code c - code "0") else e) in
  match l with
  | c :: t => if c == "-"%char then - digits t 0 else if c == "+"%char then digits t 0 else digits l 0
  | [] => 0
  end.

(** Whether [strconv.ParseFloat(text, 64)] stays finite: rounding reaches infinity
    from half a unit above the largest number on. *)
Definition fitsFloat64 (text : string) : bool :=
  let '(m, frac, rest) := significand 0 0 false (chars text) in
  let e := exponentOf rest - frac in
  let limit := 2 ^ 1024 - 2 ^ 970 in
  if 0 <=? e then m * 10 ^ e <? limit else m <? limit * 10 ^ (- e).

(** *** Storing *)

Definition keepFirst (e e' : option storeError) : option storeError :=
  match e with Some _ => e | None => e' end.
Definition firstError (es : list (option storeError)) : option storeError := foldr keepFirst None es.

(** A [map[string]any]: the last member of a name wins. *)
Fixpoint lastWins (fields : list (string * json)) : list (string * json) :=
  match fields with
  | [] => []
  | kv :: kvs => if bool_decide (fst kv ∈ map fst kvs) then lastWins kvs else kv :: lastWins kvs
  end.

(** What an [any] gets; numbers become [float64] if they can. *)
Fixpoint toAny (v : json) : json * option storeError :=
  match v with
  | JNumber text => if fitsFloat64 text then (v, None) else (JNull, Some TypeMismatch)
  | JArray items => (JArray (map (fun v => fst (toAny v)) items), firstError (map (fun v => snd (toAny v)) items))
  | JObject fields =>
      (JObject (lastWins (map (fun kv => (fst kv, fst (toAny (snd kv)))) fields)),
       firstError (map (fun kv => snd (toAny (snd kv))) fields))
  | _ => (v, None)
  end.

(** How a value of some type is stored over another. *)
Abbreviation storer := (goval -> json -> goval * option storeError) (only parsing).

Fixpoint storeItems (st : storer) (z : goval) (cells : list goval) (items : list json)
    : list goval * option storeError :=
  match items with
  | [] => (cells, None)
  | v :: items =>
      let '(x, e) := st (hd z cells) v in
      let '(xs, e') := storeItems st z (tail cells) items in
      (x :: xs, keepFirst e e')
  end.

Fixpoint storeMembers (strict : bool) (fields : list (string * storer)) (vs : list goval)
    (members : list (string * json)) : list goval * option storeError :=
  match members with
  | [] => (vs, None)
  | (k, v) :: members =>
      match findField fields k with
      | Some (i, st) =>
          let '(x, e) := st (nth i vs VNil) v in
          let '(vs, e') := storeMembers strict fields (<[i := x]> vs) members in
          (vs, keepFirst e e')
      | None =>
          let '(vs, e) := storeMembers strict fields vs members in
          (vs, keepFirst (if strict then Some (UnknownField k) else None) e)
      end
  end.

(** [d.value] with [strict] for [DisallowUnknownFields]. *)
Fixpoint store (strict : bool) (t : gotype) : storer :=
  match t with
  | TString => fun cur v =>
      match v with JString s => (VString s, None) | JNull => (cur, None) | _ => (cur, Some TypeMismatch) end
  | TBool => fun cur v =>
      match v with JBool b => (VBool b, None) | JNull => (cur, None) | _ => (cur, Some TypeMismatch) end
  | TInt bits => fun cur v =>
      match v with
      | JNumber text => match ParseInt bits text with Some z => (VInt z, None) | None => (cur, Some TypeMismatch) end
      | JNull => (cur, None)
      | _ => (cur, Some TypeMismatch)
      end
  | TPointer t => fun cur v =>
      match v with
      | JNull => (VNil, None)
      | _ =>
          let '(x, e) := store strict t (match cur with VPointer x => x | _ => zero t end) v in
          (VPointer x, e)
      end
  | TSlice t => fun cur v =>
      match v with
      | JNull => (VNil, None)
      | JArray [] => (VSlice 0 [], None)
      | JArray items =>
          let '(cells, e) := storeItems (store strict t) (zero t) (match cur with VSlice _ cells => cells | _ => [] end) items in
          (VSlice (length items) cells, e)
      | _ => (cur, Some TypeMismatch)
      end
  | TStruct fields => fun cur v =>
      match v, cur with
      | JNull, _ => (cur, None)
      | JObject members, VStruct vs =>
          let '(vs, e) := storeMembers strict (map (fun f => (fst f, store strict (snd f))) fields) vs members in
          (VStruct vs, e)
      | _, _ => (cur, Some TypeMismatch)
      end
  | TAny => fun _ v => let '(v, e) := toAny v in (VAny v, e)
  end.

(** *** Entry points *)

(** The characters of a text in bytes. *)
Definition textOf (data : list byte) : list ascii := chars (string_of data).

(** [json.Unmarshal] into a fresh variable. *)
Definition Unmarshal (t : gotype) (data : list byte) : option goval :=
  v ← parseAll (textOf data);
  match store false t (zero t) v with (x, None) => Some x | (_, Some _) => None end.

(** [json.Unmarshal] into a [json.RawMessage]: the bytes of the value. *)
Definition UnmarshalRaw (data : list byte) : option (list byte) :=
  match parse (textOf data) with
  | Ok (_, rest) =>
      match skipSpace rest with
      | [] => Some (bytes_of (of_chars (skipSpace (take (length data - length rest) (textOf data)))))
      | _ => None
      end
  | Err _ => None
  end.

(** What [Decoder.Decode] reports: the end of the input, an input that ends within
    a value, a limit in its place, malformed text, or what [store] found. *)
Inductive decodeFailure := AtEOF | UnexpectedEOF | LimitReached | SyntaxFailure | StoreFailure (e : storeError).

Definition selfDelimiting (v : json) : bool := match v with JArray _ | JObject _ => true | _ => false end.

(** [Decoder.Decode] into a variable that holds [cur], and what is left of the
    input; [limited] says that a limit, not the end of the input, ends [l].  Only
    an array or an object is complete without a look at what follows. *)
Definition DecodeInto (strict : bool) (t : gotype) (cur : goval) (limited : bool) (l : list ascii)
    : result decodeFailure goval * list ascii :=
  match parse l with
  | Err Truncated =>
      (Err (if limited then LimitReached else match skipSpace l with [] => AtEOF | _ => UnexpectedEOF end), l)
  | Err _ => (Err SyntaxFailure, l)
  | Ok (v, rest) =>
      if limited && bool_decide (rest = []) && negb (selfDelimiting v) then (Err LimitReached, l)
      else
        match store strict t cur v with
        | (x, None) => (Ok x, rest)
        | (_, Some e) => (Err (StoreFailure e), rest)
        end
  end.

(** Into a fresh variable. *)
Definition Decode (strict : bool) (t : gotype) := DecodeInto strict t (zero t).

(** A [[]string]. *)
Definition stringsOf (v : goval) : list string :=
  match v with
  | VSlice n cells => omap (fun c => match c with VString s => Some s | _ => None end) (take n cells)
  | _ => []
  end.

(** Folded names, members stored twice, and elements stored over old ones. *)
Definition sampleType : gotype := TStruct [("id", TInt 8); ("tags", TSlice TString); ("sub", TStruct [("k", TString)])].
Definition quoted (s : string) : list byte := bytes_of (of_chars (map (fun c => if c == "'"%char then dquote else c) (chars s))).

Example store_sample :
  Unmarshal sampleType (quoted "{'ID':7,'tags':['a','b'],'sub':{'k':'x'},'other':1,'tags':[null,'c','d'],'SUB':{}} ") =
  Some (VStruct [VInt 7; VSlice 3 [VString "a"; VString "c"; VString "d"]; VStruct [VString "x"]]).
Proof. vm_compute. reflexivity. Qed.
Example store_rejects :
  map (Unmarshal sampleType) [quoted "{'id':128}"; quoted "{'id':1.0}"; quoted "{'tags':'a'}"; quoted "{} {}"] =
  [None; None; None; None].
Proof. vm_compute. reflexivity. Qed.
Example float_range : map fitsFloat64 ["1.7976931348623158e308"; "1.7976931348623159e+308"; "-1e-400"] = [true; false; true].
Proof. vm_compute. reflexivity. Qed.

End JsonDecode.

(** ** Types are kept *)

Module JsonTyped.
Import Json JsonScan JsonDecode.

Fixpoint typed (t : gotype) (v : goval) : bool :=
  match t, v with
  | TString, VString _ | TBool, VBool _ | TAny, VAny _ => true
  | TInt bits, VInt z => (- 2 ^ (bits - 1) <=? z) && (z <? 2 ^ (bits - 1))
  | TPointer _, VNil | TSlice _, VNil => true
  | TPointer t, VPointer v => typed t v
  | TSlice t, VSlice n cells => (n <=? length cells)%nat && forallb (typed t) cells
  | TStruct fields, VStruct vs =>
      (fix go (fields : list (string * gotype)) (vs : list goval) :=
         match fields, vs with
         | [], [] => true
         | f :: fields, v :: vs => typed (snd f) v && go fields vs
         | _, _ => false
         end) fields vs
  | _, _ => false
  end.

Lemma typed_struct fields vs :
  typed (TStruct fields) (VStruct vs) = true <-> Forall2 (fun f v => typed (snd f) v = true) fields vs.
Proof.
  revert vs. induction fields as [|f fields IH]; intros [|v vs]; cbn [typed]; try by split; [|inversion 1].
  rewrite andb_true_iff, Forall2_cons_iff. cbn [typed] in IH. by rewrite IH.
Qed.

(** The values of the fields of a struct, from its type. *)
Ltac typed_fields :=
  repeat match goal with
  | H : typed (snd (_, _)) _ = true |- _ => cbn [snd] in H
  | H : Forall2 _ (_ :: _) _ |- _ => apply Forall2_cons_inv_l in H as (? & ? & ? & ? & ->)
  | H : Forall2 _ [] _ |- _ => apply Forall2_nil_inv_l in H as ->
  | H : typed (TStruct _) ?v = true |- _ => destruct v; try done; apply typed_struct in H
  | H : typed TString ?v = true |- _ => destruct v; try done; clear H
  | H : typed TBool ?v = true |- _ => destruct v; try done; clear H
  end.

(** Integers have at least one bit. *)
Fixpoint sized (t : gotype) : bool :=
  match t with
  | TInt bits => 0 <? bits
  | TPointer t | TSlice t => sized t
  | TStruct fields => forallb (fun f => sized (snd f)) fields
  | _ => true
  end.

Lemma zero_typed t : sized t = true -> typed t (zero t) = true.
Proof.
  induction t as [| |bits| | |fields IH|] using gotype_nested_ind; try done.
  - cbn. intros Hb. pose proof (Z.pow_pos_nonneg 2 (bits - 1)). lia.
  - cbn [sized zero]. intros Hs. apply typed_struct. rewrite forallb_forall in Hs.
    induction IH as [|f fields Hf _ IH]; cbn [map]; [constructor|]. constructor.
    + apply Hf, Hs. by left.
    + apply IH. intros g Hg. apply Hs. by right.
Qed.

(** A storer that keeps a type. *)
Definition keeps (t : gotype) (st : storer) : Prop := forall cur v, typed t cur = true -> typed t (fst (st cur v)) = true.

Lemma storeItems_typed t st z : keeps t st -> typed t z = true -> forall items cells, forallb (typed t) cells = true ->
  let cells' := fst (storeItems st z cells items) in
  forallb (typed t) cells' = true /\ (length items <= length cells')%nat.
Proof.
  intros Hk Hz. induction items as [|v items IH]; intros cells Hc; cbn [storeItems]; [cbn; split; [done|lia]|].
  specialize (Hk (hd z cells) v). destruct (st (hd z cells) v) as [x e]. specialize (IH (tail cells)).
  destruct (storeItems st z (tail cells) items) as [xs e']. cbn [fst forallb length] in *.
  destruct IH as [H1 H2]; [destruct cells; [done|]; cbn in Hc; by split_guards|].
  rewrite H1, Hk; [split; [done|lia]|]. destruct cells; [done|]. cbn in *. by split_guards.
Qed.

Lemma findField_lookup {A} (fields : list (string * A)) k i a : findField fields k = Some (i, a) ->
  exists name, fields !! i = Some (name, a).
Proof.
  unfold findField. intros HF. destruct (list_find (fun f => fst f = k) fields) as [[j [n b]]|] eqn:H1.
  - injection HF as <- <-. apply list_find_Some in H1 as [H1 _]. eauto.
  - destruct (list_find (fun f => foldName (fst f) = foldName k) fields) as [[j [n b]]|] eqn:H2; [|done].
    injection HF as <- <-. apply list_find_Some in H2 as [H2 _]. eauto.
Qed.

Lemma storeMembers_typed strict (fields : list (string * gotype)) st :
  Forall (fun f => keeps (snd f) (st (snd f))) fields -> forall members vs,
  Forall2 (fun f v => typed (snd f) v = true) fields vs ->
  Forall2 (fun f v => typed (snd f) v = true) fields
    (fst (storeMembers strict (map (fun f => (fst f, st (snd f))) fields) vs members)).
Proof.
  intros Hst. induction members as [|[k v] members IH]; intros vs Hvs; cbn [storeMembers]; [done|].
  destruct (findField _ k) as [[i s]|] eqn:HF.
  - apply findField_lookup in HF as [name Hi]. rewrite list_lookup_fmap in Hi.
    destruct (fields !! i) as [f|] eqn:Hf; [|done]. injection Hi as <- <-.
    destruct (Forall2_lookup_l _ _ _ _ _ Hvs Hf) as (x0 & Hx0 & Ht).
    pose proof (Forall_lookup_1 _ _ _ _ Hst Hf (nth i vs VNil) v) as Hkeep.
    rewrite (nth_lookup_Some vs i VNil x0 Hx0) in *. specialize (Hkeep Ht). destruct (st (snd f) x0 v) as [x e].
    assert (Hvs' : Forall2 (fun f v => typed (snd f) v = true) fields (<[i := x]> vs)).
    { rewrite <- (list_insert_id fields i f Hf). by apply Forall2_insert. }
    specialize (IH _ Hvs'). by destruct (storeMembers _ _ _ members).
  - specialize (IH _ Hvs). by destruct (storeMembers _ _ _ members).
Qed.

Lemma store_typed strict t : sized t = true -> keeps t (store strict t).
Proof.
  induction t as [| |bits|t IH|t IH|fields IH|] using gotype_nested_ind; intros Hs cur v Ht; cbn [store].
  - by destruct v.
  - by destruct v.
  - destruct v; try done. destruct (ParseInt bits text) as [z|] eqn:HP; [|done]. apply ParseInt_range in HP. cbn. lia.
  - assert (Hcur : typed t (match cur with VPointer x => x | _ => zero t end) = true).
    { destruct cur; by try apply zero_typed. }
    specialize (IH Hs _ v Hcur). destruct v; try done; by destruct (store strict t _ _).
  - destruct v as [| | | |[|v items]|]; try done.
    assert (Hcells : forallb (typed t) (match cur with VSlice _ cells => cells | _ => [] end) = true).
    { destruct cur; try done. cbn in Ht. by split_guards. }
    destruct (storeItems_typed t (store strict t) (zero t) (IH Hs) (zero_typed t Hs) (v :: items) _ Hcells) as [H1 H2].
    destruct (storeItems _ _ _ _) as [cells e]. cbn [typed fst] in *. rewrite H1, andb_true_r.
    by apply Nat.leb_le.
  - destruct v; try done; destruct cur; try done. apply typed_struct in Ht.
    assert (Hst : Forall (fun f => keeps (snd f) (store strict (snd f))) fields).
    { cbn in Hs. rewrite forallb_forall in Hs. rewrite Forall_forall in *. intros f Hf. apply IH; [done|].
      apply Hs. by apply list_elem_of_In. }
    pose proof (storeMembers_typed strict fields (store strict) Hst fields0 vs Ht) as Hm.
    destruct (storeMembers _ _ _ _) as [vs' e]. by apply typed_struct.
  - by destruct (toAny v).
Qed.

(** A decoded value has the type it was decoded into. *)
Lemma Unmarshal_typed t data x : sized t = true -> Unmarshal t data = Some x -> typed t x = true.
Proof.
  intros Hs. unfold Unmarshal. intros (v & _ & HU)%bind_Some.
  pose proof (store_typed false t Hs (zero t) v (zero_typed t Hs)) as Ht.
  destruct (store false t (zero t) v) as [y [e|]]; [done|]. by injection HU as <-.
Qed.

Lemma DecodeInto_typed strict t cur limited l x rest : sized t = true -> typed t cur = true ->
  DecodeInto strict t cur limited l = (Ok x, rest) -> typed t x = true.
Proof.
  intros Hs Hc. unfold DecodeInto. destruct (parse l) as [[v r]|[]]; try done. case_match; [done|].
  pose proof (store_typed strict t Hs cur v Hc) as Ht.
  destruct (store strict t cur v) as [y [e|]]; [done|]. by intros [= <- _].
Qed.

End JsonTyped.

(** ** One value and nothing else *)

Module JsonOne.
Import Json JsonScan JsonGrammar JsonScanCorrect JsonDecode.

Lemma parse_blank l : skipSpace l = [] -> parse l = Err Truncated.
Proof. unfold parse. rewrite Nat.add_1_r. cbn [parseValue]. by intros ->. Qed.

Lemma Decode_AtEOF strict t cur limited l :
  fst (DecodeInto strict t cur limited l) = Err AtEOF <-> skipSpace l = [] /\ limited = false.
Proof.
  unfold DecodeInto. split.
  - destruct (parse l) as [[v r]|[]]; cbn; try done.
    + case_match; [done|]. by destruct (store strict t cur v) as [x [e|]].
    + destruct limited; [done|]. by destruct (skipSpace l).
  - intros [Hs ->]. by rewrite (parse_blank l Hs), Hs.
Qed.

Lemma Decode_Ok strict t cur l x rest : DecodeInto strict t cur false l = (Ok x, rest) <->
  exists v, parse l = Ok (v, rest) /\ store strict t cur v = (x, None).
Proof.
  unfold DecodeInto. split.
  - destruct (parse l) as [[v r]|[]]; cbn; try done. destruct (store strict t cur v) as [y [e|]] eqn:Hs; [done|].
    intros [= <- <-]. eauto.
  - intros (v & -> & Hs). cbn. by rewrite Hs.
Qed.

(** A value decoded, then the end of the input: the input is one JSON text, and no
    limit stood before its end. *)
Lemma Decode_then_EOF strict t cur strict' t' limited l x :
  (exists rest, DecodeInto strict t cur limited l = (Ok x, rest) /\
     fst (Decode strict' t' limited rest) = Err AtEOF) <->
  limited = false /\
  exists l1 ws v, l = l1 ++ ws /\ value 0 l1 v /\ spaces ws /\ store strict t cur v = (x, None).
Proof.
  split.
  - intros (rest & HD & [Hr ->]%Decode_AtEOF). split; [done|]. apply Decode_Ok in HD as (v & Hp & Hs).
    assert (HA : parseAll l = Some v) by (unfold parseAll; by rewrite Hp, Hr).
    apply parseAll_iff in HA as (l1 & ws & -> & Hv & Hws). by exists l1, ws, v.
  - intros (-> & l1 & ws & v & Hl & Hv & Hws & Hs).
    assert (HA : parseAll l = Some v) by (apply parseAll_iff; eauto). unfold parseAll in HA.
    destruct (parse l) as [[v' rest]|] eqn:Hp; [|done]. destruct (skipSpace rest) eqn:Hr; [|done]. injection HA as ->.
    exists rest. split; [apply Decode_Ok; eauto|]. by apply Decode_AtEOF.
Qed.

(** A printed value, with white space behind it, decodes as the value. *)
Lemma Unmarshal_encode t v ws x : JsonRoundTrip.printable 0 v -> spaces ws -> store false t (zero t) v = (x, None) ->
  Unmarshal t (bytes_of (of_chars (encode v ++ ws))) = Some x.
Proof.
  intros Hv Hws Hs. unfold Unmarshal, textOf.
  rewrite String.string_of_list_byte_of_string, chars_of_chars, JsonRoundTrip.parseAll_encode by done.
  cbn [mbind option_bind]. by rewrite Hs.
Qed.

(** Members are stored one after another. *)
Lemma storeMembers_step strict fields vs k v members i st x vs' :
  findField fields k = Some (i, st) -> st (nth i vs VNil) v = (x, None) ->
  storeMembers strict fields (<[i := x]> vs) members = (vs', None) ->
  storeMembers strict fields vs ((k, v) :: members) = (vs', None).
Proof. intros Hf Hs Hm. cbn [storeMembers]. by rewrite Hf, Hs, Hm. Qed.

Lemma store_struct strict fields vs members vs' :
  storeMembers strict (map (fun f => (fst f, store strict (snd f))) fields) vs members = (vs', None) ->
  store strict (TStruct fields) (VStruct vs) (JObject members) = (VStruct vs', None).
Proof. intros Hm. cbn [store]. by rewrite Hm. Qed.

(** A fresh slice receives the values its elements give. *)
Lemma storeItems_fresh st z items xs : Forall2 (fun v x => st z v = (x, None)) items xs ->
  storeItems st z [] items = (xs, None).
Proof. induction 1 as [|v x items xs Hv _ IH]; [done|]. cbn [storeItems hd tail]. by rewrite Hv, IH. Qed.

Lemma store_slice strict t items xs : Forall2 (fun v x => store strict t (zero t) v = (x, None)) items xs ->
  store strict (TSlice t) VNil (JArray items) = (VSlice (length items) xs, None).
Proof.
  intros Hi. destruct items as [|v items]; [by apply Forall2_nil_inv_l in Hi as ->|].
  cbn [store]. by rewrite (storeItems_fresh _ _ _ _ Hi).
Qed.

(** A fresh [[]string] receives a list of strings. *)
Lemma store_strings strict l :
  store strict (TSlice TString) VNil (JArray (map JString l)) = (VSlice (length l) (map VString l), None).
Proof.
  rewrite <- (length_map JString). apply store_slice. induction l; constructor; done.
Qed.

Lemma stringsOf_strings l : stringsOf (VSlice (length l) (map VString l)) = l.
Proof.
  unfold stringsOf. rewrite take_ge by by rewrite length_map.
  induction l as [|s l IH]; [done|]. cbn. by f_equal.
Qed.

End JsonOne.
