(* ===== verification/Base64.v ===== *)
(** * Unpadded URL-safe base64: Go's [base64.RawURLEncoding]

    [Encode] and [Decode] follow the library: the decoder is not strict, so it
    skips CR and LF and ignores the unused low bits of a last partial group. *)

From S2P Require Import Prelude.

Module Base64.

Definition alphabet : list ascii :=
  chars "ABCDEFGHIJKLMNOPQRSTUVWXYZabcdefghijklmnopqrstuvwxyz0123456789-_".

Definition digit (i : Z) : ascii := nth (Z.to_nat i) alphabet "A"%char.

(** The decode map: the value of an alphabet character. *)
Definition value (c : ascii) : option Z :=
  let n := code c in
  if (code "A" <=? n) && (n <=? code "Z") then Some (n - code "A")
  else if (code "a" <=? n) && (n <=? code "z") then Some (n - code "a" + 26)
  else if (code "0" <=? n) && (n <=? code "9") then Some (n - code "0" + 52)
  else if c == "-"%char then Some 62
  else if c == "_"%char then Some 63
  else None.

Fixpoint encode (bs : list byte) : list ascii :=
  match bs with
  | a :: b :: c :: rest =>
      let v := bval a * 65536 + bval b * 256 + bval c in
      digit (v / 262144) :: digit (v / 4096 mod 64) :: digit (v / 64 mod 64) ::
        digit (v mod 64) :: encode rest
  | [a; b] =>
      let v := bval a * 65536 + bval b * 256 in
      [digit (v / 262144); digit (v / 4096 mod 64); digit (v / 64 mod 64)]
  | [a] =>
      let v := bval a * 65536 in [digit (v / 262144); digit (v / 4096 mod 64)]
  | [] => []
  end.

Definition EncodeToString (bs : list byte) : string := of_chars (encode bs).

Definition is_newline (c : ascii) : bool := (code c =? 10) || (code c =? 13).

(** Groups of four sextets; a last group may have two or three. *)
Fixpoint decodeGroups (vs : list Z) : option (list byte) :=
  match vs with
  | a :: b :: c :: d :: rest =>
      let v := a * 262144 + b * 4096 + c * 64 + d in
      tail ← decodeGroups rest;
      Some (byte_of (v / 65536) :: byte_of (v / 256) :: byte_of v :: tail)
  | [a; b; c] =>
      let v := a * 262144 + b * 4096 + c * 64 in
      Some [byte_of (v / 65536); byte_of (v / 256)]
  | [a; b] => Some [byte_of ((a * 262144 + b * 4096) / 65536)]
  | [_] => None
  | [] => Some []
  end.

Definition DecodeString (s : string) : option (list byte) :=
  vs ← mapM value (filter (fun c => is_newline c = false) (chars s));
  decodeGroups vs.

Example encode_sample : EncodeToString (map byte_of [251; 255; 191; 0]) = "-_-_AA".
Proof. reflexivity. Qed.

(** ** Round trip *)

(** A test on sextets holds everywhere when it holds on the 64 of them. *)
Lemma sextet_all (f : Z -> bool) :
  forallb (fun k => f (Z.of_nat k)) (seq 0 64) = true -> forall i, 0 <= i < 64 -> f i = true.
Proof.
  rewrite forallb_forall. intros Hall i Hi.
  specialize (Hall (Z.to_nat i)). rewrite Z2Nat.id in Hall by lia.
  apply Hall, in_seq. lia.
Qed.

Lemma value_digit i : 0 <= i < 64 -> value (digit i) = Some i.
Proof.
  intros Hi. apply (bool_decide_eq_true_1 (value (digit i) = Some i)).
  revert i Hi. apply sextet_all. vm_compute; reflexivity.
Qed.

Lemma digit_not_newline i : 0 <= i < 64 -> is_newline (digit i) = false.
Proof.
  intros Hi. apply negb_true_iff. revert i Hi.
  apply (sextet_all (fun i => negb (is_newline (digit i)))). vm_compute; reflexivity.
Qed.

(** Induction in the steps of three bytes in which [encode] consumes them. *)
Lemma three_ind (P : list byte -> Prop) :
  P [] -> (forall a, P [a]) -> (forall a b, P [a; b]) ->
  (forall a b c l, P l -> P (a :: b :: c :: l)) -> forall l, P l.
Proof.
  intros H0 H1 H2 H3. assert (forall n l, (length l <= n)%nat -> P l) as Hn.
  { induction n as [|n IH]; intros [|a [|b [|c l]]] Hl; simpl in *; auto; try lia.
    apply H3, IH. lia. }
  intros l. by apply (Hn (length l)).
Qed.

Ltac sextets :=
  repeat match goal with
  | |- context [value (digit ?i)] => rewrite (value_digit i) by lia
  | |- context [filter _ (digit ?i :: ?l)] =>
      rewrite (filter_cons_True _ (digit i) l) by (apply digit_not_newline; lia)
  end.

Lemma byte_of_eq z b : z mod 256 = bval b -> byte_of z = b.
Proof. intros H. apply bval_inj. by rewrite bval_byte_of. Qed.

Lemma decode_encode bs :
  (vs ← mapM value (filter (fun c => is_newline c = false) (encode bs)); decodeGroups vs) = Some bs.
Proof.
  induction bs as [|a|a b|a b c l IH] using three_ind; cbn [encode]; [done|..];
    repeat match goal with b : byte |- _ => lazymatch goal with
      | H : 0 <= bval b < 256 |- _ => fail | _ => pose proof (bval_range b) end end.
  - sextets. simpl. sextets. simpl. do 2 f_equal. apply byte_of_eq. lia.
  - sextets. simpl. sextets. simpl. f_equal. f_equal; [|f_equal]; apply byte_of_eq; lia.
  - sextets. cbn [mapM]. sextets. simpl. apply bind_Some in IH as (vs & Hvs & Hd).
    rewrite Hvs. simpl. rewrite Hd. simpl.
    f_equal. repeat (apply (f_equal2 cons); [apply byte_of_eq; lia|]). done.
Qed.

Lemma DecodeString_EncodeToString bs : DecodeString (EncodeToString bs) = Some bs.
Proof. unfold DecodeString, EncodeToString. rewrite chars_of_chars. apply decode_encode. Qed.

Lemma EncodeToString_inj bs cs : EncodeToString bs = EncodeToString cs -> bs = cs.
Proof.
  intros H. apply (f_equal DecodeString) in H.
  rewrite !DecodeString_EncodeToString in H. by injection H.
Qed.

Lemma encode_length bs : blen (encode bs) = (blen bs * 4 + 2) / 3.
Proof.
  induction bs as [|a|a b|a b c l IH] using three_ind; cbn [encode]; [done..|].
  rewrite !blen_cons, IH. bounds. lia.
Qed.

Lemma len_EncodeToString bs : len (EncodeToString bs) = (blen bs * 4 + 2) / 3.
Proof. unfold EncodeToString. rewrite len_chars, chars_of_chars. apply encode_length. Qed.

(** Every character is one of the alphabet. *)
Lemma encode_alphabet bs : Forall (fun c => c ∈ alphabet) (encode bs).
Proof.
  assert (Hd : forall i, digit i ∈ alphabet).
  { intros i. unfold digit. destruct (decide (Z.to_nat i < length alphabet)%nat) as [Hi|Hi].
    - apply list_elem_of_In, nth_In, Hi.
    - rewrite nth_overflow by lia. by left. }
  induction bs as [|a|a b|a b c l IH] using three_ind; cbn [encode]; repeat (constructor; [apply Hd|]); done.
Qed.

End Base64.
