(* ===== verification/Sha256.v ===== *)
(** * SHA-256: Go's [crypto/sha256]

    An executable definition of the hash function the framework calls, with
    the published test vectors evaluated, and the big-endian integer encodings
    of [encoding/binary]. *)

From S2P Require Import Prelude.

(** ** Big-endian integers *)

(** The [n] low bytes of [z], most significant first ([PutUint32] and
    [PutUint64] for 4 and 8), and the value of a byte string ([Uint64]). *)
Fixpoint putBE (n : nat) (z : Z) : list byte :=
  match n with
  | O => []
  | S n => byte_of (z / 256 ^ Z.of_nat n) :: putBE n z
  end.

Definition getBE (bs : list byte) : Z := fold_left (fun acc b => acc * 256 + bval b) bs 0.

Lemma putBE_length n z : length (putBE n z) = n.
Proof. induction n; simpl; congruence. Qed.

Lemma getBE_putBE_acc n z : forall acc,
  fold_left (fun acc b => acc * 256 + bval b) (putBE n z) acc =
    acc * 256 ^ Z.of_nat n + z mod 256 ^ Z.of_nat n.
Proof.
  induction n as [|n IH]; intros acc; simpl.
  { rewrite Z.pow_0_r, Z.mod_1_r. lia. }
  rewrite IH, bval_byte_of, Nat2Z.inj_succ, Z.pow_succ_r by lia.
  set (p := 256 ^ Z.of_nat n). assert (0 < p) by (unfold p; lia).
  rewrite (Z.mul_comm 256 p), Z.rem_mul_r by lia. lia.
Qed.

Lemma getBE_putBE n z : getBE (putBE n z) = z mod 256 ^ Z.of_nat n.
Proof. unfold getBE. rewrite getBE_putBE_acc. lia. Qed.

Lemma putBE_inj n z w : 0 <= z < 256 ^ Z.of_nat n -> 0 <= w < 256 ^ Z.of_nat n ->
  putBE n z = putBE n w -> z = w.
Proof.
  intros Hz Hw H. apply (f_equal getBE) in H. rewrite !getBE_putBE in H.
  by rewrite !Z.mod_small in H.
Qed.

Module Sha256.

(** ** The compression function *)

Definition w32 (z : Z) : Z := z mod 2 ^ 32.
Definition add32 (a b : Z) : Z := w32 (a + b).
Definition rotr (x n : Z) : Z := Z.lor (Z.shiftr x n) (w32 (Z.shiftl x (32 - n))).
Definition not32 (x : Z) : Z := Z.lxor x (2 ^ 32 - 1).

Definition ch (x y z : Z) : Z := Z.lxor (Z.land x y) (Z.land (not32 x) z).
Definition maj (x y z : Z) : Z := Z.lxor (Z.lxor (Z.land x y) (Z.land x z)) (Z.land y z).
Definition bsig0 (x : Z) : Z := Z.lxor (Z.lxor (rotr x 2) (rotr x 13)) (rotr x 22).
Definition bsig1 (x : Z) : Z := Z.lxor (Z.lxor (rotr x 6) (rotr x 11)) (rotr x 25).
Definition ssig0 (x : Z) : Z := Z.lxor (Z.lxor (rotr x 7) (rotr x 18)) (Z.shiftr x 3).
Definition ssig1 (x : Z) : Z := Z.lxor (Z.lxor (rotr x 17) (rotr x 19)) (Z.shiftr x 10).

(** The round constants are the first 32 bits of the fractional parts of the
    cube roots of the first 64 primes, the initial state those of the square
    roots of the first eight; they are computed once, from that definition. *)
Definition primesUpTo (n : nat) : list Z :=
  filter (fun p => forallb (fun d => negb (p mod d =? 0)) (map Z.of_nat (seq 2 (Z.to_nat p - 2))))
    (map Z.of_nat (seq 2 (n - 1))).

(** The integer cube root, bit by bit from bit [n - 1]. *)
Fixpoint cbrt (n : nat) (z r : Z) : Z :=
  match n with
  | O => r
  | S n =>
      let r' := r + 2 ^ Z.of_nat n in
      cbrt n z (if r' * r' * r' <=? z then r' else r)
  end.

Definition K : list Z :=
  Eval vm_compute in map (fun p => w32 (cbrt 40 (p * 2 ^ 96) 0)) (primesUpTo 311).

Definition H0 : list Z :=
  Eval vm_compute in map (fun p => w32 (Z.sqrt (p * 2 ^ 64))) (primesUpTo 19).

(** The message schedule, newest word first. *)
Fixpoint schedule (n : nat) (ws : list Z) : list Z :=
  match n with
  | O => ws
  | S n =>
      let w i := nth i ws 0 in
      schedule n (add32 (add32 (ssig1 (w 1%nat)) (w 6%nat)) (add32 (ssig0 (w 14%nat)) (w 15%nat)) :: ws)
  end.

Definition round (st : list Z) (kw : Z * Z) : list Z :=
  match st with
  | [a; b; c; d; e; f; g; h] =>
      let t1 := add32 (add32 h (bsig1 e)) (add32 (ch e f g) (add32 (fst kw) (snd kw))) in
      let t2 := add32 (bsig0 a) (maj a b c) in
      [add32 t1 t2; a; b; c; add32 d t1; e; f; g]
  | _ => st
  end.

Fixpoint words (bs : list byte) : list Z :=
  match bs with
  | a :: b :: c :: d :: rest => getBE [a; b; c; d] :: words rest
  | _ => []
  end.

Definition compress (st : list Z) (block : list byte) : list Z :=
  let ws := rev (schedule 48 (rev (words block))) in
  zip_with add32 st (fold_left round (zip K ws) st).

Fixpoint blocks (fuel : nat) (st : list Z) (bs : list byte) : list Z :=
  match fuel, bs with
  | O, _ | _, [] => st
  | S fuel, _ => blocks fuel (compress st (take 64 bs)) (drop 64 bs)
  end.

Definition pad (bs : list byte) : list byte :=
  bs ++ byte_of 0x80 ::
    replicate (Z.to_nat ((55 - blen bs) mod 64)) (byte_of 0) ++ putBE 8 (8 * blen bs).

Definition Sum256 (bs : list byte) : list byte :=
  let p := pad bs in
  concat (map (putBE 4) (blocks (length p) H0 p)).

(** ** Published test vectors *)

Example Sum256_empty : getBE (Sum256 []) =
  0xe3b0c44298fc1c149afbf4c8996fb92427ae41e4649b934ca495991b7852b855.
Proof. vm_compute. reflexivity. Qed.

Example Sum256_abc : getBE (Sum256 (bytes_of "abc")) =
  0xba7816bf8f01cfea414140de5dae2223b00361a396177a9cb410ff61f20015ad.
Proof. vm_compute. reflexivity. Qed.

Example Sum256_two_blocks :
  getBE (Sum256 (bytes_of "abcdbcdecdefdefgefghfghighijhijkijkljklmklmnlmnomnopnopq")) =
  0x248d6a61d20638b8e5c026930c3e6039a33ce45964ff2167f6ecedd419db06c1.
Proof. vm_compute. reflexivity. Qed.

(** ** The digest has 32 bytes *)

Lemma round_length st kw : length st = 8%nat -> length (round st kw) = 8%nat.
Proof. by destruct st as [|? [|? [|? [|? [|? [|? [|? [|? []]]]]]]]]. Qed.

Lemma rounds_length kws : forall st, length st = 8%nat -> length (fold_left round kws st) = 8%nat.
Proof. induction kws; simpl; auto using round_length. Qed.

Lemma blocks_length fuel : forall st bs, length st = 8%nat -> length (blocks fuel st bs) = 8%nat.
Proof.
  induction fuel as [|fuel IH]; intros st [|b bs] Hst; try done. cbn [blocks].
  apply IH. unfold compress. by rewrite length_zip_with, rounds_length, Hst.
Qed.

Lemma Sum256_length bs : length (Sum256 bs) = 32%nat.
Proof.
  unfold Sum256. pose proof (blocks_length (length (pad bs)) H0 (pad bs) eq_refl) as Hl.
  destruct (blocks _ _ _) as [|? [|? [|? [|? [|? [|? [|? [|? []]]]]]]]]; try done.
Qed.

End Sha256.
