(* ===== verification/Authz.v ===== *)
(** * Permission keys and permission sets ([authz/permissions.go])

    [Parse] is the byte loop of the source; [wf_key] is the grammar its
    comments describe.  A permission set is a Go map used as a set. *)

From S2P Require Import Prelude.

Definition MaxKeyBytes : Z := 100.
Definition MaxPermission : Z := 256.

(** The error messages of the package. *)
Inductive authz_error :=
  | ErrKeyLength
  | ErrEmptySegment
  | ErrSegmentStart
  | ErrCharacter
  | ErrSetSize.

#[export] Instance authz_error_eq_dec : EqDecision authz_error.
Proof. solve_decision. Defined.

(** [Permission] is a defined string type. *)
Abbreviation Permission := string (only parsing).

Module Parser.

Definition lower (c : ascii) : bool := (code "a" <=? code c) && (code c <=? code "z").
Definition digit (c : ascii) : bool := (code "0" <=? code c) && (code c <=? code "9").

Definition key_char (c : ascii) : bool :=
  lower c || digit c || (c == "-"%char) || (c == "_"%char).

(** The loop [for i := 0; i < len(value); i++] over the bytes from [i] on. *)
Fixpoint Parse_loop (n i : Z) (segmentStart : bool) (rest : list ascii)
    : result authz_error unit :=
  match rest with
  | [] => Ok tt
  | c :: rest =>
      if c == "."%char then
        if segmentStart || (i =? n - 1) then Err ErrEmptySegment
        else Parse_loop n (i + 1) true rest
      else if segmentStart && ((code c <? code "a") || (code "z" <? code c)) then
        Err ErrSegmentStart
      else if negb (key_char c) then Err ErrCharacter
      else Parse_loop n (i + 1) false rest
  end.

Definition Parse (value : string) : result authz_error Permission :=
  if (len value =? 0) || (MaxKeyBytes <? len value) then Err ErrKeyLength
  else Parse_loop (len value) 0 true (chars value) ≫= fun _ => Ok value.

End Parser.

(** The grammar: one or more non-empty segments separated by dots, each a
    lowercase letter followed by lowercase letters, digits, dashes and
    underscores. *)
Module Grammar.
Import Parser.

Inductive segment : list ascii -> Prop :=
  | segment_intro c cs :
      lower c = true -> Forall (fun d => key_char d = true) cs -> segment (c :: cs).

Inductive segments : list ascii -> Prop :=
  | segments_one cs : segment cs -> segments cs
  | segments_dot cs ds : segment cs -> segments ds -> segments (cs ++ "."%char :: ds).

Definition wf_key (value : string) : Prop :=
  segments (chars value) /\ len value <= MaxKeyBytes.

(** What may follow once the loop is inside a segment. *)
Inductive tail : list ascii -> Prop :=
  | tail_end cs : Forall (fun d => key_char d = true) cs -> tail cs
  | tail_dot cs ds : Forall (fun d => key_char d = true) cs -> segments ds ->
      tail (cs ++ "."%char :: ds).

Lemma segments_tail l :
  segments l <-> exists c cs, l = c :: cs /\ lower c = true /\ tail cs.
Proof.
  split.
  - intros [cs [c cs' Hc Hcs]|cs ds [c cs' Hc Hcs] Hds].
    + exists c, cs'. eauto using tail.
    + exists c, (cs' ++ "."%char :: ds). eauto using tail.
  - intros (c & cs & -> & Hc & [ks Hks|ks ds Hks Hds]).
    + apply segments_one. by constructor.
    + apply (segments_dot (c :: ks)); [by constructor|done].
Qed.

Lemma segments_nonempty l : segments l -> l <> [].
Proof. intros (c & cs & -> & _)%segments_tail. done. Qed.

Lemma dot_not_key_char : key_char "."%char = false.
Proof. reflexivity. Qed.

Lemma lower_not_dot c : lower c = true -> c <> "."%char.
Proof. by intros H ->. Qed.

Lemma lower_key_char c : lower c = true -> key_char c = true.
Proof. unfold key_char. by intros ->. Qed.

Lemma tail_cons c l : c <> "."%char ->
  tail (c :: l) <-> key_char c = true /\ tail l.
Proof.
  intros Hc. split.
  - inversion 1 as [cs Hcs|[|d cs] ds Hcs Hds]; subst; simplify_eq/=.
    + inversion Hcs; subst; eauto using tail.
    + inversion Hcs; subst; eauto using tail.
  - intros [Hk [cs Hcs|cs ds Hcs Hds]].
    + apply tail_end. by constructor.
    + apply (tail_dot (c :: cs)); [by constructor|done].
Qed.

Lemma tail_dot_cons l : tail ("."%char :: l) <-> segments l.
Proof.
  split.
  - inversion 1 as [cs Hcs|[|d cs] ds Hcs Hds]; subst; simplify_eq/=; [|done|].
    + inversion Hcs; subst. done.
    + by inversion Hcs; subst.
  - intros H. by apply (tail_dot []).
Qed.

End Grammar.

Module ParseCorrect.
Import Parser Grammar.

(** The loop accepts exactly [segments] at a segment start and [tail] inside a
    segment; the index test for a trailing dot is the test that nothing follows. *)
Lemma Parse_loop_spec l : forall n i start,
  n = i + blen l ->
  (start = true -> l <> []) ->
  is_ok (Parse_loop n i start l) = true <->
  if start then segments l else tail l.
Proof.
  induction l as [|c l IH]; intros n i start Hn Hne; simpl.
  { destruct start; [by destruct (Hne eq_refl)|].
    split; [intros _; by apply tail_end|done]. }
  rewrite blen_cons in Hn.
  case_bool_decide as Hdot; [subst c|].
  - destruct start; simpl.
    { split; [done|]. by intros (c & cs & [= <- <-] & Hc & _)%segments_tail. }
    rewrite tail_dot_cons.
    case_match; simpl.
    + assert (l = []) as -> by (destruct l; [done|rewrite blen_cons in *; bounds; lia]).
      split; [done|]. intros Hs; by apply segments_nonempty in Hs.
    + apply (IH n (i + 1) true); [lia|].
      intros _ ->. unfold blen in *; simpl in *; lia.
  - assert (is_ok (if negb (key_char c) then Err ErrCharacter
              else Parse_loop n (i + 1) false l) = true <-> key_char c = true /\ tail l) as Hgo.
    { destruct (key_char c); simpl; [|naive_solver].
      rewrite (IH n (i + 1) false); [naive_solver|lia|done]. }
    destruct start; simpl.
    + assert ((code c <? code "a") || (code "z" <? code c) = negb (lower c)) as ->.
      { unfold lower. rewrite negb_andb, !Z.leb_antisym, !negb_involutive. done. }
      rewrite segments_tail. destruct (lower c) eqn:Hl; simpl.
      * rewrite Hgo. apply lower_key_char in Hl as Hk. naive_solver.
      * naive_solver congruence.
    + by rewrite Hgo, tail_cons.
Qed.

Lemma Parse_returns_input value p : Parse value = Ok p -> p = value.
Proof.
  unfold Parse. destruct (_ || _); [done|].
  intros (? & _ & [=])%bind_Ok_inv. done.
Qed.

Lemma Parse_Ok_iff value p : Parse value = Ok p <-> p = value /\ wf_key value.
Proof.
  assert (forall r : result authz_error unit,
    (r ≫= fun _ => Ok value : result authz_error Permission) = Ok p <->
    p = value /\ is_ok r = true) as Hb.
  { intros [[]|e]; simpl; naive_solver. }
  unfold Parse, wf_key, MaxKeyBytes.
  destruct (decide (value = "")) as [->|Hne].
  { split; [done|]. by intros (_ & H%segments_nonempty & _). }
  assert (chars value <> []) by (by destruct value).
  assert (len value <> 0) by (by rewrite len_0).
  case_match.
  - split; [done|]. intros (_ & _ & ?). lia.
  - rewrite Hb, Parse_loop_spec; [|rewrite len_chars; lia|done].
    split; [|naive_solver]. intros [-> ?]. repeat split; [done|lia].
Qed.

End ParseCorrect.

(** ** Permission sets *)

Module PermissionSet.
Import Parser Grammar ParseCorrect.

(** [type Set struct{ values map[Permission]struct{} }]; the zero value has a
    nil map, which reads as the empty map. *)
Record Set_ := { values : gset Permission }.

(** The loop of [New] over the remaining values. *)
Fixpoint New_loop (acc : gset Permission) (vs : list string)
    : result authz_error Set_ :=
  match vs with
  | [] => Ok {| values := acc |}
  | value :: vs => permission ← Parse value; New_loop ({[permission]} ∪ acc) vs
  end.

Definition New (vs : list string) : result authz_error Set_ :=
  if MaxPermission <? blen vs then Err ErrSetSize else New_loop ∅ vs.

Definition Has (s : Set_) (permission : Permission) : bool :=
  bool_decide (permission ∈ values s).

Fixpoint HasAll (s : Set_) (required : list Permission) : bool :=
  match required with
  | [] => true
  | permission :: required => if negb (Has s permission) then false else HasAll s required
  end.

Fixpoint HasAny (s : Set_) (required : list Permission) : bool :=
  match required with
  | [] => false
  | permission :: required => if Has s permission then true else HasAny s required
  end.

Definition Len (s : Set_) : Z := Z.of_nat (size (values s)).

Lemma New_loop_Ok vs : forall acc s,
  New_loop acc vs = Ok s <->
  Forall wf_key vs /\ values s = list_to_set vs ∪ acc.
Proof.
  induction vs as [|v vs IH]; intros acc s; simpl.
  - split.
    + intros [= <-]. split; [constructor|]. set_solver.
    + intros [_ H]. destruct s as [vals]; simpl in *. do 2 f_equal. set_solver.
  - split.
    + intros (p & [-> Hp]%Parse_Ok_iff & [Hvs Hs]%IH)%bind_Ok_inv.
      split; [by constructor|]. rewrite Hs. set_solver.
    + intros [[Hv Hvs]%Forall_cons Hs].
      rewrite (proj2 (Parse_Ok_iff v v)) by done. simpl.
      apply IH. split; [done|]. rewrite Hs. set_solver.
Qed.

Lemma New_loop_Err vs : forall acc e,
  New_loop acc vs = Err e <->
  exists pre v post, vs = pre ++ v :: post /\ Forall wf_key pre /\ Parse v = Err e.
Proof.
  induction vs as [|v vs IH]; intros acc e; simpl.
  - split; [done|]. by intros ([] & ? & ? & ? & _).
  - destruct (Parse v) as [p|e'] eqn:Hp; simpl.
    + rewrite IH. apply Parse_Ok_iff in Hp as [-> Hp]. split.
      * intros (pre & w & post & -> & Hpre & Hw).
        exists (v :: pre), w, post. split_and!; [done|by constructor|done].
      * intros ([|w pre] & x & post & Heq & Hpre & Hx); simplify_eq/=.
        { apply (conj eq_refl), Parse_Ok_iff in Hp. congruence. }
        inversion Hpre; subst. by exists pre, x, post.
    + split.
      * intros [= <-]. exists [], v, vs. eauto.
      * intros ([|w pre] & x & post & Heq & Hpre & Hx); simplify_eq/=; [by rewrite Hp in Hx; simplify_eq|].
        inversion Hpre as [|?? Hw]; subst. apply (conj eq_refl), Parse_Ok_iff in Hw. congruence.
Qed.

(** C19.  [Parse] accepts a byte string exactly when it is a permission key of
    the documented grammar (segments separated by dots, each a lower-case letter
    followed by lower-case letters, digits, underscores and hyphens, at most 100
    bytes in all), and then returns that string unchanged. *)
Theorem Parse_accepts_grammar (value p : string) :
  Parse value = Ok p <-> p = value /\ wf_key value.
Proof. apply Parse_Ok_iff. Qed.

(** [New] succeeds exactly on at most 256 well-formed keys; the set it
    builds has exactly the given keys as members and at most 256 of them. *)
Theorem New_exact_bounded_set (vs : list string) (s : Set_) :
  New vs = Ok s <->
  blen vs <= MaxPermission /\ Forall wf_key vs /\
  (forall p, Has s p = true <-> p ∈ vs) /\ Len s <= MaxPermission.
Proof.
  unfold New, Has, Len. case_match.
  { split; [done|lia]. }
  rewrite New_loop_Ok. split.
  - intros [Hvs Hs]. split_and!; [lia|done|..].
    + intros p. rewrite bool_decide_eq_true, Hs. set_solver.
    + rewrite Hs, (right_id_L ∅ (∪)).
      pose proof (size_list_to_set_le vs). unfold blen in *. lia.
  - intros (_ & Hvs & Hs & _). split; [done|].
    apply set_eq. intros p. specialize (Hs p). rewrite bool_decide_eq_true in Hs.
    set_solver.
Qed.

(** [HasAll] is the conjunction and [HasAny] the disjunction of exact
    membership over the required permissions, with no wildcard, hierarchy or
    administrator rule. *)
Theorem HasAll_HasAny_exact (s : Set_) (required : list Permission) :
  (HasAll s required = true <-> Forall (fun p => p ∈ values s) required) /\
  (HasAny s required = true <-> Exists (fun p => p ∈ values s) required).
Proof.
  unfold Has; split; induction required as [|p ps IH]; simpl; unfold Has.
  - naive_solver.
  - case_bool_decide; simpl; rewrite Forall_cons; naive_solver.
  - rewrite Exists_nil. done.
  - case_bool_decide; simpl; rewrite Exists_cons; naive_solver.
Qed.

End PermissionSet.
