(* ===== verification/Ber.v ===== *)
(** * BER message validation ([directory/ldap/framing.go])

    [Ber] is the validator of complete LDAP messages, [BerGrammar] an inductive
    grammar of the messages it is meant to accept, and [BerCorrect] the proof
    that the validator decides the grammar. *)

From S2P Require Import Prelude.

Module Ber.

Definition maxFrame : Z := 2 ^ 20.

(** [errInvalidFrame]; [OutOfFuel] is no value of the program and is shown
    never to be returned. *)
Inductive frame_error := InvalidFrame | OutOfFuel.

#[export] Instance frame_error_eq_dec : EqDecision frame_error.
Proof. solve_decision. Defined.

(** The loop over the octets of a high tag number; [n] is [5 - count]. *)
Fixpoint highTag (n : nat) (data : list byte) (index : Z) : option Z :=
  match n with
  | O => None
  | S n =>
      if blen data <=? index then None
      else
        value ← data !! Z.to_nat index;
        if Z.land (bval value) 0x80 =? 0 then Some (index + 1)
        else highTag n data (index + 1)
  end.

(** The loop over the octets of a long-form length, with its check before the
    shift. *)
Fixpoint longLength (length : Z) (octets : list byte) : option Z :=
  match octets with
  | [] => Some length
  | value :: octets =>
      if Z.shiftr (Z.shiftl 1 20) 8 <? length then None
      else longLength (Z.lor (Z.shiftl length 8) (bval value)) octets
  end.

(** The tag at the start of [data] and the offset behind it. *)
Definition berTag (data : list byte) : option (Z * Z) :=
  tagByte ← data !! 0%nat;
  let tag := bval tagByte in
  index ← (if Z.land tag 0x1f =? 0x1f then highTag 5 data 1 else Some 1);
  Some (tag, index).

(** The content length encoded at [index] and the offset behind it. *)
Definition berLength (data : list byte) (index : Z) : option (Z * Z) :=
  if blen data <=? index then None
  else
    lengthByte ← data !! Z.to_nat index;
    let length := bval lengthByte in
    let index := index + 1 in
    if negb (Z.land length 0x80 =? 0) then
      let octets := Z.land length 0x7f in
      if (octets <? 1) || (4 <? octets) || (blen data <? index + octets) then None
      else
        length ← longLength 0 (slice data index (index + octets));
        Some (length, index + octets)
    else Some (length, index).

(** The tag, content offset and content length at the start of [data], the
    content lying within [data]. *)
Definition berHeader (data : list byte) : option (Z * Z * Z) :=
  '(tag, index) ← berTag data;
  '(length, index) ← berLength data index;
  if blen data - index <? length then None else Some (tag, index, length).

(** [validateBERElement] returns the end offset and the updated [*nodes]. *)
Fixpoint validateBERElement (fuel : nat) (data : list byte) (depth nodes : Z)
    : result frame_error (Z * Z) :=
  match fuel with
  | O => Err OutOfFuel
  | S fuel =>
      let nodes := nodes + 1 in
      if (32 <? depth) || (4096 <? nodes) || (blen data <? 2) then Err InvalidFrame
      else
        match berHeader data with
        | None => Err InvalidFrame
        | Some (tag, index, length) =>
            let end_ := index + length in
            if negb (Z.land tag 0x20 =? 0) then
              validateChildren fuel data depth nodes index end_
            else Ok (end_, nodes)
        end
  end
with validateChildren (fuel : nat) (data : list byte) (depth nodes index end_ : Z)
    : result frame_error (Z * Z) :=
  match fuel with
  | O => Err OutOfFuel
  | S fuel =>
      if index <? end_ then
        '(consumed, nodes) ← validateBERElement fuel (slice data index end_) (depth + 1) nodes;
        validateChildren fuel data depth nodes (index + consumed) end_
      else Ok (end_, nodes)
  end.

Definition validateBERFrame (frame : list byte) : result frame_error unit :=
  if (blen frame <? 2) || (maxFrame <? blen frame) ||
     ((bval <$> frame !! 0%nat) != Some 0x30) then Err InvalidFrame
  else
    '(end_, _) ← validateBERElement (2 + length frame) frame 0 0;
    if end_ != blen frame then Err InvalidFrame else Ok tt.

End Ber.

(** ** The grammar of accepted messages *)

Module BerGrammar.
Import Ber.

(** The octets of a high tag number: a continuation bit on all but the last. *)
Inductive highOctets : list byte -> Prop :=
  | high_last v : Z.land (bval v) 0x80 = 0 -> highOctets [v]
  | high_more v vs : Z.land (bval v) 0x80 <> 0 -> highOctets vs -> highOctets (v :: vs).

Inductive identifier : Z -> list byte -> Prop :=
  | id_low b : Z.land (bval b) 0x1f <> 0x1f -> identifier (bval b) [b]
  | id_high b hs : Z.land (bval b) 0x1f = 0x1f -> highOctets hs -> blen hs <= 5 ->
      identifier (bval b) (b :: hs).

(** The big-endian value of a list of octets. *)
Definition beValue (octets : list byte) : Z :=
  fold_left (fun acc v => acc * 256 + bval v) octets 0.

Inductive lengthOctets : Z -> list byte -> Prop :=
  | len_short b : bval b < 128 -> lengthOctets (bval b) [b]
  | len_long b octets : bval b = 128 + blen octets -> 1 <= blen octets <= 4 ->
      lengthOctets (beValue octets) (b :: octets).

(** [element k n x]: [x] is one BER element with [n] nodes on at most [k]
    levels.  The contents of a primitive element are arbitrary bytes. *)
Inductive element : nat -> Z -> list byte -> Prop :=
  | el_primitive k tag ids lens content :
      identifier tag ids -> lengthOctets (blen content) lens ->
      Z.land tag 0x20 = 0 ->
      element (S k) 1 (ids ++ lens ++ content)
  | el_constructed k n tag ids lens content :
      identifier tag ids -> lengthOctets (blen content) lens ->
      Z.land tag 0x20 <> 0 -> elements k n content ->
      element (S k) (1 + n) (ids ++ lens ++ content)
with elements : nat -> Z -> list byte -> Prop :=
  | els_nil k : elements k 0 []
  | els_cons k n m x y : element k n x -> elements k m y -> elements k (n + m) (x ++ y).

Scheme element_mut := Minimality for element Sort Prop
  with elements_mut := Minimality for elements Sort Prop.

(** A complete message: a SEQUENCE of at most 1 MiB, 33 levels, 4096 nodes. *)
Definition message (frame : list byte) : Prop :=
  exists n, element 33 n frame /\ n <= 4096 /\ blen frame <= maxFrame /\
    exists rest, frame = byte_of 0x30 :: rest.

End BerGrammar.

(** ** The validator decides the grammar *)

Module BerCorrect.
Import Ber BerGrammar.

Lemma land_80 b : Z.land (bval b) 0x80 = if bval b <? 128 then 0 else 128.
Proof. by destruct b. Qed.

Lemma land_7f b : Z.land (bval b) 0x7f = if bval b <? 128 then bval b else bval b - 128.
Proof. by destruct b. Qed.

Lemma shift_in_byte acc v : 0 <= acc ->
  Z.lor (Z.shiftl acc 8) (bval v) = acc * 256 + bval v.
Proof.
  intros Hacc. change 256 with (2 ^ 8). rewrite <- (Z.shiftl_mul_pow2 acc 8) by lia.
  assert (Z.land (Z.shiftl acc 8) (bval v) = 0) as Hland.
  { apply Z.bits_inj'. intros i Hi. rewrite Z.land_spec, Z.bits_0.
    destruct (Z.ltb_spec i 8) as [Hlt|Hge].
    - by rewrite Z.shiftl_spec_low.
    - bounds. rewrite (Z.bits_above_log2 (bval v) i), andb_false_r; [done|lia|].
      destruct (decide (bval v = 0)) as [->|]; [simpl; lia|].
      apply Z.log2_lt_pow2; [lia|].
      apply Z.lt_le_trans with (2 ^ 8); [lia|]. apply Z.pow_le_mono_r; lia. }
  pose proof (Z.add_lor_land (Z.shiftl acc 8) (bval v)). lia.
Qed.

Definition beFrom (acc : Z) (octets : list byte) : Z :=
  fold_left (fun acc v => acc * 256 + bval v) octets acc.

Lemma beFrom_ge octets : forall acc, 0 <= acc -> acc <= beFrom acc octets.
Proof.
  induction octets as [|v os IH]; intros acc Hacc; simpl; [lia|].
  bounds. specialize (IH (acc * 256 + bval v)). unfold beFrom in *. lia.
Qed.

Lemma longLength_value octets : forall acc L, 0 <= acc ->
  longLength acc octets = Some L -> L = beFrom acc octets.
Proof.
  induction octets as [|v os IH]; intros acc L Hacc; simpl; [by intros [= ->]|].
  case_match; [done|]. rewrite shift_in_byte by done. intros HL.
  apply IH in HL; [done|]. bounds. lia.
Qed.

(** The overflow guard of the loop never rejects a length that fits a frame. *)
Lemma longLength_fits octets : forall acc, 0 <= acc ->
  beFrom acc octets <= maxFrame -> longLength acc octets = Some (beFrom acc octets).
Proof.
  induction octets as [|v os IH]; intros acc Hacc Hfit; simpl in *; [done|].
  bounds. assert (Hge : acc * 256 + bval v <= beFrom (acc * 256 + bval v) os)
    by (apply beFrom_ge; lia).
  change (Z.shiftr (Z.shiftl 1 20) 8) with 4096.
  unfold beFrom, maxFrame in *. simpl in *.
  rewrite (proj2 (Z.ltb_ge 4096 acc)) by lia.
  rewrite shift_in_byte by done. apply IH; lia.
Qed.

Lemma lookup_middle (pre suf : list byte) v :
  (pre ++ v :: suf) !! Z.to_nat (blen pre) = Some v.
Proof. unfold blen. rewrite Nat2Z.id. by apply list_lookup_middle. Qed.

Lemma highTag_spec n : forall pre suf j,
  highTag n (pre ++ suf) (blen pre) = Some j <->
  exists hs rest, suf = hs ++ rest /\ highOctets hs /\ blen hs <= Z.of_nat n /\
    j = blen pre + blen hs.
Proof.
  induction n as [|n IH]; intros pre suf j; simpl.
  { split; [done|]. intros (hs & ? & -> & Hh & Hn & _).
    destruct Hh; rewrite blen_cons in Hn; bounds; lia. }
  rewrite blen_app. destruct suf as [|v suf].
  { rewrite (proj2 (Z.leb_le _ _)) by (unfold blen; simpl; lia).
    split; [done|]. intros (hs & rest & Heq & Hh & _).
    destruct Hh; discriminate. }
  rewrite blen_cons, (proj2 (Z.leb_gt _ _)) by (bounds; lia).
  rewrite lookup_middle. simpl.
  case_match eqn:Hv.
  - split.
    + intros [= <-]. exists [v], suf. split_and!; [done|constructor; lia|unfold blen; simpl; lia..].
    + intros (hs & rest & Heq & Hh & Hn & ->).
      destruct Hh; simplify_eq/=; [|lia]. unfold blen; simpl; f_equal; lia.
  - replace (pre ++ v :: suf) with ((pre ++ [v]) ++ suf) by (by rewrite <- app_assoc).
    replace (blen pre + 1) with (blen (pre ++ [v])) by (by rewrite blen_app).
    rewrite IH, blen_app. split.
    + intros (hs & rest & -> & Hh & Hn & ->). exists (v :: hs), rest.
      rewrite blen_cons. split_and!; [done|constructor; [lia|done]|lia|unfold blen; simpl; lia].
    + intros (hs & rest & Heq & Hh & Hn & ->).
      destruct Hh; simplify_eq/=; [lia|]. exists vs, rest.
      rewrite !blen_cons in *. split_and!; [done..|lia|unfold blen; simpl; lia].
Qed.

Lemma highOctets_nonempty hs : highOctets hs -> 1 <= blen hs.
Proof. intros []; rewrite blen_cons; bounds; lia. Qed.

Lemma highOctets_prefix hs ks r : highOctets hs -> highOctets ks ->
  forall r', hs ++ r = ks ++ r' -> hs = ks.
Proof.
  intros Hh. revert ks. induction Hh; intros ks Hk r' Heq; destruct Hk; simplify_eq/=; try lia.
  - done.
  - f_equal. eauto.
Qed.

Lemma berTag_spec data tag index :
  berTag data = Some (tag, index) <->
  exists ids rest, data = ids ++ rest /\ identifier tag ids /\ index = blen ids.
Proof.
  unfold berTag. destruct data as [|b data]; simpl.
  { split; [done|]. intros (ids & rest & Heq & Hid & _). destruct Hid; discriminate. }
  case_match eqn:Htag.
  - pose proof (highTag_spec 5 [b] data) as Hspec. simpl app in Hspec.
    change (blen [b]) with 1 in Hspec.
    split.
    + intros (j & (hs & rest & -> & Hh & Hn & ->)%Hspec & [= <- <-])%bind_Some.
      exists (b :: hs), rest. rewrite blen_cons.
      split_and!; [done|apply id_high; [lia|done|lia]|done].
    + intros (ids & rest & Heq & Hid & ->). destruct Hid as [|b' hs ? Hh Hn]; simplify_eq/=; [lia|].
      rewrite (proj2 (Hspec (1 + blen hs))); [by rewrite blen_cons|].
      exists hs, rest. split_and!; [done..|lia|done].
  - split.
    + intros [= <- <-]. exists [b], data. split_and!; [done|apply id_low; lia|done].
    + intros (ids & rest & Heq & Hid & ->). destruct Hid; simplify_eq/=; [done|lia].
Qed.

Lemma berLength_sound ids suf L index :
  berLength (ids ++ suf) (blen ids) = Some (L, index) ->
  exists lens rest, suf = lens ++ rest /\ lengthOctets L lens /\
    index = blen ids + blen lens.
Proof.
  unfold berLength. rewrite blen_app.
  destruct suf as [|b suf].
  { by rewrite (proj2 (Z.leb_le _ _)) by (unfold blen; simpl; lia). }
  rewrite blen_cons, (proj2 (Z.leb_gt _ _)) by (bounds; lia).
  rewrite lookup_middle. simpl. rewrite land_80, land_7f.
  destruct (bval b <? 128) eqn:Hb; simpl.
  - intros [= <- <-]. exists [b], suf. split_and!; [done|apply len_short; lia|done].
  - case_match eqn:Hg; [done|]. intros (L' & HL & [= <- <-])%bind_Some.
    apply longLength_value in HL; [|lia]. split_guards.
    assert (Hsuf : suf = take (Z.to_nat (bval b - 128)) suf ++ drop (Z.to_nat (bval b - 128)) suf)
      by (by rewrite take_drop).
    set (os := take _ suf) in *. set (rest := drop _ suf) in *.
    assert (Hos : blen os = bval b - 128).
    { unfold os, blen. rewrite length_take. unfold blen in *. lia. }
    rewrite Hsuf in HL.
    replace (ids ++ b :: os ++ rest) with ((ids ++ [b]) ++ os ++ rest) in HL
      by (by rewrite <- app_assoc).
    replace (blen ids + 1) with (blen (ids ++ [b])) in HL by (by rewrite blen_app).
    rewrite <- Hos, slice_middle in HL.
    exists (b :: os), rest. rewrite blen_cons. split_and!.
    + by rewrite Hsuf at 1.
    + subst L'. apply len_long; lia.
    + lia.
Qed.

Lemma berLength_complete ids lens rest L :
  lengthOctets L lens -> L <= maxFrame ->
  berLength (ids ++ lens ++ rest) (blen ids) = Some (L, blen ids + blen lens).
Proof.
  intros HL Hmax. unfold berLength. rewrite !blen_app.
  destruct HL as [b Hb|b os Hb Hos]; rewrite blen_cons.
  - rewrite (proj2 (Z.leb_gt _ _)) by (bounds; lia).
    change (ids ++ [b] ++ rest) with (ids ++ b :: rest).
    rewrite lookup_middle; simpl. rewrite land_80, (proj2 (Z.ltb_lt _ _)) by done. simpl. done.
  - rewrite (proj2 (Z.leb_gt _ _)) by (bounds; lia).
    change (ids ++ (b :: os) ++ rest) with (ids ++ b :: (os ++ rest)).
    rewrite lookup_middle; simpl. rewrite land_80, land_7f.
    rewrite (proj2 (Z.ltb_ge _ _)) by lia. simpl.
    replace (bval b - 128) with (blen os) by lia.
    rewrite (proj2 (orb_false_iff _ _)); [|split; [|bounds; lia]; bounds; lia].
    replace (ids ++ b :: os ++ rest) with ((ids ++ [b]) ++ os ++ rest) by (by rewrite <- app_assoc).
    replace (blen ids + 1) with (blen (ids ++ [b])) by (by rewrite blen_app).
    rewrite slice_middle, longLength_fits by (unfold beValue, beFrom in *; lia). simpl.
    rewrite blen_app. do 2 f_equal. unfold blen at 2. simpl. lia.
Qed.

Lemma lengthOctets_nonneg L lens : lengthOctets L lens -> 0 <= L.
Proof.
  intros []; [bounds; lia|]. pose proof (beFrom_ge octets 0). unfold beValue, beFrom in *. lia.
Qed.

Lemma identifier_nonempty tag ids : identifier tag ids -> 1 <= blen ids.
Proof. intros []; rewrite blen_cons; bounds; lia. Qed.

Lemma lengthOctets_nonempty L lens : lengthOctets L lens -> 1 <= blen lens.
Proof. intros []; rewrite blen_cons; bounds; lia. Qed.

Lemma berHeader_sound data tag index L :
  berHeader data = Some (tag, index, L) ->
  exists ids lens content rest, data = ids ++ lens ++ content ++ rest /\
    identifier tag ids /\ lengthOctets L lens /\ blen content = L /\
    index = blen ids + blen lens.
Proof.
  unfold berHeader.
  intros ([t i] & (ids & suf & -> & Hid & ->)%berTag_spec & Hrest)%bind_Some.
  apply bind_Some in Hrest as ([L' i'] & (lens & rest & -> & HL & ->)%berLength_sound & Hrest).
  case_match; [done|]. simplify_eq.
  exists ids, lens, (take (Z.to_nat L) rest), (drop (Z.to_nat L) rest).
  rewrite take_drop. split_and!; [done..| |done].
  pose proof (lengthOctets_nonneg _ _ HL). unfold blen in *.
  rewrite !length_app in *. rewrite length_take. lia.
Qed.

Lemma berHeader_complete tag ids lens content rest :
  identifier tag ids -> lengthOctets (blen content) lens ->
  blen (ids ++ lens ++ content ++ rest) <= maxFrame ->
  berHeader (ids ++ lens ++ content ++ rest) =
    Some (tag, blen ids + blen lens, blen content).
Proof.
  intros Hid HL Hmax. unfold berHeader.
  rewrite (proj2 (berTag_spec (ids ++ lens ++ content ++ rest) tag (blen ids)))
    by eauto. simpl.
  rewrite !blen_app in *.
  rewrite (berLength_complete _ _ _ (blen content)) by (bounds; first [done|lia]). simpl.
  rewrite (proj2 (Z.ltb_ge _ _)) by (bounds; lia). done.
Qed.

(** ** Soundness, completeness and enough fuel *)

(** The two mutually recursive functions are handled together: [elem_claim]
    and [children_claim] are what one unit of fuel more preserves. *)
Definition accepts (k : Z) (nodes : Z) (data : list byte) (end_ nodes' : Z) : Prop :=
  exists x rest n, data = x ++ rest /\ blen x = end_ /\
    element (Z.to_nat k) n x /\ nodes' = nodes + n /\ nodes' <= 4096.

Definition acceptsAll (k : Z) (nodes : Z) (data : list byte) (nodes' : Z) : Prop :=
  exists n, elements (Z.to_nat k) n data /\ nodes' = nodes + n /\ nodes' <= 4096.

Lemma element_size k n x : element k n x -> 2 <= blen x.
Proof.
  intros []; rewrite !blen_app;
    pose proof (identifier_nonempty _ _ H); pose proof (lengthOctets_nonempty _ _ H0);
    bounds; lia.
Qed.

Lemma elements_nodes_nonneg k n x : elements k n x -> 0 <= n.
Proof.
  revert k n x. apply (elements_mut (fun _ n _ => 0 <= n) (fun _ n _ => 0 <= n)); lia.
Qed.

Lemma element_nodes_pos k n x : element k n x -> 1 <= n.
Proof. intros []; [lia|]. pose proof (elements_nodes_nonneg _ _ _ H2). lia. Qed.

Lemma validate_sound fuel :
  (forall data depth nodes end_ nodes', 0 <= depth -> blen data <= maxFrame ->
    validateBERElement fuel data depth nodes = Ok (end_, nodes') ->
    accepts (33 - depth) nodes data end_ nodes') /\
  (forall pre mid suf depth nodes end_ nodes', 0 <= depth ->
    blen (pre ++ mid ++ suf) <= maxFrame -> nodes <= 4096 ->
    validateChildren fuel (pre ++ mid ++ suf) depth nodes (blen pre) (blen pre + blen mid)
      = Ok (end_, nodes') ->
    end_ = blen pre + blen mid /\ acceptsAll (32 - depth) nodes mid nodes').
Proof.
  induction fuel as [|fuel [IHe IHc]]; [done|]. split.
  - intros data depth nodes end_ nodes' Hdepth Hmax. simpl.
    case_match eqn:Hg; [done|]. split_guards.
    destruct (berHeader data) as [[[tag index] L]|] eqn:Hh; [|done].
    apply berHeader_sound in Hh as (ids & lens & content & rest & -> & Hid & HL & HcL & ->).
    subst L. unfold accepts.
    replace (Z.to_nat (33 - depth)) with (S (Z.to_nat (32 - depth))) by lia.
    case_match eqn:Htag.
    + replace (ids ++ lens ++ content ++ rest) with ((ids ++ lens) ++ content ++ rest)
        by (by rewrite <- app_assoc).
      rewrite <- blen_app. intros Hch.
      apply IHc in Hch as [-> (n & Hels & -> & Hn)];
        [|lia|by rewrite <- app_assoc|lia].
      exists (ids ++ lens ++ content), rest, (1 + n).
      rewrite <- !app_assoc, !blen_app. split_and!; [done|lia| |lia..].
      eapply el_constructed; eauto; lia.
    + intros [= <- <-]. exists (ids ++ lens ++ content), rest, 1.
      rewrite <- !app_assoc, !blen_app. split_and!; [done|lia| |lia..].
      eapply el_primitive; eauto; lia.
  - intros pre mid suf depth nodes end_ nodes' Hdepth Hmax Hnodes. simpl. case_match eqn:Hlt.
    + intros ([consumed nodes1] & He & Hrest)%bind_Ok_inv.
      rewrite slice_middle in He.
      apply IHe in He as (x & rest & n & -> & Hx & Hel & -> & Hn);
        [|lia|rewrite !blen_app in *; bounds; lia].
      rewrite <- Hx in Hrest. rewrite <- !app_assoc in Hrest.
      replace (pre ++ x ++ rest ++ suf) with ((pre ++ x) ++ rest ++ suf) in Hrest
        by (by rewrite <- app_assoc).
      rewrite (blen_app x rest), Z.add_assoc, <- (blen_app pre x) in Hrest.
      apply IHc in Hrest as [-> (m & Hels & -> & Hm)];
        [|lia|rewrite !blen_app in *; bounds; lia|lia].
      rewrite !blen_app. split; [lia|]. exists (n + m).
      split_and!; [|lia..]. replace (32 - depth) with (33 - (depth + 1)) by lia.
      apply els_cons; [done|]. by replace (33 - (depth + 1)) with (32 - depth) by lia.
    + intros [= <- <-]. split; [done|]. exists 0. split_and!; [|lia..].
      assert (mid = []) as -> by (destruct mid; [done|rewrite blen_cons in *; bounds; lia]).
      constructor.
Qed.

Definition completes (k : nat) (n : Z) (x : list byte) : Prop :=
  forall fuel rest depth nodes, k = Z.to_nat (33 - depth) -> 0 <= depth ->
    blen (x ++ rest) <= maxFrame -> nodes + n <= 4096 -> 0 <= nodes ->
    blen x <= Z.of_nat fuel ->
    validateBERElement fuel (x ++ rest) depth nodes = Ok (blen x, nodes + n).

Definition completesAll (k : nat) (n : Z) (y : list byte) : Prop :=
  forall fuel pre suf depth nodes, k = Z.to_nat (32 - depth) -> 0 <= depth ->
    blen (pre ++ y ++ suf) <= maxFrame -> nodes + n <= 4096 -> 0 <= nodes ->
    blen y < Z.of_nat fuel ->
    validateChildren fuel (pre ++ y ++ suf) depth nodes (blen pre) (blen pre + blen y) =
      Ok (blen pre + blen y, nodes + n).

Lemma validate_complete k n x : element k n x -> completes k n x.
Proof.
  revert k n x. apply (element_mut completes completesAll).
  - intros k tag ids lens content Hid HL Htag [|fuel] rest depth nodes Hk Hd Hmax Hn Hn0 Hfuel;
      pose proof (identifier_nonempty _ _ Hid); pose proof (lengthOctets_nonempty _ _ HL);
      rewrite !blen_app in *; [bounds; lia|].
    simpl. rewrite <- !app_assoc.
    rewrite (proj2 (orb_false_iff _ _)); [|rewrite !blen_app; bounds; lia].
    rewrite (berHeader_complete tag) by (try done; rewrite !blen_app; lia).
    rewrite Htag. simpl. do 2 f_equal. lia.
  - intros k n tag ids lens content Hid HL Htag Hels IH [|fuel] rest depth nodes Hk Hd Hmax Hn Hn0 Hfuel;
      pose proof (identifier_nonempty _ _ Hid); pose proof (lengthOctets_nonempty _ _ HL);
      pose proof (elements_nodes_nonneg _ _ _ Hels);
      rewrite !blen_app in *; [bounds; lia|].
    simpl. rewrite <- !app_assoc.
    rewrite (proj2 (orb_false_iff _ _)); [|rewrite !blen_app; bounds; lia].
    rewrite (berHeader_complete tag) by (try done; rewrite !blen_app; lia).
    rewrite (proj2 (Z.eqb_neq _ _)) by done. simpl.
    replace (ids ++ lens ++ content ++ rest) with ((ids ++ lens) ++ content ++ rest)
      by (by rewrite <- app_assoc).
    rewrite <- blen_app, IH by (rewrite ?blen_app; bounds; lia).
    rewrite blen_app. do 2 f_equal; lia.
  - intros k [|fuel] pre suf depth nodes Hk Hd Hmax Hn Hn0 Hfuel; [unfold blen in *; simpl in *; lia|].
    simpl. change (blen []) with 0. rewrite (proj2 (Z.ltb_ge _ _)) by lia. do 2 f_equal; lia.
  - intros k n m x y Hx IHx Hy IHy [|fuel] pre suf depth nodes Hk Hd Hmax Hn Hn0 Hfuel;
      pose proof (element_size _ _ _ Hx); pose proof (element_nodes_pos _ _ _ Hx);
      pose proof (elements_nodes_nonneg _ _ _ Hy);
      rewrite !blen_app in *; [bounds; lia|].
    simpl. rewrite (proj2 (Z.ltb_lt _ _)) by (bounds; lia).
    rewrite <- (blen_app x y), slice_middle.
    rewrite IHx by (rewrite ?blen_app; bounds; lia). simpl.
    rewrite <- !app_assoc, blen_app, Z.add_assoc.
    replace (pre ++ x ++ y ++ suf) with ((pre ++ x) ++ y ++ suf) by (by rewrite <- app_assoc).
    rewrite <- (blen_app pre x), IHy by (rewrite ?blen_app; bounds; lia).
    rewrite blen_app. do 2 f_equal; lia.
Qed.

(** Every call consumes at least the two bytes of a header, so fuel above the
    number of bytes is enough on any input, valid or not. *)
Lemma berHeader_index data tag index L :
  berHeader data = Some (tag, index, L) -> 2 <= index /\ 0 <= L /\ index + L <= blen data.
Proof.
  intros (ids & lens & content & rest & -> & Hid & HL & <- & ->)%berHeader_sound.
  pose proof (identifier_nonempty _ _ Hid). pose proof (lengthOctets_nonempty _ _ HL).
  rewrite !blen_app. bounds. lia.
Qed.

Lemma validate_consumes fuel :
  (forall data depth nodes end_ nodes',
    validateBERElement fuel data depth nodes = Ok (end_, nodes') -> 2 <= end_) /\
  (forall data depth nodes index end_ e nodes',
    validateChildren fuel data depth nodes index end_ = Ok (e, nodes') -> e = end_).
Proof.
  induction fuel as [|fuel [IHe IHc]]; [done|]. split; simpl.
  - intros data depth nodes end_ nodes'. case_match; [done|].
    destruct (berHeader data) as [[[tag index] L]|] eqn:Hh; [|done].
    apply berHeader_index in Hh. case_match.
    + intros ->%IHc. lia.
    + intros [= <- <-]. lia.
  - intros data depth nodes index end_ e nodes'. case_match.
    + intros ([consumed nodes1] & _ & Hrest%IHc)%bind_Ok_inv. done.
    + by intros [= <- <-].
Qed.

Lemma validate_fuel fuel :
  (forall data depth nodes, blen data <= Z.of_nat fuel -> 0 < Z.of_nat fuel ->
    validateBERElement fuel data depth nodes <> Err OutOfFuel) /\
  (forall data depth nodes index end_, 0 <= index -> end_ - index < Z.of_nat fuel ->
    0 < Z.of_nat fuel ->
    validateChildren fuel data depth nodes index end_ <> Err OutOfFuel).
Proof.
  induction fuel as [|fuel [IHe IHc]].
  { split; intros; exfalso; bounds; lia. }
  split; simpl.
  - intros data depth nodes Hfuel _. case_match; [done|].
    destruct (berHeader data) as [[[tag index] L]|] eqn:Hh; [|done].
    apply berHeader_index in Hh. case_match; [|done]. apply IHc; lia.
  - intros data depth nodes index end_ Hidx Hfuel _. case_match; [|done].
    set (sub := slice data index end_).
    assert (blen sub <= end_ - index).
    { unfold sub, slice, blen. rewrite length_take. lia. }
    destruct (validateBERElement fuel sub (depth + 1) nodes) as [[consumed n]|e] eqn:He; simpl.
    + apply (proj1 (validate_consumes fuel)) in He. apply IHc; lia.
    + intros [= ->]. by apply IHe in He; [|lia..].
Qed.

Lemma byte_of_30 b : bval b = 0x30 <-> b = byte_of 0x30.
Proof. split; [intros H; by rewrite <- H, byte_of_bval|by intros ->]. Qed.

Lemma validateBERFrame_iff frame : validateBERFrame frame = Ok tt <-> message frame.
Proof.
  unfold validateBERFrame, message. split.
  - case_match eqn:Hg; [done|]. split_guards.
    intros ([end_ nodes] & Hv & Hend)%bind_Ok_inv.
    apply (validate_sound _) in Hv as (x & rest & n & Hfr & Hx & Hel & -> & Hn); [|lia..].
    case_bool_decide; [|done]. subst.
    assert (rest = []) as -> by (destruct rest; [done|rewrite blen_app, blen_cons in *; bounds; lia]).
    rewrite (right_id_L [] (++)) in *. exists n. split_and!; [done|lia..|].
    destruct x as [|b x]; [done|]. simplify_eq/=.
    match goal with H : bval b = 48 |- _ => apply byte_of_30 in H as -> end. eauto.
  - intros (n & Hel & Hn & Hmax & rest & Hfr).
    pose proof (element_size _ _ _ Hel) as Hsz. pose proof (element_nodes_pos _ _ _ Hel) as Hpos.
    rewrite (proj2 (orb_false_iff _ _)); [|split; [lia|]; by rewrite Hfr].
    pose proof (validate_complete _ _ _ Hel (2 + length frame)%nat [] 0 0) as Hc.
    rewrite (right_id_L [] (++)) in Hc.
    rewrite Hc by (unfold blen in *; lia). simpl. by rewrite bool_decide_true.
Qed.

End BerCorrect.

(** ** Properties *)

Module BerProperties.
Import Ber BerGrammar BerCorrect.

(** C1.  [validateBERFrame] accepts a byte sequence exactly when it is one
    complete BER SEQUENCE of at most 1 MiB, with at most 33 nested levels and
    4096 nodes, whose lengths and high tag numbers use at most four and five
    octets; the early overflow guard on lengths rejects no such message. *)
Theorem validateBERFrame_decides_grammar (frame : list byte) :
  validateBERFrame frame = Ok tt <-> message frame.
Proof. apply validateBERFrame_iff. Qed.

(** C24.  Validation terminates on every input: the recursion, bounded here by
    the number of bytes, never runs out, so each frame is accepted or rejected
    with [errInvalidFrame]. *)
Theorem validateBERFrame_terminates (frame : list byte) :
  validateBERFrame frame = Ok tt \/ validateBERFrame frame = Err InvalidFrame.
Proof.
  unfold validateBERFrame. case_match; [by right|].
  destruct (validateBERElement _ frame 0 0) as [[end_ nodes]|e] eqn:Hv; simpl.
  - case_match; auto.
  - destruct e; [by right|].
    by apply (proj1 (validate_fuel (2 + length frame))) in Hv; [|unfold blen; lia..].
Qed.

(** No step of the length loop overflows a 32-bit [int]: after any octets
    the loop has accepted, the accumulated length is their big-endian value and
    stays below 2^20 + 256, and so does the shifted value of the next step. *)
Theorem longLength_fits_int32 (octets : list byte) (length : Z) :
  longLength 0 octets = Some length ->
  length = beValue octets /\ 0 <= length < 2 ^ 20 + 256 /\ length < 2 ^ 31.
Proof.
  intros HL. assert (length = beValue octets) as -> by (by apply longLength_value in HL).
  assert (forall os acc L, 0 <= acc < 2 ^ 20 + 256 -> longLength acc os = Some L ->
    0 <= L < 2 ^ 20 + 256) as Hgo.
  { induction os as [|v os IH]; intros acc L Hacc; simpl; [by intros [= <-]|].
    change (Z.shiftr (Z.shiftl 1 20) 8) with 4096. case_match; [done|].
    rewrite shift_in_byte by lia. apply IH. bounds. lia. }
  pose proof (Hgo octets 0 _ ltac:(lia) HL). lia.
Qed.

Definition sample_octets : list byte := map byte_of [0x0f; 0xff; 0xff].

Lemma longLength_fits_int32_witness :
  longLength 0 sample_octets = Some 1048575 /\
  1048575 = beValue sample_octets /\ 0 <= 1048575 < 2 ^ 20 + 256 /\ 1048575 < 2 ^ 31.
Proof.
  split; [vm_compute; reflexivity|].
  apply (longLength_fits_int32 sample_octets 1048575). vm_compute; reflexivity.
Defined.

End BerProperties.
