(* ===== verification/Wire.v ===== *)
(** * The LDAP connection wrappers ([framedConn] of
    [directory/ldap/framing.go], [boundedConn] of [directory/ldap/reader.go])

    A raw connection, the byte budget around it ([boundedConn]) and the frame
    reader around that ([framedConn]).  The wrappers talk to each other through
    the class [Reader], Go's [io.Reader]; [StreamReader] is the part of its
    contract they rely on. *)

From S2P Require Import Prelude Ber.

Module Wire.
Import Ber.

(** The errors a read can return.  [ReadStuck] stands for a loop that never
    ends because a reader keeps returning [(0, nil)]; no reader satisfying the
    [StreamReader] laws produces it. *)
Inductive io_error := EOF | ErrUnexpectedEOF | errInvalidFrame | NetError (msg : string) | ReadStuck.

#[export] Instance io_error_eq_dec : EqDecision io_error.
Proof. solve_decision. Defined.

(** [Read(p)] with [len(p) = n]: the new state, the bytes stored in [p], and
    the error. *)
Class Reader (C : Type) := read : C -> Z -> C * list byte * option io_error.

(** What a wrapper may rely on: a reader delivers a stream of bytes in order,
    in chunks of its own choosing, then fails. *)
Class StreamReader (C : Type) `{Reader C} := {
  stream : C -> list byte;
  read_stream c n c' bs e : 0 <= n -> read c n = (c', bs, e) ->
    stream c = bs ++ stream c' /\ blen bs <= n;
  read_live c n c' bs e : 0 < n -> stream c <> [] -> read c n = (c', bs, e) ->
    bs <> [] /\ (e <> None -> stream c' = []);
  read_end c n c' bs e : 0 < n -> stream c = [] -> read c n = (c', bs, e) -> e <> None
}.

(** *** [boundedConn]: a byte budget *)

Record boundedConn (C : Type) := { bc_Conn : C; remaining : Z }.
Arguments bc_Conn {C}.
Arguments remaining {C}.

Definition boundedRead `{Reader C} (c : boundedConn C) (n : Z)
    : boundedConn C * list byte * option io_error :=
  if remaining c <=? 0 then (c, [], Some ErrUnexpectedEOF)
  else
    let n := if remaining c <? n then remaining c else n in
    let '(conn, bs, err) := read (bc_Conn c) n in
    ({| bc_Conn := conn; remaining := remaining c - blen bs |}, bs, err).

#[export] Instance boundedConn_Reader `{Reader C} : Reader (boundedConn C) := boundedRead.

(** *** A raw connection: the chunks the network delivers, then an error *)

Record rawConn := { chunks : list (list byte); failure : io_error }.

Fixpoint rawRead (cs : list (list byte)) (f : io_error) (n : Z)
    : rawConn * list byte * option io_error :=
  match cs with
  | [] => ({| chunks := []; failure := f |}, [], Some f)
  | [] :: cs => rawRead cs f n
  | chunk :: cs =>
      ({| chunks := drop (Z.to_nat n) chunk :: cs; failure := f |}, take (Z.to_nat n) chunk, None)
  end.

#[export] Instance rawConn_Reader : Reader rawConn :=
  fun c n => if n <=? 0 then (c, [], None) else rawRead (chunks c) (failure c) n.

(** *** [io.ReadFull] *)

(** The loop [for n < min && err == nil] of [io.ReadAtLeast] with [min = len(buf)].  A
    reader that obeys the [StreamReader] laws delivers a byte with each call that does
    not fail, so one unit of fuel for each byte is enough ([readAtLeast_spec]). *)
Fixpoint readAtLeast `{Reader C} (fuel : nat) (c : C) (need : Z) (got : list byte)
    : C * list byte * option io_error :=
  if need <=? blen got then (c, got, None)
  else
    match fuel with
    | O => (c, got, Some ReadStuck)
    | S fuel =>
        match read c (need - blen got) with
        | (c, bs, None) => readAtLeast fuel c need (got ++ bs)
        | (c, bs, Some err) => (c, got ++ bs, Some err)
        end
    end.

(** A computation on a connection that may fail with an error. *)
Definition M (C A : Type) : Type := C -> C * result io_error A.

Definition mret {C A} (a : A) : M C A := fun c => (c, Ok a).
Definition throw {C A} (e : io_error) : M C A := fun c => (c, Err e).
Definition mbind {C A B} (m : M C A) (f : A -> M C B) : M C B := fun c =>
  match m c with
  | (c, Ok a) => f a c
  | (c, Err e) => (c, Err e)
  end.

Notation "'let*' x := m 'in' k" := (mbind m (fun x => k))
  (at level 200, x pattern, k at level 200, right associativity) : go_scope.

Definition readFull `{Reader C} (n : Z) : M C (list byte) := fun c =>
  let '(c, got, err) := readAtLeast (Z.to_nat n) c n [] in
  if n <=? blen got then (c, Ok got)
  else match err with
    | None => (c, Ok got)
    | Some EOF => (c, Err (if 0 <? blen got then ErrUnexpectedEOF else EOF))
    | Some e => (c, Err e)
    end.

(** *** [framedConn]: complete validated messages only *)

Record framedConn (C : Type) := { fc_Conn : C; buffer : option (list byte); frames : Z }.
Arguments fc_Conn {C}.
Arguments buffer {C}.
Arguments frames {C}.

(** Lines 29 to 67 of [framedConn.Read]: read one frame from the connection. *)
Definition readFrame `{Reader C} : M C (list byte) :=
  let* prefix := readFull 2 in
  match prefix with
  | [first; second] =>
      if bval first != 0x30 then throw errInvalidFrame
      else
        let* (header, length) :=
          (if negb (Z.land (bval second) 0x80 =? 0) then
             let octets := Z.land (bval second) 0x7f in
             if (octets <? 1) || (4 <? octets) then throw errInvalidFrame
             else
               let* extra := readFull octets in
               match longLength 0 extra with
               | None => throw errInvalidFrame
               | Some length => mret (prefix ++ extra, length)
               end
           else mret (prefix, bval second)) in
        if maxFrame - blen header <? length then throw errInvalidFrame
        else
          let* body := readFull length in
          let frame := header ++ body in
          match validateBERFrame frame with
          | Err _ => throw errInvalidFrame
          | Ok _ => mret frame
          end
  | _ => throw errInvalidFrame
  end.

(** The bytes the buffered [bytes.Reader] has left; a nil buffer has none. *)
Definition unread {C} (c : framedConn C) : list byte :=
  match buffer c with Some b => b | None => [] end.

Definition maxFrames : Z := 16.

Definition framedRead `{Reader C} (c : framedConn C) (n : Z)
    : framedConn C * list byte * option io_error :=
  if n =? 0 then (c, [], None)
  else
    let deliver (c : framedConn C) :=
      ({| fc_Conn := fc_Conn c; buffer := Some (drop (Z.to_nat n) (unread c)); frames := frames c |},
       take (Z.to_nat n) (unread c), None : option io_error) in
    if blen (unread c) =? 0 then
      if maxFrames <=? frames c then (c, [], Some errInvalidFrame)
      else
        match readFrame (fc_Conn c) with
        | (conn, Err e) => ({| fc_Conn := conn; buffer := buffer c; frames := frames c |}, [], Some e)
        | (conn, Ok frame) =>
            deliver {| fc_Conn := conn; buffer := Some frame; frames := frames c + 1 |}
        end
    else deliver c.

#[export] Instance framedConn_Reader `{Reader C} : Reader (framedConn C) := framedRead.

(** [&framedConn{Conn: &boundedConn{Conn: raw, remaining: 1 << 20}}], as
    [GetUser] builds it. *)
Definition newFramed {C} (raw : C) : framedConn (boundedConn C) :=
  {| fc_Conn := {| bc_Conn := raw; remaining := 2 ^ 20 |}; buffer := None; frames := 0 |}.

(** A client's sequence of reads with the given buffer sizes: the final state
    and all the bytes it received. *)
Fixpoint runReads `{Reader C} (c : C) (sizes : list Z) : C * list byte :=
  match sizes with
  | [] => (c, [])
  | n :: sizes =>
      let '(c, bs, _) := read c n in
      let '(c, rest) := runReads c sizes in
      (c, bs ++ rest)
  end.

End Wire.

(** ** Every wrapper is again a stream reader *)

Module WireStreams.
Import Ber Wire.

Section readers.
Context `{StreamReader C}.
Implicit Types (c : C) (bs : list byte).

Lemma bounded_take (r : Z) bs (s : list byte) : blen bs <= r ->
  take (Z.to_nat r) (bs ++ s) = bs ++ take (Z.to_nat (r - blen bs)) s.
Proof.
  unfold blen. intros Hr. rewrite take_app_ge by lia.
  do 2 f_equal. lia.
Qed.

#[export] Program Instance bounded_stream : StreamReader (boundedConn C) := {
  stream b := take (Z.to_nat (remaining b)) (stream (bc_Conn b))
}.
Next Obligation.
  intros [c r] n c' bs e Hn; cbn. unfold read, boundedConn_Reader, boundedRead; simpl.
  case_match.
  { intros [= <- <- <-]; simpl. change (blen []) with 0. split; [done|lia]. }
  destruct (read c _) as [[d ds] err] eqn:Hread. intros [= <- <- <-]; simpl.
  apply read_stream in Hread as [-> Hlen]; [|case_match; lia].
  rewrite bounded_take by (case_match; lia). split; [done|]. case_match; lia.
Qed.
Next Obligation.
  intros [c r] n c' bs e Hn; cbn. unfold read, boundedConn_Reader, boundedRead; simpl.
  intros Hs. case_match; [by replace (Z.to_nat r) with O in Hs by lia|].
  destruct (read c _) as [[d ds] err] eqn:Hread. intros [= <- <- <-]; simpl.
  apply read_live in Hread as [Hne He]; [|case_match; lia|by intros Hc; rewrite Hc, take_nil in Hs].
  split; [done|]. intros ->%He. by rewrite take_nil.
Qed.
Next Obligation.
  intros [c r] n c' bs e Hn; cbn. unfold read, boundedConn_Reader, boundedRead; simpl.
  intros Hs. case_match; [by intros [= <- <- <-]|].
  destruct (read c _) as [[d ds] err] eqn:Hread. intros [= <- <- <-]; simpl.
  eapply read_end; [| |exact Hread]; [case_match; lia|].
  destruct (stream c); [done|]. by replace (Z.to_nat r) with (S (Z.to_nat (r - 1))) in Hs by lia.
Qed.

(** Enough fuel: every read without an error makes progress. *)
Lemma readAtLeast_spec fuel : forall c need got,
  need - blen got <= Z.of_nat fuel -> need - blen got <= blen (stream c) ->
  blen got <= need ->
  exists c', readAtLeast fuel c need got = (c', got ++ take (Z.to_nat (need - blen got)) (stream c), None)
      /\ stream c' = drop (Z.to_nat (need - blen got)) (stream c)
    \/ exists e, readAtLeast fuel c need got =
        (c', got ++ take (Z.to_nat (need - blen got)) (stream c), Some e)
      /\ stream c' = drop (Z.to_nat (need - blen got)) (stream c).
Proof.
  induction fuel as [|fuel IH]; intros c need got Hfuel Hs Hgot; simpl.
  - rewrite (proj2 (Z.leb_le _ _)) by lia. exists c. left.
    replace (Z.to_nat _) with O by lia. by rewrite take_0, drop_0, (right_id_L [] (++)).
  - case_match eqn:Hdone.
    { exists c. left. replace (Z.to_nat _) with O by lia.
      by rewrite take_0, drop_0, (right_id_L [] (++)). }
    destruct (read c (need - blen got)) as [[c1 bs] err] eqn:Hread.
    pose proof Hread as [Hsplit Hlen]%read_stream; [|lia].
    apply read_live in Hread as [Hne He]; [|lia|by intros Hnil; rewrite Hnil in Hs; unfold blen in *; simpl in *; lia].
    assert (1 <= blen bs) by (destruct bs; [done|rewrite blen_cons; bounds; lia]).
    rewrite Hsplit, blen_app in Hs.
    assert (take (Z.to_nat (need - blen got)) (bs ++ stream c1)
      = bs ++ take (Z.to_nat (need - blen got - blen bs)) (stream c1)) as Htake
      by (by apply bounded_take).
    assert (drop (Z.to_nat (need - blen got)) (bs ++ stream c1)
      = drop (Z.to_nat (need - blen got - blen bs)) (stream c1)) as Hdrop.
    { unfold blen in *. rewrite drop_app_ge by lia. f_equal. lia. }
    rewrite Hsplit, Htake, Hdrop, (assoc_L (++)).
    destruct err as [err|].
    + exists c1. right. exists err. specialize (He ltac:(done)). rewrite He in *.
      by rewrite take_nil, drop_nil, (right_id_L [] (++)).
    + destruct (IH c1 need (got ++ bs)) as (c' & Hcase);
        [rewrite blen_app; lia..|].
      rewrite blen_app in Hcase.
      replace (need - (blen got + blen bs)) with (need - blen got - blen bs) in Hcase by lia.
      by exists c'.
Qed.

Lemma readFull_spec c n : 0 <= n <= blen (stream c) ->
  exists c', readFull n c = (c', Ok (take (Z.to_nat n) (stream c))) /\
    stream c' = drop (Z.to_nat n) (stream c).
Proof.
  intros Hn. unfold readFull.
  destruct (readAtLeast_spec (Z.to_nat n) c n []) as (c' & Hcase);
    [change (blen []) with 0; lia..|].
  change (blen []) with 0 in Hcase. rewrite Z.sub_0_r in Hcase.
  assert (n <= blen (take (Z.to_nat n) (stream c))).
  { unfold blen in *. rewrite length_take. lia. }
  destruct Hcase as [[-> Hs]|(e & -> & Hs)]; simpl;
    rewrite (proj2 (Z.leb_le _ _)) by done; eauto.
Qed.

Lemma readFull_app c xs rest : stream c = xs ++ rest ->
  exists c', readFull (blen xs) c = (c', Ok xs) /\ stream c' = rest.
Proof.
  intros Hs. destruct (readFull_spec c (blen xs)) as (c' & Hr & Hs').
  { rewrite Hs, blen_app. bounds. lia. }
  exists c'. rewrite Hr, Hs', Hs. unfold blen.
  by rewrite Nat2Z.id, take_app_length, drop_app_length.
Qed.
End readers.

#[export] Program Instance raw_stream : StreamReader rawConn := {
  stream c := concat (chunks c)
}.
Next Obligation.
  intros [cs f] n c' bs e Hn; cbn. unfold read, rawConn_Reader; simpl.
  case_match; [intros [= <- <- <-]; split; [done|change (blen []) with 0; lia]|].
  induction cs as [|[|b chunk] cs IH]; simpl.
  - intros [= <- <- <-]. split; [done|change (blen []) with 0; lia].
  - intros Hr. by apply IH.
  - intros [= <- <- <-]. simpl. rewrite (assoc_L (++)), take_drop.
    split; [done|]. unfold blen. rewrite length_take. lia.
Qed.
Next Obligation.
  intros [cs f] n c' bs e Hn; cbn. unfold read, rawConn_Reader; simpl.
  rewrite (proj2 (Z.leb_gt _ _)) by lia.
  induction cs as [|[|b chunk] cs IH]; simpl; [done|by apply IH|].
  intros _ [= <- <- <-]. split; [|done].
  by replace (Z.to_nat n) with (S (Z.to_nat (n - 1))) by lia.
Qed.
Next Obligation.
  intros [cs f] n c' bs e Hn; cbn. unfold read, rawConn_Reader; simpl.
  rewrite (proj2 (Z.leb_gt _ _)) by lia.
  induction cs as [|[|b chunk] cs IH]; simpl; [|by apply IH|done].
  intros _ [= <- <- <-]. done.
Qed.

End WireStreams.

(** ** What the frame reader delivers *)

Module WireCorrect.
Import Ber BerGrammar BerCorrect Wire WireStreams.

Lemma bind_run {C A B} (m : M C A) (f : A -> M C B) c c' b :
  mbind m f c = (c', Ok b) ->
  exists c1 a, m c = (c1, Ok a) /\ f a c1 = (c', Ok b).
Proof. unfold mbind. destruct (m c) as [c1 [a|e]]; [eauto|done]. Qed.

Lemma mbind_Ok {C A B} (m : M C A) (f : A -> M C B) c c1 a :
  m c = (c1, Ok a) -> mbind m f c = f a c1.
Proof. unfold mbind. by intros ->. Qed.

(** Whatever the connection does, a frame handed on is a valid message. *)
Lemma readFrame_message `{Reader C} c c' frame :
  readFrame c = (c', Ok frame) -> message frame.
Proof.
  unfold readFrame. intros (c1 & prefix & _ & Hrun)%bind_run.
  destruct prefix as [|first [|second [|]]]; try done.
  case_match; [done|]. apply bind_run in Hrun as (c2 & [header L] & _ & Hrun).
  case_match; [done|]. apply bind_run in Hrun as (c3 & body & _ & Hrun).
  destruct (validateBERFrame _) as [[]|] eqn:Hv; [|done].
  unfold mret in Hrun. simplify_eq. by apply validateBERFrame_iff.
Qed.

(** A message starts with the SEQUENCE tag and its length octets. *)
Lemma message_shape f : message f ->
  exists lens content, f = byte_of 0x30 :: lens ++ content /\
    lengthOctets (blen content) lens.
Proof.
  intros (n & Hel & _ & _ & rest & Hf).
  assert (forall tag ids suf, identifier tag ids -> ids ++ suf = byte_of 48 :: rest ->
    ids = [byte_of 48]) as Hids.
  { intros tag ids suf Hid Heq. destruct Hid as [b Hb|b hs Hb Hh Hn];
      injection Heq as -> Heq; [done|]. by compute in Hb. }
  inversion Hel as [k tag ids lens content Hid HL Ht|k n' tag ids lens content Hid HL Ht Hels];
    subst; rewrite (Hids _ _ _ Hid ltac:(eassumption)); exists lens, content; done.
Qed.

Section frames.
Context `{StreamReader C}.

(** The frame reader reads exactly one message when one is next. *)
Lemma readFrame_complete c f rest :
  message f -> stream c = f ++ rest ->
  exists c', readFrame c = (c', Ok f) /\ stream c' = rest.
Proof.
  intros Hmsg Hs. pose proof Hmsg as (n & Hel & Hn & Hmax & _).
  destruct (message_shape f Hmsg) as (lens & content & Hf & HL).
  assert (exists second extra, lens = second :: extra) as (second & extra & ->)
    by (destruct HL; eauto).
  destruct (readFull_app c [byte_of 48; second] (extra ++ content ++ rest)) as (c1 & Hr1 & Hs1).
  { by rewrite Hs, Hf; simpl; rewrite <- (assoc_L (++)). }
  unfold readFrame. change 2 with (blen [byte_of 48; second]).
  rewrite (mbind_Ok _ _ _ _ _ Hr1). rewrite bool_decide_true by done. cbn [negb Z.eqb]. cbv iota.
  assert (forall c2 header, stream c2 = content ++ rest -> header = byte_of 48 :: second :: extra ->
    exists c', (if maxFrame - blen header <? blen content then throw errInvalidFrame
      else let* body := readFull (blen content) in
        match validateBERFrame (header ++ body) with
        | Err _ => throw errInvalidFrame
        | Ok _ => mret (header ++ body)
        end) c2 = (c', Ok f) /\ stream c' = rest) as Hbody.
  { intros c2 header Hs2 ->. rewrite (proj2 (Z.ltb_ge _ _)).
    2: { rewrite Hf in Hmax. rewrite !blen_cons, blen_app in *. rewrite blen_cons in *. lia. }
    destruct (readFull_app c2 content rest Hs2) as (c3 & Hr3 & Hs3).
    rewrite (mbind_Ok _ _ _ _ _ Hr3).
    change ((byte_of 48 :: second :: extra) ++ content)
      with (byte_of 48 :: (second :: extra) ++ content).
    rewrite <- Hf, (proj2 (validateBERFrame_iff f)) by done.
    by exists c3. }
  inversion HL as [b Hb|b octets Hb Ho]; subst second extra.
  - rewrite land_80, (proj2 (Z.ltb_lt _ _)) by done. cbn [negb Z.eqb]. cbv iota.
    erewrite mbind_Ok by done. cbv beta iota.
    replace (bval b) with (blen content) by done. by apply Hbody.
  - rewrite land_80, land_7f, (proj2 (Z.ltb_ge _ _)) by lia. cbn [negb Z.eqb]. cbv iota.
    replace (bval b - 128) with (blen octets) by lia.
    rewrite (proj2 (orb_false_iff _ _)) by lia.
    assert (beValue octets = blen content) as HLc by done.
    destruct (readFull_app c1 octets (content ++ rest) Hs1) as (c2 & Hr2 & Hs2).
    erewrite mbind_Ok.
    2: { rewrite (mbind_Ok _ _ _ _ _ Hr2), longLength_fits; [done|lia|].
         change (beFrom 0 octets) with (beValue octets). rewrite HLc.
         rewrite Hf, blen_cons, blen_app in Hmax. bounds. lia. }
    cbv beta iota. change (beFrom 0 octets) with (beValue octets). rewrite HLc. by apply Hbody.
Qed.
End frames.

(** One read of the frame reader: the bytes it adds to what is pending are
    whole messages, each counted. *)
Lemma framedRead_inv `{Reader C} (c c' : framedConn C) n bs e :
  framedRead c n = (c', bs, e) ->
  exists fs, Forall message fs /\ bs ++ unread c' = unread c ++ concat fs /\
    frames c' = frames c + blen fs /\ (frames c <= maxFrames -> frames c' <= maxFrames).
Proof.
  unfold framedRead. case_match.
  { intros [= <- <- <-]. exists []. simpl. change (blen []) with 0.
    rewrite (right_id_L [] (++)). split_and!; [done..|lia|done]. }
  case_match eqn:Hempty.
  - assert (unread c = []) as Hnil by (destruct (unread c); [done|rewrite blen_cons in *; bounds; lia]).
    case_match eqn:Hcap.
    + intros [= <- <- <-]. exists []. change (blen []) with 0.
      rewrite Hnil. split_and!; [done..|lia|done].
    + destruct (readFrame (fc_Conn c)) as [conn [frame|err]] eqn:Hf; intros [= <- <- <-].
      * exists [frame]. unfold unread; simpl. rewrite take_drop, (right_id_L [] (++)).
        unfold unread in Hnil. rewrite Hnil. change (blen [frame]) with 1.
        apply readFrame_message in Hf. split_and!; [by constructor|done|lia|lia].
      * exists []. unfold unread in *; simpl in *. rewrite Hnil. change (blen []) with 0.
        split_and!; [done..|lia|done].
  - intros [= <- <- <-]. exists []. unfold unread; simpl. rewrite take_drop, (right_id_L [] (++)).
    change (blen []) with 0. split_and!; [done..|lia|done].
Qed.

Lemma runReads_framed_inv `{Reader C} sizes : forall (c c' : framedConn C) out,
  frames c <= maxFrames -> runReads c sizes = (c', out) ->
  exists fs, Forall message fs /\ out ++ unread c' = unread c ++ concat fs /\
    frames c' = frames c + blen fs /\ frames c' <= maxFrames.
Proof.
  induction sizes as [|n sizes IH]; intros c c' out Hcap; simpl.
  { intros [= <- <-]. exists []. simpl. rewrite (right_id_L [] (++)).
    change (blen []) with 0. split_and!; [done..|lia|done]. }
  destruct (read c n) as [[c1 bs] e] eqn:Hread.
  destruct (runReads c1 sizes) as [c2 rest] eqn:Hrun. intros [= <- <-].
  apply framedRead_inv in Hread as (fs & Hfs & Hbs & Hfr & Hle).
  apply IH in Hrun as (gs & Hgs & Hrest & Hfr2 & Hle2); [|by apply Hle].
  exists (fs ++ gs). rewrite <- (assoc_L (++)), Hrest, (assoc_L (++)), Hbs, concat_app, (assoc_L (++)).
  rewrite blen_app. split_and!; [by apply Forall_app|done|lia|done].
Qed.

Section refinement.
Context `{StreamReader C}.

(** [carries c s]: the messages still to be delivered through [c], within its
    frame limit, are the bytes [s]. *)
Definition carries (c : framedConn C) (s : list byte) : Prop :=
  exists fs rest, Forall message fs /\ stream (fc_Conn c) = concat fs ++ rest /\
    frames c + blen fs <= maxFrames /\ s = unread c ++ concat fs.

Lemma message_nonempty f : message f -> 2 <= blen f.
Proof. intros (n & Hel & _). by eapply element_size. Qed.

Lemma take_pos_nonempty n (l : list byte) : 0 < n -> l <> [] -> take (Z.to_nat n) l <> [].
Proof. destruct l; [done|]. intros. by replace (Z.to_nat n) with (S (Z.to_nat (n - 1))) by lia. Qed.

Lemma blen_take_le n (l : list byte) : 0 <= n -> blen (take (Z.to_nat n) l) <= n.
Proof. unfold blen. rewrite length_take. lia. Qed.

Lemma framedRead_simulates c s n :
  carries c s -> s <> [] -> 0 < n ->
  exists c' bs s', framedRead c n = (c', bs, None) /\ bs <> [] /\ blen bs <= n /\
    s = bs ++ s' /\ carries c' s'.
Proof.
  intros (fs & rest & Hfs & Hs & Hcap & ->) Hne Hn. unfold framedRead.
  rewrite (proj2 (Z.eqb_neq _ _)) by lia.
  destruct (unread c) as [|b bs] eqn:Hun.
  - change (blen [] =? 0) with true. cbv iota.
    destruct fs as [|f fs]; [done|]. simpl in Hs. rewrite <- (assoc_L (++)) in Hs.
    rewrite blen_cons in Hcap. apply Forall_cons in Hfs as [Hf Hfs].
    rewrite (proj2 (Z.leb_gt _ _)) by (bounds; lia).
    destruct (readFrame_complete (fc_Conn c) f _ Hf Hs) as (conn & -> & Hs').
    eexists _, _, (drop (Z.to_nat n) f ++ concat fs). split_and!; [done|..].
    + apply (take_pos_nonempty n f); [done|]. intros ->. by apply message_nonempty in Hf.
    + apply blen_take_le; lia.
    + simpl. by rewrite (assoc_L (++)), take_drop.
    + exists fs, rest. simpl. split_and!; [done..|lia|done].
  - rewrite (proj2 (Z.eqb_neq _ _)) by (rewrite blen_cons; bounds; lia).
    eexists _, _, (drop (Z.to_nat n) (b :: bs) ++ concat fs). split_and!; [done|..].
    + by apply take_pos_nonempty.
    + apply blen_take_le; lia.
    + by rewrite (assoc_L (++)), take_drop.
    + exists fs, rest. done.
Qed.

Lemma runReads_delivers sizes : forall c s,
  carries c s -> Forall (fun n => 0 < n) sizes -> blen s <= blen sizes ->
  exists more, snd (runReads c sizes) = s ++ more.
Proof.
  induction sizes as [|n sizes IH]; intros c s Hc Hpos Hlen.
  { assert (s = []) as -> by (destruct s; [done|rewrite blen_cons in *; change (blen []) with 0 in *; bounds; lia]).
    by exists []. }
  destruct (decide (s = [])) as [->|Hne]; [by eexists|].
  apply Forall_cons in Hpos as [Hn Hpos].
  destruct (framedRead_simulates c s n Hc Hne Hn) as (c' & bs & s' & Hr & Hbs & _ & -> & Hc').
  simpl. unfold read, framedConn_Reader. rewrite Hr.
  assert (1 <= blen bs) by (destruct bs; [done|rewrite blen_cons; bounds; lia]).
  destruct (IH c' s' Hc' Hpos) as (more & Hmore).
  { rewrite blen_app, blen_cons in *. lia. }
  destruct (runReads c' sizes) as [c2 out]. simpl in *. exists more.
  by rewrite Hmore, (assoc_L (++)).
Qed.

Lemma runReads_budget sizes : forall (c c' : boundedConn C) out,
  Forall (fun n => 0 <= n) sizes -> 0 <= remaining c -> runReads c sizes = (c', out) ->
  remaining c' = remaining c - blen out /\ 0 <= remaining c'.
Proof.
  induction sizes as [|n sizes IH]; intros c c' out Hn Hrem; simpl.
  { intros [= <- <-]. change (blen []) with 0. lia. }
  apply Forall_cons in Hn as [Hn Hsizes].
  destruct (read c n) as [[c1 bs] e] eqn:Hread.
  destruct (runReads c1 sizes) as [c2 rest] eqn:Hrun. intros [= <- <-].
  assert (remaining c1 = remaining c - blen bs /\ 0 <= remaining c1) as [Hr1 Hr1'].
  { unfold read, boundedConn_Reader, boundedRead in Hread.
    case_match; [simplify_eq; change (blen []) with 0; lia|].
    destruct (read (bc_Conn c) _) as [[d ds] err] eqn:Hd. simplify_eq; simpl.
    apply read_stream in Hd as [_ Hd]; [|case_match; lia]. case_match; lia. }
  apply IH in Hrun as [-> ?]; [|done..]. rewrite blen_app. lia.
Qed.
End refinement.

End WireCorrect.

(** ** Properties *)

Module WireProperties.
Import Ber BerGrammar BerCorrect Wire WireStreams WireCorrect.

(** C6.  Whatever bytes, chunking and errors a connection produces, and
    whatever read sizes the LDAP client uses, all it ever receives is the
    concatenation of at most sixteen complete valid messages, in order, up to
    the part still buffered. *)
Theorem framed_delivers_only_messages `{Reader C} (raw : C) (sizes : list Z)
    (c' : framedConn (boundedConn C)) (out : list byte) :
  runReads (newFramed raw) sizes = (c', out) ->
  exists fs, Forall message fs /\ blen fs <= 16 /\ out ++ unread c' = concat fs.
Proof.
  intros Hrun. apply runReads_framed_inv in Hrun as (fs & Hfs & Hout & Hfr & Hle); [|done].
  exists fs. simpl in *. split_and!; [done|unfold maxFrames in *; lia|done].
Qed.

(** C7.  The wrappers are transparent for legitimate traffic: when a connection
    carries at most sixteen valid messages of at most 1 MiB in total, however
    its bytes are chunked, the client receives exactly those messages' bytes
    first, after no more positive-size reads than there are bytes. *)
Theorem framed_is_transparent `{StreamReader C} (raw : C) (fs : list (list byte))
    (rest : list byte) (sizes : list Z) :
  Forall message fs -> blen fs <= 16 -> stream raw = concat fs ++ rest ->
  blen (concat fs) <= 2 ^ 20 ->
  Forall (fun n => 0 < n) sizes -> blen (concat fs) <= blen sizes ->
  exists more, snd (runReads (newFramed raw) sizes) = concat fs ++ more.
Proof.
  intros Hfs Hcap Hs Hsize Hpos Hlen. apply runReads_delivers; [|done..].
  exists fs, (take (Z.to_nat (2 ^ 20 - blen (concat fs))) rest).
  split_and!; [done| |done|done].
  simpl stream. rewrite Hs. by apply bounded_take.
Qed.

(** The per-connection budget: over any sequence of reads a [boundedConn]
    delivers at most [remaining] bytes, and the counter is exactly what is left. *)
Theorem bounded_budget `{StreamReader C} (c c' : boundedConn C) (sizes : list Z)
    (out : list byte) :
  Forall (fun n => 0 <= n) sizes -> 0 <= remaining c ->
  runReads c sizes = (c', out) ->
  blen out <= remaining c /\ remaining c' = remaining c - blen out.
Proof. intros Hn Hrem Hrun. apply runReads_budget in Hrun; [lia|done..]. Qed.

(** A SEQUENCE holding the INTEGER 7, arriving in two chunks. *)
Definition sample_message : list byte := map byte_of [0x30; 0x03; 0x02; 0x01; 0x07].
Definition sample_conn : rawConn :=
  {| chunks := [map byte_of [0x30]; map byte_of [0x03; 0x02; 0x01; 0x07]]; failure := EOF |}.

Lemma framed_delivers_only_messages_witness :
  exists fs, Forall message fs /\ blen fs <= 16 /\
    snd (runReads (newFramed sample_conn) [2; 9]) ++
      unread (fst (runReads (newFramed sample_conn) [2; 9])) = concat fs.
Proof.
  apply (framed_delivers_only_messages sample_conn [2; 9]).
  vm_compute; reflexivity.
Defined.

Lemma framed_is_transparent_witness :
  exists more, snd (runReads (newFramed sample_conn) [1; 2; 3; 4; 5]) = concat [sample_message] ++ more.
Proof.
  apply (framed_is_transparent sample_conn [sample_message] []).
  - constructor; [|constructor]. apply validateBERFrame_iff. vm_compute; reflexivity.
  - vm_compute; discriminate.
  - vm_compute; reflexivity.
  - vm_compute; discriminate.
  - repeat constructor.
  - vm_compute; discriminate.
Defined.

Lemma bounded_budget_witness :
  let '(c', out) := runReads {| bc_Conn := sample_conn; remaining := 3 |} [4; 4] in
  blen out <= 3 /\ remaining c' = 3 - blen out.
Proof.
  apply (bounded_budget {| bc_Conn := sample_conn; remaining := 3 |} _ [4; 4]).
  - repeat constructor; lia.
  - simpl; lia.
  - vm_compute; reflexivity.
Defined.

End WireProperties.
