(* ===== verification/GoUrl.v ===== *)
(** * Form values: [url.Values] of Go's [net/url]

    [url.Values] with [Set] and [Get], [QueryEscape], [Values.Encode] and its
    inverse [ParseQuery], on bytes.  The round trip shows that a query built
    by the program is read back by any peer exactly as the program meant it. *)

From S2P Require Import Prelude GoStrings.

Module Values.

(** [map[string][]string]. *)
Abbreviation Values := (gmap string (list string)) (only parsing).

Definition get_all (v : Values) (k : string) : list string := default [] (v !! k).

(** [v.Get(k)]: the first value, or the empty string. *)
Definition Get (v : Values) (k : string) : string :=
  match get_all v k with x :: _ => x | [] => "" end.

Definition Set' (k x : string) (v : Values) : Values := <[k := [x]]> v.

(** ** Escaping *)

Definition hexDigit (i : Z) : ascii := nth (Z.to_nat i) (chars "0123456789ABCDEF") "0"%char.

(** [unhex] after [ishex]. *)
Definition unhex (c : ascii) : option Z :=
  if isDigit c then Some (code c - code "0")
  else if (code "a" <=? code c) && (code c <=? code "f") then Some (code c - code "a" + 10)
  else if (code "A" <=? code c) && (code c <=? code "F") then Some (code c - code "A" + 10)
  else None.

(** What a query component leaves as it is. *)
Definition unreserved (c : ascii) : bool :=
  isLower c || isUpper c || isDigit c ||
  (c == "-"%char) || (c == "_"%char) || (c == "."%char) || (c == "~"%char).

Definition escapeChar (c : ascii) : list ascii :=
  if unreserved c then [c]
  else if c == " "%char then ["+"%char]
  else ["%"%char; hexDigit (code c / 16); hexDigit (code c mod 16)].

Definition escape (l : list ascii) : list ascii := flat_map escapeChar l.

Fixpoint unescape (l : list ascii) : option (list ascii) :=
  match l with
  | [] => Some []
  | c :: rest =>
      if c == "%"%char then
        match rest with
        | a :: b :: rest =>
            hi ← unhex a; lo ← unhex b; r ← unescape rest;
            Some (ascii_of_N (Z.to_N (hi * 16 + lo)) :: r)
        | _ => None
        end
      else
        r ← unescape rest;
        Some ((if c == "+"%char then " "%char else c) :: r)
  end.

Definition QueryEscape (s : string) : string := of_chars (escape (chars s)).

(** ** Encoding *)

#[export] Instance string_leb_dec : RelDecision (fun s t : string => String.leb s t = true).
Proof. intros s t. apply _. Defined.

Definition sortedKeys (v : Values) : list string :=
  merge_sort (fun s t : string => String.leb s t = true) (map fst (map_to_list v)).

Definition pairs (v : Values) : list (string * string) :=
  k ← sortedKeys v; x ← get_all v k; [(k, x)].

Definition piece (kx : string * string) : list ascii :=
  escape (chars (fst kx)) ++ "="%char :: escape (chars (snd kx)).

Fixpoint joinAmp (ps : list (list ascii)) : list ascii :=
  match ps with
  | [] => []
  | [p] => p
  | p :: ps => p ++ "&"%char :: joinAmp ps
  end.

Definition Encode (v : Values) : string := of_chars (joinAmp (map piece (pairs v))).

(** ** Parsing *)

(** [strings.Cut(s, sep)] for a separator of one byte. *)
Fixpoint cut (sep : ascii) (l : list ascii) : list ascii * option (list ascii) :=
  match l with
  | [] => ([], None)
  | c :: rest =>
      if c == sep then ([], Some rest)
      else let '(before, after) := cut sep rest in (c :: before, after)
  end.

(** [append] of one pair; malformed pieces are reported and skipped. *)
Definition addPiece (m : Values) (key : list ascii) : Values :=
  if bool_decide (";"%char ∈ key) then m
  else
    match key with
    | [] => m
    | _ =>
        let '(k, x) := cut "=" key in
        match unescape k, unescape (default [] x) with
        | Some k, Some x =>
            let k := of_chars k in <[k := get_all m k ++ [of_chars x]]> m
        | _, _ => m
        end
    end.

Fixpoint parse_loop (fuel : nat) (m : Values) (l : list ascii) : Values :=
  match fuel, l with
  | S fuel, _ :: _ =>
      let '(key, rest) := cut "&" l in
      parse_loop fuel (addPiece m key) (default [] rest)
  | _, _ => m
  end.

(** [u.Query()]: the values of [ParseQuery], its error ignored. *)
Definition ParseQuery (q : string) : Values := parse_loop (String.length q) ∅ (chars q).

Example Encode_sample :
  Encode {[ "state" := ["a b/"]; "code" := ["x=1&2"; "~"] ]} = "code=x%3D1%262&code=~&state=a+b%2F".
Proof. vm_compute; reflexivity. Qed.

End Values.

(** ** Round trip *)

Module ValuesCorrect.
Import Values.

(** What an escaped byte looks like to the reader: a plain byte, a plus sign, or
    a percent sign with the byte's two hexadecimal digits; never a separator. *)
Definition escape_shape (c : ascii) : bool :=
  match escapeChar c with
  | [d] => if c == " "%char then d == "+"%char
           else (d == c) && (c != "%"%char) && (c != "+"%char)
  | [p; a; b] => (p == "%"%char) && (unhex a == Some (code c / 16)) && (unhex b == Some (code c mod 16))
  | _ => false
  end &&
  forallb (fun d => (d != "&"%char) && (d != ";"%char) && (d != "="%char)) (escapeChar c).

Lemma escape_shape_all c : escape_shape c = true.
Proof. revert c. apply ascii_all. vm_compute; reflexivity. Qed.

Lemma ascii_of_hex c : ascii_of_N (Z.to_N (code c / 16 * 16 + code c mod 16)) = c.
Proof.
  replace (code c / 16 * 16 + code c mod 16) with (code c) by lia.
  unfold code. rewrite N2Z.id. apply ascii_N_embedding.
Qed.

Lemma unescape_escapeChar c l :
  unescape (escapeChar c ++ l) = (r ← unescape l; Some (c :: r)).
Proof.
  pose proof (escape_shape_all c) as Hs. unfold escape_shape in Hs.
  apply andb_true_iff in Hs as [Hs _].
  destruct (escapeChar c) as [|d [|a [|b [|? ?]]]]; try discriminate; cbn [app unescape].
  - destruct (decide (c = " "%char)) as [->|Hne].
    { rewrite bool_decide_true in Hs by done. split_guards. by subst. }
    rewrite bool_decide_false in Hs by done. split_guards; subst.
    by rewrite !bool_decide_false by done.
  - split_guards; subst. rewrite bool_decide_true by done.
    match goal with H : unhex a = _, H' : unhex b = _ |- _ => rewrite H, H' end. simpl.
    by rewrite ascii_of_hex.
Qed.

Lemma unescape_escape l : unescape (escape l) = Some l.
Proof. induction l as [|c l IH]; [done|]. simpl. by rewrite unescape_escapeChar, IH. Qed.

(** Bytes that cannot occur in an escaped text. *)
Definition separator (d : ascii) : Prop := d = "&"%char \/ d = ";"%char \/ d = "="%char.

Lemma escape_no_separator d l : separator d -> d ∉ escape l.
Proof.
  intros Hd Hin. unfold escape in Hin. apply list_elem_of_In, in_flat_map in Hin as (c & _ & Hin).
  pose proof (escape_shape_all c) as Hs. unfold escape_shape in Hs.
  apply andb_true_iff in Hs as [_ Hs]. rewrite forallb_forall in Hs.
  apply Hs in Hin. split_guards. unfold separator in Hd. naive_solver.
Qed.

Lemma cut_none sep l : sep ∉ l -> cut sep l = (l, None).
Proof.
  induction l as [|c l IH]; [done|]. rewrite not_elem_of_cons. intros [Hc Hl]. simpl.
  rewrite bool_decide_false by congruence. by rewrite IH.
Qed.

Lemma cut_app sep l k : sep ∉ l -> cut sep (l ++ sep :: k) = (l, Some k).
Proof.
  induction l as [|c l IH]; simpl; [by rewrite bool_decide_true|].
  rewrite not_elem_of_cons. intros [Hc Hl].
  rewrite bool_decide_false by congruence. by rewrite IH.
Qed.

(** ** One piece *)

Definition addPair (m : Values) (kx : string * string) : Values :=
  <[fst kx := get_all m (fst kx) ++ [snd kx]]> m.

Lemma addPiece_piece m kx : addPiece m (piece kx) = addPair m kx.
Proof.
  unfold addPiece, piece, addPair.
  rewrite bool_decide_false.
  2:{ rewrite not_elem_of_app, not_elem_of_cons. unfold separator.
      split_and!; try (apply escape_no_separator; unfold separator; tauto). done. }
  destruct (escape (chars (fst kx)) ++ "="%char :: escape (chars (snd kx))) eqn:E.
  { by destruct (escape (chars (fst kx))). }
  rewrite <- E, cut_app by (apply escape_no_separator; unfold separator; tauto). simpl.
  rewrite !unescape_escape. by rewrite !String.string_of_list_ascii_of_string.
Qed.

Lemma piece_no_amp kx : "&"%char ∉ piece kx.
Proof.
  unfold piece. rewrite not_elem_of_app, not_elem_of_cons.
  split_and!; try (apply escape_no_separator; unfold separator; tauto). done.
Qed.

Lemma parse_loop_join ps : forall fuel m,
  (length (joinAmp (map piece ps)) <= fuel)%nat ->
  parse_loop fuel m (joinAmp (map piece ps)) = fold_left addPair ps m.
Proof.
  induction ps as [|kx ps IH]; intros fuel m Hf; [by destruct fuel|].
  assert (Hne : piece kx <> []) by (unfold piece; by destruct (escape _)).
  destruct ps as [|kx' ps].
  - simpl in *. destruct (piece kx) as [|c l] eqn:E; [done|].
    destruct fuel as [|fuel]; [simpl in Hf; lia|]. cbn [parse_loop].
    rewrite cut_none by (rewrite <- E; apply piece_no_amp). simpl.
    rewrite <- E, addPiece_piece. by destruct fuel.
  - set (rest := joinAmp (map piece (kx' :: ps))) in *.
    change (joinAmp (map piece (kx :: kx' :: ps))) with (piece kx ++ "&"%char :: rest) in *.
    rewrite length_app in Hf. simpl length in Hf.
    destruct fuel as [|fuel]; [lia|].
    destruct (piece kx ++ "&"%char :: rest) eqn:E; [by destruct (piece kx)|].
    cbn [parse_loop]. rewrite <- E, cut_app by apply piece_no_amp. simpl default.
    rewrite addPiece_piece. cbn [fold_left]. apply IH. fold rest. lia.
Qed.

(** ** All pieces *)

Lemma fold_addPair_lookup ps : forall m k,
  get_all (fold_left addPair ps m) k =
  get_all m k ++ map snd (filter (fun kx => fst kx = k) ps).
Proof.
  induction ps as [|[k' x] ps IH]; intros m k; simpl; [by rewrite app_nil_r|].
  rewrite IH. unfold addPair, get_all at 1; simpl. rewrite filter_cons; simpl.
  destruct (decide (k' = k)) as [->|Hne].
  - rewrite lookup_insert_eq. simpl. by rewrite <- app_assoc.
  - by rewrite lookup_insert_ne.
Qed.

Lemma fold_addPair_dom ps : forall m k,
  fold_left addPair ps m !! k = Some [] -> m !! k = Some [].
Proof.
  induction ps as [|[k' x] ps IH]; intros m k; simpl; [done|].
  intros H%IH. unfold addPair in H; simpl in H.
  destruct (decide (k' = k)) as [->|Hne].
  - rewrite lookup_insert_eq in H. by destruct (get_all m k).
  - by rewrite lookup_insert_ne in H.
Qed.

Lemma sortedKeys_perm v : sortedKeys v ≡ₚ map fst (map_to_list v).
Proof. apply merge_sort_Permutation. Qed.

Lemma pairs_filter_keys v k ks : NoDup ks ->
  map snd (filter (fun kx => fst kx = k) (k' ← ks; x ← get_all v k'; [(k', x)])) =
  if decide (k ∈ ks) then get_all v k else [].
Proof.
  induction ks as [|k' ks IH]; intros Hnd; [done|]. apply NoDup_cons in Hnd as [Hk' Hnd].
  rewrite bind_cons, filter_app, map_app, IH by done.
  assert (Hxs : forall xs : list string,
    map snd (filter (fun kx => fst kx = k) (x ← xs; [(k', x)])) = if decide (k = k') then xs else []).
  { intros xs. induction xs as [|x xs IHx]; [by destruct (decide (k = k'))|].
    rewrite bind_cons. cbn [app]. rewrite filter_cons. simpl.
    destruct (decide (k' = k)); destruct (decide (k = k')); try congruence. simpl. by rewrite IHx. }
  rewrite Hxs. destruct (decide (k = k')) as [->|Hne].
  - rewrite (decide_False (P := k' ∈ ks)) by done.
    rewrite decide_True by constructor. apply app_nil_r.
  - simpl. destruct (decide (k ∈ ks)); destruct (decide (k ∈ k' :: ks)) as [Hin|Hin]; try done.
    + by rewrite elem_of_cons in Hin; exfalso; apply Hin; right.
    + apply elem_of_cons in Hin as [|]; done.
Qed.

(** Reading an encoded query gives back the values, for maps without empty
    lists, which have no encoding. *)
Lemma ParseQuery_Encode (v : Values) : (forall k, v !! k <> Some []) -> ParseQuery (Encode v) = v.
Proof.
  intros Hne. unfold ParseQuery, Encode.
  rewrite String.list_ascii_of_string_of_list_ascii, parse_loop_join.
  2:{ rewrite <- (String.list_ascii_of_string_of_list_ascii (joinAmp _)) at 1.
      apply Nat.eq_le_incl. clear. induction (String.string_of_list_ascii _); simpl; congruence. }
  apply map_eq. intros k.
  assert (Hg : get_all (fold_left addPair (pairs v) ∅) k = get_all v k).
  { rewrite fold_addPair_lookup. unfold get_all at 1. rewrite lookup_empty. simpl.
    unfold pairs. rewrite pairs_filter_keys.
    - destruct (decide _) as [|Hk]; [done|]. rewrite sortedKeys_perm in Hk.
      unfold get_all. destruct (v !! k) as [xs|] eqn:E; [|done]. exfalso. apply Hk.
      apply list_elem_of_In, in_map_iff. exists (k, xs). split; [done|].
      by apply list_elem_of_In, elem_of_map_to_list.
    - rewrite sortedKeys_perm. apply NoDup_fst_map_to_list. }
  unfold get_all in Hg. specialize (Hne k).
  destruct (fold_left addPair (pairs v) ∅ !! k) as [xs|] eqn:E;
    destruct (v !! k) as [ys|] eqn:E'; simpl in Hg; subst; try done.
  apply fold_addPair_dom in E. by rewrite lookup_empty in E.
Qed.

End ValuesCorrect.
