(* ===== verification/GoUrlParse.v ===== *)
(** * URLs: [url.Parse] and [URL.String] of Go's [net/url]

    Parsing in the order of the source: the fragment, the scheme, the query, then
    an opaque part or an authority and a path, each with the escapes its place
    allows; bracketed hosts are IPv6 addresses ([netip.ParseAddr]). *)

From S2P Require Import Prelude GoStrings GoUrl.

Record Userinfo := { username : string; password : option string }.

(** [url.URL]. *)
Record URL := {
  Scheme : string; Opaque : string; UserOf : option Userinfo; Host : string; UPath : string; RawPath : string;
  OmitHost : bool; ForceQuery : bool; RawQuery : string; Fragment : string; RawFragment : string
}.

(** [u.User != nil]. *)
Definition User (u : URL) : bool := match UserOf u with Some _ => true | None => false end.

Definition with_RawQuery (u : URL) (q : string) : URL :=
  {| Scheme := Scheme u; Opaque := Opaque u; UserOf := UserOf u; Host := Host u; UPath := UPath u;
     RawPath := RawPath u; OmitHost := OmitHost u; ForceQuery := ForceQuery u; RawQuery := q;
     Fragment := Fragment u; RawFragment := RawFragment u |}.

Module NetUrl.
Import Values.

(** *** Escapes *)

Inductive mode := encodePath | encodeHost | encodeZone | encodeUserPassword | encodeFragment.

Definition isHost (m : mode) : bool := match m with encodeHost | encodeZone => true | _ => false end.

Definition among (s : string) (c : ascii) : bool := bool_decide (c ∈ chars s).

Definition dquote : ascii := ascii_of_N 34.

Definition shouldEscape (c : ascii) (m : mode) : bool :=
  if isLower c || isUpper c || isDigit c then false
  else if isHost m && (among "!$&'()*+,;=:[]<>" c || (c == dquote)) then false
  else if among "-_.~" c then false
  else if among "$&+,/:;=?@" c && negb (isHost m) then
    match m with
    | encodePath => c == "?"%char
    | encodeUserPassword => among "@/?:" c
    | _ => false
    end
  else
    match m with encodeFragment => negb (among "!()*" c) | _ => true end.

Definition escapeChar (m : mode) (c : ascii) : list ascii :=
  if shouldEscape c m then ["%"%char; hexDigit (code c / 16); hexDigit (code c mod 16)] else [c].

Definition escape (m : mode) (s : string) : string := of_chars (flat_map (escapeChar m) (chars s)).

(** Whether an escape of a byte is allowed; the percent sign always is. *)
Definition escapeAllowed (m : mode) (hi lo : Z) : bool :=
  let v := hi * 16 + lo in
  match m with
  | encodeHost => (8 <=? hi) || (v =? 0x25)
  | encodeZone => (v =? 0x25) || (v =? 0x20) || negb (shouldEscape (ascii_of_N (Z.to_N v)) encodeHost)
  | _ => true
  end.

Fixpoint unescapeChars (m : mode) (l : list ascii) : option (list ascii) :=
  match l with
  | [] => Some []
  | c :: t =>
      if c == "%"%char then
        match t with
        | a :: b :: t =>
            hi ← unhex a; lo ← unhex b;
            if escapeAllowed m hi lo then
              r ← unescapeChars m t; Some (ascii_of_N (Z.to_N (hi * 16 + lo)) :: r)
            else None
        | _ => None
        end
      else if isHost m && (code c <? 0x80) && shouldEscape c m then None
      else r ← unescapeChars m t; Some (c :: r)
  end.

Definition unescape (m : mode) (s : string) : option string := of_chars <$> unescapeChars m (chars s).

(** [validEncoded]. *)
Definition validEncoded (s : string) (m : mode) : bool :=
  forallb (fun c => among "!$&'()*+,;=:@[]%" c || negb (shouldEscape c m)) (chars s).

(** *** Searching *)

(** [strings.Cut(s, sep)] at the first or the last separator of one byte. *)
Definition Cut (sep : ascii) (s : string) : string * option string :=
  let '(before, after) := cut sep (chars s) in (of_chars before, of_chars <$> after).
Definition CutLast (sep : ascii) (s : string) : option (string * string) :=
  let '(after, before) := cut sep (rev (chars s)) in
  match before with Some before => Some (of_chars (rev before), of_chars (rev after)) | None => None end.

(** The part before the first separator and the part from it on. *)
Fixpoint breakAt (sep : ascii) (l : list ascii) : list ascii * list ascii :=
  match l with
  | [] => ([], [])
  | c :: t => if c == sep then ([], l) else let '(before, rest) := breakAt sep t in (c :: before, rest)
  end.

(** *** IPv6 addresses *)

Fixpoint hexGroup (l : list ascii) : list ascii * list ascii :=
  match l with
  | c :: t => match unhex c with Some _ => let '(g, r) := hexGroup t in (c :: g, r) | None => ([], l) end
  | [] => ([], [])
  end.

(** A field of an IPv4 address: at most 255, without leading zeros. *)
Definition octet (l : list ascii) : bool :=
  match l with
  | [] => false
  | [c] => isDigit c
  | c :: _ => (c != "0"%char) && match decimal 0 l with Some v => v <=? 255 | None => false end
  end.
Definition ipv4 (l : list ascii) : bool :=
  let '(a, r) := cut "." l in
  let '(b, r) := cut "." (default [] r) in
  let '(c, r) := cut "." (default [] r) in
  match r with Some d => octet a && octet b && octet c && octet d | None => false end.

(** The loop of [parseIPv6] with [groups] groups of two bytes still to fill;
    [ellipsis] says whether one was seen. *)
Fixpoint ipv6Groups (groups : nat) (ellipsis : bool) (l : list ascii) : bool :=
  match groups with
  | O => bool_decide (l = []) && negb ellipsis
  | S groups =>
      let '(g, r) := hexGroup l in
      if bool_decide (g = []) || (4 <? blen g) then false
      else
        match r with
        | [] => if (groups =? 0)%nat then negb ellipsis else ellipsis
        | c :: r =>
            if c == "."%char then
              ipv4 l && match groups with
                        | O => false
                        | S O => negb ellipsis
                        | S _ => ellipsis
                        end
            else if c == ":"%char then
              match r with
              | [] => false
              | d :: r' =>
                  if d == ":"%char then
                    if ellipsis then false
                    else match r' with [] => (0 <? groups)%nat | _ => ipv6Groups groups true r' end
                  else ipv6Groups groups ellipsis r
              end
            else false
        end
  end.

Definition parseIPv6 (l : list ascii) : bool :=
  let '(s, zone) := cut "%" l in
  match zone with
  | Some [] => false
  | _ =>
      match stripPrefix (chars "::") s with
      | Some [] => true
      | Some s => ipv6Groups 8 true s
      | None => ipv6Groups 8 false s
      end
  end.

(** [netip.ParseAddr(s)] succeeds and is no IPv4 address. *)
Definition isIPv6 (s : string) : bool :=
  match List.find (fun c => among ".:%" c) (chars s) with
  | Some c => (c == ":"%char) && parseIPv6 (chars s)
  | None => false
  end.

(** *** Authority *)

Definition validOptionalPort (port : string) : bool :=
  match chars port with
  | [] => true
  | c :: t => (c == ":"%char) && forallb isDigit t
  end.

Definition bracketedHost (host : string) : option string :=
  hp ← CutLast "]" host;
  let '(inside, colonPort) := hp in
  if negb (validOptionalPort colonPort) then None
  else
    port ← unescape encodeHost colonPort;
    let l := tail (chars inside) in
    let '(addr, zone) :=
      (fix find (l : list ascii) : list ascii * list ascii :=
         match stripPrefix (chars "%25") l, l with
         | Some _, _ => ([], l)
         | None, c :: t => let '(a, z) := find t in (c :: a, z)
         | None, [] => ([], [])
         end) l in
    addr ← unescape encodeHost (of_chars addr);
    zone ← unescape encodeZone (of_chars zone);
    if isIPv6 (addr +:+ zone) then Some ("[" +:+ addr +:+ zone +:+ "]" +:+ port) else None.

(** [parseHost]: brackets only around the whole address, and one colon at most,
    before a port, except for PostgreSQL's lists of hosts. *)
Definition parseHost (scheme host : string) : option string :=
  match chars host with
  | c :: t =>
      if bool_decide ("["%char ∈ t) then None
      else if c == "["%char then bracketedHost host
      else
        let colonPort :=
          if bool_decide (scheme ∈ ["postgresql"; "postgres"]) then
            match CutLast ":" host with Some (_, p) => ":" +:+ p | None => "" end
          else of_chars (snd (breakAt ":" (chars host))) in
        if validOptionalPort colonPort then unescape encodeHost host else None
  | [] => Some ""
  end.

Definition validUserinfo (s : string) : bool :=
  forallb (fun c => isLower c || isUpper c || isDigit c || among "-._:~!$&'()*+,;=%@" c) (chars s).

Definition parseUserinfo (s : string) : option Userinfo :=
  if negb (validUserinfo s) then None
  else
    let '(name, pass) := Cut ":" s in
    name ← unescape encodeUserPassword name;
    match pass with
    | None => Some {| username := name; password := None |}
    | Some pass => pass ← unescape encodeUserPassword pass; Some {| username := name; password := Some pass |}
    end.

Definition parseAuthority (scheme authority : string) : option (option Userinfo * string) :=
  match CutLast "@" authority with
  | None => host ← parseHost scheme authority; Some (None, host)
  | Some (userinfo, rest) =>
      host ← parseHost scheme rest; user ← parseUserinfo userinfo; Some (Some user, host)
  end.

(** *** Parsing *)

(** [getScheme]: the scheme, if there is one, and the rest; [None] for a colon
    without a scheme. *)
Fixpoint schemeFrom (first : bool) (l : list ascii) : option (option (list ascii * list ascii)) :=
  match l with
  | [] => Some None
  | c :: t =>
      let next := r ← schemeFrom false t; Some (sr ← r; Some (c :: fst sr, snd sr)) in
      if isLower c || isUpper c then next
      else if isDigit c || among "+-." c then if first then Some None else next
      else if c == ":"%char then if first then None else Some (Some ([], t))
      else Some None
  end.

Definition getScheme (rawURL : string) : option (string * string) :=
  r ← schemeFrom true (chars rawURL);
  Some (match r with
        | Some (s, rest) => (of_chars (map lowerASCII s), of_chars rest)
        | None => ("", rawURL)
        end).

(** [RawPath] is kept when it is not the default encoding. *)
Definition setPath (p : string) : option (string * string) :=
  path ← unescape encodePath p; Some (path, if p == escape encodePath path then "" else p).
Definition setFragment (f : string) : option (string * string) :=
  fragment ← unescape encodeFragment f; Some (fragment, if f == escape encodeFragment fragment then "" else f).

(** The query of what follows the scheme: whether it is forced, and its text. *)
Definition cutQuery (rest : string) : string * bool * string :=
  let '(before, query) := Cut "?" rest in
  match query with
  | None => (rest, false, "")
  | Some query => (before, query == "", query)
  end.

Definition parse (rawURL : string) : option URL :=
  if existsb (fun c => (code c <? 0x20) || (code c =? 0x7f)) (chars rawURL) then None
  else if rawURL == "*" then
    Some {| Scheme := ""; Opaque := ""; UserOf := None; Host := ""; UPath := "*"; RawPath := ""; OmitHost := false;
            ForceQuery := false; RawQuery := ""; Fragment := ""; RawFragment := "" |}
  else
    sr ← getScheme rawURL;
    let '(scheme, rest) := sr in
    let '(rest, force, query) := cutQuery rest in
    let url opaque user host path rawPath omit :=
      {| Scheme := scheme; Opaque := opaque; UserOf := user; Host := host; UPath := path; RawPath := rawPath;
         OmitHost := omit; ForceQuery := force; RawQuery := query; Fragment := ""; RawFragment := "" |} in
    if negb (HasPrefix rest "/") && (scheme != "") then Some (url rest None "" "" "" false)
    else if negb (HasPrefix rest "/") && existsb (fun c => c == ":"%char) (fst (breakAt "/" (chars rest))) then None
    else if ((scheme != "") || negb (HasPrefix rest "///")) && HasPrefix rest "//" then
      let '(authority, path) := breakAt "/" (drop 2 (chars rest)) in
      uh ← parseAuthority scheme (of_chars authority);
      pp ← setPath (of_chars path);
      Some (url "" (fst uh) (snd uh) (fst pp) (snd pp) false)
    else
      pp ← setPath rest;
      Some (url "" None "" (fst pp) (snd pp) ((scheme != "") && HasPrefix rest "/")).

Definition Parse (rawURL : string) : option URL :=
  let '(u, frag) := Cut "#" rawURL in
  url ← parse u;
  if default "" frag == "" then Some url
  else
    fr ← setFragment (default "" frag);
    Some {| Scheme := Scheme url; Opaque := Opaque url; UserOf := UserOf url; Host := Host url; UPath := UPath url;
            RawPath := RawPath url; OmitHost := OmitHost url; ForceQuery := ForceQuery url; RawQuery := RawQuery url;
            Fragment := fst fr; RawFragment := snd fr |}.

(** *** Printing *)

Definition UserinfoString (u : Userinfo) : string :=
  match password u with
  | Some p => escape encodeUserPassword (username u) +:+ ":" +:+ escape encodeUserPassword p
  | None => escape encodeUserPassword (username u)
  end.

(** [EscapedPath] and [EscapedFragment]. *)
Definition escaped (m : mode) (raw value : string) : string :=
  if (raw != "") && validEncoded raw m && bool_decide (unescape m raw = Some value) then raw else escape m value.
Definition EscapedPath (u : URL) : string :=
  if (RawPath u != "") && validEncoded (RawPath u) encodePath &&
     bool_decide (unescape encodePath (RawPath u) = Some (UPath u)) then RawPath u
  else if UPath u == "*" then "*" else escape encodePath (UPath u).

Definition authorityString (u : URL) : string :=
  if (Scheme u != "") || (Host u != "") || User u then
    if OmitHost u && (Host u == "") && negb (User u) then ""
    else
      (if (Host u != "") || (UPath u != "") || User u then "//" else "") +:+
      match UserOf u with Some ui => UserinfoString ui +:+ "@" | None => "" end +:+
      escape encodeHost (Host u)
  else "".

Definition hierarchy (u : URL) : string :=
  let before := (if Scheme u == "" then "" else Scheme u +:+ ":") +:+ authorityString u in
  let path := EscapedPath u in
  let slash := if (path != "") && negb (HasPrefix path "/") && (Host u != "") then "/" else "" in
  let dot := if (before +:+ slash == "") && existsb (fun c => c == ":"%char) (fst (breakAt "/" (chars path)))
             then "./" else "" in
  before +:+ slash +:+ dot +:+ path.

Definition String (u : URL) : string :=
  (if Opaque u == "" then hierarchy u else (if Scheme u == "" then "" else Scheme u +:+ ":") +:+ Opaque u) +:+
  (if ForceQuery u || (RawQuery u != "") then "?" +:+ RawQuery u else "") +:+
  (if Fragment u == "" then "" else "#" +:+ escaped encodeFragment (RawFragment u) (Fragment u)).

(** *** Host and port *)

(** [u.Hostname()] and [u.Port()] by [splitHostPort]. *)
Definition splitHostPort (hostPort : string) : string * string :=
  let '(host, port) :=
    match CutLast ":" hostPort with
    | Some (h, p) => if validOptionalPort (":" +:+ p) then (h, p) else (hostPort, "")
    | None => (hostPort, "")
    end in
  (if HasPrefix host "[" && HasSuffix host "]" then of_chars (removelast (tail (chars host))) else host, port).
Definition Hostname (u : URL) : string := fst (splitHostPort (Host u)).
Definition Port (u : URL) : string := snd (splitHostPort (Host u)).

(** *** Evaluations *)

Definition fieldsOf (s : string) : option (string * bool * string * string * string * string) :=
  u ← Parse s; Some (Scheme u, User u, Host u, UPath u, RawQuery u, Fragment u).

Example Parse_samples : map fieldsOf
    ["HTTPS://u:p@id.Example:8443/a%20b/c?x=1#f"; "https://[2001:db8::1]:80/"; "mailto:a@b"; "//h/p"; "a/b:c"] =
  [Some ("https", true, "id.Example:8443", "/a b/c", "x=1", "f"); Some ("https", false, "[2001:db8::1]:80", "/", "", "");
   Some ("mailto", false, "", "", "", ""); Some ("", false, "h", "/p", "", ""); Some ("", false, "", "a/b:c", "", "")].
Proof. vm_compute. reflexivity. Qed.
Example Parse_rejects : map Parse
    [":x"; "a:b:c/:"; "https://h:x/"; "https://a:1:2/"; "https://[::1"; "https://a b/"; "https://a%20b/"; "/%zz"; "a:b/c"] =
  [None; Parse "a:b:c/:"; None; None; None; None; None; None; Parse "a:b/c"].
Proof. vm_compute. reflexivity. Qed.
Example String_samples : map (fun s => String <$> Parse s)
    ["https://id.example/a%2Fb/c?"; "HTTPS://u:p%40@h/%7euser"; "mailto:a@b?q"; "a/b"; "https://h"] =
  [Some "https://id.example/a%2Fb/c?"; Some "https://u:p%40@h/%7euser"; Some "mailto:a@b?q"; Some "a/b"; Some "https://h"].
Proof. vm_compute. reflexivity. Qed.
Example isIPv6_samples : map isIPv6 ["::1"; "1:2:3:4:5:6:7:8"; "::ffff:1.2.3.4"; "fe80::1%eth0"; "1.2.3.4"; "1::2::3"; "::12345"; "1:2:3:4:5:6:7:8:9"; ":1";
    "::1:2:3:4:5:6:7:8"] = [true; true; true; true; false; false; false; false; false; false].
Proof. vm_compute. reflexivity. Qed.

End NetUrl.

Abbreviation urlParse := NetUrl.Parse.
Abbreviation urlString := NetUrl.String.
