(* ===== verification/GoUrlRoundTrip.v ===== *)
(** * Printed URLs read back

    [String] of a URL that [Parse] gave, with an HTTPS scheme, a host that is no
    bracketed address and a query of plain bytes, parses to the same scheme, host,
    path and query. *)

From S2P Require Import Prelude GoStrings GoUrl GoUrlParse.

Module UrlRoundTrip.
Import Values NetUrl.

(** ** Escapes *)

(** What an escaped byte looks like to the reader. *)
Definition readable (m : mode) (c : ascii) : bool :=
  match NetUrl.escapeChar m c with
  | [d] => (d == c) && (c != "%"%char) && negb (isHost m && (code c <? 0x80) && shouldEscape c m)
  | [p; a; b] =>
      (p == "%"%char) && bool_decide (unhex a = Some (code c / 16)) && bool_decide (unhex b = Some (code c mod 16)) &&
      escapeAllowed m (code c / 16) (code c mod 16)
  | _ => false
  end.

Lemma unescape_cons m c l : readable m c = true ->
  unescapeChars m (NetUrl.escapeChar m c ++ l) = (r ← unescapeChars m l; Some (c :: r)).
Proof.
  unfold readable. destruct (NetUrl.escapeChar m c) as [|d [|a [|b [|]]]]; try done; intros Hr; split_guards; subst.
  - cbn [app unescapeChars]. rewrite bool_decide_false by done. by destruct (isHost m && _ && _).
  - cbn [app unescapeChars]. rewrite bool_decide_true by done.
    match goal with H : unhex a = _, H' : unhex b = _ |- _ => rewrite H, H' end. cbn [mbind option_bind].
    match goal with H : escapeAllowed _ _ _ = true |- _ => rewrite H end. by rewrite ValuesCorrect.ascii_of_hex.
Qed.

Lemma unescape_escaped m l : Forall (fun c => readable m c = true) l ->
  unescapeChars m (flat_map (NetUrl.escapeChar m) l) = Some l.
Proof. induction 1 as [|c l Hc _ IH]; [done|]. cbn [flat_map]. rewrite unescape_cons by done. by rewrite IH. Qed.

Lemma readable_path c : readable encodePath c = true.
Proof. revert c. apply ascii_all. vm_compute. reflexivity. Qed.

(** The bytes a host can hold. *)
Definition hostChar (c : ascii) : bool := negb (shouldEscape c encodeHost) || (0x80 <=? code c) || (c == "%"%char).

Lemma readable_host c : hostChar c = true -> readable encodeHost c = true.
Proof.
  enough (Hi : implb (hostChar c) (readable encodeHost c) = true) by (intros Hc; by rewrite Hc in Hi).
  revert c. apply ascii_all. vm_compute. reflexivity.
Qed.

(** Escaped text consists of percent signs and bytes that need no escape. *)
Definition plain (m : mode) (c : ascii) : bool := (c == "%"%char) || negb (shouldEscape c m).

Lemma escape_plain m l : Forall (fun c => plain m c = true) (flat_map (NetUrl.escapeChar m) l).
Proof.
  apply Forall_flat_map, Forall_forall. intros c _. apply Forall_forall. intros d Hd%list_elem_of_In. revert d Hd.
  apply forallb_forall. revert c. apply ascii_all. destruct m; vm_compute; reflexivity.
Qed.

(** A byte of the text that is not percent-encoded comes from itself. *)
Lemma escape_elem m c l : c ∈ flat_map (NetUrl.escapeChar m) l -> c <> "%"%char -> unhex c = None -> c ∈ l.
Proof.
  intros (d & Hd & Hc)%list_elem_of_In%in_flat_map Hp Hu.
  assert (Hs : forall d, forallb (fun c => (c == "%"%char) || bool_decide (unhex c <> None) || (c == d)) (NetUrl.escapeChar m d) = true).
  { apply ascii_all. destruct m; vm_compute; reflexivity. }
  specialize (Hs d). rewrite forallb_forall in Hs. apply Hs in Hc.
  rewrite !orb_true_iff, !bool_decide_eq_true in Hc. destruct Hc as [[?|?]| ->]; [done|done|by apply list_elem_of_In].
Qed.

(** *** Reading a host *)

(** Induction along escapes. *)
Lemma unescape_ind m (P : list ascii -> list ascii -> Prop) :
  P [] [] ->
  (forall a b t hi lo h, unhex a = Some hi -> unhex b = Some lo -> escapeAllowed m hi lo = true -> P t h ->
     unescapeChars m t = Some h ->
     P ("%"%char :: a :: b :: t) (ascii_of_N (Z.to_N (hi * 16 + lo)) :: h)) ->
  (forall c t h, c <> "%"%char -> isHost m && (code c <? 0x80) && shouldEscape c m = false -> P t h ->
     unescapeChars m t = Some h -> P (c :: t) (c :: h)) ->
  forall l h, unescapeChars m l = Some h -> P l h.
Proof.
  intros Hnil Hesc Hlit l. remember (length l) as n eqn:Hn. revert l Hn.
  induction (lt_wf n) as [n _ IH]. intros l -> h. destruct l as [|c t]; cbn [unescapeChars]; [by intros [= <-]|].
  case_match; split_guards.
  - subst c. destruct t as [|a [|b t]]; try done. intros (hi & Ha & HU)%bind_Some. apply bind_Some in HU as (lo & Hb & HU).
    case_match; [|done]. apply bind_Some in HU as (r & Hr & [= <-]). eapply Hesc; eauto. eapply IH; [|done|done]. cbn. lia.
  - case_match; [done|]. intros (r & Hr & [= <-])%bind_Some. apply Hlit; auto. eapply IH; [|done|done]. cbn. lia.
Qed.

Lemma unhex_range c v : unhex c = Some v -> 0 <= v < 16.
Proof.
  assert (Hall : match unhex c with Some v => (0 <=? v) && (v <? 16) | None => true end = true).
  { revert c. apply ascii_all. vm_compute. reflexivity. }
  intros Hu. rewrite Hu in Hall. lia.
Qed.

(** An escape in a host stands for a percent sign or a byte outside ASCII. *)
Lemma escaped_host hi lo : 0 <= hi < 16 -> 0 <= lo < 16 -> escapeAllowed encodeHost hi lo = true ->
  let c := ascii_of_N (Z.to_N (hi * 16 + lo)) in c = "%"%char \/ 0x80 <= code c.
Proof.
  intros Hh Hl Ha. cbv zeta.
  assert (Hc : code (ascii_of_N (Z.to_N (hi * 16 + lo))) = hi * 16 + lo).
  { unfold code. rewrite N_ascii_embedding by lia. lia. }
  cbn in Ha. destruct (Z.leb_spec 8 hi); [right; lia|]. left. replace (hi * 16 + lo) with 37 by lia. done.
Qed.

Lemma host_chars l h : unescapeChars encodeHost l = Some h -> Forall (fun c => hostChar c = true) h.
Proof.
  revert l h. apply unescape_ind; [constructor|..].
  - intros a b t hi lo h Ha Hb He IH _. constructor; [|done].
    destruct (escaped_host hi lo (unhex_range _ _ Ha) (unhex_range _ _ Hb) He) as [->|Hc]; [done|].
    unfold hostChar. rewrite (proj2 (Z.leb_le _ _) Hc). by destruct (negb _).
  - intros c t h Hp Hs IH _. constructor; [|done]. unfold hostChar. cbn in Hs.
    destruct (shouldEscape c encodeHost); [|done]. cbn. rewrite andb_true_r in Hs. lia.
Qed.

(** A byte of ASCII in a host stands in its text. *)
Lemma host_elem c l h : unescapeChars encodeHost l = Some h -> c ∈ h -> c <> "%"%char -> code c < 0x80 -> c ∈ l.
Proof.
  intros HU. revert l h HU. apply (unescape_ind _ (fun l h => c ∈ h -> c <> "%"%char -> code c < 0x80 -> c ∈ l)).
  - by intros ?%elem_of_nil.
  - intros a b t hi lo h Ha Hb He IH _ [->|Hin]%elem_of_cons Hp Hc.
    + destruct (escaped_host hi lo (unhex_range _ _ Ha) (unhex_range _ _ Hb) He); [done|lia].
    + do 3 right. auto.
  - intros d t h _ _ IH _ [->|Hin]%elem_of_cons Hp Hc; [by left|right; auto].
Qed.

(** Text is read in two pieces when the second starts with a byte that no escape
    contains. *)
Lemma unescape_split m c l1 l2 h : unhex c = None -> unescapeChars m (l1 ++ c :: l2) = Some h ->
  exists h1 h2, unescapeChars m l1 = Some h1 /\ unescapeChars m (c :: l2) = Some h2 /\ h = h1 ++ h2.
Proof.
  intros Hc. remember (length l1) as n eqn:Hn. revert l1 h Hn. induction (lt_wf n) as [n _ IH]. intros l1 h -> HU.
  destruct l1 as [|d t]; [by exists [], h|]. cbn [app unescapeChars] in HU.
  case_match eqn:Hd; split_guards.
  - subst d. destruct t as [|a [|b t]]; cbn [app] in HU.
    + destruct l2; [done|]. rewrite Hc in HU. done.
    + apply bind_Some in HU as (hi & Ha & HU). rewrite Hc in HU. done.
    + apply bind_Some in HU as (hi & Ha & HU). apply bind_Some in HU as (lo & Hb & HU). case_match eqn:He; [|done].
      apply bind_Some in HU as (r & Hr & [= <-]). destruct (IH (length t) ltac:(cbn; lia) t r eq_refl Hr) as (h1 & h2 & H1 & H2 & ->).
      eexists (_ :: h1), h2. split_and!; [|done|done]. cbn [unescapeChars].
      by rewrite bool_decide_true, Ha, Hb by done; cbn [mbind option_bind]; rewrite He, H1.
  - case_match eqn:Hs; [done|]. apply bind_Some in HU as (r & Hr & [= <-]).
    destruct (IH (length t) ltac:(cbn; lia) t r eq_refl Hr) as (h1 & h2 & H1 & H2 & ->).
    eexists (d :: h1), h2. split_and!; [|done|done]. cbn [unescapeChars]. rewrite bool_decide_false by done. by rewrite Hs, H1.
Qed.

(** ** Hosts *)

Lemma breakAt_none sep l : sep ∉ l -> breakAt sep l = (l, []).
Proof.
  induction l as [|c l IH]; cbn [breakAt]; [done|]. rewrite not_elem_of_cons. intros [Hc Hl].
  rewrite bool_decide_false by done. by rewrite IH.
Qed.

Lemma breakAt_app sep l t : sep ∉ l -> breakAt sep (l ++ sep :: t) = (l, sep :: t).
Proof.
  induction l as [|c l IH]; cbn [breakAt app]; [by rewrite bool_decide_true|]. rewrite not_elem_of_cons. intros [Hc Hl].
  rewrite bool_decide_false by done. by rewrite IH.
Qed.

Lemma breakAt_spec sep l l1 l2 : breakAt sep l = (l1, l2) ->
  l = l1 ++ l2 /\ sep ∉ l1 /\ (l2 = [] \/ exists t, l2 = sep :: t).
Proof.
  revert l1 l2. induction l as [|c l IH]; intros l1 l2; cbn [breakAt].
  - intros [= <- <-]. split_and!; [done|apply not_elem_of_nil|by left].
  - case_match; split_guards.
    + intros [= <- <-]. split_and!; [done|apply not_elem_of_nil|right; subst; eauto].
    + destruct (breakAt sep l) as [b r]. intros [= <- <-]. destruct (IH b r eq_refl) as (-> & Hn & Ht).
      split_and!; [done| |done]. apply not_elem_of_cons. done.
Qed.

(** A port needs no escapes. *)
Lemma port_plain l : validOptionalPort (of_chars l) = true ->
  flat_map (NetUrl.escapeChar encodeHost) l = l /\ unescapeChars encodeHost l = Some l.
Proof.
  intros Hv.
  assert (Hall : Forall (fun c => (c == ":"%char) || isDigit c = true) l).
  { unfold validOptionalPort in Hv. rewrite chars_of_chars in Hv. destruct l as [|c t]; [constructor|].
    apply andb_true_iff in Hv as [Hc Ht]. constructor; [by rewrite Hc|]. apply Forall_forall. intros d Hd%list_elem_of_In.
    rewrite forallb_forall in Ht. rewrite (Ht d Hd). apply orb_true_r. }
  assert (Hs : forall c, implb ((c == ":"%char) || isDigit c)
    (bool_decide (NetUrl.escapeChar encodeHost c = [c]) && readable encodeHost c) = true).
  { apply ascii_all. vm_compute. reflexivity. }
  assert (Heq : flat_map (NetUrl.escapeChar encodeHost) l = l).
  { clear Hv. induction Hall as [|c l Hc _ IH]; [done|]. specialize (Hs c). rewrite Hc in Hs. cbn [implb] in Hs. split_guards.
    cbn [flat_map]. match goal with H : _ = [c] |- _ => rewrite H end. cbn. by rewrite IH. }
  split; [done|]. rewrite <- Heq at 1. apply unescape_escaped. eapply Forall_impl; [exact Hall|]. intros c Hc.
  specialize (Hs c). rewrite Hc in Hs. cbn [implb] in Hs. by split_guards.
Qed.

(** An ASCII byte that is not in the text of a host is not in its escaped form. *)
Lemma host_absent c a h : unescapeChars encodeHost a = Some h -> c ∉ a -> c <> "%"%char -> unhex c = None ->
  code c < 0x80 -> c ∉ flat_map (NetUrl.escapeChar encodeHost) h.
Proof. intros Hu Ha Hp Hx Hc He. apply Ha. eapply host_elem; eauto using escape_elem. Qed.

Lemma bracketedHost_prefix a h : bracketedHost a = Some h -> HasPrefix h "[" = true.
Proof.
  unfold bracketedHost. intros ([x y] & _ & HB)%bind_Some. case_match; [done|].
  apply bind_Some in HB as (? & _ & HB). case_match. apply bind_Some in HB as (? & _ & HB).
  apply bind_Some in HB as (? & _ & HB). case_match; [|done]. injection HB as <-. reflexivity.
Qed.

Lemma escaped_port a h : unescapeChars encodeHost a = Some h ->
  validOptionalPort (of_chars (snd (breakAt ":" a))) = true ->
  validOptionalPort (of_chars (snd (breakAt ":" (flat_map (NetUrl.escapeChar encodeHost) h)))) = true.
Proof.
  intros Hu Hv. destruct (breakAt ":" a) as [a1 a2] eqn:Hb. apply breakAt_spec in Hb as (-> & Hn & Ha2). cbn [snd] in Hv.
  destruct Ha2 as [->|[t ->]].
  - rewrite app_nil_r in Hu. by rewrite breakAt_none by by eapply host_absent.
  - apply unescape_split in Hu as (h1 & h2 & H1 & H2 & ->); [|done]. destruct (port_plain _ Hv) as [He Hp].
    rewrite Hp in H2. injection H2 as <-. rewrite flat_map_app, He, breakAt_app; [done|]. by eapply host_absent.
Qed.

(** The text of a host that was parsed parses to the host. *)
Lemma parseHost_again a h : parseHost "https" a = Some h -> HasPrefix h "[" = false ->
  parseHost "https" (NetUrl.escape encodeHost h) = Some h.
Proof.
  unfold parseHost at 1. destruct (chars a) as [|c t] eqn:Ha; [by intros [= <-]|].
  case_match eqn:Hb; [done|]. apply bool_decide_eq_false in Hb. case_match eqn:Hc; split_guards.
  { intros HB%bracketedHost_prefix. by rewrite HB. }
  rewrite bool_decide_false by (by apply (bool_decide_eq_false_1 _)). case_match eqn:Hp; [|done].
  unfold NetUrl.unescape at 1. rewrite Ha. intros (l & Hu & ->)%fmap_Some _.
  assert (Hbr : "["%char ∉ flat_map (NetUrl.escapeChar encodeHost) l).
  { eapply host_absent; [exact Hu| |done..]. by apply not_elem_of_cons. }
  apply (escaped_port _ _ Hu) in Hp. pose proof (unescape_escaped encodeHost l) as Hback.
  specialize (Hback (Forall_impl _ _ _ (host_chars _ _ Hu) readable_host)).
  unfold parseHost, NetUrl.escape, NetUrl.unescape. rewrite !chars_of_chars.
  destruct (flat_map _ l) as [|c' t'] eqn:He; [cbn in Hback; by injection Hback as <-|].
  apply not_elem_of_cons in Hbr as [Hc' Ht']. rewrite bool_decide_false by done. rewrite bool_decide_false by done.
  rewrite bool_decide_false by (by apply (bool_decide_eq_false_1 _)). by rewrite Hp, Hback.
Qed.

(** ** Paths *)

(** Bytes that neither end a path or a host nor are refused. *)
Definition clean (c : ascii) : bool :=
  negb ((code c <? 0x20) || (code c =? 0x7f)) && (c != "?"%char) && (c != "#"%char).

Lemma plain_host c : plain encodeHost c = true -> clean c = true /\ c <> "/"%char /\ c <> "@"%char.
Proof.
  enough (Hi : implb (plain encodeHost c) (clean c && (c != "/"%char) && (c != "@"%char)) = true).
  { intros Hc. rewrite Hc in Hi. cbn [implb] in Hi. split_guards. done. }
  revert c. apply ascii_all. vm_compute. reflexivity.
Qed.

Lemma plain_path c : plain encodePath c || among "!$&'()*+,;=:@[]%" c = true -> clean c = true.
Proof.
  enough (Hi : implb (plain encodePath c || among "!$&'()*+,;=:@[]%" c) (clean c) = true) by (intros Hc; by rewrite Hc in Hi).
  revert c. apply ascii_all. vm_compute. reflexivity.
Qed.

(** The printed path of a URL reads back as the path. *)
Lemma EscapedPath_reads u p t : setPath p = Some (UPath u, RawPath u) -> chars p = "/"%char :: t ->
  exists t' raw, chars (EscapedPath u) = "/"%char :: t' /\ Forall (fun c => clean c = true) t' /\
    setPath (EscapedPath u) = Some (UPath u, raw).
Proof.
  unfold setPath. intros (path & Hu & [= HP Hraw])%bind_Some Hp.
  assert (Hpath : exists l, chars path = "/"%char :: l).
  { unfold NetUrl.unescape in Hu. apply fmap_Some in Hu as (l & Hl & ->). rewrite Hp in Hl. cbn in Hl.
    apply bind_Some in Hl as (r & _ & [= <-]). exists r. by rewrite chars_of_chars. }
  destruct Hpath as (l & Hl). unfold EscapedPath. rewrite <- HP.
  match goal with |- context [if ?b then RawPath u else _] => destruct b eqn:Hcase end.
  - assert (Hr : RawPath u = p).
    { destruct (bool_decide (p = NetUrl.escape encodePath path)); [|done]. rewrite <- Hraw in Hcase. done. }
    clear Hraw. split_guards.
    rewrite Hr in *. exists t. eexists. split; [done|]. split; [|by rewrite Hu].
    match goal with H : validEncoded p encodePath = true |- _ => unfold validEncoded in H; rewrite Hp in H; cbn [forallb] in H end.
    split_guards. apply Forall_forall. intros c Hc%list_elem_of_In.
    match goal with H : forallb _ t = true |- _ => rewrite forallb_forall in H; specialize (H c Hc) end.
    apply plain_path. unfold plain.
    match goal with H : _ || negb _ = true |- _ => apply orb_true_iff in H as [->| ->] end; [apply orb_true_r|].
    by rewrite orb_true_r.
  - rewrite bool_decide_false by (intros ->; by vm_compute in Hl).
    exists (flat_map (NetUrl.escapeChar encodePath) l). eexists. split; [|split].
    + unfold NetUrl.escape. rewrite chars_of_chars, Hl. reflexivity.
    + eapply Forall_impl; [apply escape_plain|]. intros c Hc. apply plain_path. by rewrite Hc.
    + unfold NetUrl.unescape, NetUrl.escape. rewrite chars_of_chars, unescape_escaped.
      * cbn [fmap option_fmap option_map mbind option_bind]. by rewrite of_chars_chars.
      * apply Forall_forall. intros c _. apply readable_path.
Qed.

(** ** Whole URLs *)

(** A URL with a host was read from an authority and a path. *)
Lemma Parse_host s u : Parse s = Some u -> Host u <> "" ->
  Opaque u = "" /\ OmitHost u = false /\
  exists authority path, parseAuthority (Scheme u) authority = Some (UserOf u, Host u) /\
    setPath (of_chars path) = Some (UPath u, RawPath u) /\ (path = [] \/ exists t, path = "/"%char :: t).
Proof.
  intros HP Hh.
  assert (Hparse : exists r u0, parse r = Some u0 /\ Opaque u0 = Opaque u /\ OmitHost u0 = OmitHost u /\ UserOf u0 = UserOf u /\
    Scheme u0 = Scheme u /\ Host u0 = Host u /\ UPath u0 = UPath u /\ RawPath u0 = RawPath u).
  { unfold Parse in HP. destruct (Cut "#" s) as [r frag]. apply bind_Some in HP as (u0 & Hu0 & HP). exists r, u0.
    case_match; [injection HP as ->; by split_and!|]. apply bind_Some in HP as (fr & _ & [= <-]). by split_and!. }
  destruct Hparse as (r & u0 & Hu0 & <- & <- & <- & <- & Hhost & <- & <-). rewrite <- Hhost in *. clear HP Hhost u.
  unfold parse in Hu0. case_match; [done|]. case_match; [by injection Hu0 as <-|].
  apply bind_Some in Hu0 as ([scheme rest] & _ & Hu0). destruct (cutQuery rest) as [[rest' force] query].
  case_match; [by injection Hu0 as <-|]. case_match; [done|]. case_match.
  - destruct (breakAt "/" (drop 2 (chars rest'))) as [authority path] eqn:Hb.
    apply bind_Some in Hu0 as ([user host] & Ha & Hu0). apply bind_Some in Hu0 as ([pth raw] & Hs & [= <-]).
    apply breakAt_spec in Hb as (_ & _ & Hb). split_and!; [done..|]. by exists (of_chars authority), path.
  - apply bind_Some in Hu0 as ([pth raw] & _ & [= <-]). done.
Qed.

(** The text of such a URL with another query. *)
Lemma String_text u q : Scheme u = "https" -> Opaque u = "" -> OmitHost u = false -> UserOf u = None -> Host u <> "" ->
  Fragment u = "" -> HasPrefix (EscapedPath u) "/" = true -> q <> "" ->
  chars (String (with_RawQuery u q)) =
    chars "https:" ++ chars "//" ++ chars (NetUrl.escape encodeHost (Host u)) ++ chars (EscapedPath u) ++
    "?"%char :: chars q.
Proof.
  intros Hs Ho Hom Hu Hh Hf Hp Hq. unfold String, hierarchy, authorityString, User.
  cbn [with_RawQuery Scheme Opaque OmitHost UserOf Host UPath RawPath ForceQuery RawQuery Fragment RawFragment].
  change (EscapedPath (with_RawQuery u q)) with (EscapedPath u). rewrite Hs, Ho, Hom, Hu, Hf, Hp.
  rewrite (bool_decide_false (Host u = "")), (bool_decide_false (q = "")) by done.
  cbn [negb orb andb]. rewrite !orb_true_r, !andb_false_r, (bool_decide_true ("" = "")) by done.
  rewrite (bool_decide_false ("https" = "")) by done. cbn [negb orb andb].
  rewrite bool_decide_false by done. cbn [andb].
  rewrite !chars_app. cbn [chars app]. rewrite <- ?app_assoc. cbn [app]. by rewrite ?app_nil_r.
Qed.

Lemma HasPrefix_app p l : HasPrefix (of_chars (chars p ++ l)) p = true.
Proof. unfold HasPrefix. rewrite chars_of_chars. apply bool_decide_eq_true. exists l. by apply stripPrefix_Some. Qed.

Lemma parseAuthority_host scheme authority h : parseAuthority scheme authority = Some (None, h) ->
  parseHost scheme authority = Some h.
Proof.
  unfold parseAuthority. destruct (CutLast "@" authority) as [[ui rest]|].
  - intros (? & _ & HA)%bind_Some. by apply bind_Some in HA as (? & _ & [=]).
  - by intros (? & HP & [= <-])%bind_Some.
Qed.

Lemma parseAuthority_plain scheme l h : "@"%char ∉ l -> parseHost scheme (of_chars l) = Some h ->
  parseAuthority scheme (of_chars l) = Some (None, h).
Proof.
  intros Hl HP. unfold parseAuthority, CutLast. rewrite chars_of_chars, ValuesCorrect.cut_none by by rewrite elem_of_rev.
  by rewrite HP.
Qed.

Lemma getScheme_https l : getScheme (of_chars (chars "https:" ++ l)) = Some ("https", of_chars l).
Proof. unfold getScheme. rewrite chars_of_chars. reflexivity. Qed.

(** The parts of a text that has no fragment, an HTTPS scheme, an authority, a path
    and a query. *)
Lemma Parse_parts e t q h pp : "/"%char ∉ e -> "@"%char ∉ e -> q <> "" ->
  Forall (fun c => clean c = true) (e ++ t) -> Forall (fun c => clean c || (c == "?"%char) = true) (chars q) ->
  parseHost "https" (of_chars e) = Some h -> setPath (of_chars ("/"%char :: t)) = Some pp ->
  Parse (of_chars (chars "https:" ++ chars "//" ++ e ++ ("/"%char :: t) ++ "?"%char :: chars q)) =
    Some {| Scheme := "https"; Opaque := ""; UserOf := None; Host := h; UPath := fst pp; RawPath := snd pp;
            OmitHost := false; ForceQuery := false; RawQuery := q; Fragment := ""; RawFragment := "" |}.
Proof.
  intros Hs Ha Hq Het Hcq Hh Hp.
  set (before := chars "//" ++ e ++ "/"%char :: t).
  assert (Hbefore : Forall (fun c => clean c = true) before).
  { apply Forall_app in Het as [He Ht]. unfold before. repeat (constructor; [reflexivity|]).
    apply Forall_app. split; [done|]. by constructor. }
  assert (Hall : Forall (fun c => clean c || (c == "?"%char) = true) (chars "https:" ++ before ++ "?"%char :: chars q)).
  { apply Forall_app. split; [by repeat constructor|]. apply Forall_app. split; [|by constructor].
    eapply Forall_impl; [exact Hbefore|]. intros c Hc. by rewrite Hc. }
  assert (Hhash : "#"%char ∉ chars "https:" ++ before ++ "?"%char :: chars q).
  { intros Hin. rewrite Forall_forall in Hall. by apply Hall in Hin. }
  assert (Hquest : "?"%char ∉ before).
  { intros Hin. rewrite Forall_forall in Hbefore. by apply Hbefore in Hin. }
  replace (chars "https:" ++ chars "//" ++ e ++ ("/"%char :: t) ++ "?"%char :: chars q)
    with (chars "https:" ++ before ++ "?"%char :: chars q) by (unfold before; by rewrite <- !app_assoc).
  unfold Parse, Cut. rewrite chars_of_chars, ValuesCorrect.cut_none by done. cbn [fmap option_fmap option_map default].
  enough (HP : parse (of_chars (chars "https:" ++ before ++ "?"%char :: chars q)) = Some
    {| Scheme := "https"; Opaque := ""; UserOf := None; Host := h; UPath := fst pp; RawPath := snd pp;
       OmitHost := false; ForceQuery := false; RawQuery := q; Fragment := ""; RawFragment := "" |}) by by rewrite HP.
  unfold parse. rewrite chars_of_chars.
  replace (existsb _ (chars "https:" ++ _)) with false.
  2: { symmetry. apply not_true_iff_false. rewrite existsb_exists. intros (c & Hin%list_elem_of_In & Hc).
       rewrite Forall_forall in Hall. apply Hall in Hin. unfold clean in Hin. rewrite Hc in Hin. cbn in Hin.
       split_guards. subst c. done. }
  rewrite bool_decide_false by done. rewrite getScheme_https. cbn [mbind option_bind].
  unfold cutQuery, Cut. rewrite chars_of_chars, ValuesCorrect.cut_app by done. cbn [fmap option_fmap option_map].
  rewrite of_chars_chars, (bool_decide_false (q = "")), (bool_decide_false ("https" = "")) by done.
  assert (H1 : HasPrefix (of_chars before) "/" = true) by apply (HasPrefix_app "/").
  assert (H2 : HasPrefix (of_chars before) "//" = true) by apply (HasPrefix_app "//").
  rewrite H1, H2, chars_of_chars. cbn [negb andb orb].
  change (drop 2 before) with (e ++ "/"%char :: t). rewrite breakAt_app by done.
  rewrite (parseAuthority_plain _ _ h) by done. cbn [mbind option_bind]. by rewrite Hp.
Qed.

(** Printing and parsing again changes nothing but the query. *)
Lemma Parse_String s u q : Parse s = Some u -> Scheme u = "https" -> Host u <> "" -> HasPrefix (Host u) "[" = false ->
  UserOf u = None -> UPath u <> "" -> Fragment u = "" ->
  q <> "" -> Forall (fun c => clean c || (c == "?"%char) = true) (chars q) ->
  exists raw, Parse (String (with_RawQuery u q)) =
    Some {| Scheme := "https"; Opaque := ""; UserOf := None; Host := Host u; UPath := UPath u; RawPath := raw;
            OmitHost := false; ForceQuery := false; RawQuery := q; Fragment := ""; RawFragment := "" |}.
Proof.
  intros HP Hs Hh Hb Hu Hne Hf Hq Hcq. destruct (Parse_host s u HP Hh) as (Ho & Hom & authority & path & Ha & Hp & Hpath).
  destruct Hpath as [->|[t ->]]; [by injection Hp as Hp _; rewrite <- Hp in Hne|].
  rewrite Hu, Hs in Ha. apply parseAuthority_host in Ha.
  destruct (EscapedPath_reads u _ t Hp) as (t' & raw & Het & Hct & Hset); [by rewrite chars_of_chars|].
  assert (Hep : EscapedPath u = of_chars ("/"%char :: t')) by by rewrite <- Het, of_chars_chars.
  assert (Hclean : Forall (fun c => plain encodeHost c = true) (chars (NetUrl.escape encodeHost (Host u)))).
  { unfold NetUrl.escape. rewrite chars_of_chars. apply escape_plain. }
  exists raw. rewrite <- (of_chars_chars (String _)), String_text; try done.
  2: { rewrite Hep. apply (HasPrefix_app "/"). }
  rewrite Het. apply (Parse_parts _ _ _ _ (UPath u, raw)); try done.
  - intros Hin. rewrite Forall_forall in Hclean. by apply Hclean, plain_host in Hin as (_ & ? & _).
  - intros Hin. rewrite Forall_forall in Hclean. by apply Hclean, plain_host in Hin as (_ & _ & ?).
  - apply Forall_app. split; [|done]. eapply Forall_impl; [exact Hclean|]. intros c Hc. by apply plain_host in Hc as (? & _).
  - rewrite of_chars_chars. by eapply parseHost_again.
  - by rewrite <- Hep.
Qed.

(** *** Encoded queries are such texts *)

Lemma Encode_clean v : Forall (fun c => clean c || (c == "?"%char) = true) (chars (Encode v)).
Proof.
  unfold Encode. rewrite chars_of_chars.
  assert (He : forall l, Forall (fun c => clean c || (c == "?"%char) = true) (Values.escape l)).
  { intros l. apply Forall_flat_map, Forall_forall. intros c _. apply Forall_forall. intros d Hd%list_elem_of_In.
    revert d Hd. apply forallb_forall. revert c. apply ascii_all. vm_compute. reflexivity. }
  assert (Hp : forall kx, Forall (fun c => clean c || (c == "?"%char) = true) (piece kx)).
  { intros kx. unfold piece. apply Forall_app. split; [done|]. by constructor. }
  induction (pairs v) as [|kx [|kx' ps] IH]; [constructor|apply Hp|].
  cbn [map joinAmp] in *. apply Forall_app. split; [apply Hp|]. constructor; [done|exact IH].
Qed.

Lemma Encode_nonempty v : (forall k, v !! k <> Some []) -> v <> ∅ -> Encode v <> "".
Proof. intros Hk Hv He. apply Hv. by rewrite <- (ValuesCorrect.ParseQuery_Encode v Hk), He. Qed.

End UrlRoundTrip.
