(* ===== verification/GoMime.v ===== *)
(** * Media types ([mime.ParseMediaType])

    The type and its parameters, read as RFC 2045 and RFC 2616 write them.  The
    values of parameters, which no caller uses, are kept only as far as a
    repeated parameter is compared with the first. *)

From S2P Require Import Prelude GoStrings.

Module Mime.

(** *** Tokens and values *)

(** [isTSpecial] and [isTokenChar]. *)
Definition isTSpecial (c : ascii) : bool := bool_decide (c ∈ asciis [40; 41; 60; 62; 64; 44; 59; 58; 92; 34; 47; 91; 93; 63; 61]).
Definition isTokenChar (c : ascii) : bool := between 0x21 0x7e (code c) && negb (isTSpecial c).

Fixpoint consumeToken (l : list ascii) : list ascii * list ascii :=
  match l with
  | c :: t => if isTokenChar c then let '(token, rest) := consumeToken t in (c :: token, rest) else ([], l)
  | [] => ([], [])
  end.

(** The inside of a quoted string: its value, and the text behind the closing
    quote, if there is one.  A backslash quotes special characters only. *)
Fixpoint quotedText (l : list ascii) : option (list ascii * list ascii) :=
  match l with
  | [] => None
  | c :: t =>
      if code c =? 34 then Some ([], t)
      else
        let plain :=
          if (code c =? 13) || (code c =? 10) then None
          else '(value, rest) ← quotedText t; Some (c :: value, rest) in
        match t with
        | d :: t' =>
            if (code c =? 92) && isTSpecial d then '(value, rest) ← quotedText t'; Some (d :: value, rest) else plain
        | [] => plain
        end
  end.

Definition consumeValue (l : list ascii) : list ascii * list ascii :=
  match l with
  | c :: t => if code c =? 34 then default ([], l) (quotedText t) else consumeToken l
  | [] => ([], [])
  end.

Section lower.
Context `{UnicodeCase}.

(** [consumeMediaParam]: [None] stands for the empty name. *)
Definition consumeMediaParam (l : list ascii) : option (string * string * list ascii) :=
  match trimLeft l with
  | c :: l =>
      if c != ";"%char then None
      else
        let '(param, l) := consumeToken (trimLeft l) in
        if param == [] then None
        else
          match trimLeft l with
          | c :: l =>
              if c != "="%char then None
              else
                let rest := trimLeft l in
                let '(value, rest2) := consumeValue rest in
                if (value == []) && (rest2 == rest) then None
                else Some (ToLower (of_chars param), of_chars value, rest2)
          | [] => None
          end
  | [] => None
  end.

(** *** The type *)

Definition checkMediaTypeDisposition (s : string) : option string :=
  let '(typ, rest) := consumeToken (chars s) in
  if typ == [] then Some "mime: no media type"
  else
    match rest with
    | [] => None
    | c :: rest =>
        if c != "/"%char then Some "mime: expected slash after first token"
        else
          let '(subtype, rest) := consumeToken rest in
          if subtype == [] then Some "mime: expected token after slash"
          else if rest != [] then Some "mime: unexpected content after media subtype" else None
    end.

(** What stands before the first semicolon, and the rest. *)
Fixpoint base (l : list ascii) : list ascii * list ascii :=
  match l with
  | c :: t => if c == ";"%char then ([], l) else let '(b, rest) := base t in (c :: b, rest)
  | [] => ([], [])
  end.

(** The loop over the parameters: an error, if any, and the empty text when fuel
    is out.  Parameters with a star are
    kept apart by their base name, which their name determines, so one map of
    names serves. *)
Fixpoint parameters (fuel : nat) (params : gmap string string) (l : list ascii) : option string :=
  match trimLeft l, fuel with
  | [], _ => None
  | _, O => Some ""
  | l, S fuel =>
      match consumeMediaParam l with
      | None => if trimRight (trimLeft l) == [";"%char] then None else Some "mime: invalid media parameter"
      | Some (key, value, rest) =>
          match params !! key with
          | Some v => if v != value then Some "mime: duplicate parameter name" else parameters fuel params rest
          | None => parameters fuel (<[key := value]> params) rest
          end
      end
  end.

Definition ParseMediaType (v : string) : result string string :=
  let '(b, rest) := base (chars v) in
  let mediatype := TrimSpace (ToLower (of_chars b)) in
  match checkMediaTypeDisposition mediatype with
  | Some e => Err e
  | None => match parameters (length rest) ∅ rest with Some e => Err e | None => Ok mediatype end
  end.

(** *** The fuel of the loop is enough *)

Lemma trimLeft_length l : (length (trimLeft l) <= length l)%nat.
Proof.
  unfold trimLeft. generalize (length l) at 1 as fuel. intros fuel. generalize (map asciis spaceRunes) as seqs.
  revert l. induction fuel as [|fuel IH]; intros l seqs; cbn [stripAll]; [done|].
  destruct (stripOne seqs l) as [rest|] eqn:E; [|done]. etrans; [apply IH|].
  revert E. induction seqs as [|p seqs IHs]; cbn [stripOne]; [done|].
  destruct (stripPrefix p l) as [r|] eqn:Ep; [|done]. intros [= <-]. apply stripPrefix_Some in Ep as ->.
  rewrite length_app. lia.
Qed.

Lemma consumeToken_length l : (length (snd (consumeToken l)) <= length l)%nat.
Proof.
  induction l as [|c l IH]; cbn [consumeToken]; [done|]. destruct (isTokenChar c); [|done].
  destruct (consumeToken l). cbn in *. lia.
Qed.

Lemma quotedText_length n : forall l value rest, (length l <= n)%nat -> quotedText l = Some (value, rest) ->
  (length rest <= length l)%nat.
Proof.
  induction n as [|n IH]; intros [|c t] value rest Hn; cbn [quotedText]; try done; [cbn in Hn; lia|].
  cbn [length] in *. case_match; [intros [= _ <-]; lia|].
  assert (Hplain : (if (code c =? 13) || (code c =? 10) then None
    else '(value, rest) ← quotedText t; Some (c :: value, rest)) = Some (value, rest) -> (length rest <= S (length t))%nat).
  { case_match; [done|]. intros ([v r] & Hq & [= _ <-])%bind_Some. apply IH in Hq; lia. }
  destruct t as [|d t']; [exact Hplain|]. destruct ((code c =? 92) && isTSpecial d); [|exact Hplain].
  intros ([v r] & Hq & [= _ <-])%bind_Some. cbn in *. apply IH in Hq; lia.
Qed.

Lemma consumeValue_length l : (length (snd (consumeValue l)) <= length l)%nat.
Proof.
  unfold consumeValue. destruct l as [|c t]; [done|]. case_match; [|apply consumeToken_length].
  destruct (quotedText t) as [[v r]|] eqn:E; [|done]. apply (quotedText_length (length t)) in E; cbn; lia.
Qed.

Lemma consumeMediaParam_length l key value rest : consumeMediaParam l = Some (key, value, rest) ->
  (length rest < length l)%nat.
Proof.
  unfold consumeMediaParam. pose proof (trimLeft_length l). destruct (trimLeft l) as [|c l1]; [done|]. case_match; [done|].
  pose proof (trimLeft_length l1). pose proof (consumeToken_length (trimLeft l1)).
  destruct (consumeToken (trimLeft l1)) as [param l2]. case_match; [done|].
  pose proof (trimLeft_length l2). destruct (trimLeft l2) as [|c' l3]; [done|]. case_match; [done|]. cbv zeta.
  pose proof (trimLeft_length l3). pose proof (consumeValue_length (trimLeft l3)).
  destruct (consumeValue (trimLeft l3)) as [v l4]. case_match; [done|]. intros [= _ _ <-]. cbn in *. lia.
Qed.

Lemma parameters_never_stuck fuel params l : (length l <= fuel)%nat -> parameters fuel params l <> Some "".
Proof.
  revert params l. induction fuel as [|fuel IH]; intros params l Hl; cbn [parameters]; pose proof (trimLeft_length l).
  - destruct (trimLeft l); [done|]. cbn in *. lia.
  - destruct (trimLeft l) as [|c t] eqn:Et; [done|].
    destruct (consumeMediaParam (c :: t)) as [[[key value] rest]|] eqn:Ec; [|by case_match].
    apply consumeMediaParam_length in Ec. destruct (params !! key); [case_match; [done|]|]; apply IH; lia.
Qed.
End lower.

(** Evaluations with the case tables of ASCII. *)
Definition asciiCase : UnicodeCase := {| lowerRune := fun r => r; upperRune := fun r => r |}.

Example ParseMediaType_sample :
  map (@ParseMediaType asciiCase) ["application/json"; " Application/JSON ; charset=utf-8"; "application/json;"; "text"] =
  [Ok "application/json"; Ok "application/json"; Ok "application/json"; Ok "text"].
Proof. vm_compute. reflexivity. Qed.
Example ParseMediaType_rejects :
  map (@ParseMediaType asciiCase) [""; "/json"; "application/"; "application/json x"; "application/json; charset";
    "application/json; a=1; A=2"] =
  [Err "mime: no media type"; Err "mime: no media type"; Err "mime: expected token after slash";
   Err "mime: unexpected content after media subtype"; Err "mime: invalid media parameter";
   Err "mime: duplicate parameter name"].
Proof. vm_compute. reflexivity. Qed.

End Mime.
