(* ===== verification/GoHttp.v ===== *)
(** * HTTP exchanges: the part of Go's [net/http] the framework writes through

    Headers with canonical names, requests, and the server's [ResponseWriter]:
    headers may be changed until a final status is written, the first final
    status freezes them, informational ones are sent and do not, and writing a
    body without a status writes 200.  Middleware that wraps the writer to learn
    the status is a tracker in the writer's state.  Requests are objects: the
    router records the matched pattern on the request object it is given, and
    [WithContext] copies the object.  A handler is the sequence of calls it makes
    on the writer, and how it ends. *)

From S2P Require Import Prelude GoStrings.

Module Http.

(** ** Headers *)

(** Token characters of RFC 9110, on which names are canonicalized. *)
Definition tokenChar (z : Z) : bool :=
  between (code "a") (code "z") z || between (code "A") (code "Z") z || between (code "0") (code "9") z ||
  existsb (fun c => z =? code c) (chars "!#$%&'*+-.^_`|~").

Fixpoint canonicalChars (upper : bool) (l : list ascii) : list ascii :=
  match l with
  | [] => []
  | c :: rest =>
      (if upper then upperASCII c else lowerASCII c) :: canonicalChars (c == "-"%char) rest
  end.

(** [textproto.CanonicalMIMEHeaderKey]. *)
Definition CanonicalHeaderKey (s : string) : string :=
  if forallb (fun c => tokenChar (code c)) (chars s) then of_chars (canonicalChars true (chars s)) else s.

Abbreviation Header := (gmap string (list string)) (only parsing).

Definition hGet (h : Header) (k : string) : string :=
  match default [] (h !! CanonicalHeaderKey k) with v :: _ => v | [] => "" end.
Definition hSet (k v : string) (h : Header) : Header := <[CanonicalHeaderKey k := [v]]> h.
Definition hAdd (k v : string) (h : Header) : Header :=
  <[CanonicalHeaderKey k := default [] (h !! CanonicalHeaderKey k) ++ [v]]> h.
Definition hDel (k : string) (h : Header) : Header := delete (CanonicalHeaderKey k) h.

(** A [*http.Request]: the address of the object, whose [Pattern] field is
    mutable, and the fields that are not written; [rContextID] is the value the
    context holds for the request ID, [rPath] the unescaped segments of the URL's
    path, between its slashes. *)
Record Request := {
  rObject : positive; rMethod : string; rPath : list string; rHeader : Header; rTLS : bool; rContextID : string
}.

(** ** The response writer *)

(** [body] holds the bytes of each call of [Write]. *)
Record Writer := {
  wHeader : Header;
  committed : option (Z * Header);
  informational : list Z;
  body : list (list byte);
  trackers : list Z
}.

Definition newWriter : Writer :=
  {| wHeader := ∅; committed := None; informational := []; body := []; trackers := [] |}.

Section writer.
Implicit Types (w : Writer).

Definition onHeader (f : Header -> Header) w : Writer :=
  {| wHeader := f (wHeader w); committed := committed w; informational := informational w;
     body := body w; trackers := trackers w |}.

(** Each wrapper remembers the first status it sees. *)
Definition track (status : Z) (t : Z) : Z := if t =? 0 then status else t.

Definition isInformational (status : Z) : bool := between 100 199 status && negb (status =? 101).

Definition WriteHeader (status : Z) w : Writer :=
  {| wHeader := wHeader w;
     committed := match committed w with
                  | Some c => Some c
                  | None => if isInformational status then None else Some (status, wHeader w)
                  end;
     informational := informational w ++
       match committed w with None => if isInformational status then [status] else [] | Some _ => [] end;
     body := body w; trackers := map (track status) (trackers w) |}.

Definition Write (c : list byte) w : Writer :=
  let w' := match committed w with None => WriteHeader 200 w | Some _ => w end in
  {| wHeader := wHeader w'; committed := committed w'; informational := informational w';
     body := body w' ++ [c]; trackers := map (track 200) (trackers w) |}.

(** Entering and leaving a status-tracking wrapper. *)
Definition pushTracker w : Writer :=
  {| wHeader := wHeader w; committed := committed w; informational := informational w;
     body := body w; trackers := 0 :: trackers w |}.
Definition popTracker w : Writer :=
  {| wHeader := wHeader w; committed := committed w; informational := informational w;
     body := body w; trackers := tail (trackers w) |}.
Definition topTracker w : Z := default 0 (head (trackers w)).

(** The status and headers the client receives: 200 when the handler wrote
    nothing. *)
Definition finish w : Z * Header := default (200, wHeader w) (committed w).
End writer.

(** ** Handlers *)

Inductive action :=
  | ASet (k v : string) | AAdd (k v : string) | ADel (k : string)
  | AWriteHeader (status : Z) | AWrite (c : list byte).

Definition perform (a : action) (w : Writer) : Writer :=
  match a with
  | ASet k v => onHeader (hSet k v) w
  | AAdd k v => onHeader (hAdd k v) w
  | ADel k => onHeader (hDel k) w
  | AWriteHeader status => WriteHeader status w
  | AWrite c => Write c w
  end.

Definition performAll (acts : list action) (w : Writer) : Writer :=
  fold_left (fun w a => perform a w) acts w.

(** How a handler ends. *)
Inductive ending := Returns | Panics.

(** The state a handler runs in: the writer, the [Pattern] fields of the
    request objects, and a log of type [L]. *)
Record World (L : Type) := { writer : Writer; patterns : gmap positive string; logs : list L }.
Arguments writer {L}. Arguments patterns {L}. Arguments logs {L}.

Definition Handler (L : Type) : Type := Request -> World L -> World L * ending.

Definition onWriter {L} (f : Writer -> Writer) (s : World L) : World L :=
  {| writer := f (writer s); patterns := patterns s; logs := logs s |}.
Definition logged {L} (e : L) (s : World L) : World L :=
  {| writer := writer s; patterns := patterns s; logs := logs s ++ [e] |}.

(** [r.Pattern], and the router's assignment to it. *)
Definition Pattern {L} (r : Request) (s : World L) : string := default "" (patterns s !! rObject r).
Definition setPattern {L} (r : Request) (p : string) (s : World L) : World L :=
  {| writer := writer s; patterns := <[rObject r := p]> (patterns s); logs := logs s |}.

(** [r.WithContext(context.WithValue(r.Context(), requestIDKey{}, id))]: a new
    object with the same fields. *)
Definition WithRequestID {L} (id : string) (r : Request) (s : World L) : Request * World L :=
  let o := fresh (dom (patterns s) ∪ {[ rObject r ]}) in
  ({| rObject := o; rMethod := rMethod r; rPath := rPath r; rHeader := rHeader r; rTLS := rTLS r;
    rContextID := id |},
   {| writer := writer s; patterns := <[o := Pattern r s]> (patterns s); logs := logs s |}).

(** The router over an application: [route] is the pattern it matches (empty for
    none), [serve] the calls the matched handler makes on the writer. *)
Definition mux {L} (route : Request -> string) (serve : Request -> list action * ending)
    : Handler L := fun r s =>
  let s := setPattern r (route r) s in
  (onWriter (performAll (fst (serve r))) s, snd (serve r)).

(** ** The route table of [http.ServeMux]

    Patterns are [METHOD /a/b] without host, wildcard or trailing slash.  What the
    router answers on its own (404, 405, a redirect to the clean path) is an
    argument: the pattern it then records, and the answer. *)

Record route (H : Type) := { rtMethod : string; rtPath : list string; rtHandler : H }.
Arguments rtMethod {H}. Arguments rtPath {H}. Arguments rtHandler {H}.

Definition patternOf {H} (t : route H) : string :=
  rtMethod t +:+ " " +:+ foldr (fun seg p => "/" +:+ seg +:+ p) "" (rtPath t).

(** Registration panics on a pattern that is already there. *)
Definition muxHandle {H} (routes : list (route H)) (t : route H) : option (list (route H)) :=
  if existsb (fun u => (rtMethod u == rtMethod t) && (rtPath u == rtPath t)) routes then None
  else Some (routes ++ [t]).

(** The route of a request: of its method, or for HEAD that of GET. *)
Definition findRoute {H} (routes : list (route H)) (r : Request) : option (route H) :=
  let by_ m := List.find (fun t => (rtMethod t == m) && (rtPath t == rPath r)) routes in
  match by_ (rMethod r) with
  | Some t => Some t
  | None => if rMethod r == "HEAD" then by_ "GET" else None
  end.

Definition serveMux {L} (own : Request -> string * list action) (routes : list (route (Handler L)))
    : Handler L := fun r s =>
  match findRoute routes r with
  | Some t => rtHandler t r (setPattern r (patternOf t) s)
  | None => (onWriter (performAll (snd (own r))) (setPattern r (fst (own r)) s), Returns)
  end.

Example patternOf_sample :
  patternOf {| rtMethod := "GET"; rtPath := ["health"; "live"]; rtHandler := tt |} = "GET /health/live".
Proof. reflexivity. Qed.

Example canonical_sample : CanonicalHeaderKey "x-request-ID" = "X-Request-Id".
Proof. reflexivity. Qed.

End Http.
