(* ===== verification/OidcTypes.v ===== *)
(** * Data of the OIDC package ([auth/oidc])

    Structs shared by discovery, login, storage and sealing.  A Go pointer to a
    struct that the program mutates or compares by identity is a location [loc];
    the structs themselves live in a [heap].  Fields holding clocks and HTTP
    clients are arguments of the operations instead. *)

From S2P Require Import Prelude GoTime.

(** The errors of the package: its sentinel values, those made with
    [errors.New], and the run-time panic of a nil pointer dereference. *)
Inductive oidc_error :=
  | ErrLoginFailed
  | ErrStaleConfiguration
  | ErrInvalidToken
  | ErrIntrospectionFailed
  | ErrOther (msg : string)
  | NilDereference.

#[export] Instance oidc_error_eq_dec : EqDecision oidc_error.
Proof. solve_decision. Defined.

(** ** Constants *)

Definition clockSkew : Duration := Minute.
Definition maxLifetime : Duration := 10 * Minute.
Definition transactionLifetime : Duration := 5 * Minute.
Definition discoveryTimeout : Duration := 5 * Second.
Definition maxPendingTransactions : Z := 10000.

(** ** Structs *)

(** [rsa.PublicKey]. *)
Record PublicKey := { rsaN : Z; rsaE : Z }.

Record Identity := { Issuer : string; Subject : string }.

Record Verifier := {
  issuer : string;
  verifierClientID : string;
  keys : gmap string PublicKey
}.

Record Configuration := {
  AuthorizationEndpoint : string;
  TokenEndpoint : string;
  IntrospectionEndpoint : string;
  VerifierOf : option Verifier;
  validUntil : time
}.

Record LoginClient := {
  configuration : option Configuration;
  clientID : string;
  secret : string;
  redirectURI : string
}.

(** Pointers. *)
Abbreviation loc := positive (only parsing).

Record Transaction := {
  owner : option loc;
  state : string;
  nonce : string;
  verifier : string;
  createdAt : time;
  used : bool
}.

Record heap := {
  clients : gmap loc LoginClient;
  transactions : gmap loc Transaction
}.

#[export] Instance PublicKey_eq_dec : EqDecision PublicKey.
Proof. solve_decision. Defined.
#[export] Instance Identity_eq_dec : EqDecision Identity.
Proof. solve_decision. Defined.
#[export] Instance Transaction_eq_dec : EqDecision Transaction.
Proof. solve_decision. Defined.

(** [used.Store(true)] on a transaction. *)
Definition mark_used (tx : Transaction) : Transaction :=
  {| owner := owner tx; state := state tx; nonce := nonce tx; verifier := verifier tx;
     createdAt := createdAt tx; used := true |}.

Definition set_transaction (h : heap) (l : loc) (tx : Transaction) : heap :=
  {| clients := clients h; transactions := <[l := tx]> (transactions h) |}.

(** ** How the heap may change while other goroutines run

    The fields of a client and of a transaction are never written after
    construction, except that [used] may be set; allocation only adds. *)

Definition txn_le (tx tx' : Transaction) : Prop := tx' = tx \/ tx' = mark_used tx.

Record heap_le (h h' : heap) : Prop := {
  heap_le_clients : forall l c, clients h !! l = Some c -> clients h' !! l = Some c;
  heap_le_txns : forall l tx, transactions h !! l = Some tx ->
    exists tx', transactions h' !! l = Some tx' /\ txn_le tx tx'
}.

Lemma txn_le_refl tx : txn_le tx tx.
Proof. by left. Qed.

Lemma txn_le_trans tx1 tx2 tx3 : txn_le tx1 tx2 -> txn_le tx2 tx3 -> txn_le tx1 tx3.
Proof. unfold txn_le. intros [->| ->] [->| ->]; auto. Qed.

#[export] Instance heap_le_preorder : PreOrder heap_le.
Proof.
  split.
  - intros h. split; [done|]. intros l tx Hl. eauto using txn_le_refl.
  - intros h1 h2 h3 [Hc1 Ht1] [Hc2 Ht2]. split; [eauto|].
    intros l tx (tx2 & Hl2 & Hle2)%Ht1. apply Ht2 in Hl2 as (tx3 & Hl3 & Hle3).
    eauto using txn_le_trans.
Qed.

Lemma heap_le_mark h l tx : transactions h !! l = Some tx ->
  heap_le h (set_transaction h l (mark_used tx)).
Proof.
  intros Hl. split; [done|]. intros l' tx' Hl'. simpl.
  destruct (decide (l = l')) as [->|Hne].
  - rewrite lookup_insert_eq. simplify_eq. eexists; split; [done|by right].
  - rewrite lookup_insert_ne by done. eexists; split; [done|by left].
Qed.

(** What is fixed about a transaction along [txn_le]. *)
Lemma txn_le_state tx tx' : txn_le tx tx' -> state tx' = state tx.
Proof. by intros [->| ->]. Qed.
Lemma txn_le_createdAt tx tx' : txn_le tx tx' -> createdAt tx' = createdAt tx.
Proof. by intros [->| ->]. Qed.
Lemma txn_le_owner tx tx' : txn_le tx tx' -> owner tx' = owner tx.
Proof. by intros [->| ->]. Qed.
Lemma txn_le_used tx tx' : txn_le tx tx' -> used tx = true -> used tx' = true.
Proof. by intros [->| ->]. Qed.
