(* ===== verification/OidcStore.v ===== *)
(** * The pending-login store ([auth/oidc/store.go])

    A bounded map from state to a transaction pointer and the hash of the
    browser secret it is bound to.  [Put] and [Take] run under the store's
    mutex; the [used] flags they read are shared with logins completing
    concurrently, so each load of a flag is made from a heap of its own. *)

From S2P Require Import Prelude GoTime GoStrings Base64 Sha256 GoHttp OidcTypes.

Module Binding.
Import Base64.

(** [randomURLString] on 32 random bytes from [crypto/rand]. *)
Definition randomURLString (random : option (list byte)) : result oidc_error string :=
  match random with
  | None => Err (ErrOther "random source failed")
  | Some bytes => Ok (EncodeToString bytes)
  end.

Definition NewBrowserBinding := randomURLString.

(** [decodeBinding]: the decoded bytes when the second result is true. *)
Definition decodeBinding (binding : string) : option (list byte) :=
  if len binding != 43 then None
  else
    decoded ← DecodeString binding;
    if (blen decoded == 32) && (EncodeToString decoded == binding) then Some decoded else None.

Lemma decodeBinding_Some binding bs :
  decodeBinding binding = Some bs <-> blen bs = 32 /\ EncodeToString bs = binding.
Proof.
  unfold decodeBinding. split.
  - case_match; [done|]. intros (ds & Hd & Hif)%bind_Some.
    case_match; [|done]. by simplify_eq; split_guards.
  - intros [Hlen <-]. rewrite len_EncodeToString, Hlen, bool_decide_true by done. simpl.
    rewrite DecodeString_EncodeToString. simpl.
    by rewrite Hlen, !bool_decide_true.
Qed.

Lemma decodeBinding_len binding bs : decodeBinding binding = Some bs -> len binding = 43.
Proof. intros [Hlen <-]%decodeBinding_Some. by rewrite len_EncodeToString, Hlen. Qed.

End Binding.

Module Cookie.
Import Binding.

(** [http.Cookie], with the fields the package sets; [SameSite] is Lax. *)
Record cookie := {
  Name : string; Value : string; Path : string; MaxAge : Z; Secure : bool; HttpOnly : bool;
  SameSiteLax : bool
}.

(** [cookie.Valid()] of [net/http] on these fields. *)
Definition validCookieValueByte (c : ascii) : bool :=
  between 0x20 0x7e (code c) && negb ((code c =? 34) || (code c =? 59) || (code c =? 92)).
Definition validCookiePathByte (c : ascii) : bool := between 0x20 0x7e (code c) && negb (code c =? 59).

Definition validName (name : string) : bool := (name != "") && forallb (fun c => Http.tokenChar (code c)) (chars name).

Definition cookieValid (c : cookie) : bool :=
  validName (Name c) && forallb validCookieValueByte (chars (Value c)) && forallb validCookiePathByte (chars (Path c)).

Definition validateBindingCookie (c : cookie) : result oidc_error unit :=
  if negb (HasPrefix (Name c) "__Host-") then
    Err (ErrOther "OIDC binding cookie requires __Host- prefix")
  else if negb (cookieValid c) then Err (ErrOther "invalid OIDC binding cookie name")
  else Ok tt.

Definition BindingCookie (name browserBinding : string) : result oidc_error cookie :=
  match decodeBinding browserBinding with
  | None => Err ErrLoginFailed
  | Some _ =>
      let c := {| Name := name; Value := browserBinding; Path := "/";
                  MaxAge := transactionLifetime / Second;
                  Secure := true; HttpOnly := true; SameSiteLax := true |} in
      _ ← validateBindingCookie c; Ok c
  end.

Definition ClearBindingCookie (name : string) : result oidc_error cookie :=
  let c := {| Name := name; Value := ""; Path := "/"; MaxAge := -1;
              Secure := true; HttpOnly := true; SameSiteLax := true |} in
  _ ← validateBindingCookie c; Ok c.

(** The scope every binding cookie has: this host only, the whole site, hidden from
    scripts, never sent over plain HTTP, and kept from cross-site subrequests. *)
Definition hardened (name value : string) (maxAge : Z) : cookie :=
  {| Name := name; Value := value; Path := "/"; MaxAge := maxAge; Secure := true; HttpOnly := true; SameSiteLax := true |}.

Definition nameOk (name : string) : Prop := HasPrefix name "__Host-" = true /\ validName name = true.

Lemma validateBindingCookie_Ok c : forallb validCookieValueByte (chars (Value c)) = true -> Path c = "/" ->
  validateBindingCookie c = Ok tt <-> nameOk (Name c).
Proof.
  intros Hv Hp. unfold validateBindingCookie, cookieValid, nameOk. rewrite Hv, Hp.
  destruct (HasPrefix (Name c) "__Host-"), (validName (Name c)); cbn; naive_solver.
Qed.

(** A secret never contains a byte a cookie cannot carry. *)
Lemma binding_value binding bs : decodeBinding binding = Some bs ->
  forallb validCookieValueByte (chars binding) = true.
Proof.
  intros [_ <-]%decodeBinding_Some. unfold Base64.EncodeToString. rewrite chars_of_chars.
  apply forallb_forall. intros c Hc. pose proof (Base64.encode_alphabet bs) as Ha.
  rewrite Forall_forall in Ha. apply list_elem_of_In, Ha in Hc.
  assert (Hall : forallb validCookieValueByte Base64.alphabet = true) by (vm_compute; reflexivity).
  rewrite forallb_forall in Hall. by apply Hall, list_elem_of_In.
Qed.

(** A binding cookie is set exactly for a secret of this program under an allowed
    name, the scope of the one that clears it is the same, and a name is refused
    for one exactly when it is refused for the other. *)
Theorem BindingCookie_exact (name binding : string) (c : cookie) :
  (BindingCookie name binding = Ok c <->
     nameOk name /\ is_Some (decodeBinding binding) /\ c = hardened name binding 300) /\
  (ClearBindingCookie name = Ok c <-> nameOk name /\ c = hardened name "" (-1)).
Proof.
  split.
  - unfold BindingCookie. destruct (decodeBinding binding) as [bs|] eqn:Hb.
    2: { split; [done|]. by intros (_ & [] & _). }
    cbv zeta. split.
    + intros ([] & Hn & [= <-])%bind_Ok_inv. apply validateBindingCookie_Ok in Hn; [split_and!; eauto|by eapply binding_value|done].
    + intros (Hn & _ & ->). apply binding_value in Hb.
      pose proof (proj2 (validateBindingCookie_Ok (hardened name binding (transactionLifetime / Second)) Hb eq_refl) Hn) as Hv.
      unfold hardened in Hv. by rewrite Hv.
  - unfold ClearBindingCookie. cbv zeta. split.
    + intros ([] & Hn & [= <-])%bind_Ok_inv. by apply validateBindingCookie_Ok in Hn.
    + intros (Hn & ->).
      pose proof (proj2 (validateBindingCookie_Ok (hardened name "" (-1)) eq_refl eq_refl) Hn) as Hv.
      unfold hardened in Hv. by rewrite Hv.
Qed.

End Cookie.

Module Store.
Import Binding Sha256.

Record pendingEntry := { transaction : loc; bindingHash : list byte }.

Record TransactionStore := { capacity : Z; entries : gmap string pendingEntry }.

Definition NewTransactionStore (capacity : Z) : result oidc_error TransactionStore :=
  if (capacity <? 1) || (maxPendingTransactions <? capacity) then
    Err (ErrOther "invalid OIDC transaction capacity")
  else Ok {| capacity := capacity; entries := ∅ |}.

Definition count (s : TransactionStore) : Z := Z.of_nat (size (entries s)).

Definition with_entries (s : TransactionStore) (es : gmap string pendingEntry) : TransactionStore :=
  {| capacity := capacity s; entries := es |}.

(** [now.Sub(createdAt) > transactionLifetime || used.Load()].  Entries hold pointers
    to transactions of the heap ([wf_entry] below), so the first branch is not met. *)
Definition deadb (h : heap) (now : time) (e : pendingEntry) : bool :=
  match transactions h !! transaction e with
  | None => true
  | Some tx => (transactionLifetime <? Sub now (createdAt tx)) || used tx
  end.

(** The loop deletes the dead entries of the map while ranging over it; [hs st] is
    the heap when it loads the flag of the entry under [st], whatever the order. *)
Definition pruneExpired (hs : string -> heap) (now : time) (s : TransactionStore) : TransactionStore :=
  with_entries s (filter (fun ke => deadb (hs (fst ke)) now (snd ke) = false) (entries s)).

(** [Put]: [h0] is the heap when the guard loads [used], [hs] the heaps the pruning
    reads under the lock; [nowPrune] and [now] are the two readings of [store.now]. *)
Definition Put (h0 : heap) (hs : string -> heap) (nowPrune now : time) (store : option TransactionStore)
    (transaction : option loc) (browserBinding : string)
    : option TransactionStore * result oidc_error unit :=
  match decodeBinding browserBinding, store, transaction with
  | Some decoded, Some s, Some l =>
      match transactions h0 !! l with
      | None => (store, Err ErrLoginFailed)
      | Some tx =>
          if (owner tx == None) || (len (state tx) != 43) || used tx then
            (store, Err ErrLoginFailed)
          else
            let s := if capacity s <=? count s then pruneExpired hs nowPrune s else s in
            if (transactionLifetime <? Sub now (createdAt tx))
               || After (createdAt tx) (Add now clockSkew) then
              (Some s, Err ErrLoginFailed)
            else if bool_decide (is_Some (entries s !! state tx)) || (capacity s <=? count s) then
              (Some s, Err ErrLoginFailed)
            else
              let e := {| transaction := l; bindingHash := Sum256 decoded |} in
              (Some (with_entries s (<[state tx := e]> (entries s))), Ok tt)
      end
  | _, _, _ => (store, Err ErrLoginFailed)
  end.

(** [Take]: [h1] and [h2] are the heaps at the two loads of [used]. *)
Definition Take (h1 h2 : heap) (now : time) (store : option TransactionStore)
    (st browserBinding : string) : option TransactionStore * result oidc_error loc :=
  match decodeBinding browserBinding, store with
  | Some decoded, Some s =>
      if len st != 43 then (store, Err ErrLoginFailed)
      else
        match entries s !! st with
        | None => (store, Err ErrLoginFailed)
        | Some entry =>
            if deadb h1 now entry then
              (Some (with_entries s (delete st (entries s))), Err ErrLoginFailed)
            else if Sum256 decoded != bindingHash entry then (store, Err ErrLoginFailed)
            else
              let s := with_entries s (delete st (entries s)) in
              match transactions h2 !! transaction entry with
              | Some tx => if used tx then (Some s, Err ErrLoginFailed)
                           else (Some s, Ok (transaction entry))
              | None => (Some s, Err ErrLoginFailed)
              end
        end
  | _, _ => (store, Err ErrLoginFailed)
  end.

End Store.

(** ** Runs of the store

    The configurations of a process: its heap and its store.  Each locked
    section is one step; between steps, and between the loads of one step, other
    goroutines may allocate and mark transactions used. *)

Module StoreRuns.
Import Binding Sha256 Store.

Inductive event := PutOk (l : loc) | TakeOk (l : loc) | Silent.

#[export] Instance event_eq_dec : EqDecision event.
Proof. solve_decision. Defined.

Definition put_event (l : option loc) (r : result oidc_error unit) : event :=
  match l, r with Some l, Ok _ => PutOk l | _, _ => Silent end.
Definition take_event (r : result oidc_error loc) : event :=
  match r with Ok l => TakeOk l | Err _ => Silent end.

Inductive step : heap * TransactionStore -> event -> heap * TransactionStore -> Prop :=
  | step_env h h' s : heap_le h h' -> step (h, s) Silent (h', s)
  | step_put h0 h1 hs h2 s nowPrune now l binding s' r :
      heap_le h0 h1 -> heap_le h1 h2 -> (forall st, heap_le h1 (hs st) /\ heap_le (hs st) h2) ->
      Put h0 hs nowPrune now (Some s) l binding = (Some s', r) ->
      step (h1, s) (put_event l r) (h2, s')
  | step_take h1 h2 s now st binding s' r :
      heap_le h1 h2 -> Take h1 h2 now (Some s) st binding = (Some s', r) ->
      step (h1, s) (take_event r) (h2, s').

Inductive run : heap * TransactionStore -> list event -> heap * TransactionStore -> Prop :=
  | run_nil c : run c [] c
  | run_step c1 e c2 es c3 : step c1 e c2 -> run c2 es c3 -> run c1 (e :: es) c3.

(** Every entry sits under its own transaction's 43-byte state, owned by a
    client, with a full digest; the store is within its capacity. *)
Record wf (h : heap) (s : TransactionStore) : Prop := {
  wf_capacity : 1 <= capacity s <= maxPendingTransactions;
  wf_count : count s <= capacity s;
  wf_entry st e : entries s !! st = Some e ->
    exists tx, transactions h !! transaction e = Some tx /\ state tx = st /\
      len st = 43 /\ owner tx <> None /\ blen (bindingHash e) = 32
}.

Lemma wf_heap_le h h' s : heap_le h h' -> wf h s -> wf h' s.
Proof.
  intros Hle [Hcap Hcnt He]. split; [done..|].
  intros st e (tx & Htx & Hst & Hrest)%He.
  destruct (heap_le_txns _ _ Hle _ _ Htx) as (tx' & Htx' & Hle').
  exists tx'. by rewrite (txn_le_state _ _ Hle'), (txn_le_owner _ _ Hle').
Qed.

(** Removing entries keeps a store well-formed. *)
Lemma wf_subset h s es : es ⊆ entries s -> wf h s -> wf h (with_entries s es).
Proof.
  intros Hsub [Hcap Hcnt He]. split; [done| |].
  - unfold count in *. simpl. apply map_subseteq_size in Hsub. lia.
  - simpl. intros st e Hst. apply He. by eapply lookup_weaken.
Qed.

Lemma prune_subset hs now s : entries (pruneExpired hs now s) ⊆ entries s.
Proof. apply map_filter_subseteq. Qed.

Lemma prune_capacity hs now s : capacity (pruneExpired hs now s) = capacity s.
Proof. done. Qed.

(** The store a [Put] works on after its pruning. *)
Definition made_room (hs : string -> heap) (nowPrune : time) (s : TransactionStore) : TransactionStore :=
  if capacity s <=? count s then pruneExpired hs nowPrune s else s.

Lemma made_room_subset hs now s : entries (made_room hs now s) ⊆ entries s.
Proof. unfold made_room. case_match; [apply prune_subset|done]. Qed.

Lemma made_room_capacity hs now s : capacity (made_room hs now s) = capacity s.
Proof. unfold made_room. by case_match. Qed.

Lemma made_room_wf h hs now s : wf h s -> wf h (made_room hs now s).
Proof.
  intros Hwf. unfold made_room. case_match; [|done].
  apply (wf_subset h s); [apply prune_subset|done].
Qed.

(** What an entry that survives the test says of its transaction: the duration
    saturates far above five minutes, so the comparison is of the exact age. *)
Lemma deadb_false h now e : deadb h now e = false <->
  exists tx, transactions h !! transaction e = Some tx /\ used tx = false /\
    now - createdAt tx <= 300 * 10 ^ 9.
Proof.
  unfold deadb. destruct (transactions h !! transaction e) as [tx|]; [|naive_solver].
  assert (Hage : (transactionLifetime <? Sub now (createdAt tx)) = false <-> now - createdAt tx <= 300 * 10 ^ 9).
  { unfold Sub, minDuration, maxDuration, transactionLifetime in *. unfold_time. lia. }
  rewrite orb_false_iff, Hage. naive_solver.
Qed.

(** The three outcomes of [Put]. *)
Lemma Put_cases h0 hs nowPrune now s l binding s' r :
  Put h0 hs nowPrune now (Some s) l binding = (Some s', r) ->
  (r = Err ErrLoginFailed /\ (s' = s \/ s' = made_room hs nowPrune s)) \/
  (exists loc decoded tx, l = Some loc /\ r = Ok tt /\
    decodeBinding binding = Some decoded /\ transactions h0 !! loc = Some tx /\
    owner tx <> None /\ len (state tx) = 43 /\ used tx = false /\
    Sub now (createdAt tx) <= transactionLifetime /\ createdAt tx <= now + clockSkew /\
    entries (made_room hs nowPrune s) !! state tx = None /\
    count (made_room hs nowPrune s) < capacity s /\
    s' = with_entries (made_room hs nowPrune s)
      (<[state tx := {| transaction := loc; bindingHash := Sum256 decoded |}]>
        (entries (made_room hs nowPrune s)))).
Proof.
  unfold Put. fold (made_room hs nowPrune s).
  destruct (decodeBinding binding) as [decoded|] eqn:Hd; [|intros [= <- <-]; auto].
  destruct l as [l|]; [|intros [= <- <-]; auto].
  destruct (transactions h0 !! l) as [tx|] eqn:Htx; [|intros [= <- <-]; auto].
  case_match eqn:Hg; [intros [= <- <-]; auto|].
  case_match eqn:Ht; [intros [= <- <-]; auto|].
  case_match eqn:Hc; [intros [= <- <-]; auto|].
  intros [= <- <-]. right. exists l, decoded, tx.
  split_guards. match goal with H : ~ is_Some _ |- _ => rewrite <- eq_None_not_Some in H end.
  rewrite made_room_capacity in *. unfold_time. split_and!; try done; try lia.
Qed.

Lemma Take_cases h1 h2 now s st binding s' r :
  Take h1 h2 now (Some s) st binding = (Some s', r) ->
  (r = Err ErrLoginFailed /\ (s' = s \/ s' = with_entries s (delete st (entries s)))) \/
  (exists e decoded tx, r = Ok (transaction e) /\ len st = 43 /\
    entries s !! st = Some e /\ deadb h1 now e = false /\
    decodeBinding binding = Some decoded /\ Sum256 decoded = bindingHash e /\
    transactions h2 !! transaction e = Some tx /\ used tx = false /\
    s' = with_entries s (delete st (entries s))).
Proof.
  unfold Take. destruct (decodeBinding binding) as [decoded|]; [|intros [= <- <-]; auto].
  case_match eqn:Hlen; [intros [= <- <-]; auto|].
  destruct (entries s !! st) as [e|] eqn:He; [|intros [= <- <-]; auto].
  case_match eqn:Hdead; [intros [= <- <-]; auto|].
  case_match eqn:Hhash; [intros [= <- <-]; auto|].
  destruct (transactions h2 !! transaction e) as [tx|] eqn:Htx; [|intros [= <- <-]; auto].
  destruct (used tx) eqn:Hu; intros [= <- <-]; [auto|].
  right. exists e, decoded, tx. split_guards. done.
Qed.

Lemma Put_wf h0 h hs nowPrune now s l binding s' r :
  heap_le h0 h -> wf h s ->
  Put h0 hs nowPrune now (Some s) l binding = (Some s', r) -> wf h s'.
Proof.
  intros Hle Hwf [[_ [->| ->]]|(loc & decoded & tx & _ & _ & _ & Htx & Ho & Hlen & _ & _ & _ & Hnew & Hroom & ->)]%Put_cases;
    [done|by apply made_room_wf|].
  apply (made_room_wf h hs nowPrune) in Hwf as Hwf'. destruct Hwf' as [Hcap Hcnt He].
  rewrite made_room_capacity in *. split; simpl; rewrite ?made_room_capacity; [done| |].
  - unfold count in *. simpl. rewrite map_size_insert_None by done. lia.
  - intros st e. destruct (decide (state tx = st)) as [<-|Hne].
    + rewrite lookup_insert_eq. intros [= <-].
      destruct (heap_le_txns _ _ Hle _ _ Htx) as (tx' & Htx' & Hle'). exists tx'.
      rewrite (txn_le_state _ _ Hle'), (txn_le_owner _ _ Hle').
      split_and!; try done. unfold blen. simpl. by rewrite Sum256_length.
    + rewrite lookup_insert_ne by done. apply He.
Qed.

Lemma Take_wf h1 h2 now s st binding s' r :
  heap_le h1 h2 -> wf h1 s -> Take h1 h2 now (Some s) st binding = (Some s', r) -> wf h2 s'.
Proof.
  intros Hle Hwf%(wf_heap_le h1 h2) HT; [|done].
  apply Take_cases in HT as [[_ [->| ->]]|(e & decoded & tx & _ & _ & _ & _ & _ & _ & _ & _ & ->)];
    [done|apply wf_subset; [apply delete_subseteq|done]..].
Qed.

Lemma step_wf c e c' : step c e c' -> wf c.1 c.2 -> wf c'.1 c'.2.
Proof. intros []; simpl; eauto using wf_heap_le, Put_wf, Take_wf. Qed.

Lemma run_wf c es c' : run c es c' -> wf c.1 c.2 -> wf c'.1 c'.2.
Proof. induction 1; eauto using step_wf. Qed.

Lemma NewTransactionStore_wf h n s : NewTransactionStore n = Ok s -> wf h s.
Proof.
  unfold NewTransactionStore. case_match; [done|]. intros [= <-].
  split; simpl; [lia| |].
  - unfold count; simpl. rewrite map_size_empty. lia.
  - intros st e. by rewrite lookup_empty.
Qed.

(** *** Counting puts and takes of one transaction *)

Definition puts (l : loc) (es : list event) : nat :=
  length (filter (fun e => e = PutOk l) es).
Definition takes (l : loc) (es : list event) : nat :=
  length (filter (fun e => e = TakeOk l) es).

(** The entries that hold [l]. *)
Definition held (l : loc) (es : gmap string pendingEntry) : nat :=
  size (filter (fun ke : string * pendingEntry => transaction (snd ke) = l) es).

Lemma held_subset l es es' : es ⊆ es' -> (held l es <= held l es')%nat.
Proof. intros H. by apply map_subseteq_size, map_filter_subseteq_mono. Qed.

Lemma held_insert l st e es : es !! st = None ->
  held l (<[st := e]> es) = ((if bool_decide (transaction e = l) then 1 else 0) + held l es)%nat.
Proof.
  intros Hst. unfold held. case_bool_decide as He.
  - rewrite map_filter_insert_True by done. rewrite map_size_insert_None; [done|].
    by apply map_lookup_filter_None_2; left.
  - by rewrite map_filter_insert_not' by naive_solver.
Qed.

Lemma held_delete l st e es : es !! st = Some e ->
  held l es = ((if bool_decide (transaction e = l) then 1 else 0) + held l (delete st es))%nat.
Proof.
  intros Hst. rewrite <- (held_insert l st e (delete st es)) by apply lookup_delete_eq.
  by rewrite insert_delete_eq, insert_id.
Qed.

Lemma step_held l c e c' : step c e c' ->
  (takes l [e] + held l (entries c'.2) <= puts l [e] + held l (entries c.2))%nat.
Proof.
  intros [h h' s _|h0 ha hs hb s nowPrune now o binding s' r _ _ _ HP|h1 h2 s now st binding s' r _ HT];
    cbn [fst snd]; unfold takes, puts.
  - simpl. lia.
  - pose proof (held_subset l _ _ (made_room_subset hs nowPrune s)).
    apply Put_cases in HP as [[-> Hs']|(l' & decoded & tx & -> & -> & _ & _ & _ & _ & _ & _ & _ & Hnew & _ & ->)].
    + replace (put_event o (Err ErrLoginFailed)) with Silent by (by destruct o).
      simpl. destruct Hs' as [->| ->]; lia.
    + simpl entries. rewrite held_insert by done. cbn [transaction put_event].
      rewrite filter_cons_False, filter_nil by done. rewrite filter_cons.
      repeat case_decide; repeat case_bool_decide; simplify_eq; simpl; lia.
  - apply Take_cases in HT as [[-> Hs']|(en & decoded & tx & -> & _ & He & _ & _ & _ & _ & _ & ->)].
    + simpl. destruct Hs' as [->| ->]; [lia|]. apply held_subset, delete_subseteq.
    + simpl entries. rewrite (held_delete l _ _ _ He). cbn [take_event].
      rewrite (filter_cons_False (fun e => e = PutOk l)), filter_nil by done. rewrite filter_cons.
      repeat case_decide; repeat case_bool_decide; simplify_eq; simpl; lia.
Qed.

Lemma run_held l c es c' : run c es c' ->
  (takes l es + held l (entries c'.2) <= puts l es + held l (entries c.2))%nat.
Proof.
  induction 1 as [c|c1 e c2 es c3 Hstep Hrun IH]; [simpl; lia|].
  apply (step_held l) in Hstep. unfold takes, puts in *.
  change (e :: es) with ([e] ++ es). rewrite !filter_app, !length_app. lia.
Qed.

End StoreRuns.

(** ** Properties *)

Module StoreProperties.
Import Base64 Binding Sha256 Store StoreRuns.

(** A concrete pending login, used to evaluate the properties. *)
Definition sampleState : string := EncodeToString (replicate 32 (byte_of 1)).
Definition sampleBinding : string := EncodeToString (replicate 32 (byte_of 2)).
Definition otherBinding : string := EncodeToString (replicate 32 (byte_of 3)).
Definition sampleTx : Transaction :=
  {| owner := Some 1%positive; state := sampleState;
     nonce := EncodeToString (replicate 32 (byte_of 4));
     verifier := EncodeToString (replicate 32 (byte_of 5));
     createdAt := 1000 * Second; used := false |}.
Definition sampleHeap : heap := {| clients := ∅; transactions := {[ 7%positive := sampleTx ]} |}.
Definition emptyStore : TransactionStore := {| capacity := 1; entries := ∅ |}.
Definition sampleEntry : pendingEntry :=
  {| transaction := 7%positive; bindingHash := Sum256 (replicate 32 (byte_of 2)) |}.
Definition sampleStore : TransactionStore :=
  {| capacity := 1; entries := {[ sampleState := sampleEntry ]} |}.

(** [decodeBinding] accepts exactly the canonical encodings of 32-byte
    values, although the base64 decoder it calls is lenient about newlines and
    trailing bits. *)
Theorem decodeBinding_canonical (binding : string) (decoded : list byte) :
  decodeBinding binding = Some decoded <->
  blen decoded = 32 /\ EncodeToString decoded = binding.
Proof. apply decodeBinding_Some. Qed.

(** In every run of a new store, with any interleaving of [Put], [Take]
    and logins completing elsewhere, the number of pending logins stays within
    the capacity and every entry sits under the state of its own transaction. *)
Theorem store_invariant (n : Z) (s s' : TransactionStore) (h h' : heap) (es : list event) :
  NewTransactionStore n = Ok s -> run (h, s) es (h', s') -> wf h' s'.
Proof.
  intros Hnew Hrun. apply run_wf in Hrun; [done|]. by eapply NewTransactionStore_wf.
Qed.

(** A pending login is handed out at most once per time it was stored:
    in every run of a new store, the successful [Take]s of a transaction are
    at most its successful [Put]s. *)
Theorem takes_at_most_puts (n : Z) (s s' : TransactionStore) (h h' : heap) (es : list event)
    (l : loc) :
  NewTransactionStore n = Ok s -> run (h, s) es (h', s') -> (takes l es <= puts l es)%nat.
Proof.
  unfold NewTransactionStore. case_match; [done|]. intros [= <-] Hrun%(run_held l).
  simpl in Hrun. unfold held in Hrun at 2. rewrite map_filter_empty, map_size_empty in Hrun. lia.
Qed.

(** [Put] stores a transaction exactly when the binding is canonical, the
    transaction is owned, unused, at most five minutes old and at most one
    minute ahead of the clock, its state is new, and there is room once dead
    entries have been pruned from a full store. *)
Theorem Put_succeeds_iff (h0 : heap) (hs : string -> heap) (nowPrune now : time) (s : TransactionStore) (l : loc)
    (tx : Transaction) (binding : string) :
  transactions h0 !! l = Some tx ->
  snd (Put h0 hs nowPrune now (Some s) (Some l) binding) = Ok tt <->
  is_Some (decodeBinding binding) /\ owner tx <> None /\ len (state tx) = 43 /\
  used tx = false /\ now - createdAt tx <= transactionLifetime /\
  createdAt tx <= now + clockSkew /\
  entries (made_room hs nowPrune s) !! state tx = None /\
  count (made_room hs nowPrune s) < capacity s.
Proof.
  intros Htx. split.
  - destruct (Put _ _ _ _ _ _ _) as [[s'|] r] eqn:HP; simpl; intros ->.
    + apply Put_cases in HP as [[? _]|(l' & decoded & tx' & [= <-] & _ & Hd & Htx' & Ho & Hl & Hu & Hage & Hfut & Hnew & Hroom & _)]; [done|].
      simplify_eq. split_and!; try done.
      unfold Sub, minDuration, maxDuration, transactionLifetime in *. unfold_time. lia.
    + unfold Put in HP. by repeat case_match.
  - intros ([decoded Hd] & Ho & Hl & Hu & Hage & Hfut & Hnew & Hroom).
    unfold Put. fold (made_room hs nowPrune s). rewrite Hd, Htx, Hu.
    rewrite bool_decide_false, bool_decide_true by done. simpl.
    rewrite Hnew, made_room_capacity, bool_decide_false by (by intros []).
    unfold Sub, After, Add, minDuration, maxDuration, transactionLifetime in *.
    unfold clockSkew in *. unfold_time.
    rewrite (proj2 (orb_false_iff _ _)) by lia.
    rewrite (proj2 (orb_false_iff _ _)) by lia. done.
Qed.

(** [Put] never evicts a live login to make room: an entry that is
    neither expired nor used when the store is pruned is still there afterwards,
    unchanged, whether the [Put] succeeds or fails. *)
Theorem Put_keeps_live_logins (h0 : heap) (hs : string -> heap) (nowPrune now : time) (s s' : TransactionStore)
    (o : option loc) (binding st : string) (e : pendingEntry) (r : result oidc_error unit) :
  Put h0 hs nowPrune now (Some s) o binding = (Some s', r) ->
  entries s !! st = Some e -> deadb (hs st) nowPrune e = false ->
  entries s' !! st = Some e.
Proof.
  intros HP He Hlive.
  assert (entries (made_room hs nowPrune s) !! st = Some e) as Hroom.
  { unfold made_room. case_match; [|done]. simpl. by apply map_lookup_filter_Some_2. }
  apply Put_cases in HP as [[_ [->| ->]]|(l & decoded & tx & _ & _ & _ & _ & _ & _ & _ & _ & _ & Hnew & _ & ->)];
    [done..|]. simpl. rewrite lookup_insert_ne; [done|]. congruence.
Qed.

(** C5.  [Take] hands out a transaction exactly when the state, of 43 bytes, has a
    pending entry that points to it, the transaction was created at most five minutes
    (300 * 10^9 nanoseconds) before the reading of the clock, its used flag is unset at
    the first load and still unset at the second, and the presented browser secret is
    one of this program and hashes to the hash stored with the entry; the entry, and
    only that entry, is then gone from the store. *)
Theorem Take_succeeds_iff (h1 h2 : heap) (now : time) (s s' : TransactionStore)
    (st binding : string) (l : loc) :
  Take h1 h2 now (Some s) st binding = (Some s', Ok l) <->
  exists e decoded tx, l = transaction e /\ len st = 43 /\
    entries s !! st = Some e /\
    (exists tx1, transactions h1 !! l = Some tx1 /\ used tx1 = false /\
       now - createdAt tx1 <= 300 * 10 ^ 9) /\
    decodeBinding binding = Some decoded /\ Sum256 decoded = bindingHash e /\
    transactions h2 !! l = Some tx /\ used tx = false /\
    s' = with_entries s (delete st (entries s)).
Proof.
  split.
  - intros [[? _]|(e & decoded & tx & [= ->] & Hlen & He & Hlive%deadb_false & Hrest)]%Take_cases; [done|].
    by exists e, decoded, tx.
  - intros (e & decoded & tx & -> & Hl & He & Hlive%deadb_false & Hd & Hh & Htx & Hu & ->).
    unfold Take. rewrite Hd, Hl, He, Hlive, Hh, Htx, Hu, !bool_decide_true by done. done.
Qed.

(** A wrong browser secret does not consume a pending login: the store is
    unchanged and the rightful browser can still complete. *)
Theorem Take_wrong_binding_keeps (h1 h2 : heap) (now : time) (s : TransactionStore)
    (st binding : string) (e : pendingEntry) (decoded : list byte) :
  entries s !! st = Some e -> deadb h1 now e = false ->
  decodeBinding binding = Some decoded -> Sum256 decoded <> bindingHash e ->
  Take h1 h2 now (Some s) st binding = (Some s, Err ErrLoginFailed).
Proof.
  intros He Hlive Hd Hh. unfold Take. rewrite Hd, He, Hlive.
  case_match; [done|]. by rewrite bool_decide_false.
Qed.

(** What [Put] stored, [Take] returns: presenting the same state and
    browser secret, while the login is unused and at most five minutes old,
    yields the same transaction, and a second [Take] of that state fails. *)
Theorem Put_then_Take (h0 : heap) (hs : string -> heap) (h1 h2 : heap) (nowPrune now now' : time) (s s' : TransactionStore)
    (l : loc) (tx tx1 tx2 : Transaction) (binding : string) :
  transactions h0 !! l = Some tx ->
  Put h0 hs nowPrune now (Some s) (Some l) binding = (Some s', Ok tt) ->
  transactions h1 !! l = Some tx1 -> transactions h2 !! l = Some tx2 ->
  txn_le tx tx1 -> used tx1 = false -> used tx2 = false ->
  now' - createdAt tx <= transactionLifetime ->
  let s'' := with_entries s' (delete (state tx) (entries s')) in
  Take h1 h2 now' (Some s') (state tx) binding = (Some s'', Ok l) /\
  snd (Take h1 h2 now' (Some s'') (state tx) binding) = Err ErrLoginFailed.
Proof.
  intros Htx HP Htx1 Htx2 Hle Hu1 Hu2 Hage s''.
  apply Put_cases in HP as [[? _]|(l' & decoded & tx' & [= <-] & _ & Hd & Htx' & _ & Hlen & _ & _ & _ & _ & _ & Hs')]; [done|].
  simplify_eq. split.
  - unfold Take. rewrite Hd, Hlen, bool_decide_true by done. simpl.
    rewrite lookup_insert_eq. unfold deadb; simpl. rewrite Htx1, Hu1, orb_false_r.
    rewrite (txn_le_createdAt _ _ Hle), (proj2 (Z.ltb_ge _ _)).
    2: { unfold Sub, minDuration, maxDuration, transactionLifetime in *. unfold_time. lia. }
    rewrite bool_decide_true by done. simpl. by rewrite Htx2, Hu2.
  - unfold Take. rewrite Hd, Hlen, bool_decide_true by done. simpl.
    by rewrite lookup_delete_eq.
Qed.

(** *** Witnesses *)

Lemma sample_put_step : Put sampleHeap (const sampleHeap) (1000 * Second) (1001 * Second)
  (Some emptyStore) (Some 7%positive) sampleBinding = (Some sampleStore, Ok tt).
Proof. vm_compute. reflexivity. Qed.

Lemma sample_run : run (sampleHeap, emptyStore) [PutOk 7%positive] (sampleHeap, sampleStore).
Proof.
  eapply run_step; [|apply run_nil].
  eapply (step_put sampleHeap sampleHeap (const sampleHeap) sampleHeap emptyStore _ _ (Some 7%positive) _ sampleStore (Ok tt));
    [reflexivity|reflexivity|by split; unfold const|apply sample_put_step].
Qed.

Lemma store_invariant_witness : wf sampleHeap sampleStore.
Proof.
  apply (store_invariant 1 emptyStore sampleStore sampleHeap sampleHeap [PutOk 7%positive]).
  - reflexivity.
  - apply sample_run.
Defined.

Lemma takes_at_most_puts_witness :
  (takes 7 [PutOk 7%positive] <= puts 7 [PutOk 7%positive])%nat.
Proof.
  apply (takes_at_most_puts 1 emptyStore sampleStore sampleHeap sampleHeap).
  - reflexivity.
  - apply sample_run.
Defined.

Lemma Put_succeeds_iff_witness :
  is_Some (decodeBinding sampleBinding) /\ owner sampleTx <> None /\
  len (state sampleTx) = 43 /\ used sampleTx = false /\
  1001 * Second - createdAt sampleTx <= transactionLifetime /\
  createdAt sampleTx <= 1001 * Second + clockSkew /\
  entries (made_room (const sampleHeap) (1000 * Second) emptyStore) !! state sampleTx = None /\
  count (made_room (const sampleHeap) (1000 * Second) emptyStore) < capacity emptyStore.
Proof.
  apply (Put_succeeds_iff sampleHeap (const sampleHeap) (1000 * Second) (1001 * Second) emptyStore
    7%positive sampleTx sampleBinding); vm_compute; reflexivity.
Defined.

Lemma Put_keeps_live_logins_witness : entries sampleStore !! sampleState = Some sampleEntry.
Proof.
  apply (Put_keeps_live_logins sampleHeap (const sampleHeap) (1000 * Second) (1001 * Second)
    sampleStore sampleStore (Some 7%positive) sampleBinding sampleState sampleEntry
    (Err ErrLoginFailed)); vm_compute; reflexivity.
Defined.

Lemma Take_wrong_binding_keeps_witness :
  Take sampleHeap sampleHeap (1010 * Second) (Some sampleStore) sampleState otherBinding =
    (Some sampleStore, Err ErrLoginFailed).
Proof.
  apply (Take_wrong_binding_keeps sampleHeap sampleHeap (1010 * Second) sampleStore sampleState
    otherBinding sampleEntry (replicate 32 (byte_of 3))); vm_compute; first [reflexivity|discriminate].
Defined.

Lemma Put_then_Take_witness :
  Take sampleHeap sampleHeap (1010 * Second) (Some sampleStore) sampleState sampleBinding =
    (Some {| capacity := 1; entries := delete sampleState (entries sampleStore) |}, Ok 7%positive) /\
  snd (Take sampleHeap sampleHeap (1010 * Second)
    (Some {| capacity := 1; entries := delete sampleState (entries sampleStore) |})
    sampleState sampleBinding) = Err ErrLoginFailed.
Proof.
  apply (Put_then_Take sampleHeap (const sampleHeap) sampleHeap sampleHeap (1000 * Second) (1001 * Second)
    (1010 * Second) emptyStore sampleStore 7%positive sampleTx sampleTx sampleTx sampleBinding);
    try (vm_compute; reflexivity).
  - apply txn_le_refl.
  - vm_compute; discriminate.
Defined.

End StoreProperties.
