(* ===== verification/OidcCodec.v ===== *)
(** * Sealed login transactions ([auth/oidc/transaction_codec.go])

    A pending login as 166 bytes: a version byte, a nonce and an authenticated
    ciphertext of the three 43-byte secrets and the creation time, bound to the
    login client through the additional data.  The cipher is Go's [cipher.AEAD]
    interface, here the class [AEAD] with the laws of its documentation. *)

From S2P Require Import Prelude GoTime Base64 Sha256 OidcTypes OidcStore.

(** ** The cipher interface *)

Class AEAD (A : Type) := {
  aeadNonceSize : A -> Z;
  aeadSeal : A -> list byte -> list byte -> list byte -> list byte;  (* nonce, plaintext, data *)
  aeadOpen : A -> list byte -> list byte -> list byte -> option (list byte)
}.

(** What [cipher.NewGCM] documents: a 12-byte nonce, a 16-byte tag, and that
    [Open] undoes [Seal] under the same nonce and additional data. *)
Class GCMLaws (A : Type) `{AEAD A} := {
  gcm_nonce a : aeadNonceSize a = 12;
  gcm_overhead a nonce plaintext data :
    blen (aeadSeal a nonce plaintext data) = blen plaintext + 16;
  gcm_open_seal a nonce plaintext data :
    aeadOpen a nonce (aeadSeal a nonce plaintext data) data = Some plaintext
}.

Module Codec.
Import Binding Sha256.

Definition transactionFormatVersion : Z := 1.
Definition transactionPlainSize : Z := 3 * 43 + 8.
Definition transactionSealedSize : Z := 1 + 12 + transactionPlainSize + 16.

Definition validTransactionFields (tx : Transaction) : bool :=
  bool_decide (is_Some (decodeBinding (state tx))) &&
  bool_decide (is_Some (decodeBinding (nonce tx))) &&
  bool_decide (is_Some (decodeBinding (verifier tx))).

Definition validTransactionTime (now createdAt : time) : bool :=
  negb (IsZero createdAt) && negb (After createdAt (Add now clockSkew)) &&
  (Sub now createdAt <=? transactionLifetime).

(** The bytes written to the hash: each part behind its 32-bit length. *)
Definition aadParts (parts : list string) : list byte :=
  concat (map (fun part => putBE 4 (len part mod 2 ^ 32) ++ bytes_of part) parts).

(** [nil] pointers on the way to the issuer panic. *)
Definition transactionAAD (client : LoginClient) : option (list byte) :=
  config ← configuration client;
  v ← VerifierOf config;
  Some (Sum256 (aadParts [issuer v; clientID client; redirectURI client])).

Section codec.
Context {A : Type} `{AEAD A}.

(** [aes.NewCipher] and [cipher.NewGCM] on a 32-byte key. *)
Variable newGCM : list byte -> option A.

Definition NewTransactionCodec (key : list byte) : result oidc_error A :=
  if blen key != 32 then Err ErrLoginFailed
  else match newGCM key with
    | None => Err ErrLoginFailed
    | Some aead => Ok aead
    end.

Definition plaintextOf (tx : Transaction) : list byte :=
  bytes_of (state tx) ++ bytes_of (nonce tx) ++ bytes_of (verifier tx) ++
  putBE 8 (wrapU64 (UnixNano (createdAt tx))).

(** [Seal]: [now] is the reading of the owning client's clock, [random] the
    nonce bytes from [crypto/rand] when it delivers them. *)
Definition Seal (codec : option A) (h : heap) (transaction : option loc) (now : time)
    (random : option (list byte)) : result oidc_error (list byte) :=
  match codec, transaction ≫= (fun l => transactions h !! l) with
  | Some aead, Some tx =>
      match owner tx with
      | None => Err ErrLoginFailed
      | Some c =>
          if used tx || negb (validTransactionFields tx) then Err ErrLoginFailed
          else if negb (validTransactionTime now (createdAt tx)) then Err ErrLoginFailed
          else
            match random with
            | None => Err ErrLoginFailed
            | Some nonce =>
                match clients h !! c ≫= transactionAAD with
                | None => Err NilDereference
                | Some aad =>
                    Ok ([byte_of transactionFormatVersion] ++ nonce ++
                        aeadSeal aead nonce (plaintextOf tx) aad)
                end
            end
      end
  | _, _ => Err ErrLoginFailed
  end.

(** [Open] returns the restored struct; its pointer is new. *)
Definition Open (codec : option A) (h : heap) (client : option loc) (sealed : list byte)
    (now : time) : result oidc_error Transaction :=
  match codec, client with
  | Some aead, Some c =>
      match clients h !! c with
      | None => Err ErrLoginFailed
      | Some cl =>
          if negb (bool_decide (is_Some (configuration cl))) ||
             (blen sealed != transactionSealedSize) ||
             ((bval <$> sealed !! 0%nat) != Some transactionFormatVersion) then
            Err ErrLoginFailed
          else
            let nonceSize := aeadNonceSize aead in
            match transactionAAD cl with
            | None => Err NilDereference
            | Some aad =>
                match aeadOpen aead (slice sealed 1 (1 + nonceSize))
                        (drop (Z.to_nat (1 + nonceSize)) sealed) aad with
                | None => Err ErrLoginFailed
                | Some plaintext =>
                    if blen plaintext != transactionPlainSize then Err ErrLoginFailed
                    else
                      let tx := {|
                        owner := Some c;
                        state := string_of (slice plaintext 0 43);
                        nonce := string_of (slice plaintext 43 86);
                        verifier := string_of (slice plaintext 86 129);
                        createdAt := UnixOfNanos (wrapS64 (getBE (drop 129 plaintext)));
                        used := false |} in
                      if negb (validTransactionFields tx) ||
                         negb (validTransactionTime now (createdAt tx)) then
                        Err ErrLoginFailed
                      else Ok tx
                end
            end
      end
  | _, _ => Err ErrLoginFailed
  end.
End codec.

End Codec.

(** ** Round trip and rejection *)

Module CodecCorrect.
Import Base64 Binding Sha256 Codec.

Lemma validTransactionFields_true tx :
  validTransactionFields tx = true <->
  is_Some (decodeBinding (state tx)) /\ is_Some (decodeBinding (nonce tx)) /\
  is_Some (decodeBinding (verifier tx)).
Proof. unfold validTransactionFields. rewrite !andb_true_iff, !bool_decide_eq_true. tauto. Qed.

Lemma validTransactionTime_true now created :
  validTransactionTime now created = true <->
  created <> zeroTime /\ created <= now + clockSkew /\ now - created <= transactionLifetime.
Proof.
  unfold validTransactionTime, Sub, minDuration, maxDuration, transactionLifetime, clockSkew.
  rewrite !andb_true_iff, !negb_true_iff. unfold_time. lia.
Qed.

Lemma secret_bytes s : is_Some (decodeBinding s) -> blen (bytes_of s) = 43.
Proof. intros [bs Hbs%decodeBinding_len]. by rewrite len_bytes_of. Qed.

Lemma timestamp_roundtrip t : in_int64 t ->
  wrapS64 (getBE (putBE 8 (wrapU64 (UnixNano t)))) = t.
Proof.
  intros Ht. rewrite getBE_putBE. change (256 ^ Z.of_nat 8) with (2 ^ 64).
  unfold wrapU64. rewrite Z.mod_mod by lia. fold (wrapU64 (UnixNano t)).
  rewrite wrapS64_wrapU64. unfold UnixNano.
  rewrite (wrapS64_small t) by done. by apply wrapS64_small.
Qed.

Lemma plaintext_length tx : validTransactionFields tx = true ->
  blen (plaintextOf tx) = transactionPlainSize.
Proof.
  intros (Hs & Hn & Hv)%validTransactionFields_true. unfold plaintextOf.
  rewrite !blen_app, !secret_bytes by done. unfold blen. by rewrite putBE_length.
Qed.

(** The four fields are recovered from the plaintext. *)
Lemma plaintext_fields tx : validTransactionFields tx = true -> in_int64 (createdAt tx) ->
  let p := plaintextOf tx in
  string_of (slice p 0 43) = state tx /\ string_of (slice p 43 86) = nonce tx /\
  string_of (slice p 86 129) = verifier tx /\
  UnixOfNanos (wrapS64 (getBE (drop 129 p))) = createdAt tx.
Proof.
  intros (Hs & Hn & Hv)%validTransactionFields_true Ht. cbv zeta. unfold plaintextOf.
  pose proof (secret_bytes _ Hs) as Ls. pose proof (secret_bytes _ Hn) as Ln.
  pose proof (secret_bytes _ Hv) as Lv.
  set (S := bytes_of (state tx)) in *. set (N := bytes_of (nonce tx)) in *.
  set (V := bytes_of (verifier tx)) in *. set (T := putBE 8 _).
  split_and!.
  - rewrite (slice_at [] S (N ++ V ++ T)) by (rewrite ?Ls; done).
    apply String.string_of_list_byte_of_string.
  - rewrite (slice_at S N (V ++ T)) by lia. apply String.string_of_list_byte_of_string.
  - replace (S ++ N ++ V ++ T) with ((S ++ N) ++ V ++ T) by (by rewrite <- app_assoc).
    rewrite slice_at by (rewrite ?blen_app; lia). apply String.string_of_list_byte_of_string.
  - replace (S ++ N ++ V ++ T) with ((S ++ N ++ V) ++ T) by (by rewrite <- !app_assoc).
    change 129%nat with (Z.to_nat 129). rewrite drop_at by (rewrite !blen_app; lia).
    by apply timestamp_roundtrip.
Qed.

Section laws.
Context `{GCMLaws A}.

(** What a successful [Seal] has checked and produced. *)
Lemma Seal_Ok codec h l now random sealed :
  Seal codec h l now random = Ok sealed ->
  exists aead loc tx c client aad nonce, codec = Some aead /\ l = Some loc /\
    transactions h !! loc = Some tx /\ owner tx = Some c /\ used tx = false /\
    validTransactionFields tx = true /\ validTransactionTime now (createdAt tx) = true /\
    random = Some nonce /\ clients h !! c = Some client /\ transactionAAD client = Some aad /\
    sealed = byte_of transactionFormatVersion :: nonce ++ aeadSeal aead nonce (plaintextOf tx) aad.
Proof.
  unfold Seal. destruct codec as [aead|]; [|done]. destruct l as [l|]; simpl; [|done].
  destruct (transactions h !! l) as [tx|] eqn:Htx; [|done].
  destruct (owner tx) as [c|] eqn:Ho; [|done].
  case_match eqn:Hg; [done|]. case_match eqn:Ht; [done|].
  destruct random as [nonce|]; [|done].
  destruct (clients h !! c ≫= transactionAAD) as [aad|] eqn:Haad; [|done].
  apply bind_Some in Haad as (client & Hc & Haad). split_guards.
  intros [= <-]. exists aead, l, tx, c, client, aad, nonce. done.
Qed.

Lemma sealed_length aead nonce tx aad : blen nonce = 12 ->
  validTransactionFields tx = true ->
  blen (byte_of transactionFormatVersion :: nonce ++ aeadSeal aead nonce (plaintextOf tx) aad)
    = transactionSealedSize.
Proof.
  intros Hn Hf. rewrite blen_cons, blen_app, gcm_overhead, plaintext_length, Hn by done. done.
Qed.

Lemma sealed_parts aead (nonce ct : list byte) : blen nonce = 12 ->
  slice (byte_of transactionFormatVersion :: nonce ++ ct) 1 (1 + aeadNonceSize aead) = nonce /\
  drop (Z.to_nat (1 + aeadNonceSize aead)) (byte_of transactionFormatVersion :: nonce ++ ct) = ct.
Proof.
  intros Hn. rewrite gcm_nonce.
  change (byte_of transactionFormatVersion :: nonce ++ ct)
    with ([byte_of transactionFormatVersion] ++ nonce ++ ct).
  split; [apply slice_at; [done|lia]|].
  rewrite (assoc_L (++)). apply drop_at. rewrite blen_app, Hn. done.
Qed.
End laws.

(** *** The additional data identify the client *)

Lemma aadParts_cons p ps :
  aadParts (p :: ps) = putBE 4 (len p mod 2 ^ 32) ++ bytes_of p ++ aadParts ps.
Proof. unfold aadParts. cbn [map concat]. by rewrite <- app_assoc. Qed.

Lemma aadParts_inj ps qs : length ps = length qs ->
  Forall (fun p => len p < 2 ^ 32) ps -> Forall (fun p => len p < 2 ^ 32) qs ->
  aadParts ps = aadParts qs -> ps = qs.
Proof.
  revert qs. induction ps as [|p ps IH]; intros [|q qs] Hlen Hp Hq Heq; try done.
  apply Forall_cons in Hp as [Hp Hps]. apply Forall_cons in Hq as [Hq Hqs].
  rewrite !aadParts_cons in Heq.
  apply app_inj_1 in Heq as [Hl Heq]; [|by rewrite !putBE_length].
  bounds. rewrite !Z.mod_small in Hl by lia.
  apply putBE_inj in Hl; [|change (256 ^ Z.of_nat 4) with (2 ^ 32); lia..].
  apply app_inj_1 in Heq as [Hb Heq].
  2: { apply Nat2Z.inj. change (blen (bytes_of p) = blen (bytes_of q)).
       by rewrite !len_bytes_of. }
  f_equal.
  - rewrite <- (String.string_of_list_byte_of_string p), Hb.
    apply String.string_of_list_byte_of_string.
  - apply IH; [by injection Hlen|done..].
Qed.

End CodecCorrect.

(** ** Properties *)

Module CodecProperties.
Import Base64 Binding Sha256 Codec CodecCorrect StoreProperties.

(** C13.  Opening undoes sealing: a transaction sealed by its owner's codec is
    restored field by field, at any later time within its lifetime, by the same
    client; nothing is lost in the 64-bit timestamp. *)
Theorem Open_undoes_Seal `{GCMLaws A} (aead : A) (h h' : heap) (l c : loc) (tx : Transaction)
    (now now' : time) (nonce sealed : list byte) :
  Seal (Some aead) h (Some l) now (Some nonce) = Ok sealed ->
  transactions h !! l = Some tx -> owner tx = Some c -> heap_le h h' ->
  blen nonce = 12 -> in_int64 (createdAt tx) ->
  validTransactionTime now' (createdAt tx) = true ->
  Open (Some aead) h' (Some c) sealed now' = Ok tx.
Proof.
  intros (a & l' & tx' & c' & client & aad & nonce' & [= <-] & [= <-] & Htx' & Ho' & Hu & Hf & _ &
    [= <-] & Hc & Haad & ->)%Seal_Ok Htx Ho Hle Hn Ht Hnow.
  assert (tx' = tx) as -> by congruence. assert (c' = c) as -> by congruence.
  apply (heap_le_clients _ _ Hle) in Hc as Hc'.
  unfold Open. rewrite Hc', Haad, sealed_length by done.
  assert (is_Some (configuration client)) as Hcfg.
  { unfold transactionAAD in Haad. apply bind_Some in Haad as (? & Hx & _). by rewrite Hx. }
  rewrite (bool_decide_true (is_Some _)) by done.
  rewrite (bool_decide_true (_ = transactionSealedSize)) by done. simpl orb.
  destruct (sealed_parts aead nonce (aeadSeal aead nonce (plaintextOf tx) aad) Hn) as [-> ->].
  rewrite gcm_open_seal, plaintext_length, bool_decide_true by done.
  destruct (plaintext_fields tx Hf Ht) as (-> & -> & -> & ->).
  rewrite <- Ho', <- Hu. destruct tx; simpl in *. by rewrite Hf, Hnow.
Qed.

(** C14.  [Open] accepts only what it should: a 166-byte record of version 1
    whose ciphertext the cipher authenticates for this client; the transaction
    it returns is unused, owned by that client, has three canonical 32-byte
    secrets, and is within its lifetime. *)
Theorem Open_accepts_only_authentic `{GCMLaws A} (aead : A) (h : heap) (c : loc)
    (sealed : list byte) (now : time) (tx : Transaction) :
  Open (Some aead) h (Some c) sealed now = Ok tx ->
  (exists client aad nonce ct plaintext, clients h !! c = Some client /\
    transactionAAD client = Some aad /\ blen nonce = 12 /\
    sealed = byte_of transactionFormatVersion :: nonce ++ ct /\
    blen sealed = transactionSealedSize /\
    aeadOpen aead nonce ct aad = Some plaintext /\ blen plaintext = transactionPlainSize /\
    bytes_of (state tx) = slice plaintext 0 43 /\ bytes_of (OidcTypes.nonce tx) = slice plaintext 43 86 /\
    bytes_of (verifier tx) = slice plaintext 86 129) /\
  owner tx = Some c /\ used tx = false /\ validTransactionFields tx = true /\
  createdAt tx <= now + clockSkew /\ now - createdAt tx <= transactionLifetime.
Proof.
  unfold Open. destruct (clients h !! c) as [client|] eqn:Hc; [|done].
  case_match eqn:Hg; [done|]. destruct (transactionAAD client) as [aad|] eqn:Haad; [|done].
  destruct (aeadOpen _ _ _ aad) as [p|] eqn:Hopen; [|done].
  case_match eqn:Hp; [done|]. case_match eqn:Hv; [done|]. intros [= <-]. split_guards.
  match goal with H : validTransactionTime _ _ = true |- _ =>
    apply validTransactionTime_true in H as (_ & Hfut & Hage) end.
  split; [|done].
  destruct sealed as [|b sealed]; [done|]. simpl in *. simplify_eq.
  assert (b = byte_of transactionFormatVersion) as ->
    by (match goal with H : bval b = _ |- _ => by rewrite <- H, byte_of_bval end).
  assert (blen sealed = 165)
    by (change transactionSealedSize with 166 in *; rewrite blen_cons in *; lia).
  exists client, aad, (take 12 sealed), (drop 12 sealed), p. rewrite take_drop.
  rewrite gcm_nonce in Hopen.
  rewrite !String.list_byte_of_string_of_list_byte. split_and!; try done.
  unfold blen in *. rewrite length_take. lia.
Qed.

(** The additional data separate clients: two clients with the same
    additional data have the same issuer, client ID and redirect URI, unless
    their (different) encodings are a collision of SHA-256. *)
Theorem transactionAAD_separates_clients (c1 c2 : LoginClient) (v1 v2 : Verifier)
    (d : list byte) :
  (configuration c1 ≫= VerifierOf) = Some v1 -> (configuration c2 ≫= VerifierOf) = Some v2 ->
  Forall (fun p => len p < 2 ^ 32)
    [issuer v1; clientID c1; redirectURI c1; issuer v2; clientID c2; redirectURI c2] ->
  transactionAAD c1 = Some d -> transactionAAD c2 = Some d ->
  (issuer v1 = issuer v2 /\ clientID c1 = clientID c2 /\ redirectURI c1 = redirectURI c2) \/
  (exists x y, x <> y /\ Sum256 x = Sum256 y).
Proof.
  intros (g1 & Hg1 & Hv1)%bind_Some (g2 & Hg2 & Hv2)%bind_Some Hlens.
  unfold transactionAAD. rewrite Hg1, Hg2. simpl. rewrite Hv1, Hv2. simpl.
  intros [= H1] [= H2].
  set (p1 := [issuer v1; clientID c1; redirectURI c1]) in *.
  set (p2 := [issuer v2; clientID c2; redirectURI c2]) in *.
  destruct (decide (aadParts p1 = aadParts p2)) as [Heq|Hne].
  - left. change (Forall (fun p => len p < 2 ^ 32) (p1 ++ p2)) in Hlens.
    apply Forall_app in Hlens as [Hl1 Hl2].
    apply aadParts_inj in Heq; [|done..]. unfold p1, p2 in Heq. by simplify_eq.
  - right. exists (aadParts p1), (aadParts p2). split; [done|congruence].
Qed.

(** *** A cipher satisfying the laws, for evaluation: the plaintext with a
    16-byte keyed tag. *)

Definition toyTag (key nonce plaintext data : list byte) : list byte :=
  take 16 (Sum256 (key ++ nonce ++ data ++ plaintext)).

#[export] Instance toy_AEAD : AEAD (list byte) := {
  aeadNonceSize _ := 12;
  aeadSeal key nonce plaintext data := plaintext ++ toyTag key nonce plaintext data;
  aeadOpen key nonce ct data :=
    let plaintext := take (length ct - 16) ct in
    if drop (length ct - 16) ct == toyTag key nonce plaintext data then Some plaintext else None
}.

Lemma toyTag_length key nonce plaintext data : length (toyTag key nonce plaintext data) = 16%nat.
Proof. unfold toyTag. by rewrite length_take, Sum256_length. Qed.

#[export] Instance toy_GCMLaws : GCMLaws (list byte).
Proof.
  split; simpl.
  - done.
  - intros. rewrite blen_app. unfold blen. rewrite toyTag_length. lia.
  - intros key nonce p data. rewrite length_app, toyTag_length.
    replace (length p + 16 - 16)%nat with (length p) by lia.
    by rewrite take_app_length, drop_app_length, bool_decide_true.
Qed.

Definition sampleKey : list byte := replicate 32 (byte_of 9).
Definition sampleNonce : list byte := replicate 12 (byte_of 8).
Definition sampleVerifier : Verifier :=
  {| issuer := "https://id.example"; verifierClientID := "app"; keys := ∅ |}.
Definition sampleConfig : Configuration :=
  {| AuthorizationEndpoint := "https://id.example/authorize";
     TokenEndpoint := "https://id.example/token"; IntrospectionEndpoint := "";
     VerifierOf := Some sampleVerifier;
     validUntil := 5000 * Second |}.
Definition sampleClient : LoginClient :=
  {| configuration := Some sampleConfig; clientID := "app"; secret := "s3cret";
     redirectURI := "https://app.example/callback" |}.
Definition sampleAAD : list byte :=
  Sum256 (aadParts ["https://id.example"; "app"; "https://app.example/callback"]).
Definition codecHeap : heap :=
  {| clients := {[ 1%positive := sampleClient ]}; transactions := {[ 7%positive := sampleTx ]} |}.
Definition sampleSealed : list byte :=
  match Seal (Some sampleKey) codecHeap (Some 7%positive) (1001 * Second) (Some sampleNonce) with
  | Ok sealed => sealed
  | Err _ => []
  end.

Lemma Open_undoes_Seal_witness :
  Open (Some sampleKey) codecHeap (Some 1%positive) sampleSealed (1100 * Second) = Ok sampleTx.
Proof.
  apply (Open_undoes_Seal sampleKey codecHeap codecHeap 7%positive 1%positive sampleTx
    (1001 * Second) (1100 * Second) sampleNonce sampleSealed); try (vm_compute; reflexivity).
  vm_compute. split; [discriminate|reflexivity].
Defined.

Lemma Open_accepts_only_authentic_witness : used sampleTx = false /\ owner sampleTx = Some 1%positive.
Proof.
  edestruct (Open_accepts_only_authentic sampleKey codecHeap 1%positive sampleSealed
    (1100 * Second) sampleTx) as (_ & Ho & Hu & _); [vm_compute; reflexivity|].
  split; [exact Hu|exact Ho].
Defined.

Lemma transactionAAD_separates_clients_witness :
  (issuer sampleVerifier = issuer sampleVerifier /\ clientID sampleClient = clientID sampleClient /\
    redirectURI sampleClient = redirectURI sampleClient) \/
  (exists x y, x <> y /\ Sum256 x = Sum256 y).
Proof.
  apply (transactionAAD_separates_clients sampleClient sampleClient sampleVerifier sampleVerifier
    sampleAAD).
  - reflexivity.
  - reflexivity.
  - repeat constructor; vm_compute; reflexivity.
  - vm_compute; reflexivity.
  - vm_compute; reflexivity.
Defined.

End CodecProperties.
