(* ===== verification/OidcVerify.v ===== *)
(** * ID-token verification ([auth/oidc/verify.go])

    The verifier's own policy: which issuers, keys, headers and claims it
    accepts.  URL parsing ([net/url]) and JOSE decoding and signature checking
    ([go-jose]) are interfaces; signatures enter through [claimsOf], which
    yields the claims of a token only when its signature verifies. *)

From S2P Require Import Prelude GoTime GoStrings GoUrl GoUrlParse OidcTypes.

(** ** Interfaces *)

(** [jose.JSONWebKey]: [Key] is the RSA public key when it is one. *)
Record JSONWebKey := {
  Key : option PublicKey; Valid : bool; IsPublic : bool; KeyID : string;
  Algorithm : string; Use : string; CertificatesURL : option string
}.

(** A protected header of a parsed token; extra headers are decoded JSON
    values, of which only being the string "JWT" matters. *)
Inductive headerValue := StringValue (s : string) | OtherValue.

Record joseHeader := {
  hAlgorithm : string; hKeyID : string; hJSONWebKey : bool;
  ExtraHeaders : gmap string headerValue
}.

(** [jwt.Claims] with the nonce and authorized party; dates are [int64]
    seconds. *)
Record idClaims := {
  cIssuer : string; cSubject : string; Audience : list string;
  Expiry : option Z; NotBefore : option Z; IssuedAt : option Z;
  Nonce : string; AuthorizedParty : string
}.

Class JOSE := {
  token : Type;
  parseKeySet : list byte -> option (list JSONWebKey);
  parseSigned : string -> option (list joseHeader * token);
  claimsOf : token -> PublicKey -> option idClaims
}.

#[export] Instance headerValue_eq_dec : EqDecision headerValue.
Proof. solve_decision. Defined.

Module Verify.

Definition maxJWKSBytes : Z := Z.shiftl 64 10.
Definition maxTokenBytes : Z := Z.shiftl 16 10.
Definition maxKeys : Z := 16.

(** [N.BitLen()]. *)
Definition bitLen (n : Z) : Z := if n =? 0 then 0 else Z.log2 (Z.abs n) + 1.

Section verify.
Context `{JOSE}.

Definition validIssuer (issuer : string) : bool :=
  match urlParse issuer with
  | None => false
  | Some u =>
      (Scheme u == "https") && (Host u != "") && negb (User u) && (UPath u == "") &&
      (RawQuery u == "") && negb (ForceQuery u) && (Fragment u == "") && (Opaque u == "") &&
      (urlString u == issuer)
  end.

Definition acceptableKey (key : JSONWebKey) : option PublicKey :=
  match Key key with
  | None => None
  | Some public =>
      if negb (Valid key) || negb (IsPublic key) || (bitLen (rsaN public) <? 2048) ||
         (KeyID key == "") || (128 <? len (KeyID key)) || (Algorithm key != "RS256") ||
         (Use key != "sig") || bool_decide (is_Some (CertificatesURL key)) then None
      else Some public
  end.

Fixpoint collectKeys (acc : gmap string PublicKey) (ks : list JSONWebKey)
    : result oidc_error (gmap string PublicKey) :=
  match ks with
  | [] => Ok acc
  | key :: ks =>
      match acceptableKey key with
      | None => Err (ErrOther "JWKS contains an unsupported key")
      | Some public =>
          if bool_decide (is_Some (acc !! KeyID key)) then
            Err (ErrOther "JWKS contains duplicate key IDs")
          else collectKeys (<[KeyID key := public]> acc) ks
      end
  end.

Definition NewVerifier (issuer clientID : string) (jwks : list byte)
    : result oidc_error Verifier :=
  if negb (validIssuer issuer) then Err (ErrOther "issuer must be an exact HTTPS origin")
  else if (clientID == "") || (256 <? len clientID) || (TrimSpace clientID != clientID) then
    Err (ErrOther "client ID is required")
  else if (blen jwks =? 0) || (maxJWKSBytes <? blen jwks) then
    Err (ErrOther "JWKS size is invalid")
  else
    match parseKeySet jwks with
    | None => Err (ErrOther "JWKS is invalid")
    | Some set =>
        if (blen set =? 0) || (maxKeys <? blen set) then Err (ErrOther "JWKS is invalid")
        else
          keys ← collectKeys ∅ set;
          Ok {| issuer := issuer; verifierClientID := clientID; keys := keys |}
    end.

(** The loop over [header.ExtraHeaders]. *)
Definition extraHeadersOk (extra : gmap string headerValue) : bool :=
  forallb (fun kv => negb ((fst kv != "typ") || (snd kv != StringValue "JWT")))
    (map_to_list extra).

(** The checks on decoded claims, lines 114 to 130. *)
Definition checkClaims (v : Verifier) (now : time) (expectedNonce : string) (c : idClaims)
    : result oidc_error Identity :=
  match Expiry c, IssuedAt c with
  | Some exp, Some iat =>
      if (cIssuer c != issuer v) || (cSubject c == "") || (256 <? len (cSubject c)) ||
         negb (bool_decide (verifierClientID v ∈ Audience c)) ||
         (Nonce c != expectedNonce) then Err ErrInvalidToken
      else if ((blen (Audience c) != 1) && (AuthorizedParty c != verifierClientID v)) ||
              ((AuthorizedParty c != "") && (AuthorizedParty c != verifierClientID v)) then
        Err ErrInvalidToken
      else
        let issuedAt := UnixOfSeconds iat in
        let expiry := UnixOfSeconds exp in
        if (issuedAt / Second <=? 0) || negb (Before now expiry) || negb (After expiry issuedAt) ||
           (maxLifetime <? Sub expiry issuedAt) || After issuedAt (Add now clockSkew) then
          Err ErrInvalidToken
        else if match NotBefore c with
                | Some nbf => After (UnixOfSeconds nbf) (Add now clockSkew)
                | None => false
                end then Err ErrInvalidToken
        else Ok {| Issuer := cIssuer c; Subject := cSubject c |}
  | _, _ => Err ErrInvalidToken
  end.

Definition VerifyIDToken (v : option Verifier) (now : time) (raw expectedNonce : string)
    : result oidc_error Identity :=
  match v with
  | None => Err ErrInvalidToken
  | Some v =>
      if (expectedNonce == "") || (256 <? len expectedNonce) || (raw == "") ||
         (maxTokenBytes <? len raw) then Err ErrInvalidToken
      else
        match parseSigned raw with
        | Some ([header], tok) =>
            if (hAlgorithm header != "RS256") || (hKeyID header == "") || hJSONWebKey header then
              Err ErrInvalidToken
            else if negb (extraHeadersOk (ExtraHeaders header)) then Err ErrInvalidToken
            else
              match keys v !! hKeyID header with
              | None => Err ErrInvalidToken
              | Some key =>
                  match claimsOf tok key with
                  | None => Err ErrInvalidToken
                  | Some claims => checkClaims v now expectedNonce claims
                  end
              end
        | _ => Err ErrInvalidToken
        end
  end.
End verify.

End Verify.

(** ** Facts about keys and claims *)

Module VerifyCorrect.
Import Verify.

Section verify.
Context `{JOSE}.

Lemma collectKeys_Ok ks : forall acc m,
  collectKeys acc ks = Ok m ->
  Forall (fun k => is_Some (acceptableKey k)) ks /\ NoDup (KeyID <$> ks) /\
  (forall k, k ∈ ks -> acc !! KeyID k = None) /\
  (forall id p, m !! id = Some p <->
    acc !! id = Some p \/ exists k, k ∈ ks /\ KeyID k = id /\ acceptableKey k = Some p).
Proof.
  induction ks as [|k ks IH]; intros acc m; simpl.
  { intros [= <-]. split_and!; [constructor..|set_solver|].
    intros id p. split; [auto|]. intros [?|(k & Hk & _)]; [done|set_solver]. }
  destruct (acceptableKey k) as [p|] eqn:Hp; [|done].
  case_bool_decide as Hdup; [done|]. rewrite <- eq_None_not_Some in Hdup.
  intros (Hall & Hnd & Hfresh & Hm)%IH. split_and!.
  - by constructor.
  - constructor; [|done].
    intros (k' & Heq & Hk')%list_elem_of_fmap. apply Hfresh in Hk'.
    by rewrite <- Heq, lookup_insert_eq in Hk'.
  - intros k' [->|Hk']%elem_of_cons; [done|]. apply Hfresh in Hk' as Hf.
    by apply lookup_insert_None in Hf as [? _].
  - intros id q. rewrite Hm. split.
    + intros [Hq|(k' & Hk' & Hid & Hq)].
      * apply lookup_insert_Some in Hq as [[<- <-]|[_ ?]]; [|auto].
        right. exists k. split_and!; [set_solver|done..].
      * right. exists k'. split_and!; [set_solver|done..].
    + intros [Hq|(k' & [->|Hk']%elem_of_cons & Hid & Hq)].
      * left. rewrite lookup_insert_ne; [done|]. congruence.
      * left. simplify_eq. apply lookup_insert_eq.
      * right. eauto.
Qed.

Lemma collectKeys_size ks : forall acc m,
  collectKeys acc ks = Ok m -> size m = (size acc + length ks)%nat.
Proof.
  induction ks as [|k ks IH]; intros acc m; simpl; [intros [= <-]; lia|].
  destruct (acceptableKey k) as [p|]; [|done]. case_bool_decide as Hdup; [done|].
  rewrite <- eq_None_not_Some in Hdup. intros ->%IH.
  rewrite map_size_insert_None by done. lia.
Qed.

Lemma acceptableKey_Some k p : acceptableKey k = Some p ->
  Key k = Some p /\ Valid k = true /\ IsPublic k = true /\ 2048 <= bitLen (rsaN p) /\
  1 <= len (KeyID k) <= 128 /\ Algorithm k = "RS256" /\ Use k = "sig".
Proof.
  unfold acceptableKey. destruct (Key k) as [q|] eqn:Hk; [|done].
  case_match eqn:Hg; [done|]. intros [= ->]. split_guards.
  assert (len (KeyID k) <> 0) by (by rewrite len_0). bounds. split_and!; try done; lia.
Qed.

(** What accepted claims satisfy, with exact differences. *)
Lemma checkClaims_Ok v now nonce c id :
  checkClaims v now nonce c = Ok id ->
  exists exp iat, Expiry c = Some exp /\ IssuedAt c = Some iat /\
    id = {| Issuer := issuer v; Subject := cSubject c |} /\ cIssuer c = issuer v /\
    1 <= len (cSubject c) <= 256 /\ verifierClientID v ∈ Audience c /\ Nonce c = nonce /\
    (AuthorizedParty c = verifierClientID v \/ (AuthorizedParty c = "" /\ blen (Audience c) = 1)) /\
    0 < UnixOfSeconds iat < UnixOfSeconds exp /\ now < UnixOfSeconds exp /\
    UnixOfSeconds exp - UnixOfSeconds iat <= maxLifetime /\
    UnixOfSeconds iat <= now + clockSkew /\
    (forall nbf, NotBefore c = Some nbf -> UnixOfSeconds nbf <= now + clockSkew).
Proof.
  unfold checkClaims. destruct (Expiry c) as [exp|]; [|done].
  destruct (IssuedAt c) as [iat|]; [|done].
  case_match eqn:H1; [done|]. case_match eqn:H2; [done|]. cbv zeta.
  case_match eqn:H3; [done|]. case_match eqn:H4; [done|]. intros [= <-].
  exists exp, iat. split_guards.
  assert (len (cSubject c) <> 0) by (by rewrite len_0). bounds.
  unfold Sub, minDuration, maxDuration in *.
  assert (Second = 1000000000) as HS by reflexivity. rewrite HS in *.
  unfold maxLifetime, clockSkew in *. unfold After, Before, Add in *.
  change (10 * Minute) with 600000000000 in *. change Minute with 60000000000 in *.
  split_and!; try done; try lia; try congruence.
  - destruct (decide (AuthorizedParty c = verifierClientID v)) as [|Hne]; [by left|right].
    rewrite (bool_decide_false (_ = verifierClientID v)) in * by done.
    rewrite !andb_true_r in *. split_guards. done.
  - intros nbf Hn. rewrite Hn in *. lia.
Qed.

Lemma VerifyIDToken_Ok v now raw nonce id :
  VerifyIDToken (Some v) now raw nonce = Ok id ->
  exists header tok key claims, parseSigned raw = Some ([header], tok) /\
    hAlgorithm header = "RS256" /\ hJSONWebKey header = false /\
    keys v !! hKeyID header = Some key /\ claimsOf tok key = Some claims /\
    nonce <> "" /\ len raw <= maxTokenBytes /\ checkClaims v now nonce claims = Ok id.
Proof.
  unfold VerifyIDToken. case_match eqn:Hg; [done|].
  destruct (parseSigned raw) as [[[|header [|]] tok]|] eqn:Hp; try done.
  case_match eqn:Hh; [done|]. case_match; [done|].
  destruct (keys v !! hKeyID header) as [key|] eqn:Hk; [|done].
  destruct (claimsOf tok key) as [claims|] eqn:Hc; [|done]. intros Hok.
  exists header, tok, key, claims. split_guards. split_and!; try done. lia.
Qed.
End verify.

End VerifyCorrect.

(** ** Properties *)

Module VerifyProperties.
Import Verify VerifyCorrect.

Section verify.
Context `{JOSE}.

(** A constructed verifier is bound to the given exact HTTPS origin and
    client ID, and holds between 1 and 16 keys, one per entry of the JWKS
    (duplicates are refused), each an RSA public signing key of at least 2048
    bits published for RS256 under its own key ID. *)
Theorem NewVerifier_keys_vetted (iss cid : string) (jwks : list byte) (v : Verifier) :
  NewVerifier iss cid jwks = Ok v ->
  validIssuer iss = true /\ issuer v = iss /\ verifierClientID v = cid /\ cid <> "" /\
  exists set, parseKeySet jwks = Some set /\ 1 <= blen set <= 16 /\
    Z.of_nat (size (keys v)) = blen set /\
    forall id p, keys v !! id = Some p <->
      exists k, k ∈ set /\ KeyID k = id /\ acceptableKey k = Some p /\
        Key k = Some p /\ 2048 <= bitLen (rsaN p) /\ Algorithm k = "RS256" /\ Use k = "sig".
Proof.
  unfold NewVerifier. case_match eqn:H1; [done|]. case_match eqn:H2; [done|].
  case_match eqn:H3; [done|]. destruct (parseKeySet jwks) as [set|] eqn:Hset; [|done].
  case_match eqn:H4; [done|]. intros (m & Hm & [= <-])%bind_Ok_inv.
  split_guards. simpl. split_and!; try done. exists set.
  apply collectKeys_size in Hm as Hsize. apply collectKeys_Ok in Hm as (_ & _ & _ & Hm).
  rewrite map_size_empty in Hsize. unfold maxKeys in *. bounds.
  split_and!; [done|lia..|unfold blen; lia|].
  intros id p. rewrite Hm. split.
  - intros [Hx|(k & Hk & Hid & Hp)]; [by rewrite lookup_empty in Hx|].
    exists k. apply acceptableKey_Some in Hp as Hp'. naive_solver.
  - intros (k & Hk & Hid & Hp & _). right. eauto.
Qed.

(** C4.  An ID token is accepted only when its single RS256 header names a
    key of the verifier, the signature verifies under that key, and the
    signed claims have this issuer, this client among the audience (alone, or
    as the authorized party), the expected nonce, a subject of 1 to 256
    bytes, and dates that are current: expired at no time up to now, issued
    at most a minute ahead, with a lifetime of at most ten minutes. *)
Theorem VerifyIDToken_accepts_only (v : Verifier) (now : time) (raw nonce : string)
    (id : Identity) :
  VerifyIDToken (Some v) now raw nonce = Ok id ->
  exists header tok key c exp iat, parseSigned raw = Some ([header], tok) /\
    hAlgorithm header = "RS256" /\ hJSONWebKey header = false /\
    keys v !! hKeyID header = Some key /\ claimsOf tok key = Some c /\
    Expiry c = Some exp /\ IssuedAt c = Some iat /\
    id = {| Issuer := issuer v; Subject := cSubject c |} /\ cIssuer c = issuer v /\
    1 <= len (cSubject c) <= 256 /\ verifierClientID v ∈ Audience c /\
    Nonce c = nonce /\ nonce <> "" /\
    (AuthorizedParty c = verifierClientID v \/
      (AuthorizedParty c = "" /\ blen (Audience c) = 1)) /\
    now < UnixOfSeconds exp /\ UnixOfSeconds exp - UnixOfSeconds iat <= maxLifetime /\
    UnixOfSeconds iat <= now + clockSkew /\
    (forall nbf, NotBefore c = Some nbf -> UnixOfSeconds nbf <= now + clockSkew).
Proof.
  intros (header & tok & key & c & Hp & Ha & Hj & Hk & Hc & Hn & _ & Hok)%VerifyIDToken_Ok.
  apply checkClaims_Ok in Hok as (exp & iat & Hrest).
  exists header, tok, key, c, exp, iat. naive_solver.
Qed.

(** An ID token can be replayed to a verifier only within eleven
    minutes: two moments at which the same token is accepted are less than
    the ten-minute maximum lifetime plus the one-minute clock skew apart. *)
Theorem VerifyIDToken_replay_window (v : Verifier) (now1 now2 : time)
    (raw nonce1 nonce2 : string) (id1 id2 : Identity) :
  VerifyIDToken (Some v) now1 raw nonce1 = Ok id1 ->
  VerifyIDToken (Some v) now2 raw nonce2 = Ok id2 ->
  Z.abs (now2 - now1) < maxLifetime + clockSkew /\ nonce1 = nonce2 /\ id1 = id2.
Proof.
  intros (h1 & t1 & k1 & c1 & Hp1 & _ & _ & Hk1 & Hc1 & _ & _ & Hok1)%VerifyIDToken_Ok
    (h2 & t2 & k2 & c2 & Hp2 & _ & _ & Hk2 & Hc2 & _ & _ & Hok2)%VerifyIDToken_Ok.
  simplify_eq.
  apply checkClaims_Ok in Hok1 as (e1 & i1 & He1 & Hi1 & -> & _ & _ & _ & <- & _ & _ & Hx1 & Hl1 & Hy1 & _).
  apply checkClaims_Ok in Hok2 as (e2 & i2 & He2 & Hi2 & -> & _ & _ & _ & <- & _ & _ & Hx2 & Hl2 & Hy2 & _).
  simplify_eq. split_and!; [lia|done..].
Qed.
End verify.

(** *** Interfaces for evaluation: tokens that are their own claims. *)


Definition samplePublicKey : PublicKey := {| rsaN := 2 ^ 2047 + 1; rsaE := 65537 |}.
Definition sampleJWK : JSONWebKey :=
  {| Key := Some samplePublicKey; Valid := true; IsPublic := true; KeyID := "k1";
     Algorithm := "RS256"; Use := "sig"; CertificatesURL := None |}.
Definition sampleClaims : idClaims :=
  {| cIssuer := "https://id.example"; cSubject := "user-1"; Audience := ["app"];
     Expiry := Some 1300; NotBefore := None; IssuedAt := Some 1000;
     Nonce := "n-1"; AuthorizedParty := "" |}.

#[export] Instance sampleJOSE : JOSE := {
  token := idClaims;
  parseKeySet _ := Some [sampleJWK];
  parseSigned _ := Some ([{| hAlgorithm := "RS256"; hKeyID := "k1"; hJSONWebKey := false;
                             ExtraHeaders := {[ "typ" := StringValue "JWT" ]} |}], sampleClaims);
  claimsOf c key := if key == samplePublicKey then Some c else None
}.

Definition sampleVerifier : Verifier :=
  {| issuer := "https://id.example"; verifierClientID := "app";
     keys := {[ "k1" := samplePublicKey ]} |}.

Lemma NewVerifier_keys_vetted_witness :
  validIssuer "https://id.example" = true /\ issuer sampleVerifier = "https://id.example".
Proof.
  destruct (NewVerifier_keys_vetted "https://id.example" "app" [byte_of 1] sampleVerifier)
    as (Hv & Hi & _); [vm_compute; reflexivity|]. split; [exact Hv|exact Hi].
Defined.

Lemma VerifyIDToken_accepts_only_witness :
  exists c, Nonce c = "n-1" /\ verifierClientID sampleVerifier ∈ Audience c.
Proof.
  destruct (VerifyIDToken_accepts_only sampleVerifier (1100 * Second) "t" "n-1"
    {| Issuer := "https://id.example"; Subject := "user-1" |})
    as (_ & _ & _ & c & _ & _ & _ & _ & _ & _ & _ & _ & _ & _ & _ & _ & Ha & Hn & _);
    [vm_compute; reflexivity|]. exists c. split; [exact Hn|exact Ha].
Defined.

Lemma VerifyIDToken_replay_window_witness :
  Z.abs (1200 * Second - 1100 * Second) < maxLifetime + clockSkew.
Proof.
  apply (VerifyIDToken_replay_window sampleVerifier (1100 * Second) (1200 * Second) "t" "n-1" "n-1"
    {| Issuer := "https://id.example"; Subject := "user-1" |}
    {| Issuer := "https://id.example"; Subject := "user-1" |}); vm_compute; reflexivity.
Defined.

End VerifyProperties.
