(* ===== verification/OidcDiscovery.v ===== *)
(** * Issuer discovery ([auth/oidc/discovery.go])

    Metadata and keys are fetched from the pinned issuer and vetted before a
    [Configuration] exists.  HTTP exchanges are arguments. *)

From S2P Require Import Prelude GoTime GoStrings GoJson GoJsonDecode GoUrl GoUrlParse OidcTypes OidcVerify.

(** An HTTP response: its status and its body, which may end in a read error
    instead of an end of file. *)
Record response := { StatusCode : Z; Body : list byte; BodyErr : bool }.

(** [io.ReadAll(io.LimitReader(body, limit+1))] followed by the size check. *)
Definition readLimited (r : response) (limit : Z) : option (list byte) :=
  let contents := take (Z.to_nat (limit + 1)) (Body r) in
  let err := BodyErr r && (blen (Body r) <? limit + 1) in
  if err || (limit <? blen contents) then None else Some contents.

Lemma readLimited_Some r limit contents :
  readLimited r limit = Some contents -> contents = Body r /\ blen (Body r) <= limit.
Proof.
  unfold readLimited. case_match eqn:Hg; [done|]. intros [= <-].
  split_guards. unfold blen in *. rewrite length_take in *.
  rewrite take_ge by lia. split; [done|lia].
Qed.

Lemma readLimited_fits r limit : BodyErr r = false -> blen (Body r) <= limit ->
  readLimited r limit = Some (Body r).
Proof.
  unfold readLimited, blen. intros -> Hb. rewrite take_ge by lia. case_match; [lia|done].
Qed.

Record metadata := {
  mIssuer : string; mAuthorizationEndpoint : string; mTokenEndpoint : string;
  mIntrospectionEndpoint : string; mJWKSURI : string;
  ResponseTypesSupported : list string; CodeChallengeMethodsSupported : list string;
  IDTokenSigningAlgValuesSupported : list string
}.

Module Discovery.
Import Verify JsonDecode.

Definition maxMetadataBytes : Z := Z.shiftl 32 10.

(** [GET] of an address by the given client, redirects not followed; [None] is
    a request or transport error. *)
Definition getter := string -> option response.

Definition fetchJSON {D} (get : getter) (address : string) (limit : Z)
    (unmarshal : list byte -> option D) : result oidc_error D :=
  match get address with
  | None => Err (ErrOther "request failed")
  | Some r =>
      if StatusCode r != 200 then Err (ErrOther "unexpected HTTP status")
      else
        match readLimited r limit with
        | None => Err (ErrOther "OIDC response is too large")
        | Some contents =>
            match unmarshal contents with
            | None => Err (ErrOther "invalid JSON")
            | Some d => Ok d
            end
        end
  end.

Section discover.
Context `{JOSE}.

(** An issuer that does not parse would be a nil dereference; the callers
    pass issuers that [validIssuer] accepted. *)
Definition sameOriginEndpoint (issuer endpoint : string) : bool :=
  match urlParse issuer, urlParse endpoint with
  | Some base, Some u =>
      (Scheme u == "https") && (Host u == Host base) && negb (User u) && (UPath u != "") &&
      (RawQuery u == "") && negb (ForceQuery u) && (Fragment u == "") && (Opaque u == "")
  | _, _ => false
  end.

(** The fields of [metadata] with their tags. *)
Definition metadataType : gotype :=
  TStruct [("issuer", TString); ("authorization_endpoint", TString); ("token_endpoint", TString);
    ("introspection_endpoint", TString); ("jwks_uri", TString); ("response_types_supported", TSlice TString);
    ("code_challenge_methods_supported", TSlice TString); ("id_token_signing_alg_values_supported", TSlice TString)].

Definition unmarshalMetadata (contents : list byte) : option metadata :=
  match Unmarshal metadataType contents with
  | Some (VStruct [VString iss; VString auth; VString token; VString intro; VString jwks; types; methods; algs]) =>
      Some {| mIssuer := iss; mAuthorizationEndpoint := auth; mTokenEndpoint := token; mIntrospectionEndpoint := intro;
              mJWKSURI := jwks; ResponseTypesSupported := stringsOf types;
              CodeChallengeMethodsSupported := stringsOf methods; IDTokenSigningAlgValuesSupported := stringsOf algs |}
  | _ => None
  end.

Definition metadataOk (issuer : string) (meta : metadata) : bool :=
  negb ((mIssuer meta != issuer) ||
    negb (sameOriginEndpoint issuer (mAuthorizationEndpoint meta)) ||
    negb (sameOriginEndpoint issuer (mTokenEndpoint meta)) ||
    negb (sameOriginEndpoint issuer (mJWKSURI meta)) ||
    ((mIntrospectionEndpoint meta != "") &&
      negb (sameOriginEndpoint issuer (mIntrospectionEndpoint meta))) ||
    negb (bool_decide ("code" ∈ ResponseTypesSupported meta)) ||
    negb (bool_decide ("S256" ∈ CodeChallengeMethodsSupported meta)) ||
    negb (bool_decide ("RS256" ∈ IDTokenSigningAlgValuesSupported meta))).

Definition Discover (ctx : bool) (get : getter) (now : time) (issuer clientID : string)
    : result oidc_error Configuration :=
  if negb ctx || negb (validIssuer issuer) || (clientID == "") then
    Err (ErrOther "invalid OIDC discovery configuration")
  else
    match fetchJSON get (issuer +:+ "/.well-known/openid-configuration") maxMetadataBytes
            unmarshalMetadata with
    | Err _ => Err (ErrOther "OIDC discovery failed")
    | Ok meta =>
        if negb (metadataOk issuer meta) then Err (ErrOther "OIDC discovery metadata is invalid")
        else
          match fetchJSON get (mJWKSURI meta) maxJWKSBytes UnmarshalRaw with
          | Err _ => Err (ErrOther "OIDC JWKS fetch failed")
          | Ok jwks =>
              match NewVerifier issuer clientID jwks with
              | Err _ => Err (ErrOther "OIDC JWKS is invalid")
              | Ok v =>
                  Ok {| AuthorizationEndpoint := mAuthorizationEndpoint meta;
                        TokenEndpoint := mTokenEndpoint meta;
                        IntrospectionEndpoint := mIntrospectionEndpoint meta;
                        VerifierOf := Some v;
                        validUntil := Add now Hour |}
              end
          end
    end.
End discover.

End Discovery.

Module DiscoveryCorrect.
Import Verify Discovery JsonDecode.

Lemma fetchJSON_Ok {D} get address limit (unmarshal : list byte -> option D) d :
  fetchJSON get address limit unmarshal = Ok d ->
  exists r, get address = Some r /\ StatusCode r = 200 /\ blen (Body r) <= limit /\
    unmarshal (Body r) = Some d.
Proof.
  unfold fetchJSON. destruct (get address) as [r|]; [|done]. case_match eqn:Hs; [done|].
  destruct (readLimited r limit) as [c|] eqn:Hr; [|done].
  apply readLimited_Some in Hr as [-> Hlen].
  destruct (unmarshal (Body r)) as [d'|] eqn:Hu; [|done]. intros [= <-].
  split_guards. eauto.
Qed.

Section discover.
Context `{JOSE}.

(** An HTTPS address on the issuer's own host, with a path and nothing else. *)
Definition onIssuer (iss endpoint : string) : Prop :=
  exists base u, urlParse iss = Some base /\ urlParse endpoint = Some u /\ Scheme u = "https" /\ Host u = Host base /\
    UserOf u = None /\ UPath u <> "" /\ RawQuery u = "" /\ ForceQuery u = false /\ Fragment u = "" /\ Opaque u = "".

Lemma sameOriginEndpoint_iff iss endpoint : sameOriginEndpoint iss endpoint = true <-> onIssuer iss endpoint.
Proof.
  unfold sameOriginEndpoint, onIssuer, User.
  destruct (urlParse iss) as [base|]; [|naive_solver]. destruct (urlParse endpoint) as [u|]; [|naive_solver]. split.
  - intros Hg. split_guards. exists base, u. destruct (UserOf u); [done|]. by split_and!.
  - intros (? & ? & [= <-] & [= <-] & -> & -> & -> & Hp & -> & -> & -> & ->). cbn.
    rewrite !bool_decide_true by done. by rewrite bool_decide_false.
Qed.

Lemma metadataOk_true iss meta : metadataOk iss meta = true ->
  mIssuer meta = iss /\ sameOriginEndpoint iss (mAuthorizationEndpoint meta) = true /\
  sameOriginEndpoint iss (mTokenEndpoint meta) = true /\
  sameOriginEndpoint iss (mJWKSURI meta) = true /\
  (mIntrospectionEndpoint meta = "" \/
    sameOriginEndpoint iss (mIntrospectionEndpoint meta) = true) /\
  "code" ∈ ResponseTypesSupported meta /\ "S256" ∈ CodeChallengeMethodsSupported meta /\
  "RS256" ∈ IDTokenSigningAlgValuesSupported meta.
Proof.
  unfold metadataOk. intros Hg. split_guards. split_and!; try done.
  destruct (sameOriginEndpoint iss (mIntrospectionEndpoint meta)); [by right|left].
  rewrite andb_true_r in *. by split_guards.
Qed.

Lemma Discover_Ok ctx get now iss cid cfg :
  Discover ctx get now iss cid = Ok cfg ->
  exists meta jwks v, ctx = true /\ validIssuer iss = true /\ cid <> "" /\
    fetchJSON get (iss +:+ "/.well-known/openid-configuration") maxMetadataBytes
      unmarshalMetadata = Ok meta /\ metadataOk iss meta = true /\
    fetchJSON get (mJWKSURI meta) maxJWKSBytes UnmarshalRaw = Ok jwks /\
    NewVerifier iss cid jwks = Ok v /\
    cfg = {| AuthorizationEndpoint := mAuthorizationEndpoint meta;
             TokenEndpoint := mTokenEndpoint meta;
             IntrospectionEndpoint := mIntrospectionEndpoint meta;
             VerifierOf := Some v; validUntil := now + Hour |}.
Proof.
  unfold Discover. case_match eqn:Hg; [done|]. split_guards.
  destruct (fetchJSON _ _ _ unmarshalMetadata) as [meta|] eqn:Hm; [|done].
  case_match eqn:Hok; [done|]. split_guards.
  destruct (fetchJSON _ _ _ UnmarshalRaw) as [jwks|] eqn:Hj; [|done].
  destruct (NewVerifier iss cid jwks) as [v|] eqn:Hv; [|done].
  intros [= <-]. exists meta, jwks, v. done.
Qed.
End discover.

End DiscoveryCorrect.

(** ** Properties *)

Module DiscoveryProperties.
Import Verify VerifyCorrect VerifyProperties Discovery DiscoveryCorrect JsonDecode.

Section discover.
Context `{JOSE}.

(** C17.  A discovered configuration is vetted: the JSON document of at most
    32 KiB at the well-known address names this issuer and supports the code flow
    with S256 and RS256; every endpoint it keeps is an HTTPS URL on the issuer's
    own host without query, fragment or userinfo, and the very one the document
    names; the keys are those of the key set in the body of a 200 response of at most
    64 KiB from the key address of the document, an address of the same kind: the set
    has 1 to 16 keys, and a key ID has a public key in the verifier exactly when the
    set publishes that key under it, an RSA key of at least 2048 bits for RS256
    signatures; the verifier is bound to this issuer and client; and the snapshot
    expires in an hour. *)
Theorem Discover_vets_configuration (ctx : bool) (get : getter) (now : time)
    (iss cid : string) (cfg : Configuration) :
  Discover ctx get now iss cid = Ok cfg ->
  validIssuer iss = true /\ onIssuer iss (AuthorizationEndpoint cfg) /\ onIssuer iss (TokenEndpoint cfg) /\
  (IntrospectionEndpoint cfg = "" \/ onIssuer iss (IntrospectionEndpoint cfg)) /\
  validUntil cfg = now + Hour /\
  exists r1 meta r2 raw set v, get (iss +:+ "/.well-known/openid-configuration") = Some r1 /\ StatusCode r1 = 200 /\
    blen (Body r1) <= 32768 /\ unmarshalMetadata (Body r1) = Some meta /\ mIssuer meta = iss /\
    "code" ∈ ResponseTypesSupported meta /\ "S256" ∈ CodeChallengeMethodsSupported meta /\
    "RS256" ∈ IDTokenSigningAlgValuesSupported meta /\ onIssuer iss (mJWKSURI meta) /\
    AuthorizationEndpoint cfg = mAuthorizationEndpoint meta /\ TokenEndpoint cfg = mTokenEndpoint meta /\
    IntrospectionEndpoint cfg = mIntrospectionEndpoint meta /\
    get (mJWKSURI meta) = Some r2 /\ StatusCode r2 = 200 /\ blen (Body r2) <= 65536 /\
    UnmarshalRaw (Body r2) = Some raw /\ parseKeySet raw = Some set /\ 1 <= blen set <= 16 /\
    VerifierOf cfg = Some v /\ issuer v = iss /\ verifierClientID v = cid /\
    Z.of_nat (size (keys v)) = blen set /\
    forall id p, keys v !! id = Some p <->
      exists k, k ∈ set /\ KeyID k = id /\ acceptableKey k = Some p /\
        Key k = Some p /\ 2048 <= bitLen (rsaN p) /\ Algorithm k = "RS256" /\ Use k = "sig".
Proof.
  intros (meta & jwks & v & _ & Hiss & _ & Hm & Hok & Hj & Hv & ->)%Discover_Ok.
  apply metadataOk_true in Hok as (Hname & Ha & Ht & Hu & Hi & Hcode & Hs & Hr).
  apply fetchJSON_Ok in Hm as (r1 & Hg1 & Hs1 & Hl1 & Hd1).
  apply fetchJSON_Ok in Hj as (r2 & Hg2 & Hs2 & Hl2 & Hd2). rewrite sameOriginEndpoint_iff in *.
  apply NewVerifier_keys_vetted in Hv as (_ & Hvi & Hvc & _ & set & Hset & Hn & Hsize & Hkeys).
  split_and!; try done. exists r1, meta, r2, jwks, set, v. split_and!; try done; apply Hn.
Qed.
End discover.

(** The documents of an issuer, with single quotes for the double ones. *)
Definition sampleMetadata : list byte := quoted
  "{'issuer':'https://id.example','authorization_endpoint':'https://id.example/authorize','token_endpoint':'https:\/\/id.example\/token','jwks_uri':'https://id.example/keys','response_types_supported':['id_token','code'],'code_challenge_methods_supported':['S256'],'id_token_signing_alg_values_supported':['RS256'],'scopes_supported':['openid']}".
Definition sampleGet : getter := fun address =>
  Some {| StatusCode := 200; Body := if address == "https://id.example/keys" then quoted " {}" else sampleMetadata;
          BodyErr := false |}.
Definition sampleDiscovered : Configuration :=
  {| AuthorizationEndpoint := "https://id.example/authorize";
     TokenEndpoint := "https://id.example/token"; IntrospectionEndpoint := "";
     VerifierOf := Some sampleVerifier; validUntil := 1000 * Second + Hour |}.

Lemma Discover_vets_configuration_witness : exists r1 meta r2,
  sampleGet "https://id.example/.well-known/openid-configuration" = Some r1 /\
  unmarshalMetadata (Body r1) = Some meta /\ sampleGet (mJWKSURI meta) = Some r2.
Proof.
  destruct (Discover_vets_configuration true sampleGet (1000 * Second) "https://id.example" "app" sampleDiscovered)
    as (_ & _ & _ & _ & _ & r1 & meta & r2 & raw & set & v & H1 & _ & _ & H2 & _ & _ & _ & _ & _ & _ & _ & _ & H3 & _);
    [vm_compute; reflexivity|].
  exists r1, meta, r2. split; [exact H1|]. split; [exact H2|exact H3].
Defined.

End DiscoveryProperties.
