(* ===== verification/OidcCache.v ===== *)
(** * The configuration cache ([auth/oidc/cache.go])

    An age-bounded snapshot of the issuer's configuration.  [Refresh] replaces
    it after a complete successful discovery and leaves it alone otherwise;
    [Current] and [Status] judge its freshness against the clock. *)

From S2P Require Import Prelude GoTime GoStrings GoUrl GoUrlParse OidcTypes OidcVerify.

Module Cache.
Import Verify.

(** The zero [fetchedAt] is Go's zero time. *)
Record ConfigurationCache := {
  cacheIssuer : string; cacheClientID : string; maxAge : Duration;
  current : option Configuration; fetchedAt : time
}.

Record CacheStatus := {
  LastSuccessfulRefresh : time; ExpiresAt : time; Fresh : bool
}.

Definition emptyStatus : CacheStatus :=
  {| LastSuccessfulRefresh := zeroTime; ExpiresAt := zeroTime; Fresh := false |}.

Definition NewConfigurationCache (issuer clientID : string) (maxAge : Duration)
    : result oidc_error ConfigurationCache :=
  if negb (validIssuer issuer) || (clientID == "") || (maxAge <? Minute) || (Hour <? maxAge) then
    Err (ErrOther "invalid OIDC cache configuration")
  else Ok {| cacheIssuer := issuer; cacheClientID := clientID; maxAge := maxAge;
             current := None; fetchedAt := zeroTime |}.

(** [Refresh], given the outcome of [Discover] for the cache's issuer and
    client and the clock reading taken when the snapshot is replaced. *)
Definition Refresh (cache : option ConfigurationCache) (discovered : result oidc_error Configuration)
    (now : time) : option ConfigurationCache * result oidc_error unit :=
  match cache with
  | None => (None, Err ErrStaleConfiguration)
  | Some c =>
      match discovered with
      | Err e => (Some c, Err e)
      | Ok configuration =>
          (Some {| cacheIssuer := cacheIssuer c; cacheClientID := cacheClientID c;
                   maxAge := maxAge c; current := Some configuration; fetchedAt := now |}, Ok tt)
      end
  end.

Definition with_validUntil (c : Configuration) (t : time) : Configuration :=
  {| AuthorizationEndpoint := AuthorizationEndpoint c; TokenEndpoint := TokenEndpoint c;
     IntrospectionEndpoint := IntrospectionEndpoint c; VerifierOf := VerifierOf c;
     validUntil := t |}.

Definition Current (cache : option ConfigurationCache) (now : time)
    : result oidc_error Configuration :=
  match cache with
  | None => Err ErrStaleConfiguration
  | Some c =>
      match current c with
      | None => Err ErrStaleConfiguration
      | Some cfg =>
          if After (fetchedAt c) (Add now clockSkew) || (maxAge c <=? Sub now (fetchedAt c)) then
            Err ErrStaleConfiguration
          else Ok (with_validUntil cfg (Add (fetchedAt c) (maxAge c)))
      end
  end.

Definition Status (cache : option ConfigurationCache) (now : time) : CacheStatus :=
  match cache with
  | None => emptyStatus
  | Some c =>
      match current c with
      | None => emptyStatus
      | Some _ =>
          let expiresAt := Add (fetchedAt c) (maxAge c) in
          {| LastSuccessfulRefresh := fetchedAt c; ExpiresAt := expiresAt;
             Fresh := negb (After (fetchedAt c) (Add now clockSkew)) && Before now expiresAt |}
      end
  end.

(** ** The refresh loop *)

(** One turn of [runRefreshLoop] as its environment decides it: the context's
    error on entry, the discovery outcome, the clock readings of the refresh
    and of the status, and what the select received: the context's error, or a
    tick. *)
Record turn := {
  ctxErr : option string;
  discovered : result oidc_error Configuration;
  refreshedAt : time;
  observedAt : time;
  selected : option string
}.

(** The loop over the given turns: the cache, the calls of [observe], and the
    context error it returned, or [None] while it is still waiting. *)
Fixpoint runRefreshLoop (cache : option ConfigurationCache) (turns : list turn)
    : option ConfigurationCache * list (result oidc_error unit * CacheStatus) * option string :=
  match turns with
  | [] => (cache, [], None)
  | t :: turns =>
      match ctxErr t with
      | Some err => (cache, [], Some err)
      | None =>
          let '(cache, err) := Refresh cache (discovered t) (refreshedAt t) in
          let observed := (err, Status cache (observedAt t)) in
          match selected t with
          | Some err => (cache, [observed], Some err)
          | None =>
              let '(cache, observations, res) := runRefreshLoop cache turns in
              (cache, observed :: observations, res)
          end
      end
  end.

(** The guard of [Run]; [ctx] and [observe] say whether they are non-nil. *)
Definition runGuard (cache : option ConfigurationCache) (ctx observe : bool) (interval : Duration)
    : bool :=
  match cache with
  | None => false
  | Some c => ctx && observe && negb (interval <? Second) && negb (Z.quot (maxAge c) 2 <? interval)
  end.

Definition Run (cache : option ConfigurationCache) (ctx observe : bool) (interval : Duration)
    (turns : list turn)
    : result oidc_error
        (option ConfigurationCache * list (result oidc_error unit * CacheStatus) * option string) :=
  if negb (runGuard cache ctx observe interval) then
    Err (ErrOther "invalid OIDC refresh loop configuration")
  else Ok (runRefreshLoop cache turns).

End Cache.

Module CacheCorrect.
Import Verify Cache.

Definition wf (c : ConfigurationCache) : Prop := Minute <= maxAge c <= Hour.

(** Freshness as a proposition: a snapshot younger than [maxAge], fetched at
    most a minute in the future. *)
Definition fresh (c : ConfigurationCache) (now : time) : Prop :=
  is_Some (current c) /\ fetchedAt c <= now + clockSkew /\ now < fetchedAt c + maxAge c.

Lemma Current_Ok c now cfg : wf c ->
  Current (Some c) now = Ok cfg <->
  fresh c now /\ exists cfg0, current c = Some cfg0 /\
    cfg = with_validUntil cfg0 (fetchedAt c + maxAge c).
Proof.
  intros [Hlo Hhi]. unfold Current, fresh, clockSkew in *.
  assert (maxAge c <= maxDuration /\ minDuration < maxAge c) as [Hd1 Hd2]
    by (unfold maxDuration, minDuration; unfold_time; lia).
  rewrite Sub_ge_exact by lia. unfold After, Add.
  destruct (current c) as [cfg0|]; [|split; [done|by intros [[[] _] _]]].
  case_match eqn:Hg.
  - split; [done|]. intros [(_ & ? & ?) _]. lia.
  - split_guards. split.
    + intros [= <-]. split; [|eauto]. split_and!; [done|lia..].
    + intros [_ (c0 & [= <-] & ->)]. done.
Qed.

Lemma Status_Fresh c now : wf c -> Fresh (Status (Some c) now) = true <-> fresh c now.
Proof.
  intros Hwf. unfold Status, fresh, After, Before, Add.
  destruct (current c); simpl; [|split; [done|by intros [[] _]]].
  rewrite andb_true_iff, negb_true_iff. rewrite Z.ltb_lt, Z.ltb_ge.
  split; [intros [? ?]; split_and!; done|tauto].
Qed.

(** Refreshes in the order they happen. *)
Fixpoint refreshAll (c : ConfigurationCache) (hs : list (result oidc_error Configuration * time))
    : ConfigurationCache :=
  match hs with
  | [] => c
  | (r, t) :: hs =>
      match fst (Refresh (Some c) r t) with
      | Some c => refreshAll c hs
      | None => c
      end
  end.

Lemma refreshAll_maxAge hs : forall c, maxAge (refreshAll c hs) = maxAge c.
Proof. induction hs as [|[[cfg|e] t] hs IH]; intros c; simpl; [done| |]; by rewrite IH. Qed.

Lemma refreshAll_failures hs : forall c,
  Forall (fun h => is_ok (fst h) = false) hs -> refreshAll c hs = c.
Proof.
  induction hs as [|[[cfg|e] t] hs IH]; intros c Hf; simpl; [done| |].
  - by apply Forall_cons in Hf as [? _].
  - apply Forall_cons in Hf as [_ Hf]. by apply IH.
Qed.

Lemma refreshAll_app hs ks : forall c, refreshAll c (hs ++ ks) = refreshAll (refreshAll c hs) ks.
Proof. induction hs as [|[[cfg|e] t] hs IH]; intros c; simpl; auto. Qed.

(** A snapshot present after some refreshes is the one present before, or that
    of the last success. *)
Lemma refreshAll_current hs : forall c cfg,
  current (refreshAll c hs) = Some cfg ->
  (Forall (fun h => is_ok (fst h) = false) hs /\ refreshAll c hs = c) \/
  exists pre t post, hs = pre ++ (Ok cfg, t) :: post /\
    Forall (fun h => is_ok (fst h) = false) post /\ fetchedAt (refreshAll c hs) = t.
Proof.
  induction hs as [|h hs IH] using rev_ind; intros c cfg; [by left|].
  rewrite refreshAll_app. destruct h as [[cfg'|e] t]; simpl.
  - intros [= ->]. right. exists hs, t, []. by split_and!.
  - intros [[Hf ->]|(pre & t' & post & -> & Hpost & Ht)]%IH.
    + left. split; [|done]. apply Forall_app. by split; [|constructor].
    + right. exists pre, t', (post ++ [(Err e, t)]).
      rewrite <- app_assoc. split_and!; [done| |done].
      apply Forall_app. by split; [|constructor].
Qed.

(** The turns the loop executed, as refreshes. *)
Definition refreshes (ts : list turn) : list (result oidc_error Configuration * time) :=
  map (fun t => (discovered t, refreshedAt t)) ts.

Lemma runRefreshLoop_spec turns : forall c c' obs res,
  runRefreshLoop (Some c) turns = (c', obs, res) ->
  exists pre post, turns = pre ++ post /\ length obs = length pre /\
    Forall (fun t => ctxErr t = None) pre /\ c' = Some (refreshAll c (refreshes pre)) /\
    match res with
    | None => post = [] /\ Forall (fun t => selected t = None) pre
    | Some err => (exists t, last pre = Some t /\ selected t = Some err) \/
                  (exists t rest, post = t :: rest /\ ctxErr t = Some err)
    end.
Proof.
  induction turns as [|t turns IH]; intros c c' obs res; cbn [runRefreshLoop].
  { intros [= <- <- <-]. exists [], []. by split_and!. }
  destruct (ctxErr t) as [err|] eqn:Hctx.
  { intros [= <- <- <-]. exists [], (t :: turns). split_and!; try done. right. eauto. }
  assert (exists c1 r, Refresh (Some c) (discovered t) (refreshedAt t) = (Some c1, r) /\
    forall ts, refreshAll c1 ts = refreshAll c ((discovered t, refreshedAt t) :: ts))
    as (c1 & r & Hr & Hall) by (simpl; destruct (discovered t); eauto).
  rewrite Hr. destruct (selected t) as [err|] eqn:Hsel.
  { intros [= <- <- <-]. exists [t], turns. split_and!; try done; [by constructor| |].
    - unfold refreshes; simpl map. by rewrite <- Hall.
    - left. eauto. }
  destruct (runRefreshLoop (Some c1) turns) as [[c2 obs'] res'] eqn:Hrun.
  intros [= <- <- <-]. apply IH in Hrun as (pre & post & -> & Hlen & Hpre & -> & Hres).
  exists (t :: pre), post. split_and!; [done|simpl; lia|by constructor| |].
  - unfold refreshes in *; simpl map. by rewrite <- Hall.
  - destruct res' as [err|].
    + destruct Hres as [(t' & Hlast & Hs)|Hres]; [left|by right].
      exists t'. split; [|done]. by destruct pre.
    + destruct Hres as [-> Hsel']. split; [done|by constructor].
Qed.

End CacheCorrect.

(** ** Properties *)

Module CacheProperties.
Import Verify VerifyProperties Cache CacheCorrect.

(** [Current] and [Status] agree: a configuration is served exactly when
    the status reports it fresh, at any clock reading. *)
Theorem Current_iff_Fresh (c : ConfigurationCache) (now : time) :
  wf c -> is_ok (Current (Some c) now) = Fresh (Status (Some c) now).
Proof.
  intros Hwf. apply eq_true_iff_eq. rewrite Status_Fresh, is_ok_true by done.
  split.
  - intros [cfg [Hf _]%Current_Ok]; done.
  - intros Hf. pose proof Hf as [[cfg0 Hc] _].
    exists (with_validUntil cfg0 (fetchedAt c + maxAge c)). apply Current_Ok; eauto.
Qed.

(** C15.  Failing closed: after any history of refreshes of a new cache,
    [Current] serves exactly the configuration of the last successful refresh,
    and only while it is younger than the maximum age; later failures neither
    replace it nor extend its deadline. *)
Theorem Current_serves_last_success (iss cid : string) (age : Duration)
    (c : ConfigurationCache) (hs : list (result oidc_error Configuration * time)) (now : time)
    (cfg : Configuration) :
  NewConfigurationCache iss cid age = Ok c ->
  Current (Some (refreshAll c hs)) now = Ok cfg <->
  exists pre cfg0 t post, hs = pre ++ (Ok cfg0, t) :: post /\
    Forall (fun h => is_ok (fst h) = false) post /\
    t <= now + clockSkew /\ now < t + age /\ cfg = with_validUntil cfg0 (t + age).
Proof.
  unfold NewConfigurationCache. case_match eqn:Hg; [done|]. intros [= <-]. split_guards.
  set (c0 := {| cacheIssuer := iss; maxAge := age |}).
  assert (wf (refreshAll c0 hs)) as Hwf
    by (unfold wf; rewrite refreshAll_maxAge; simpl; unfold_time; lia).
  rewrite Current_Ok by done. unfold fresh. rewrite refreshAll_maxAge. simpl maxAge. split.
  - intros [(_ & Ht & Hage) (cfg0 & Hcur & ->)].
    apply refreshAll_current in Hcur as Hcases.
    destruct Hcases as [[_ Heq]|(pre & t & post & Hhs & Hpost & Hft)].
    + by rewrite Heq in Hcur.
    + rewrite Hft in *. by exists pre, cfg0, t, post.
  - intros (pre & cfg0 & t & post & -> & Hpost & Ht & Hage & ->).
    rewrite refreshAll_app. simpl. rewrite refreshAll_failures by done. simpl. eauto 10.
Qed.

(** The refresh loop returns only with the context's error, observes one
    refresh per turn it executes, and leaves the cache exactly as those
    refreshes, in order, make it. *)
Theorem runRefreshLoop_observes_each (c : ConfigurationCache) (turns : list turn)
    (c' : option ConfigurationCache) (obs : list (result oidc_error unit * CacheStatus))
    (res : option string) :
  runRefreshLoop (Some c) turns = (c', obs, res) ->
  exists pre post, turns = pre ++ post /\ length obs = length pre /\
    c' = Some (refreshAll c (refreshes pre)) /\
    forall err, res = Some err ->
      (exists t, last pre = Some t /\ selected t = Some err) \/
      (exists t rest, post = t :: rest /\ ctxErr t = Some err).
Proof.
  intros (pre & post & -> & Hlen & _ & -> & Hres)%runRefreshLoop_spec.
  exists pre, post. split_and!; [done..|]. by intros err ->.
Qed.

(** An accepted refresh interval leaves room for a retry: when [Run]'s
    guard passes, a snapshot stays fresh through one failed refresh, up to the
    moment the refresh after it is due. *)
Theorem Run_interval_allows_retry (c : ConfigurationCache) (ctx observe : bool)
    (interval now : Duration) :
  runGuard (Some c) ctx observe interval = true -> wf c -> is_Some (current c) ->
  fetchedAt c <= now -> now < fetchedAt c + 2 * interval ->
  Fresh (Status (Some c) now) = true.
Proof.
  unfold runGuard. intros Hg Hwf Hcur Hlo Hhi. split_guards. apply Status_Fresh; [done|].
  unfold fresh, wf, clockSkew in *. unfold_time.
  split_and!; [done|lia|]. rewrite Z.quot_div_nonneg in * by lia. lia.
Qed.

(** *** Witnesses *)


Definition sampleConfiguration : Configuration :=
  {| AuthorizationEndpoint := "https://id.example/authorize";
     TokenEndpoint := "https://id.example/token"; IntrospectionEndpoint := "";
     VerifierOf := Some sampleVerifier; validUntil := 0 |}.
Definition newCache : ConfigurationCache :=
  {| cacheIssuer := "https://id.example"; cacheClientID := "app"; maxAge := 10 * Minute;
     current := None; fetchedAt := zeroTime |}.
Definition filledCache : ConfigurationCache :=
  refreshAll newCache [(Ok sampleConfiguration, 1000 * Second)].

Lemma Current_iff_Fresh_witness :
  is_ok (Current (Some filledCache) (1100 * Second)) =
  Fresh (Status (Some filledCache) (1100 * Second)).
Proof. apply (Current_iff_Fresh filledCache). vm_compute. split; discriminate. Defined.

Lemma Current_serves_last_success_witness :
  exists pre cfg0 t post,
    [(Ok sampleConfiguration, 1000 * Second); (Err ErrLoginFailed, 1200 * Second)] =
      pre ++ (Ok cfg0, t) :: post /\
    Forall (fun h => is_ok (fst h) = false) post /\
    t <= 1300 * Second + clockSkew /\ 1300 * Second < t + 10 * Minute /\
    with_validUntil sampleConfiguration (1600 * Second) = with_validUntil cfg0 (t + 10 * Minute).
Proof.
  apply (Current_serves_last_success "https://id.example" "app" (10 * Minute) newCache);
    vm_compute; reflexivity.
Defined.

Lemma runRefreshLoop_observes_each_witness :
  let t := {| ctxErr := None; discovered := Ok sampleConfiguration; refreshedAt := 1000 * Second;
              observedAt := 1000 * Second; selected := Some "context canceled" |} in
  exists pre post, [t] = pre ++ post /\ 1%nat = length pre.
Proof.
  intros t.
  destruct (runRefreshLoop_observes_each newCache [t] (Some filledCache)
    [(Ok tt, Status (Some filledCache) (1000 * Second))] (Some "context canceled"))
    as (pre & post & H1 & H2 & _); [vm_compute; reflexivity|]. exists pre, post. split; assumption.
Defined.

Lemma Run_interval_allows_retry_witness :
  Fresh (Status (Some filledCache) (1500 * Second)) = true.
Proof.
  apply (Run_interval_allows_retry filledCache true true (5 * Minute));
    vm_compute; first [reflexivity|discriminate|split; discriminate|eexists; reflexivity].
Defined.

End CacheProperties.
