(* ===== verification/OidcLogin.v ===== *)
(** * The login client ([auth/oidc/login.go])

    One Authorization Code + PKCE login: [Begin] allocates a transaction and
    builds the authorization request; [complete] consumes the transaction by an
    atomic swap of its [used] flag, exchanges the code at the token endpoint and
    verifies the ID token.  The token endpoint is a function from the request
    that is sent to its response, and every call reports what it sent. *)

From S2P Require Import Prelude GoTime GoStrings GoJson GoJsonDecode GoUrl GoUrlParse GoUrlRoundTrip Base64 Sha256.
From S2P Require Import OidcTypes OidcStore OidcVerify OidcDiscovery.

(** What the program sets on an outgoing request. *)
Record request := {
  Method : string; RequestURL : string; RequestBody : string; ContentType : string;
  Accept : string; BasicUser : string; BasicPassword : string
}.

(** The decoded token response; [ExpiresIn] is an [int64]. *)
Record tokenResponse := {
  IDToken : string; AccessToken : string; TokenType : string; ExpiresIn : Z
}.

Record LoginResult := {
  LoginIdentity : Identity; LoginAccessToken : string; LoginExpiresIn : Duration
}.

Module Login.
Import Base64 Sha256 Binding Values Verify Discovery JsonDecode.

Definition maxTokenResponseBytes : Z := Z.shiftl 32 10.
Definition maxCodeBytes : Z := 4096.

(** The PKCE S256 challenge of a verifier. *)
Definition challengeOf (verifier : string) : string :=
  EncodeToString (Sum256 (bytes_of verifier)).

(** The eight parameters [Begin] sets. *)
Definition beginQuery (client : LoginClient) (state nonce verifier : string) (query : Values) : Values :=
  Set' "code_challenge_method" "S256" (Set' "code_challenge" (challengeOf verifier)
    (Set' "nonce" nonce (Set' "state" state (Set' "scope" "openid"
      (Set' "redirect_uri" (redirectURI client) (Set' "client_id" (clientID client)
        (Set' "response_type" "code" query))))))).

(** [new(Transaction)] at an address not in use. *)
Definition allocate (h : heap) (tx : Transaction) : heap * loc :=
  let l := fresh (dom (transactions h)) in (set_transaction h l tx, l).

Definition State (h : heap) (transaction : option loc) : string :=
  match transaction with
  | None => ""
  | Some l => match transactions h !! l with Some tx => state tx | None => "" end
  end.

(** The second guard of [complete], on the callback's parameters. *)
Definition callbackOk (tx : Transaction) (callback : Values) : bool :=
  negb ((blen (get_all callback "state") != 1) || (blen (get_all callback "code") != 1) ||
    (blen (get_all callback "error") != 0) || (Get callback "code" == "") ||
    (maxCodeBytes <? len (Get callback "code")) || (Get callback "state" != state tx)).

Definition tokenForm (client : LoginClient) (tx : Transaction) (callback : Values) : Values :=
  {[ "grant_type" := ["authorization_code"]; "code" := [Get callback "code"];
     "redirect_uri" := [redirectURI client]; "code_verifier" := [verifier tx] ]}.

Definition tokenRequest (client : LoginClient) (endpoint : string) (tx : Transaction)
    (callback : Values) : request :=
  {| Method := "POST"; RequestURL := endpoint;
     RequestBody := Encode (tokenForm client tx callback);
     ContentType := "application/x-www-form-urlencoded"; Accept := "application/json";
     BasicUser := clientID client; BasicPassword := secret client |}.

(** The bounds on an access token, when the caller wants one. *)
Definition accessTokenOk (t : tokenResponse) : bool :=
  negb ((AccessToken t == "") || (maxCodeBytes <? len (AccessToken t)) ||
    negb (equalFoldASCII (TokenType t) "Bearer") || (ExpiresIn t <=? 0) || (86400 <? ExpiresIn t)).

Section login.
Context `{JOSE}.

Definition NewLoginClient (configuration : option Configuration)
    (clientID clientSecret redirectURI : string) : result oidc_error LoginClient :=
  match configuration with
  | Some cfg =>
      match VerifierOf cfg with
      | Some v =>
          if negb (validIssuer (issuer v)) || (clientID == "") || (clientID != verifierClientID v) ||
             (clientSecret == "") || negb (sameOriginEndpoint (issuer v) (AuthorizationEndpoint cfg)) ||
             negb (sameOriginEndpoint (issuer v) (TokenEndpoint cfg)) then
            Err (ErrOther "invalid OIDC client configuration")
          else
            match urlParse redirectURI with
            | None => Err (ErrOther "redirect URI must be an exact HTTPS callback without query")
            | Some redirect =>
                if (Scheme redirect != "https") || (Host redirect == "") || User redirect ||
                   (UPath redirect == "") || (RawQuery redirect != "") || ForceQuery redirect ||
                   (Fragment redirect != "") || (Opaque redirect != "") then
                  Err (ErrOther "redirect URI must be an exact HTTPS callback without query")
                else Ok {| configuration := Some cfg; clientID := clientID; secret := clientSecret;
                           redirectURI := redirectURI |}
            end
      | None => Err (ErrOther "invalid OIDC client configuration")
      end
  | None => Err (ErrOther "invalid OIDC client configuration")
  end.

(** [Begin]: [now1] and [now2] are the readings of the clock, the byte strings
    what the random source produced.  A nil configuration, or an endpoint that
    does not parse, is a nil dereference. *)
Definition Begin (h : heap) (client : option loc) (now1 now2 : time)
    (random1 random2 random3 : option (list byte)) : heap * result oidc_error (string * loc) :=
  match client with
  | None => (h, Err (ErrOther "OIDC client is required"))
  | Some c =>
      match clients h !! c with
      | Some cl =>
          match configuration cl with
          | Some cfg =>
              if negb (IsZero (validUntil cfg)) && negb (Before now1 (validUntil cfg)) then
                (h, Err ErrStaleConfiguration)
              else
                match randomURLString random1, randomURLString random2, randomURLString random3 with
                | Ok state, Ok nonce, Ok verifier =>
                    match urlParse (AuthorizationEndpoint cfg) with
                    | None => (h, Err NilDereference)
                    | Some address =>
                        let query := beginQuery cl state nonce verifier (ParseQuery (RawQuery address)) in
                        let address := with_RawQuery address (Encode query) in
                        let '(h, l) := allocate h
                          {| owner := Some c; state := state; nonce := nonce; verifier := verifier;
                             createdAt := now2; used := false |} in
                        (h, Ok (urlString address, l))
                    end
                | Err e, _, _ | _, Err e, _ | _, _, Err e => (h, Err e)
                end
          | None => (h, Err NilDereference)
          end
      | None => (h, Err NilDereference)
      end
  end.

(** The fields of the token response with their tags. *)
Definition tokenType : gotype :=
  TStruct [("id_token", TString); ("access_token", TString); ("token_type", TString); ("expires_in", TInt 64)].

Definition unmarshalToken (contents : list byte) : option tokenResponse :=
  match Unmarshal tokenType contents with
  | Some (VStruct [VString id; VString access; VString type_; VInt expires]) =>
      Some {| IDToken := id; AccessToken := access; TokenType := type_; ExpiresIn := expires |}
  | _ => None
  end.

(** Everything [complete] does once the transaction is consumed. *)
Definition exchange (cl : LoginClient) (tx : Transaction) (callback : Values)
    (requireAccessToken : bool) (now : time) (send : request -> option response)
    : list request * result oidc_error LoginResult :=
  if negb (callbackOk tx callback) then ([], Err ErrLoginFailed)
  else
    match configuration cl with
    | None => ([], Err NilDereference)
    | Some cfg =>
        match urlParse (TokenEndpoint cfg) with
        | None => ([], Err ErrLoginFailed)
        | Some _ =>
            let req := tokenRequest cl (TokenEndpoint cfg) tx callback in
            ([req],
             match send req with
             | None => Err ErrLoginFailed
             | Some response =>
                 if StatusCode response != 200 then Err ErrLoginFailed
                 else
                   match readLimited response maxTokenResponseBytes with
                   | None => Err ErrLoginFailed
                   | Some contents =>
                       match unmarshalToken contents with
                       | None => Err ErrLoginFailed
                       | Some token =>
                           if requireAccessToken && negb (accessTokenOk token) then Err ErrLoginFailed
                           else
                             match VerifyIDToken (VerifierOf cfg) now (IDToken token) (nonce tx) with
                             | Err _ => Err ErrLoginFailed
                             | Ok identity =>
                                 Ok {| LoginIdentity := identity;
                                       LoginAccessToken := AccessToken token;
                                       LoginExpiresIn := wrapS64 (ExpiresIn token * Second) |}
                             end
                       end
                   end
             end)
        end
    end.

(** [complete]: the guards up to the swap of [used], then the exchange. *)
Definition complete (h : heap) (client : option loc) (ctx : bool) (transaction : option loc)
    (callback : Values) (requireAccessToken : bool) (now1 now2 now3 : time)
    (send : request -> option response) : heap * list request * result oidc_error LoginResult :=
  match client, transaction with
  | Some c, Some l =>
      if negb ctx then (h, [], Err ErrLoginFailed)
      else
        match clients h !! c, transactions h !! l with
        | Some cl, Some tx =>
            if owner tx != Some c then (h, [], Err ErrLoginFailed)
            else
              let h' := set_transaction h l (mark_used tx) in
              if used tx || (transactionLifetime <? Sub now1 (createdAt tx)) ||
                 After (createdAt tx) (Add now2 clockSkew) then (h', [], Err ErrLoginFailed)
              else
                let '(sent, r) := exchange cl tx callback requireAccessToken now3 send in
                (h', sent, r)
        | _, _ => (h, [], Err NilDereference)
        end
  | _, _ => (h, [], Err ErrLoginFailed)
  end.

(** The exported entry points: through the client, and through the
    transaction's own client. *)
Definition CompleteWithToken (h : heap) (client : option loc) (ctx : bool) (transaction : option loc)
    (callback : Values) (now1 now2 now3 : time) (send : request -> option response)
    : heap * list request * result oidc_error LoginResult :=
  complete h client ctx transaction callback true now1 now2 now3 send.

Definition Complete (h : heap) (client : option loc) (ctx : bool) (transaction : option loc)
    (callback : Values) (now1 now2 now3 : time) (send : request -> option response)
    : heap * list request * result oidc_error Identity :=
  let '(h, sent, r) := complete h client ctx transaction callback false now1 now2 now3 send in
  (h, sent, LoginIdentity <$> r).

Definition ownerOf (h : heap) (transaction : option loc) : option loc :=
  l ← transaction; tx ← transactions h !! l; owner tx.

Definition TransactionComplete (h : heap) (ctx : bool) (transaction : option loc)
    (callback : Values) (now1 now2 now3 : time) (send : request -> option response)
    : heap * list request * result oidc_error Identity :=
  match ownerOf h transaction with
  | None => (h, [], Err ErrLoginFailed)
  | client => Complete h client ctx transaction callback now1 now2 now3 send
  end.

Definition TransactionCompleteWithToken (h : heap) (ctx : bool) (transaction : option loc)
    (callback : Values) (now1 now2 now3 : time) (send : request -> option response)
    : heap * list request * result oidc_error LoginResult :=
  match ownerOf h transaction with
  | None => (h, [], Err ErrLoginFailed)
  | client => CompleteWithToken h client ctx transaction callback now1 now2 now3 send
  end.
End login.

End Login.

(** ** Runs

    Any number of logins begin and complete, interleaved at their swaps of
    [used]: what follows a swap reads only fields that never change.  The
    environment allocates transactions (restored ones among them) and may mark
    transactions used.  The label lists the transactions a token request was
    sent for. *)

Module LoginRuns.
Import Values Login.

Section runs.
Context `{JOSE}.

Inductive step : heap -> list loc -> heap -> Prop :=
  | step_env h h' : heap_le h h' -> step h [] h'
  | step_begin h c now1 now2 r1 r2 r3 h' r :
      Begin h c now1 now2 r1 r2 r3 = (h', r) -> step h [] h'
  | step_complete h c ctx l callback need now1 now2 now3 send h' sent r :
      complete h c ctx (Some l) callback need now1 now2 now3 send = (h', sent, r) ->
      step h (map (fun _ => l) sent) h'.

Inductive run : heap -> list loc -> heap -> Prop :=
  | run_nil h : run h [] h
  | run_step h1 es1 h2 es2 h3 : step h1 es1 h2 -> run h2 es2 h3 -> run h1 (es1 ++ es2) h3.

Definition usedAt (h : heap) (l : loc) : Prop :=
  exists tx, transactions h !! l = Some tx /\ used tx = true.

Lemma usedAt_le h h' l : heap_le h h' -> usedAt h l -> usedAt h' l.
Proof.
  intros Hle (tx & Hl & Hu). destruct (heap_le_txns _ _ Hle _ _ Hl) as (tx' & Hl' & Htx).
  exists tx'. eauto using txn_le_used.
Qed.

Lemma allocate_le h tx h' l : allocate h tx = (h', l) -> heap_le h h'.
Proof.
  unfold allocate. intros [= <- <-]. split; [done|]. intros l tx' Hl. exists tx'.
  split; [|apply txn_le_refl]. simpl. rewrite lookup_insert_ne; [done|].
  intros <-. apply elem_of_dom_2 in Hl. exact (is_fresh (dom (transactions h)) Hl).
Qed.

Lemma Begin_le h c now1 now2 r1 r2 r3 h' r :
  Begin h c now1 now2 r1 r2 r3 = (h', r) -> heap_le h h'.
Proof using Type.
  unfold Begin. intros HB. repeat case_match; simplify_eq; try done. by eapply allocate_le.
Qed.

(** A call sends nothing, or it found the flag clear, sets it and sends one
    request. *)
Lemma complete_sends h c ctx l callback need now1 now2 now3 send h' sent r :
  complete h c ctx (Some l) callback need now1 now2 now3 send = (h', sent, r) ->
  heap_le h h' /\ (sent = [] \/ exists req, sent = [req] /\ ~ usedAt h l /\ usedAt h' l).
Proof.
  unfold complete. intros HC. destruct c as [c|]; [|by simplify_eq; split; [|left]].
  destruct ctx; simpl in HC; [|by simplify_eq; split; [|left]].
  destruct (clients h !! c) as [cl|]; [|by simplify_eq; split; [|left]].
  destruct (transactions h !! l) as [tx|] eqn:Hl; [|by simplify_eq; split; [|left]].
  case_match; [by simplify_eq; split; [|left]|].
  destruct (used tx) eqn:Hu; simpl in HC.
  { simplify_eq. split; [by apply heap_le_mark|auto]. }
  case_match; [simplify_eq; split; [by apply heap_le_mark|auto]|].
  destruct (exchange _ _ _ _ _ _) as [sent' r'] eqn:Hex. simplify_eq.
  split; [by apply heap_le_mark|].
  unfold exchange in Hex. repeat case_match; simplify_eq; auto. all: right; eexists; split; [done|].
  all: split; [intros (tx' & Htx' & Hu'); congruence|].
  all: exists (mark_used tx); split; [|done]; simpl; by rewrite lookup_insert_eq.
Qed.

Lemma step_le h es h' : step h es h' -> heap_le h h'.
Proof. destruct 1; [done|by eapply Begin_le|by eapply complete_sends]. Qed.

Definition sends (l : loc) (es : list loc) : nat := length (filter (fun l' => l' = l) es).

Lemma step_sends h es h' l : step h es h' ->
  sends l es = 0%nat \/ sends l es = 1%nat /\ ~ usedAt h l /\ usedAt h' l.
Proof.
  destruct 1 as [h h' _|h c now1 now2 r1 r2 r3 h' r _|h c ctx l' cb need now1 now2 now3 send h' sent r HC];
    [by left|by left|].
  apply complete_sends in HC as [_ [->|(req & -> & Hn & Hu)]]; [by left|].
  unfold sends. simpl map. rewrite filter_cons.
  case_decide; simpl; [subst; right|left]; auto.
Qed.

Lemma run_sends h es h' l : run h es h' ->
  (sends l es <= 1)%nat /\ (usedAt h l -> sends l es = 0%nat).
Proof.
  induction 1 as [h|h1 es1 h2 es2 h3 Hstep Hrun [IH1 IH2]]; [split; [unfold sends; simpl; lia|done]|].
  unfold sends in *. rewrite filter_app, length_app.
  pose proof (step_sends _ _ _ l Hstep) as Hs. unfold sends in Hs.
  pose proof (usedAt_le _ _ l (step_le _ _ _ Hstep)).
  destruct Hs as [->|(-> & Hn & Hu)]; [split; [lia|auto]|].
  rewrite IH2 by done. split; [lia|tauto].
Qed.
End runs.

End LoginRuns.

(** ** Facts about single calls *)

Module LoginCorrect.
Import Values ValuesCorrect Login Verify Discovery.

Section correct.
Context `{JOSE}.

Lemma callbackOk_true tx callback : callbackOk tx callback = true ->
  exists code, get_all callback "state" = [state tx] /\ get_all callback "code" = [code] /\
    get_all callback "error" = [] /\ code <> "" /\ len code <= maxCodeBytes.
Proof.
  unfold callbackOk, Get. intros Hok. split_guards.
  repeat match goal with Hl : blen _ = _ |- _ => unfold blen in Hl end.
  destruct (get_all callback "state") as [|s [|? ?]]; simpl in *; try lia.
  destruct (get_all callback "code") as [|x [|? ?]]; simpl in *; try lia.
  destruct (get_all callback "error"); simpl in *; try lia.
  subst. exists x. split_and!; try done. lia.
Qed.

Lemma tokenForm_parse cl tx callback :
  ParseQuery (Encode (tokenForm cl tx callback)) = tokenForm cl tx callback.
Proof.
  apply ParseQuery_Encode. intros k. unfold tokenForm.
  rewrite !lookup_insert_Some, lookup_singleton_Some. naive_solver.
Qed.

(** A successful call, unfolded. *)
Lemma complete_Ok h client ctx transaction callback need now1 now2 now3 send h' sent res :
  complete h client ctx transaction callback need now1 now2 now3 send
    = (h', sent, Ok res) ->
  exists c l cl tx cfg t response contents,
    client = Some c /\ transaction = Some l /\ ctx = true /\
    clients h !! c = Some cl /\ transactions h !! l = Some tx /\ configuration cl = Some cfg /\
    owner tx = Some c /\ used tx = false /\
    (transactionLifetime <? Sub now1 (createdAt tx)) = false /\
    After (createdAt tx) (Add now2 clockSkew) = false /\ callbackOk tx callback = true /\
    sent = [tokenRequest cl (TokenEndpoint cfg) tx callback] /\
    send (tokenRequest cl (TokenEndpoint cfg) tx callback) = Some response /\
    StatusCode response = 200 /\
    readLimited response maxTokenResponseBytes = Some contents /\
    unmarshalToken contents = Some t /\ (need = true -> accessTokenOk t = true) /\
    VerifyIDToken (VerifierOf cfg) now3 (IDToken t) (nonce tx) = Ok (LoginIdentity res) /\
    LoginAccessToken res = AccessToken t /\ LoginExpiresIn res = wrapS64 (ExpiresIn t * Second) /\
    h' = set_transaction h l (mark_used tx).
Proof.
  unfold complete. intros HC. destruct client as [c|]; [|done]. destruct transaction as [l|]; [|done].
  destruct ctx; [simpl in HC|done].
  destruct (clients h !! c) as [cl|] eqn:Hc; [|done].
  destruct (transactions h !! l) as [tx|] eqn:Hl; [|done].
  case_match; [done|]. case_match; [done|].
  unfold exchange in HC. destruct (callbackOk tx callback) eqn:Hcb; [simpl in HC|by simplify_eq].
  destruct (configuration cl) as [cfg|] eqn:Hcfg; [|by simplify_eq].
  destruct (urlParse (TokenEndpoint cfg)); [|by simplify_eq].
  destruct (send _) as [response|] eqn:Hsend; [|by simplify_eq].
  case_match; [by simplify_eq|].
  destruct (readLimited _ _) as [contents|] eqn:Hread; [|by simplify_eq].
  destruct (unmarshalToken contents) as [t|] eqn:Ht; [|by simplify_eq].
  case_match; [by simplify_eq|].
  destruct (VerifyIDToken _ _ _ _) as [identity|] eqn:Hv; [|by simplify_eq].
  simplify_eq. split_guards. exists c, l, cl, tx, cfg, t, response, contents.
  split_and!; try done. intros ->. by destruct (accessTokenOk t).
Qed.

(** What a successful [Begin] leaves behind. *)
Lemma Begin_Ok h client now1 now2 r1 r2 r3 h' url l :
  Begin h client now1 now2 r1 r2 r3 = (h', Ok (url, l)) ->
  exists c cl cfg address b1 b2 b3 tx,
    client = Some c /\ clients h !! c = Some cl /\ configuration cl = Some cfg /\
    (IsZero (validUntil cfg) = true \/ Before now1 (validUntil cfg) = true) /\
    urlParse (AuthorizationEndpoint cfg) = Some address /\
    r1 = Some b1 /\ r2 = Some b2 /\ r3 = Some b3 /\
    tx = {| owner := Some c; state := Base64.EncodeToString b1; nonce := Base64.EncodeToString b2;
            verifier := Base64.EncodeToString b3; createdAt := now2; used := false |} /\
    transactions h !! l = None /\ h' = set_transaction h l tx /\
    url = urlString (with_RawQuery address
      (Encode (beginQuery cl (state tx) (nonce tx) (verifier tx) (ParseQuery (RawQuery address))))).
Proof using Type.
  unfold Begin, Binding.randomURLString. intros HB.
  destruct client as [c|]; [|done]. destruct (clients h !! c) as [cl|] eqn:Hc; [|done].
  destruct (configuration cl) as [cfg|] eqn:Hcfg; [|done].
  case_match; [done|]. destruct r1 as [b1|], r2 as [b2|], r3 as [b3|]; try done.
  destruct (urlParse _) as [address|] eqn:Ha; [|done].
  unfold allocate in HB. simplify_eq. do 8 eexists. split_and!; try done.
  - destruct (IsZero _); [by left|right]. by destruct (Before _ _).
  - apply not_elem_of_dom. apply is_fresh.
Qed.

Lemma NewLoginClient_Ok cfg cid sec redirect cl :
  NewLoginClient cfg cid sec redirect = Ok cl ->
  exists cf v, cfg = Some cf /\ configuration cl = Some cf /\ VerifierOf cf = Some v /\
    clientID cl = cid /\ cid = verifierClientID v /\ cid <> "" /\ secret cl = sec /\ sec <> "" /\
    redirectURI cl = redirect /\ validIssuer (issuer v) = true /\
    sameOriginEndpoint (issuer v) (AuthorizationEndpoint cf) = true /\
    sameOriginEndpoint (issuer v) (TokenEndpoint cf) = true.
Proof using Type.
  unfold NewLoginClient. intros HN. destruct cfg as [cf|]; [|done].
  destruct (VerifierOf cf) as [v|] eqn:Hv; [|done]. case_match; [done|].
  destruct (urlParse redirect); [|done]. case_match; [done|]. simplify_eq. split_guards.
  exists cf, v. by split_and!.
Qed.

(** An endpoint that was vetted for an issuer. *)
Lemma sameOrigin_Ok iss endpoint : validIssuer iss = true -> sameOriginEndpoint iss endpoint = true ->
  exists base u, urlParse iss = Some base /\ urlParse endpoint = Some u /\ Scheme u = "https" /\ Host u = Host base /\
    Host u <> "" /\ UserOf u = None /\ UPath u <> "" /\ RawQuery u = "" /\ Fragment u = "".
Proof using Type.
  unfold sameOriginEndpoint, validIssuer. intros Hv Hs. destruct (urlParse iss) as [base|]; [|done].
  destruct (urlParse endpoint) as [u|]; [|done]. exists base, u. unfold User in *. split_guards.
  destruct (UserOf u); [done|]. split_and!; congruence.
Qed.

Lemma beginQuery_parse cl s n v :
  ParseQuery (Encode (beginQuery cl s n v (ParseQuery ""))) = beginQuery cl s n v ∅.
Proof using Type.
  change (ParseQuery "") with (∅ : gmap string (list string)).
  apply ParseQuery_Encode. intros k. unfold beginQuery, Set'.
  rewrite !lookup_insert_Some, lookup_empty. naive_solver.
Qed.

(** What a browser makes of the address [Begin] returns, at an issuer whose host is
    a name: the endpoint, with the query that was meant. *)
Lemma Begin_address cf cid sec redirect cl e s n v :
  NewLoginClient (Some cf) cid sec redirect = Ok cl -> urlParse (AuthorizationEndpoint cf) = Some e ->
  HasPrefix (Host e) "[" = false ->
  let query := beginQuery cl s n v ∅ in
  exists u, urlParse (urlString (with_RawQuery e (Encode (beginQuery cl s n v (ParseQuery (RawQuery e)))))) = Some u /\
    Scheme u = "https" /\ Host u = Host e /\ UPath u = UPath e /\ UserOf u = None /\ Fragment u = "" /\
    ParseQuery (RawQuery u) = query.
Proof using Type.
  intros (cf' & vf & [= <-] & _ & _ & _ & _ & _ & _ & _ & _ & Hiss & Hauth & _)%NewLoginClient_Ok He Hb query.
  destruct (sameOrigin_Ok _ _ Hiss Hauth) as (base & u & _ & Hu & Hs & _ & Hh & Huser & Hp & Hq & Hf).
  rewrite He in Hu. injection Hu as <-. rewrite Hq.
  destruct (UrlRoundTrip.Parse_String _ e (Encode (beginQuery cl s n v (ParseQuery "")))
    He Hs Hh Hb Huser Hp Hf) as [raw HP].
  - apply UrlRoundTrip.Encode_nonempty.
    + intros k. unfold beginQuery, Set'. rewrite !lookup_insert_Some.
      change (ParseQuery "") with (∅ : gmap string (list string)). rewrite lookup_empty. naive_solver.
    + intros Hempty. apply (f_equal (fun m => m !! "response_type")) in Hempty. by vm_compute in Hempty.
  - apply UrlRoundTrip.Encode_clean.
  - eexists. split; [exact HP|]. split_and!; try done. apply beginQuery_parse.
Qed.
End correct.

End LoginCorrect.

(** ** Properties *)

Module LoginProperties.
Import Values ValuesCorrect Login LoginRuns LoginCorrect Verify Discovery.

Section properties.
Context `{JOSE}.

(** One login, one code exchange: however logins begin and complete
    concurrently, at most one token request is ever sent for a transaction, and
    none for a transaction that was already used. *)
Theorem login_sends_at_most_once (h h' : heap) (es : list loc) (l : loc) :
  run h es h' ->
  (sends l es <= 1)%nat /\ (usedAt h l -> sends l es = 0%nat).
Proof. apply run_sends. Qed.

(** Even a failed callback consumes the transaction: once its client
    has called [complete], the transaction is used, and every later completion
    of it, by any client, fails without a token request. *)
Theorem complete_consumes (h h1 h2 h3 : heap) (c l : loc) (c2 : option loc) (cl : LoginClient)
    (tx : Transaction) (cb1 cb2 : Values) (need1 need2 ctx2 : bool) (n1 n2 n3 m1 m2 m3 : time)
    (send1 send2 : request -> option response) (sent1 sent2 : list request)
    (r1 r2 : result oidc_error LoginResult) :
  clients h !! c = Some cl -> transactions h !! l = Some tx -> owner tx = Some c ->
  complete h (Some c) true (Some l) cb1 need1 n1 n2 n3 send1 = (h1, sent1, r1) ->
  heap_le h1 h2 ->
  complete h2 c2 ctx2 (Some l) cb2 need2 m1 m2 m3 send2 = (h3, sent2, r2) ->
  usedAt h1 l /\ sent2 = [] /\ is_ok r2 = false.
Proof.
  intros Hc Hl Ho H1 Hle H2.
  assert (Hu : usedAt h1 l).
  { unfold complete in H1. rewrite Hc, Hl, Ho, bool_decide_true in H1 by done. cbn [negb] in H1.
    assert (h1 = set_transaction h l (mark_used tx)) as ->.
    { case_match; simplify_eq; [done|]. by destruct (exchange _ _ _ _ _ _); simplify_eq. }
    exists (mark_used tx). split; [|done]. simpl. by rewrite lookup_insert_eq. }
  split; [done|]. pose proof (usedAt_le _ _ _ Hle Hu) as Hu2.
  destruct (complete_sends _ _ _ _ _ _ _ _ _ _ _ _ _ H2) as [_ [->|(req & -> & Hn & _)]]; [|done].
  split; [done|]. destruct r2 as [res|e]; [exfalso|done].
  apply complete_Ok in H2. by destruct H2 as (?&?&?&?&?&?&?&?&?&?&?&?&?&?&?&?&?&?&?&?&?).
Qed.

(** C3.  A login succeeds only if the transaction belongs to the client, was
    unused and is at most five minutes old; the callback carried exactly one
    state, equal to the transaction's, exactly one non-empty code and no error;
    the one request sent carries, to the vetted token endpoint, exactly that
    code, the PKCE verifier and the redirect URI; the response was a 200 of at
    most 32 KiB; and the ID token verified for this transaction's nonce. *)
Theorem complete_accepts_only (h h' : heap) (client transaction : option loc) (ctx need : bool)
    (callback : Values) (now1 now2 now3 : time) (send : request -> option response)
    (sent : list request) (res : LoginResult) :
  complete h client ctx transaction callback need now1 now2 now3 send
    = (h', sent, Ok res) ->
  exists c l cl tx cfg code req t,
    client = Some c /\ transaction = Some l /\ clients h !! c = Some cl /\
    transactions h !! l = Some tx /\ configuration cl = Some cfg /\
    owner tx = Some c /\ used tx = false /\
    now1 - createdAt tx <= transactionLifetime /\ createdAt tx <= now2 + clockSkew /\
    get_all callback "state" = [state tx] /\ get_all callback "code" = [code] /\
    get_all callback "error" = [] /\ code <> "" /\
    sent = [req] /\ Method req = "POST" /\ RequestURL req = TokenEndpoint cfg /\
    BasicUser req = clientID cl /\ BasicPassword req = secret cl /\
    ParseQuery (RequestBody req) =
      {[ "grant_type" := ["authorization_code"]; "code" := [code];
         "redirect_uri" := [redirectURI cl]; "code_verifier" := [verifier tx] ]} /\
    (exists response, send req = Some response /\ StatusCode response = 200 /\
       blen (Body response) <= maxTokenResponseBytes /\ unmarshalToken (Body response) = Some t) /\
    VerifyIDToken (VerifierOf cfg) now3 (IDToken t) (nonce tx) = Ok (LoginIdentity res) /\
    (need = true -> LoginAccessToken res = AccessToken t /\
       LoginExpiresIn res = ExpiresIn t * Second /\ 0 < LoginExpiresIn res <= 24 * Hour).
Proof.
  intros (c & l & cl & tx & cfg & t & response & contents & -> & -> & -> & Hc & Hl & Hcfg & Ho & Hu &
    Hsub & Hskew & Hcb & -> & Hsend & Hst & Hread & Ht & Hneed & Hv & Hat & Hex & ->)%complete_Ok.
  pose proof Hcb as (code & Hs & Hcode & He & Hne & Hlen)%callbackOk_true.
  assert (Hget : Get callback "code" = code) by (unfold Get; by rewrite Hcode).
  exists c, l, cl, tx, cfg, code, (tokenRequest cl (TokenEndpoint cfg) tx callback), t.
  split_and!; try done.
  - rewrite Sub_gt_exact in Hsub by done. lia.
  - unfold_time. lia.
  - cbn [RequestBody tokenRequest]. rewrite tokenForm_parse. unfold tokenForm. by rewrite Hget.
  - apply readLimited_Some in Hread as [-> Hb]. eauto.
  - intros Hn. apply Hneed in Hn. unfold accessTokenOk in Hn. split_guards.
    rewrite Hex, wrapS64_small by (unfold in_int64; unfold_time; lia).
    split_and!; try done; unfold_time; lia.
Qed.

(** The authorization request: for a client made by [NewLoginClient], at an issuer
    whose host is a name, [Begin] succeeds only before the configuration's deadline
    and sends the browser to the issuer's own HTTPS origin with exactly eight
    parameters, each read back literally whatever characters it has; the PKCE
    challenge is the hash of the verifier kept in a fresh, unused transaction of
    that client. *)
Theorem Begin_request (cf : Configuration) (cid sec redirect : string) (cl : LoginClient) (e : URL)
    (h h' : heap) (c l : loc) (now1 now2 : time) (r1 r2 r3 : option (list byte)) (url : string) :
  NewLoginClient (Some cf) cid sec redirect = Ok cl -> clients h !! c = Some cl ->
  urlParse (AuthorizationEndpoint cf) = Some e -> HasPrefix (Host e) "[" = false ->
  Begin h (Some c) now1 now2 r1 r2 r3 = (h', Ok (url, l)) ->
  exists v u base tx,
    VerifierOf cf = Some v /\ urlParse url = Some u /\
    (validUntil cf = zeroTime \/ now1 < validUntil cf) /\
    urlParse (issuer v) = Some base /\ Scheme u = "https" /\ Host u = Host base /\ UPath u = UPath e /\
    ParseQuery (RawQuery u) =
      {[ "response_type" := ["code"]; "client_id" := [cid]; "redirect_uri" := [redirect];
         "scope" := ["openid"]; "state" := [state tx]; "nonce" := [nonce tx];
         "code_challenge" := [challengeOf (verifier tx)]; "code_challenge_method" := ["S256"] ]} /\
    transactions h !! l = None /\ transactions h' !! l = Some tx /\ heap_le h h' /\
    owner tx = Some c /\ used tx = false /\ createdAt tx = now2.
Proof using Type.
  intros HN Hc He Hb HB. pose proof (Begin_le _ _ _ _ _ _ _ _ _ HB) as Hle.
  apply Begin_Ok in HB as (c' & cl' & cf' & address & b1 & b2 & b3 & tx & [= <-] & Hc' & Hcfg' &
    Hfresh & Haddr & -> & -> & -> & Htx & Hl & -> & ->).
  pose proof HN as (cf0 & v & [= <-] & Hcfg & Hv & Hid & _ & _ & _ & _ & Hred & Hiss & Hauth & _)%NewLoginClient_Ok.
  rewrite Hc in Hc'. injection Hc' as <-. rewrite Hcfg in Hcfg'. injection Hcfg' as <-.
  rewrite He in Haddr. injection Haddr as <-.
  destruct (sameOrigin_Ok _ _ Hiss Hauth) as (base & e' & Hbase & He' & _ & Hhost & _).
  rewrite He in He'. injection He' as <-.
  destruct (Begin_address cf cid sec redirect cl e (state tx) (nonce tx) (verifier tx) HN He Hb)
    as (u & Hu & Hs & Hh & Hp & _ & _ & Hq).
  exists v, u, base, tx. split_and!; try done; try (by subst tx).
  - unfold_time. lia.
  - congruence.
  - rewrite Hq. unfold beginQuery, Set'. rewrite Hid, Hred. apply map_eq. intros k.
    repeat (rewrite lookup_insert_spec || rewrite lookup_singleton_spec).
    repeat (case_decide; try congruence). done.
  - simpl. by rewrite lookup_insert_eq.
Qed.

(** Completing a login that [Begin] started. *)
Lemma login_completes (h h' h2 : heap) (client : option loc) (l : loc) (url code : string)
    (now1 now2 n1 n2 n3 : time) (r1 r2 r3 : option (list byte)) (cl : LoginClient)
    (cfg : Configuration) (tx : Transaction) (send : request -> option response)
    (resp : response) (t : tokenResponse) (identity : Identity) :
  Begin h client now1 now2 r1 r2 r3 = (h', Ok (url, l)) ->
  heap_le h' h2 -> transactions h2 !! l = Some tx -> used tx = false ->
  (c ← client; clients h2 !! c) = Some cl -> configuration cl = Some cfg ->
  is_Some (urlParse (TokenEndpoint cfg)) ->
  n1 <= now2 + transactionLifetime -> now2 <= n2 + clockSkew ->
  code <> "" -> len code <= maxCodeBytes ->
  send (tokenRequest cl (TokenEndpoint cfg) tx {[ "state" := [State h2 (Some l)]; "code" := [code] ]}) = Some resp ->
  StatusCode resp = 200 -> BodyErr resp = false -> blen (Body resp) <= maxTokenResponseBytes ->
  unmarshalToken (Body resp) = Some t ->
  VerifyIDToken (VerifierOf cfg) n3 (IDToken t) (nonce tx) = Ok identity ->
  exists h3 sent,
    TransactionComplete h2 true (Some l)
      {[ "state" := [State h2 (Some l)]; "code" := [code] ]} n1 n2 n3 send = (h3, sent, Ok identity).
Proof.
  intros HB Hle Hl Hu Hcl Hcfg [u Hu'] Hn1 Hn2 Hne Hlen Hsend Hst Herr Hb Ht Hv.
  apply Begin_Ok in HB as (c & cl' & cf' & address & b1 & b2 & b3 & tx0 & -> & Hc' & Hcfg' &
    _ & _ & _ & _ & _ & Htx & _ & Hh' & _). simpl in Hcl.
  assert (Htx0 : transactions h' !! l = Some tx0) by (subst h'; simpl; by rewrite lookup_insert_eq).
  apply (heap_le_txns _ _ Hle) in Htx0 as (tx' & Hl' & [->| ->]); [|by simplify_eq].
  rewrite Hl in Hl'. injection Hl' as ->.
  pose proof (readLimited_fits resp maxTokenResponseBytes Herr Hb) as Hread.
  set (cb := {[ "state" := [State h2 (Some l)]; "code" := [code] ]} : gmap string (list string)).
  assert (Hcb : callbackOk tx0 cb = true).
  { unfold callbackOk, cb, State. rewrite Hl. unfold Get.
    change (get_all _ "state") with [state tx0]. change (get_all _ "code") with [code].
    change (get_all _ "error") with (@nil string).
    rewrite (bool_decide_false (code = "")), (bool_decide_true (state tx0 = state tx0)) by done.
    by rewrite (proj2 (Z.ltb_ge _ _)). }
  fold cb in Hsend.
  exists (set_transaction h2 l (mark_used tx0)), [tokenRequest cl (TokenEndpoint cfg) tx0 cb].
  assert (Ho : owner tx0 = Some c) by by subst tx0.
  assert (Hcr : createdAt tx0 = now2) by by subst tx0.
  unfold TransactionComplete, ownerOf. simpl. rewrite Hl. simpl. rewrite Ho.
  unfold Complete, complete. cbn [negb]. rewrite Hcl, Hl, Ho, bool_decide_true by done. cbn [negb].
  rewrite Hu, Sub_gt_exact by done. cbn [orb]. unfold After, Add.
  rewrite (proj2 (Z.ltb_ge transactionLifetime _)), (proj2 (Z.ltb_ge _ (createdAt tx0))) by lia.
  cbn [orb]. unfold exchange. rewrite Hcb, Hcfg, Hu', Hsend, Hst, bool_decide_true, Hread, Ht, Hv by done.
  done.
Qed.

(** C16.  An honest login completes, for a provider that sees only what is sent to
    it: the address [Begin] returns parses to the issuer's authorization endpoint,
    and when the provider sends the browser back with the state of that address and
    a code, answers the exchange of that code when the verifier hashes to the
    challenge of the address and the client and the redirect URI are those of the
    address, and puts the nonce of the address in an ID token that verifies, then
    [Transaction.Complete] within five minutes yields the verified identity.  The
    endpoint's host is a name or an IPv4 address, not a bracketed literal. *)
Theorem honest_login_completes (cf : Configuration) (cid sec redirect : string) (cl : LoginClient) (e : URL)
    (h h' : heap) (c l : loc) (now1 now2 : time) (r1 r2 r3 : option (list byte)) (url : string) :
  NewLoginClient (Some cf) cid sec redirect = Ok cl -> clients h !! c = Some cl ->
  urlParse (AuthorizationEndpoint cf) = Some e -> HasPrefix (Host e) "[" = false ->
  Begin h (Some c) now1 now2 r1 r2 r3 = (h', Ok (url, l)) ->
  exists u, urlParse url = Some u /\ Scheme u = "https" /\ Host u = Host e /\ UPath u = UPath e /\
    let query := ParseQuery (RawQuery u) in
    forall h2 tx code n1 n2 n3 send resp t identity,
      heap_le h' h2 -> transactions h2 !! l = Some tx -> used tx = false ->
      n1 <= now2 + transactionLifetime -> now2 <= n2 + clockSkew ->
      code <> "" -> len code <= maxCodeBytes ->
      (forall req form, RequestURL req = TokenEndpoint cf -> ParseQuery (RequestBody req) = form ->
         challengeOf (Get form "code_verifier") = Get query "code_challenge" ->
         get_all form "redirect_uri" = get_all query "redirect_uri" -> get_all form "code" = [code] ->
         BasicUser req = Get query "client_id" -> BasicPassword req = sec -> send req = Some resp) ->
      StatusCode resp = 200 -> BodyErr resp = false -> blen (Body resp) <= maxTokenResponseBytes ->
      unmarshalToken (Body resp) = Some t ->
      VerifyIDToken (VerifierOf cf) n3 (IDToken t) (Get query "nonce") = Ok identity ->
      exists h3 sent,
        TransactionComplete h2 true (Some l) {[ "state" := [Get query "state"]; "code" := [code] ]} n1 n2 n3 send =
          (h3, sent, Ok identity).
Proof using Type.
  intros HN Hc He Hb HB. pose proof HB as HB'.
  apply Begin_Ok in HB' as (c' & cl' & cf' & address & b1 & b2 & b3 & tx0 & [= <-] & Hc' & Hcfg' &
    _ & Haddr & _ & _ & _ & Htx & _ & Hh' & Hurl).
  pose proof HN as (cf0 & v & [= <-] & Hcfg & _ & Hid & _ & _ & Hsec & _ & Hred & Hiss & _ & Htok)%NewLoginClient_Ok.
  rewrite Hc in Hc'. injection Hc' as <-. rewrite Hcfg in Hcfg'. injection Hcfg' as <-.
  rewrite He in Haddr. injection Haddr as <-.
  destruct (Begin_address cf cid sec redirect cl e (state tx0) (nonce tx0) (verifier tx0) HN He Hb)
    as (u & Hu & Hs & Hh & Hp & _ & _ & Hq).
  exists u. split_and!; try done; [by rewrite Hurl|]. intros query. subst query. rewrite Hq.
  intros h2 tx code n1 n2 n3 send resp t identity Hle Hl Hused Hn1 Hn2 Hne Hlen Hsend Hst Herr Hbody Ht Hv.
  assert (Htx0 : transactions h' !! l = Some tx0) by (subst h'; simpl; by rewrite lookup_insert_eq).
  apply (heap_le_txns _ _ Hle) in Htx0 as (tx' & Hl' & Hsame). rewrite Hl in Hl'. injection Hl' as <-.
  destruct Hsame as [->| ->]; [|done].
  assert (Hclient : clients h2 !! c = Some cl).
  { apply (heap_le_clients _ _ Hle). by rewrite Hh'. }
  destruct (sameOrigin_Ok _ _ Hiss Htok) as (_ & te & _ & Hte & _).
  replace (Get (beginQuery cl (state tx0) (nonce tx0) (verifier tx0) ∅) "state") with (State h2 (Some l))
    by (unfold State; by rewrite Hl).
  eapply login_completes; eauto. eapply Hsend; [done|apply tokenForm_parse|reflexivity..|exact Hsec].
Qed.
End properties.

(** *** A login to evaluate: tokens are their own nonce. *)

#[local] Instance loginJOSE : JOSE := {
  token := idClaims;
  parseKeySet _ := None;
  parseSigned raw :=
    Some ([{| hAlgorithm := "RS256"; hKeyID := "k1"; hJSONWebKey := false; ExtraHeaders := ∅ |}],
      {| cIssuer := "https://id.example"; cSubject := "user-1"; Audience := ["app"];
         Expiry := Some 1300; NotBefore := None; IssuedAt := Some 1000;
         Nonce := raw; AuthorizedParty := "" |});
  claimsOf c _ := Some c
}.

Definition loginConfiguration : Configuration :=
  {| AuthorizationEndpoint := "https://id.example/auth"; TokenEndpoint := "https://id.example/token";
     IntrospectionEndpoint := ""; VerifierOf := Some VerifyProperties.sampleVerifier;
     validUntil := 5000 * Second |}.
Definition loginClient : LoginClient :=
  {| configuration := Some loginConfiguration; clientID := "app"; secret := "s";
     redirectURI := "https://app.example/cb" |}.
Definition loginHeap : heap := {| clients := {[ 1%positive := loginClient ]}; transactions := ∅ |}.
Definition bytesOf (z : Z) : option (list byte) := Some (replicate 32 (byte_of z)).
Definition loginNow : time := 1100 * Second.
Definition begun : heap * result oidc_error (string * loc) :=
  Begin loginHeap (Some 1%positive) loginNow loginNow (bytesOf 1) (bytesOf 2) (bytesOf 3).
Definition loginTx : Transaction :=
  {| owner := Some 1%positive; state := Base64.EncodeToString (replicate 32 (byte_of 1));
     nonce := Base64.EncodeToString (replicate 32 (byte_of 2));
     verifier := Base64.EncodeToString (replicate 32 (byte_of 3));
     createdAt := loginNow; used := false |}.
Definition loginCallback : gmap string (list string) :=
  {[ "state" := [state loginTx]; "code" := ["c-1"] ]}.
Definition loginToken : tokenResponse :=
  {| IDToken := nonce loginTx; AccessToken := "at"; TokenType := "bearer"; ExpiresIn := 60 |}.
Definition loginDocument : json :=
  JObject [("access_token", JString "at"); ("TOKEN_TYPE", JString "bearer"); ("expires_in", JNumber "60");
           ("id_token", JString (nonce loginTx)); ("scope", JString "openid")].
Definition loginResponse : response :=
  {| StatusCode := 200; Body := bytes_of (of_chars (Json.encode loginDocument)); BodyErr := false |}.
Definition loginIdentity : Identity := {| Issuer := "https://id.example"; Subject := "user-1" |}.
Definition loginRequest : request :=
  tokenRequest loginClient "https://id.example/token" loginTx loginCallback.
Definition usedHeap : heap := set_transaction loginHeap 1%positive (mark_used loginTx).

Lemma begun_eq :
  exists url, begun = (set_transaction loginHeap 1%positive loginTx, Ok (url, 1%positive)).
Proof. eexists. vm_compute. reflexivity. Qed.

Lemma login_sends_at_most_once_witness :
  (sends 1%positive ([1%positive] ++ []) <= 1)%nat.
Proof.
  apply (login_sends_at_most_once (fst begun) usedHeap
    ([1%positive] ++ []) 1%positive).
  eapply run_step; [|apply run_nil].
  apply (step_complete (fst begun) (Some 1%positive) true 1%positive loginCallback true
    loginNow loginNow loginNow (fun _ => Some loginResponse) _ [loginRequest] (Ok
      {| LoginIdentity := loginIdentity; LoginAccessToken := "at"; LoginExpiresIn := 60 * Second |})).
  vm_compute. reflexivity.
Defined.

Lemma complete_consumes_witness : usedAt usedHeap 1%positive.
Proof.
  apply (complete_consumes (fst begun) usedHeap usedHeap usedHeap 1 1 (Some 1%positive)
    loginClient loginTx ∅ loginCallback true true true loginNow loginNow loginNow loginNow loginNow loginNow
    (fun _ => None) (fun _ => Some loginResponse) [] [] (Err ErrLoginFailed) (Err ErrLoginFailed));
    try reflexivity; vm_compute; reflexivity.
Defined.

Lemma complete_accepts_only_witness : exists cl, clients (fst begun) !! 1%positive = Some cl.
Proof.
  destruct (complete_accepts_only (fst begun) usedHeap (Some 1%positive) (Some 1%positive)
    true true loginCallback loginNow loginNow loginNow (fun _ => Some loginResponse) [loginRequest]
    {| LoginIdentity := loginIdentity; LoginAccessToken := "at"; LoginExpiresIn := 60 * Second |})
    as (c & l & cl & tx & cfg & code & req & t & Hc & _ & Hcl & _); [vm_compute; reflexivity|].
  exists cl. injection Hc as <-. exact Hcl.
Defined.

Definition authURL : URL :=
  {| Scheme := "https"; Opaque := ""; UserOf := None; Host := "id.example"; UPath := "/auth"; RawPath := "";
     OmitHost := false; ForceQuery := false; RawQuery := ""; Fragment := ""; RawFragment := "" |}.
Definition begunURL : string := match snd begun with Ok (url, _) => url | Err _ => "" end.

Lemma Begin_request_witness : exists u, urlParse begunURL = Some u /\ Host u = "id.example".
Proof.
  destruct (Begin_request loginConfiguration "app" "s" "https://app.example/cb" loginClient authURL
    loginHeap (fst begun) 1 1 loginNow loginNow (bytesOf 1) (bytesOf 2) (bytesOf 3) begunURL)
    as (v & u & base & tx & Hv & Hu & _ & Hb & _ & Hh & _);
    [vm_compute; reflexivity|reflexivity|vm_compute; reflexivity|vm_compute; reflexivity|vm_compute; reflexivity|].
  exists u. split; [exact Hu|]. injection Hv as <-. rewrite Hh. vm_compute in Hb. injection Hb as <-. reflexivity.
Defined.

(** The provider of the evaluation checks nothing. *)
Lemma honest_login_completes_witness :
  exists u, urlParse begunURL = Some u /\ exists h3 sent, TransactionComplete (fst begun) true (Some 1%positive)
    {[ "state" := [Get (ParseQuery (RawQuery u)) "state"]; "code" := ["c-1"] ]}
    loginNow loginNow loginNow (fun _ => Some loginResponse) = (h3, sent, Ok loginIdentity).
Proof.
  destruct (honest_login_completes loginConfiguration "app" "s" "https://app.example/cb" loginClient authURL
    loginHeap (fst begun) 1 1 loginNow loginNow (bytesOf 1) (bytesOf 2) (bytesOf 3) begunURL)
    as (u & Hu & _ & _ & _ & HC);
    [vm_compute; reflexivity|reflexivity|vm_compute; reflexivity|vm_compute; reflexivity|vm_compute; reflexivity|].
  exists u. split; [exact Hu|]. cbv zeta in HC.
  apply (HC (fst begun) loginTx "c-1" loginNow loginNow loginNow (fun _ => Some loginResponse) loginResponse loginToken
    loginIdentity).
  - reflexivity.
  - vm_compute. reflexivity.
  - reflexivity.
  - vm_compute. discriminate.
  - vm_compute. discriminate.
  - discriminate.
  - vm_compute. discriminate.
  - intros. reflexivity.
  - reflexivity.
  - reflexivity.
  - vm_compute. discriminate.
  - vm_compute. reflexivity.
  - vm_compute in Hu. injection Hu as <-. vm_compute. reflexivity.
Defined.

End LoginProperties.
