(* ===== verification/OidcFlow.v ===== *)
(** * The pending-login store as a ticket office, and the login through it

    [TicketOffice] is what the store of [auth/oidc/store.go] promises: tickets
    are issued while there is room, redeemed at most once, and may expire.  The
    store refines it.  [Flow] runs the store and the login client of
    [auth/oidc/login.go] over one heap. *)

From S2P Require Import Prelude GoTime GoStrings GoUrl GoUrlParse OidcTypes OidcStore OidcVerify OidcLogin Simulation.

(** ** The abstract store *)

Module TicketOffice.
Import StoreRuns.

Inductive step (n : Z) : gset loc -> option event -> gset loc -> Prop :=
  | issue S l : l ∉ S -> Z.of_nat (size S) < n -> step n S (Some (PutOk l)) (S ∪ {[ l ]})
  | redeem S l : l ∈ S -> step n S (Some (TakeOk l)) (S ∖ {[ l ]})
  | expire S S' : S' ⊆ S -> step n S None S'.

Definition office (n : Z) : Lts event :=
  {| lts_state := gset loc; lts_init S := S = ∅; lts_step := step n |}.

End TicketOffice.

(** ** The store of the code *)

Module StoreSystem.
Import Binding Store StoreRuns TicketOffice.

Definition visible (e : event) : option event := match e with Silent => None | _ => Some e end.

Definition system (n : Z) : Lts event :=
  {| lts_state := heap * TransactionStore;
     lts_init c := NewTransactionStore n = Ok (snd c);
     lts_step c l c' := exists e, StoreRuns.step c e c' /\ l = visible e |}.

(** The transactions with a pending entry. *)
Definition tickets (es : gmap string pendingEntry) : gset loc :=
  map_to_set (fun _ e => transaction e) es.

Lemma elem_of_tickets l es : l ∈ tickets es <-> exists st e, es !! st = Some e /\ transaction e = l.
Proof. unfold tickets. rewrite elem_of_map_to_set. naive_solver. Qed.

Lemma tickets_subset es es' : es ⊆ es' -> tickets es ⊆ tickets es'.
Proof.
  intros Hsub l (st & e & Hst & He)%elem_of_tickets. apply elem_of_tickets.
  exists st, e. split; [by eapply lookup_weaken|done].
Qed.

Lemma tickets_size es : (size (tickets es) <= size es)%nat.
Proof.
  unfold tickets, map_to_set. etransitivity; [apply size_list_to_set_le|].
  by rewrite length_fmap, length_map_to_list.
Qed.

Lemma tickets_insert st e es : es !! st = None -> tickets (<[st := e]> es) = tickets es ∪ {[ transaction e ]}.
Proof.
  intros Hst. apply set_eq. intros l. rewrite elem_of_union, elem_of_singleton, !elem_of_tickets. split.
  - intros (st' & e' & [[-> ->]|[Hne He]]%lookup_insert_Some & <-); [by right|left; eauto].
  - intros [(st' & e' & He & <-)| ->].
    + exists st', e'. split; [|done]. rewrite lookup_insert_ne; [done|]. intros <-. congruence.
    + exists st, e. by rewrite lookup_insert_eq.
Qed.

(** One transaction never sits under two states. *)
Lemma wf_one_entry h s st st' e e' : wf h s -> entries s !! st = Some e -> entries s !! st' = Some e' ->
  transaction e = transaction e' -> st = st'.
Proof.
  intros Hwf He He' Ht. destruct (wf_entry _ _ Hwf _ _ He) as (tx & Htx & <- & _).
  destruct (wf_entry _ _ Hwf _ _ He') as (tx' & Htx' & <- & _). rewrite Ht in Htx. congruence.
Qed.

Lemma tickets_delete h s st e : wf h s -> entries s !! st = Some e ->
  tickets (delete st (entries s)) = tickets (entries s) ∖ {[ transaction e ]}.
Proof.
  intros Hwf He. apply set_eq. intros l. rewrite elem_of_difference, elem_of_singleton, !elem_of_tickets. split.
  - intros (st' & e' & [Hne He']%lookup_delete_Some & <-). split; [eauto|].
    intros Ht. apply Hne. by eapply wf_one_entry.
  - intros [(st' & e' & He' & <-) Hne]. exists st', e'. split; [|done]. apply lookup_delete_Some.
    split; [|done]. intros <-. congruence.
Qed.

Definition related (n : Z) (c : heap * TransactionStore) (S : gset loc) : Prop :=
  wf (fst c) (snd c) /\ capacity (snd c) = n /\ S = tickets (entries (snd c)).

(** Expiry followed by one event. *)
Lemma expire_then n S1 S2 e S3 : S2 ⊆ S1 -> TicketOffice.step n S2 (Some e) S3 -> runs (office n) S1 [e] S3.
Proof.
  intros Hsub Hs. apply (runs_app (M := office n) S1 S2 S3 [] [e]).
  - apply (runs_one (M := office n) S1 None S2). by constructor.
  - by apply (runs_one (M := office n) S2 (Some e) S3).
Qed.

Lemma expire_only n S1 S2 : S2 ⊆ S1 -> runs (office n) S1 [] S2.
Proof. intros Hsub. apply (runs_one (M := office n) S1 None S2). by constructor. Qed.

(** A successful [Put] issues a ticket that was not outstanding. *)
Lemma put_simulated n h0 h hs s nowPrune now o binding s' r : heap_le h0 h -> wf h s -> capacity s = n ->
  Put h0 hs nowPrune now (Some s) o binding = (Some s', r) ->
  runs (office n) (tickets (entries s)) (seen (visible (put_event o r))) (tickets (entries s')) /\ capacity s' = n.
Proof.
  intros Hle Hwf Hn HP. pose proof (tickets_subset _ _ (made_room_subset hs nowPrune s)) as Hroom.
  apply Put_cases in HP as [[-> Hs']|(l & decoded & tx & -> & -> & _ & Htx & _ & _ & _ & _ & _ & Hnew & Hcnt & ->)].
  - replace (put_event o (Err ErrLoginFailed)) with Silent by (by destruct o). split.
    + apply expire_only. by destruct Hs' as [->| ->].
    + destruct Hs' as [->| ->]; [done|by rewrite made_room_capacity].
  - split; [|simpl; by rewrite made_room_capacity]. simpl entries. rewrite tickets_insert by done. cbn [put_event visible seen option_list transaction].
    eapply expire_then; [exact Hroom|]. apply issue.
    + intros (st & e & He & Ht)%elem_of_tickets.
      destruct (wf_entry _ _ (made_room_wf _ hs nowPrune _ Hwf) _ _ He) as (tx' & Htx' & Hst & _).
      rewrite Ht in Htx'. destruct (heap_le_txns _ _ Hle _ _ Htx) as (tx2 & Htx2 & Hle2).
      assert (tx' = tx2) as -> by congruence. rewrite (txn_le_state _ _ Hle2) in Hst. congruence.
    + pose proof (tickets_size (entries (made_room hs nowPrune s))). unfold count in Hcnt. lia.
Qed.

(** A successful [Take] redeems an outstanding ticket. *)
Lemma take_simulated n h1 h2 s now st binding s' r : heap_le h1 h2 -> wf h1 s -> capacity s = n ->
  Take h1 h2 now (Some s) st binding = (Some s', r) ->
  runs (office n) (tickets (entries s)) (seen (visible (take_event r))) (tickets (entries s')) /\ capacity s' = n.
Proof.
  intros Hle Hwf Hn [[-> Hs']|(e & decoded & tx & -> & _ & He & _ & _ & _ & _ & _ & ->)]%Take_cases.
  - split; [|by destruct Hs' as [->| ->]]. apply expire_only. destruct Hs' as [->| ->]; [done|].
    apply tickets_subset, delete_subseteq.
  - split; [|done]. simpl entries. rewrite (tickets_delete h1 s st e Hwf He).
    apply (runs_one (M := office n) _ (Some (TakeOk (transaction e)))). apply redeem.
    apply elem_of_tickets. eauto.
Qed.

#[export] Instance store_simulation n : ForwardSimulation (system n) (office n) (related n).
Proof.
  split.
  - intros [h s] Hi. exists ∅. split; [done|]. split; [by apply (NewTransactionStore_wf h n)|].
    cbn in Hi. unfold NewTransactionStore in Hi. case_match; [done|]. injection Hi as <-. done.
  - intros c l c' S (e & Hs & ->) (Hwf & Hn & ->).
    pose proof (step_wf _ _ _ Hs Hwf) as Hwf'.
    enough (Hr : runs (office n) (tickets (entries (snd c))) (seen (visible e)) (tickets (entries (snd c'))) /\
      capacity (snd c') = n) by (destruct Hr; eexists; split; [done|]; split; [done|by split]).
    destruct Hs as [h h' s Hle|h0 ha hs hb s nowPrune now o binding s' r Hle _ _ HP|h1 h2 s now st binding s' r Hle HT];
      cbn [fst snd] in *; [|by eapply put_simulated|by eapply take_simulated].
    split; [constructor|done].
Qed.

End StoreSystem.

(** ** The store and the login client over one heap *)

Module Flow.
Import Store StoreRuns.

(** What is visible of a login: stored, handed out, its code exchanged. *)
Inductive flowEvent := Stored (l : loc) | HandedOut (l : loc) | Exchanged (l : loc).

Definition ofStore (e : event) : list flowEvent :=
  match e with PutOk l => [Stored l] | TakeOk l => [HandedOut l] | Silent => [] end.

Section flow.
Context `{JOSE}.

(** Any goroutine uses the store, begins or completes a login. *)
Inductive step : heap * TransactionStore -> list flowEvent -> heap * TransactionStore -> Prop :=
  | flow_store c e c' : StoreRuns.step c e c' -> step c (ofStore e) c'
  | flow_login h sent h' s : LoginRuns.step h sent h' ->
      step (h, s) (map Exchanged sent) (h', s).

Inductive run : heap * TransactionStore -> list flowEvent -> heap * TransactionStore -> Prop :=
  | run_nil c : run c [] c
  | run_step c1 es1 c2 es2 c3 : step c1 es1 c2 -> run c2 es2 c3 -> run c1 (es1 ++ es2) c3.

Lemma store_step_le c e c' : StoreRuns.step c e c' -> heap_le (fst c) (fst c').
Proof. by destruct 1. Qed.

Lemma flow_step_le c es c' : step c es c' -> heap_le (fst c) (fst c').
Proof using Type. destruct 1; [by eapply store_step_le|by eapply LoginRuns.step_le]. Qed.

Lemma sends_zero l sent : LoginRuns.sends l sent = 0%nat -> l ∉ sent.
Proof.
  unfold LoginRuns.sends. intros Hz Hl. assert (Hf : l ∈ filter (fun l' => l' = l) sent)
    by by apply list_elem_of_filter.
  destruct (filter _ sent); [by apply elem_of_nil in Hf|done].
Qed.

(** Every step shows at most one event. *)
Lemma flow_step_short c es c' : step c es c' -> es = [] \/ exists e, es = [e].
Proof using Type.
  intros [c0 e c0' _|h sent h' s Hs]; [destruct e; simpl; eauto|].
  destruct Hs as [| |h c1 ctx l callback need now1 now2 now3 send h' sent r HC]; [by left..|].
  apply LoginRuns.complete_sends in HC as [_ [->|(req & -> & _)]]; simpl; eauto.
Qed.

(** A step whose transaction is already used neither hands it out nor exchanges
    its code. *)
Lemma used_step_silent c es c' l : step c es c' -> LoginRuns.usedAt (fst c) l ->
  HandedOut l ∉ es /\ Exchanged l ∉ es.
Proof using Type.
  intros Hs Hu. destruct Hs as [c e c' Hs|h sent h' s Hs].
  - destruct Hs as [h h' s Hle|h0 ha hs hb s nowPrune now o binding s' r Hle _ _ HP|h1 h2 s now st binding s' r Hle HT].
    + split; apply not_elem_of_nil.
    + unfold put_event. destruct o, r; simpl; set_solver.
    + apply Take_cases in HT as [[-> _]|(e & decoded & tx & -> & _ & _ & _ & _ & _ & Htx & Hnu & _)];
        [split; apply not_elem_of_nil|]. simpl. split; [|set_solver].
      intros [= ->]%list_elem_of_singleton. cbn [fst] in Hu.
      destruct (LoginRuns.usedAt_le _ _ _ Hle Hu) as (tx' & Htx' & Hu'). congruence.
  - split; [by intros (x & [=] & _)%list_elem_of_fmap|].
    intros (x & [= <-] & Hx)%list_elem_of_fmap.
    destruct (LoginRuns.step_sends h sent h' l Hs) as [Hz|(_ & Hn & _)]; [|done].
    by destruct (sends_zero _ _ Hz).
Qed.

(** After an exchange the transaction is used. *)
Lemma exchange_marks c es c' l : step c es c' -> Exchanged l ∈ es -> LoginRuns.usedAt (fst c') l.
Proof using Type.
  intros [c0 e c0' _|h sent h' s Hs]; [destruct e; simpl; set_solver|].
  intros (x & [= <-] & Hx)%list_elem_of_fmap.
  destruct (LoginRuns.step_sends h sent h' l Hs) as [Hz|(_ & _ & Hu)]; [|done]. exfalso.
  by destruct (sends_zero _ _ Hz).
Qed.

Lemma used_run_silent c es c' l : run c es c' -> LoginRuns.usedAt (fst c) l ->
  HandedOut l ∉ es /\ Exchanged l ∉ es.
Proof using Type.
  induction 1 as [c|c1 es1 c2 es2 c3 Hs _ IH]; intros Hu; [split; apply not_elem_of_nil|].
  destruct (used_step_silent _ _ _ _ Hs Hu). destruct IH.
  - eapply LoginRuns.usedAt_le; [by eapply flow_step_le|done].
  - split; rewrite not_elem_of_app; done.
Qed.
(** Where a run shows an event, it is in a state that step reached. *)
Lemma run_split c es c' : run c es c' -> forall pre e post, es = pre ++ e :: post ->
  exists c1 c2, step c1 [e] c2 /\ run c2 post c'.
Proof using Type.
  induction 1 as [c|c1 es1 c2 es2 c3 Hs Hr IH]; intros pre e post He; [by destruct pre|].
  destruct (flow_step_short _ _ _ Hs) as [->|[x ->]]; [by eapply IH|].
  destruct pre as [|y pre]; cbn [app] in He; injection He as -> He; [|by eapply IH].
  exists c1, c2. split; [done|]. by rewrite <- He.
Qed.
End flow.
End Flow.

(** ** Properties *)

Module FlowProperties.
Import StoreRuns StoreSystem TicketOffice Flow.

(** C2.  The store implements a ticket office of its capacity: every trace of
    successful [Put]s and [Take]s, under any interleaving of calls, expiries and
    logins completing elsewhere, is one of an office that issues a ticket only
    while there is room and it is not outstanding, redeems only outstanding
    tickets, once each, and otherwise only lets tickets expire. *)
Theorem store_refines_ticket_office (n : Z) : refines (system n) (office n).
Proof. apply simulation_refines. Qed.

(** C11.  A login is spent by its code exchange: in any interleaving of storing,
    taking, beginning and completing logins over one store, once the code of a
    transaction was exchanged with the provider the transaction is never handed
    out again and no second exchange is ever sent for it, although the store and
    the client share only the transaction's flag. *)
Theorem exchanged_login_is_spent `{JOSE}
    (c c' : heap * Store.TransactionStore) (pre post : list flowEvent) (l : loc) :
  Flow.run c (pre ++ Exchanged l :: post) c' ->
  HandedOut l ∉ post /\ Exchanged l ∉ post.
Proof.
  intros Hr. destruct (run_split _ _ _ Hr pre (Exchanged l) post eq_refl) as (c1 & c2 & Hs & Hr').
  eapply used_run_silent; [exact Hr'|]. eapply exchange_marks; [exact Hs|by left].
Qed.

Section evaluation.
Import LoginProperties.
#[local] Existing Instance loginJOSE.

Lemma sample_exchange : LoginRuns.step (fst begun) [1%positive] usedHeap.
Proof.
  apply (LoginRuns.step_complete (fst begun) (Some 1%positive) true 1%positive loginCallback true
    loginNow loginNow loginNow (fun _ => Some loginResponse) _ [loginRequest] (Ok
      {| LoginIdentity := loginIdentity; LoginAccessToken := "at"; LoginExpiresIn := 60 * Second |})).
  vm_compute. reflexivity.
Qed.

Lemma exchanged_login_is_spent_witness :
  HandedOut 1%positive ∉ @nil flowEvent /\ Exchanged 1%positive ∉ @nil flowEvent.
Proof.
  apply (exchanged_login_is_spent (fst begun, StoreProperties.emptyStore)
    (usedHeap, StoreProperties.emptyStore) [] [] 1%positive).
  apply (Flow.run_step _ [Exchanged 1%positive] (usedHeap, StoreProperties.emptyStore) []);
    [|constructor].
  exact (flow_login (fst begun) [1%positive] usedHeap StoreProperties.emptyStore sample_exchange).
Defined.
End evaluation.

End FlowProperties.
