(* ===== verification/OidcIntrospection.v ===== *)
(** * Token introspection ([auth/oidc/introspection.go])

    One opaque token is checked against the vetted endpoint; anything short of a
    consistent answer is [ErrIntrospectionFailed].  The endpoint is a function
    from the request sent to its response. *)

From S2P Require Import Prelude GoTime GoStrings GoJson GoJsonDecode GoUrl GoUrlParse OidcTypes OidcVerify OidcDiscovery OidcLogin.



Record TokenIntrospector := { endpoint : string; introspectorID : string; introspectorSecret : string }.


Module Introspection.
Import Values Login Discovery JsonDecode.





Section introspect.

Definition NewTokenIntrospector (configuration : option Configuration) (clientID clientSecret : string)
    : result oidc_error TokenIntrospector :=
  match configuration with
  | Some cfg =>
      match VerifierOf cfg with
      | Some v =>
          if (clientID == "") || (clientID != verifierClientID v) || (clientSecret == "") ||
             negb (sameOriginEndpoint (issuer v) (IntrospectionEndpoint cfg)) then
            Err (ErrOther "invalid OIDC introspection configuration")
          else Ok {| endpoint := IntrospectionEndpoint cfg; introspectorID := clientID;
                     introspectorSecret := clientSecret |}
      | None => Err (ErrOther "invalid OIDC introspection configuration")
      end
  | None => Err (ErrOther "invalid OIDC introspection configuration")
  end.



End introspect.

End Introspection.

(** ** Properties *)

Module IntrospectionProperties.
Import Values ValuesCorrect Login Discovery Introspection JsonDecode.






Section properties.

End properties.

(** *** An evaluation *)




End IntrospectionProperties.
