(* ===== verification/Security.v ===== *)
(** * Sensitive names and log redaction ([security/sensitive.go],
      [core/logging/logging.go])

    Which attribute names are secret, and the replacement of their values before
    anything is logged, in groups of attributes too. *)

From S2P Require Import Prelude GoStrings.

#[local] Set Warnings "-register-all".

Module Sensitive.

Definition sensitiveKeys : list string :=
  ["password"; "passwd"; "secret"; "token"; "authorization"; "cookie"; "api_key"; "database_url";
   "dsn"; "private_key"].

Definition IsSensitiveKey `{UnicodeCase} (key : string) : bool :=
  let normalized := ToLower (replaceChar "." "_" (replaceChar "-" "_" key)) in
  existsb (fun sensitive => (normalized == sensitive) || HasSuffix normalized ("_" +:+ sensitive))
    sensitiveKeys.

(** [slog.Attr] with a value kept as text. *)
Record Attr := { AttrKey : string; AttrValue : string }.

Definition redacted : string := "[REDACTED]".

Definition redactAttr `{UnicodeCase} (attr : Attr) : Attr :=
  if IsSensitiveKey (AttrKey attr) then {| AttrKey := AttrKey attr; AttrValue := redacted |} else attr.

(** What a log call is given: attributes, or groups of them under a name. *)
Inductive logAttr := Leaf (a : Attr) | Group (name : string) (attrs : list logAttr).

Record logRecord := { Level : Z; Attrs : list logAttr }.

(** [slog.JSONHandler] with [ReplaceAttr]: each attribute that is not a group is
    replaced, and written below the names of its groups; a group without a name is
    inlined, one without attributes left out.  The names of groups are not replaced,
    and the value of an attribute is one text: fields inside a structured value are
    neither seen by the handler nor here. *)
Fixpoint written `{UnicodeCase} (path : list string) (a : logAttr) : list (list string * Attr) :=
  match a with
  | Leaf a => [(path, redactAttr a)]
  | Group name attrs => flat_map (written (if name == "" then path else path ++ [name])) attrs
  end.

(** [NewJSON]: a logger from its level on. *)
Definition NewJSON `{UnicodeCase} (level : Z) (r : logRecord) : option (list (list string * Attr)) :=
  if level <=? Level r then Some (flat_map (written []) (Attrs r)) else None.

End Sensitive.

Module SensitiveSpec.
Import Sensitive.

(** Two bytes that a reader of field names takes for the same: equal up to
    ASCII case, or separators. *)
Definition separator (c : ascii) : Prop := c = "-"%char \/ c = "."%char \/ c = "_"%char.
Definition similar (c d : ascii) : Prop :=
  (separator c /\ separator d) \/ lowerASCII c = lowerASCII d.

Definition spells (l : list ascii) (word : string) : Prop := Forall2 similar l (chars word).

(** A word, or a compound name whose last part it is. *)
Definition names_secret (key : string) : Prop :=
  exists word, word ∈ sensitiveKeys /\
    (spells (chars key) word \/
     exists pre sep rest, chars key = pre ++ sep :: rest /\ separator sep /\ spells rest word).

(** What [IsSensitiveKey] does to one ASCII byte. *)
Definition norm (c : ascii) : ascii :=
  let c := if c == "-"%char then "_"%char else c in
  lowerASCII (if c == "."%char then "_"%char else c).

(** On the bytes of the words, equal normal forms are similarity. *)
Definition word_char (d : ascii) : bool := isLower d || (d == "_"%char).
End SensitiveSpec.

Module SensitiveCorrect.
Import Sensitive SensitiveSpec.

#[export] Instance separator_dec c : Decision (separator c).
Proof. unfold separator. apply _. Defined.

Lemma norm_separator c : norm c = "_"%char <-> separator c.
Proof. destruct c as [[] [] [] [] [] [] [] []]; vm_compute; naive_solver. Qed.

Lemma norm_other c : ~ separator c -> norm c = lowerASCII c.
Proof.
  intros Hs. unfold norm, separator in *.
  rewrite (bool_decide_false (c = "-"%char)), (bool_decide_false (c = "."%char)) by tauto. done.
Qed.

Lemma lower_underscore c : lowerASCII c = "_"%char -> c = "_"%char.
Proof. destruct c as [[] [] [] [] [] [] [] []]; vm_compute; congruence. Qed.

Lemma lower_word_char d : word_char d = true -> lowerASCII d = d /\ (separator d <-> d = "_"%char).
Proof. destruct d as [[] [] [] [] [] [] [] []]; vm_compute; naive_solver. Qed.

Lemma norm_similar c d : word_char d = true -> norm c = d <-> similar c d.
Proof.
  intros [Hlow Hsep]%lower_word_char. unfold similar. rewrite Hlow.
  destruct (decide (separator c)) as [Hc|Hc].
  - pose proof (proj2 (norm_separator c) Hc) as Hn. rewrite Hn. split.
    + intros <-. left. split; [done|]. by apply Hsep.
    + intros [[_ Hd]|Hl]; [by symmetry; apply Hsep|].
      destruct Hc as [->|[->| ->]]; vm_compute in Hl; subst d; [| |done].
      * destruct Hsep as [Hs _]. symmetry. apply Hs. by left.
      * destruct Hsep as [Hs _]. symmetry. apply Hs. by right; left.
  - rewrite norm_other by done. split; [by right|]. intros [[? _]|]; done.
Qed.

Lemma norm_spells word l : forallb word_char (chars word) = true ->
  map norm l = chars word <-> spells l word.
Proof.
  unfold spells. revert l. induction (chars word) as [|d w IH]; intros l Hw; simpl in Hw.
  - split; [by destruct l|]. by inversion 1.
  - apply andb_true_iff in Hw as [Hd Hw]. split.
    + destruct l as [|c l]; simpl; [done|]. intros [= Hc Hl]. constructor.
      * by apply norm_similar.
      * by apply IH.
    + inversion 1; subst. simpl. f_equal; [by apply norm_similar|by apply IH].
Qed.

Lemma words_are_plain word : word ∈ sensitiveKeys -> forallb word_char (chars word) = true.
Proof.
  intros Hw. assert (Hall : forallb (fun w => forallb word_char (chars w)) sensitiveKeys = true) by done.
  rewrite forallb_forall in Hall. by apply Hall, list_elem_of_In.
Qed.

Lemma normalized_ascii `{UnicodeCase} key : isASCII key = true ->
  ToLower (replaceChar "." "_" (replaceChar "-" "_" key)) = of_chars (map norm (chars key)).
Proof.
  intros Ha. unfold ToLower, mapRunes, replaceChar, isASCII in *. rewrite !chars_of_chars, map_map.
  assert (forallb (fun c => code c <? 0x80) (map (fun x => if (if x == "-"%char then "_"%char else x)
    == "."%char then "_"%char else if x == "-"%char then "_"%char else x) (chars key)) = true) as ->.
  { revert Ha. induction (chars key) as [|c l IH]; simpl; [done|].
    intros [Hc Hl]%andb_true_iff. rewrite IH by done. rewrite andb_true_r. by repeat case_match. }
  by rewrite map_map.
Qed.

Lemma IsSensitiveKey_spec `{UnicodeCase} key : isASCII key = true ->
  IsSensitiveKey key = true <-> names_secret key.
Proof.
  intros Ha. unfold IsSensitiveKey. rewrite normalized_ascii by done.
  rewrite existsb_exists. unfold names_secret.
  split; intros (w & Hw & Hx); exists w; (split; [by apply list_elem_of_In|]);
    pose proof (words_are_plain w ltac:(first [done|by apply list_elem_of_In])) as Hp.
  - apply orb_true_iff in Hx as [Hx|Hx].
    + left. apply norm_spells; [done|]. split_guards. by rewrite <- Hx, chars_of_chars.
    + right. apply HasSuffix_true in Hx as [pre Hx]. rewrite chars_of_chars in Hx.
      change (chars ("_" +:+ w)) with ("_"%char :: chars w) in Hx.
      apply map_eq_app in Hx as (l1 & l2 & Hk & _ & Hl2). destruct l2 as [|sep l2]; [done|].
      injection Hl2 as Hsep Hl2. exists l1, sep, l2. split_and!; [done|by apply norm_separator|].
      by apply norm_spells.
  - apply orb_true_iff. destruct Hx as [Hx|(pre & sep & rest & Hk & Hsep & Hx)].
    + left. apply bool_decide_eq_true. apply chars_inj. rewrite chars_of_chars. by apply norm_spells.
    + right. apply HasSuffix_true. exists (map norm pre). rewrite chars_of_chars, Hk, map_app. simpl.
      apply norm_separator in Hsep. rewrite Hsep. apply norm_spells in Hx; [|done]. by rewrite Hx.
Qed.

End SensitiveCorrect.

(** ** Properties *)

Module SensitiveProperties.
Import Sensitive SensitiveSpec SensitiveCorrect.

Lemma redactAttr_spec `{UnicodeCase} (a : Attr) :
  isASCII (AttrKey a) = true ->
  (names_secret (AttrKey a) -> AttrValue (redactAttr a) = redacted) /\
  (~ names_secret (AttrKey a) -> redactAttr a = a) /\
  AttrKey (redactAttr a) = AttrKey a.
Proof.
  intros Ha. pose proof (IsSensitiveKey_spec _ Ha) as Hs. unfold redactAttr.
  destruct (IsSensitiveKey (AttrKey a)) eqn:E; split_and!; try done; intros Hn.
  - by destruct Hn; apply Hs.
  - by apply Hs in Hn.
Qed.

(** An attribute of a log call, at any depth, with the groups it is in. *)
Inductive attribute : list string -> logAttr -> Attr -> Prop :=
  | attribute_leaf a : attribute [] (Leaf a) a
  | attribute_group path name attrs b a :
      b ∈ attrs -> attribute path b a ->
      attribute (if name == "" then path else name :: path) (Group name attrs) a.

(** Induction over nested groups. *)
Lemma logAttr_nested_ind (P : logAttr -> Prop) :
  (forall a, P (Leaf a)) -> (forall name attrs, Forall P attrs -> P (Group name attrs)) -> forall b, P b.
Proof.
  intros Hl Hg. refine (fix go b := match b with Leaf a => Hl a | Group name attrs => Hg name attrs _ end).
  induction attrs as [|x attrs IH]; constructor; [apply go|exact IH].
Qed.

Lemma elem_of_flat_map {A B} (f : A -> list B) l y : y ∈ flat_map f l <-> exists x, x ∈ l /\ y ∈ f x.
Proof. rewrite list_elem_of_In, in_flat_map. by setoid_rewrite <- list_elem_of_In. Qed.

(** What is written is exactly the attributes, each replaced. *)
Lemma written_spec `{UnicodeCase} b : forall path x,
  x ∈ written path b <-> exists inner a, attribute inner b a /\ x = (path ++ inner, redactAttr a).
Proof.
  induction b as [a|name attrs IH] using logAttr_nested_ind; intros path x; cbn [written].
  - rewrite list_elem_of_singleton. split.
    + intros ->. exists [], a. rewrite app_nil_r. split; [constructor|done].
    + intros (inner & a' & Ha & ->). inversion Ha; subst. by rewrite app_nil_r.
  - rewrite elem_of_flat_map. rewrite Forall_forall in IH. split.
    + intros (b & Hb & (inner & a & Ha & ->)%IH); [|done]. eexists _, a. split; [by econstructor|].
      case_match; [done|]. by rewrite <- app_assoc.
    + intros (inner & a & Ha & ->). inversion Ha as [|inner' name' attrs' b a' Hb Hin]; subst.
      exists b. split; [done|]. apply IH; [done|]. exists inner', a. split; [done|].
      case_match; [done|]. by rewrite <- app_assoc.
Qed.

(** C38.  No log line carries a value under a secret's name: a logger of
    [NewJSON] writes, for every record at its level or above, exactly the
    attributes it was given, at their place in the groups; and an attribute with
    an ASCII name, at any depth, is written with its value replaced exactly when
    the name is, up to case and the choice of separators, one of the sensitive
    words or a compound name ending in one, and otherwise unchanged.  The names of
    groups and the inside of a structured value are not attributes here. *)
Theorem NewJSON_hides_secrets `{UnicodeCase} (level : Z) (r : logRecord) (path : list string) (x : Attr) :
  isASCII (AttrKey x) = true ->
  (exists line, NewJSON level r = Some line /\ (path, x) ∈ line) <->
  level <= Level r /\ exists b a, b ∈ Attrs r /\ attribute path b a /\ AttrKey a = AttrKey x /\
    (names_secret (AttrKey x) -> AttrValue x = redacted) /\ (~ names_secret (AttrKey x) -> x = a).
Proof.
  intros Ha. unfold NewJSON. destruct (Z.leb_spec level (Level r)) as [Hl|Hl]; [|naive_solver lia].
  assert (Hkey : forall a, AttrKey (redactAttr a) = AttrKey a) by (intros a; unfold redactAttr; by case_match).
  split.
  - intros (line & [= <-] & (b & Hb & (inner & a & Hin & [= -> ->])%written_spec)%elem_of_flat_map).
    rewrite Hkey in Ha. destruct (redactAttr_spec a Ha) as (H1 & H2 & _). split; [done|]. exists b, a.
    rewrite Hkey. split_and!; try done.
  - intros (_ & b & a & Hb & Hin & Hk & H1 & H2). eexists. split; [done|]. apply elem_of_flat_map. exists b.
    split; [done|]. apply written_spec. exists path, a. split; [done|]. f_equal.
    rewrite <- Hk in Ha. unfold redactAttr. pose proof (IsSensitiveKey_spec _ Ha) as Hs. rewrite Hk in *.
    destruct (IsSensitiveKey (AttrKey x)); [|by apply H2; intros ?%Hs].
    destruct x as [k v]. cbn in *. by rewrite H1 by by apply Hs.
Qed.

#[local] Instance asciiCase : UnicodeCase := {| lowerRune := id; upperRune := id |}.

Lemma names_secret_sample : names_secret "X-Api.Key".
Proof.
  exists "api_key". split; [by apply (bool_decide_eq_true_1 _)|]. right.
  exists (chars "X"), "-"%char, (chars "Api.Key"). split; [reflexivity|].
  split; [by left|]. unfold spells. simpl.
  repeat (apply Forall2_cons; split; [first [by right|left; split; unfold separator; tauto]|]).
  by apply Forall2_nil.
Qed.

Definition sampleRecord : logRecord :=
  {| Level := 0; Attrs := [Leaf {| AttrKey := "ok"; AttrValue := "1" |};
       Group "http" [Group "" [Leaf {| AttrKey := "X-Api.Key"; AttrValue := "k" |}]]] |}.

Lemma NewJSON_hides_secrets_witness :
  exists line, NewJSON 0 sampleRecord = Some line /\
    (["http"], {| AttrKey := "X-Api.Key"; AttrValue := redacted |}) ∈ line.
Proof.
  apply (NewJSON_hides_secrets 0 sampleRecord ["http"] {| AttrKey := "X-Api.Key"; AttrValue := redacted |}).
  - reflexivity.
  - split; [reflexivity|].
    exists (Group "http" [Group "" [Leaf {| AttrKey := "X-Api.Key"; AttrValue := "k" |}]]),
      {| AttrKey := "X-Api.Key"; AttrValue := "k" |}.
    split; [right; left|]. split.
    + apply (attribute_group [] "http" _ (Group "" [Leaf {| AttrKey := "X-Api.Key"; AttrValue := "k" |}])); [left|].
      apply (attribute_group [] "" _ (Leaf {| AttrKey := "X-Api.Key"; AttrValue := "k" |})); [left|]. constructor.
    + split; [reflexivity|]. split; [reflexivity|]. intros Hn. destruct Hn. exact names_secret_sample.
Defined.

End SensitiveProperties.
