(* ===== verification/AuditLog.v ===== *)
(** * Audit events ([audit/event.go], [audit/postgres/store.go])

    Validation of the event envelope and of its metadata, and the append-only
    PostgreSQL store.  The metadata are arbitrary Go values: how they marshal is
    an argument; what their encoding decodes to is not. *)

From S2P Require Import Prelude GoTime GoStrings GoJson GoJsonScan GoJsonDecode Security.

#[local] Set Warnings "-register-all".

Inductive audit_error :=
  | Required (name : string) | NotUTF8 (name : string) | TooLong (name : string)
  | TimestampRequired | InvalidResult | InvalidJSON | MetadataTooLarge | TooDeep | SensitiveField.

Module Audit.
Import Sensitive.

Definition MaxIDBytes : Z := 128.
Definition MaxActorBytes : Z := 256.
Definition MaxActionBytes : Z := 100.
Definition MaxResourceBytes : Z := 512.
Definition MaxCorrelationIDBytes : Z := 128.
Definition MaxMetadataBytes : Z := 16 * 1024.
Definition maxDepth : Z := 16.

(** The values of [Result]. *)
Definition ResultSuccess : string := "success".
Definition ResultFailure : string := "failure".
Definition ResultDenied : string := "denied".

Record Event (M : Type) := {
  ID : string; Timestamp : time; Actor : string; Action : string; Resource : string;
  Result : string; CorrelationID : string; Metadata : M
}.
Arguments ID {M}. Arguments Timestamp {M}. Arguments Actor {M}. Arguments Action {M}.
Arguments Resource {M}. Arguments Result {M}. Arguments CorrelationID {M}. Arguments Metadata {M}.

Definition validateText (name value : string) (maximum : Z) (required : bool) : result audit_error unit :=
  if required && (value == "") then Err (Required name)
  else if negb (ValidString value) then Err (NotUTF8 name)
  else if maximum <? len value then Err (TooLong name)
  else Ok tt.

Section validate.
Context `{UnicodeCase}.

(** The members of an object are visited in the order of the document; Go leaves
    the order open, on which only the choice between two errors depends. *)
Fixpoint inspectMetadata (value : json) (depth : Z) : result audit_error unit :=
  if maxDepth <? depth then Err TooDeep
  else
    match value with
    | JObject fields =>
        (fix loop (fields : list (string * json)) : result audit_error unit :=
           match fields with
           | [] => Ok tt
           | (key, child) :: rest =>
               if IsSensitiveKey key then Err SensitiveField
               else
                 match inspectMetadata child (depth + 1) with
                 | Err e => Err e
                 | Ok _ => loop rest
                 end
           end) fields
    | JArray items =>
        (fix loop (items : list json) : result audit_error unit :=
           match items with
           | [] => Ok tt
           | child :: rest =>
               match inspectMetadata child (depth + 1) with
               | Err e => Err e
               | Ok _ => loop rest
               end
           end) items
    | _ => Ok tt
    end.

(** [json.Unmarshal(encoded, &value)] for an [any]. *)
Definition unmarshalAny (encoded : list byte) : option json :=
  match JsonDecode.Unmarshal TAny encoded with Some (VAny v) => Some v | _ => None end.

Context {M : Type} (marshal : M -> option (list byte)).

Definition validateMetadata (metadata : M) : result audit_error unit :=
  match marshal metadata with
  | None => Err InvalidJSON
  | Some encoded =>
      if MaxMetadataBytes <? blen encoded then Err MetadataTooLarge
      else
        match unmarshalAny encoded with
        | None => Err InvalidJSON
        | Some value => inspectMetadata value 0
        end
  end.

Definition Validate (e : Event M) : result audit_error unit :=
  _ ← validateText "event ID" (ID e) MaxIDBytes true;
  if IsZero (Timestamp e) then Err TimestampRequired
  else
    _ ← validateText "actor" (Actor e) MaxActorBytes true;
    _ ← validateText "action" (Action e) MaxActionBytes true;
    _ ← validateText "resource" (Resource e) MaxResourceBytes true;
    _ ← validateText "correlation ID" (CorrelationID e) MaxCorrelationIDBytes false;
    if bool_decide (Result e ∈ [ResultSuccess; ResultFailure; ResultDenied]) then validateMetadata (Metadata e)
    else Err InvalidResult.

(** ** The PostgreSQL store *)

(** [New]: a store around a pool that is not nil. *)
Definition New {Pool} (pool : option Pool) : result string Pool :=
  match pool with None => Err "PostgreSQL pool is required" | Some pool => Ok pool end.

(** A row of [swf_audit_events]. *)
Record row := {
  r_id : string; r_occurred_at : time; r_actor : string; r_action : string; r_resource : string;
  r_result : string; r_correlation_id : string; r_metadata : list byte
}.

Inductive append_error := ValidateEvent (e : audit_error) | EncodeMetadata | InsertFailed.

(** [Append]: the event is validated, its metadata encoded, and one row
    inserted; [exec] is the database's answer to the insertion. *)
Definition Append (table : list row) (exec : list row -> row -> bool) (e : Event M)
    : list row * result append_error unit :=
  match Validate e with
  | Err err => (table, Err (ValidateEvent err))
  | Ok _ =>
      match marshal (Metadata e) with
      | None => (table, Err EncodeMetadata)
      | Some metadata =>
          let r := {| r_id := ID e; r_occurred_at := Timestamp e; r_actor := Actor e;
                      r_action := Action e; r_resource := Resource e; r_result := Result e;
                      r_correlation_id := CorrelationID e; r_metadata := metadata |} in
          if exec table r then (table ++ [r], Ok tt) else (table, Err InsertFailed)
      end
  end.
End validate.

End Audit.

(** ** What accepted metadata look like *)

Module AuditSpec.
Import Sensitive Audit.

(** [occurs d v sub]: [sub] is a value inside [v], at nesting depth [d]. *)
Inductive occurs : Z -> json -> json -> Prop :=
  | occurs_here v : occurs 0 v v
  | occurs_array d items child sub :
      child ∈ items -> occurs d child sub -> occurs (d + 1) (JArray items) sub
  | occurs_object d fields key child sub :
      (key, child) ∈ fields -> occurs d child sub -> occurs (d + 1) (JObject fields) sub.

Record clean `{UnicodeCase} (depth : Z) (v : json) : Prop := {
  clean_depth d sub : occurs d v sub -> d + depth <= maxDepth;
  clean_names d fields key : occurs d v (JObject fields) -> key ∈ map fst fields ->
    IsSensitiveKey key = false
}.

(** A text field within its bound. *)
Definition text_ok (value : string) (maximum : Z) (required : bool) : Prop :=
  (required = true -> value <> "") /\ ValidString value = true /\ len value <= maximum.

Record acceptable `{UnicodeCase} {M} (marshal : M -> option (list byte)) (e : Event M) : Prop := {
  ac_id : text_ok (ID e) MaxIDBytes true;
  ac_time : Timestamp e <> zeroTime;
  ac_actor : text_ok (Actor e) MaxActorBytes true;
  ac_action : text_ok (Action e) MaxActionBytes true;
  ac_resource : text_ok (Resource e) MaxResourceBytes true;
  ac_correlation : text_ok (CorrelationID e) MaxCorrelationIDBytes false;
  ac_result : Result e ∈ ["success"; "failure"; "denied"];
  ac_metadata : exists encoded v, marshal (Metadata e) = Some encoded /\
    blen encoded <= MaxMetadataBytes /\ unmarshalAny encoded = Some v /\ clean 0 v
}.

End AuditSpec.

Module AuditCorrect.
Import Sensitive Audit AuditSpec.

Section inspect.
Context `{UnicodeCase}.

Lemma inspect_array items k :
  inspectMetadata (JArray items) k = Ok tt <->
  k <= maxDepth /\ Forall (fun c => inspectMetadata c (k + 1) = Ok tt) items.
Proof.
  cbn [inspectMetadata]. destruct (Z.ltb_spec maxDepth k); [split; [done|lia]|].
  transitivity (Forall (fun c => inspectMetadata c (k + 1) = Ok tt) items); [|intuition].
  induction items as [|x items IH]; [by split|]. rewrite Forall_cons.
  destruct (inspectMetadata x (k + 1)) as [[]|e]; [rewrite IH; tauto|naive_solver].
Qed.

Lemma inspect_object fields k :
  inspectMetadata (JObject fields) k = Ok tt <->
  k <= maxDepth /\
  Forall (fun kv => IsSensitiveKey (fst kv) = false /\ inspectMetadata (snd kv) (k + 1) = Ok tt) fields.
Proof.
  cbn [inspectMetadata]. destruct (Z.ltb_spec maxDepth k); [split; [done|lia]|].
  transitivity (Forall (fun kv => IsSensitiveKey (fst kv) = false /\
    inspectMetadata (snd kv) (k + 1) = Ok tt) fields); [|intuition].
  induction fields as [|[key x] fields IH]; [by split|]. rewrite Forall_cons. cbn [fst snd].
  destruct (IsSensitiveKey key); [naive_solver|].
  destruct (inspectMetadata x (k + 1)) as [[]|e]; [rewrite IH; tauto|naive_solver].
Qed.

Lemma clean_array items k :
  clean k (JArray items) <-> k <= maxDepth /\ Forall (clean (k + 1)) items.
Proof.
  rewrite Forall_forall. split.
  - intros [Hd Hn]. split; [by pose proof (Hd 0 _ (occurs_here _))|].
    intros x Hx. split; [|eauto using occurs_array].
    intros d sub Ho. pose proof (Hd (d + 1) sub ltac:(eauto using occurs_array)). lia.
  - intros [Hk Hc]. split.
    + intros d sub Ho. inversion Ho; subst; [lia|].
      match goal with Hx : _ ∈ items, Hs : occurs _ _ sub |- _ => apply Hc in Hx; apply Hx in Hs end. lia.
    + intros d fields key Ho. inversion Ho; subst. intros Hkey.
      match goal with Hx : _ ∈ items |- _ => apply Hc in Hx; by eapply (clean_names _ _ Hx) end.
Qed.

Lemma clean_object fields k :
  clean k (JObject fields) <->
  k <= maxDepth /\ Forall (fun kv => IsSensitiveKey (fst kv) = false /\ clean (k + 1) (snd kv)) fields.
Proof.
  rewrite Forall_forall. split.
  - intros [Hd Hn]. split; [by pose proof (Hd 0 _ (occurs_here _))|].
    intros [key x] Hx. split; [|split].
    + eapply Hn; [apply occurs_here|]. apply list_elem_of_In, in_map_iff. exists (key, x).
      split; [done|]. by apply list_elem_of_In.
    + intros d sub Ho. pose proof (Hd (d + 1) sub ltac:(eauto using occurs_object)). lia.
    + intros d fs key' Ho. eapply Hn. by eapply occurs_object.
  - intros [Hk Hc]. split.
    + intros d sub Ho. inversion Ho; subst; [lia|].
      match goal with Hx : _ ∈ fields, Hs : occurs _ _ sub |- _ =>
        apply Hc in Hx as [_ Hx]; apply Hx in Hs end. lia.
    + intros d fs key Ho Hkey. inversion Ho; subst.
      * apply list_elem_of_In, in_map_iff in Hkey as ([key' x] & <- & Hin).
        apply list_elem_of_In in Hin. by apply Hc in Hin as [? _].
      * match goal with Hx : _ ∈ fields |- _ => apply Hc in Hx as [_ Hx]; by eapply (clean_names _ _ Hx) end.
Qed.

Lemma clean_scalar v k : (forall items, v <> JArray items) -> (forall fields, v <> JObject fields) ->
  clean k v <-> k <= maxDepth.
Proof.
  intros Ha Ho. split.
  - intros [Hd _]. by pose proof (Hd 0 _ (occurs_here _)).
  - intros Hk. split; intros d; [intros sub Hs|intros fields key Hs]; inversion Hs; subst; try lia.
    all: exfalso; first [by eapply Ha|by eapply Ho].
Qed.

Lemma inspectMetadata_clean v : forall k, inspectMetadata v k = Ok tt <-> clean k v.
Proof.
  induction v as [|b|t|s|items IH|fields IH] using json_nested_ind; intros k;
    try (rewrite clean_scalar by done; cbn [inspectMetadata];
         destruct (Z.ltb_spec maxDepth k); split; (done || lia)).
  - rewrite inspect_array, clean_array. rewrite !Forall_forall. rewrite Forall_forall in IH.
    split; (intros [Hk Hi]; split; [done|]; intros x Hx; apply IH; auto).
  - rewrite inspect_object, clean_object. rewrite !Forall_forall. rewrite Forall_forall in IH.
    split; (intros [Hk Hi]; split; [done|]; intros x Hx;
      split; [by apply Hi|apply (IH x Hx); by apply Hi]).
Qed.

Lemma validateText_Ok name value maximum required :
  validateText name value maximum required = Ok tt <-> text_ok value maximum required.
Proof.
  unfold validateText, text_ok. destruct required; simpl.
  - case_match; split_guards; [naive_solver|]. destruct (ValidString value); simpl; [|naive_solver].
    destruct (Z.ltb_spec maximum (len value)); split; try naive_solver lia; intuition lia.
  - destruct (ValidString value); simpl; [|naive_solver].
    destruct (Z.ltb_spec maximum (len value)); split; try naive_solver lia; intuition lia.
Qed.

End inspect.

End AuditCorrect.

(** ** Properties *)

Module AuditProperties.
Import Sensitive Audit AuditSpec AuditCorrect.

Section properties.
Context `{UnicodeCase} {M : Type}.
Context (marshal : M -> option (list byte)).

Lemma validateMetadata_Ok m :
  validateMetadata marshal m = Ok tt <->
  exists encoded v, marshal m = Some encoded /\ blen encoded <= MaxMetadataBytes /\
    unmarshalAny encoded = Some v /\ clean 0 v.
Proof.
  unfold validateMetadata. destruct (marshal m) as [encoded|]; [|naive_solver].
  destruct (Z.ltb_spec MaxMetadataBytes (blen encoded)).
  { split; [done|]. intros (e & v & [= <-] & ? & _). lia. }
  destruct (unmarshalAny encoded) as [v|] eqn:Hu; [|naive_solver].
  rewrite inspectMetadata_clean. naive_solver.
Qed.

Lemma Validate_Ok e : Validate marshal e = Ok tt <-> acceptable marshal e.
Proof.
  unfold Validate. split.
  - intros ([] & Hid%validateText_Ok & HV)%bind_Ok_inv. case_match eqn:Ht; [done|].
    apply bind_Ok_inv in HV as ([] & Ha%validateText_Ok & HV).
    apply bind_Ok_inv in HV as ([] & Hc%validateText_Ok & HV).
    apply bind_Ok_inv in HV as ([] & Hr%validateText_Ok & HV).
    apply bind_Ok_inv in HV as ([] & Hcor%validateText_Ok & HV). case_match; [|done]. split_guards.
    split; try done; [unfold IsZero in Ht; lia|by apply validateMetadata_Ok].
  - intros [Hid Ht Ha Hc Hr Hcor Hres Hm].
    rewrite (proj2 (validateText_Ok _ _ _ _) Hid). simpl.
    destruct (IsZero (Timestamp e)) eqn:Hz; [unfold IsZero in Hz; lia|].
    rewrite (proj2 (validateText_Ok _ _ _ _) Ha), (proj2 (validateText_Ok _ _ _ _) Hc). simpl.
    rewrite (proj2 (validateText_Ok _ _ _ _) Hr), (proj2 (validateText_Ok _ _ _ _) Hcor). simpl.
    rewrite bool_decide_true by done. by apply validateMetadata_Ok.
Qed.

(** C20.  An event is accepted exactly when its text fields are present where
    required, valid UTF-8 and within their bounds, it has a timestamp and one of
    the three results, and its metadata encode to at most 16 KiB of JSON, nested
    at most 16 levels, in which no object at any depth has a field with a
    sensitive name; the order in which fields are visited does not matter. *)
Theorem Validate_accepts (e : Event M) :
  Validate marshal e = Ok tt <-> acceptable marshal e.
Proof. apply Validate_Ok. Qed.

(** Events appended one after the other; the database decides each insertion. *)
Fixpoint appendAll (table : list row) (exec : list row -> row -> bool) (es : list (Event M)) : list row :=
  match es with
  | [] => table
  | e :: es => appendAll (fst (Append marshal table exec e)) exec es
  end.

(** The row an event is stored as. *)
Definition rowOf (e : Event M) (r : row) : Prop :=
  r_id r = ID e /\ r_occurred_at r = Timestamp e /\ r_actor r = Actor e /\ r_action r = Action e /\
  r_resource r = Resource e /\ r_result r = Result e /\ r_correlation_id r = CorrelationID e /\
  marshal (Metadata e) = Some (r_metadata r).

Lemma Append_cases table exec e table' res :
  Append marshal table exec e = (table', res) ->
  (exists err, res = Err err /\ table' = table) \/
  (exists r, res = Ok tt /\ table' = table ++ [r] /\ rowOf e r /\ acceptable marshal e).
Proof.
  unfold Append. destruct (Validate marshal e) as [[]|err] eqn:HV; [|naive_solver].
  destruct (marshal (Metadata e)) as [m|] eqn:Hm; [|naive_solver].
  case_match; [|naive_solver]. intros [= <- <-]. right. eexists.
  split_and!; [done|done| |by apply Validate_Ok]. by unfold rowOf; simpl.
Qed.

(** The audit table is append-only and holds only valid events: however
    many events are submitted and whichever insertions the database refuses,
    existing rows keep their place, and every new row is the full record of a
    submitted event that validates. *)
Theorem appendAll_append_only (table : list row) (exec : list row -> row -> bool) (es : list (Event M)) :
  exists new, appendAll table exec es = table ++ new /\
    Forall (fun r => exists e, e ∈ es /\ rowOf e r /\ acceptable marshal e) new.
Proof.
  revert table. induction es as [|e es IH]; intros table; simpl.
  { exists []. by rewrite app_nil_r. }
  destruct (Append marshal table exec e) as [table' res] eqn:HA. simpl.
  destruct (IH table') as (new & -> & Hnew).
  assert (Hmore : Forall (fun r => exists e', e' ∈ e :: es /\ rowOf e' r /\
    acceptable marshal e') new).
  { eapply Forall_impl; [exact Hnew|]. intros r (e' & He & Hr & Ha). exists e'.
    split; [by right|done]. }
  apply Append_cases in HA as [(err & -> & ->)|(r & -> & -> & Hr & Ha)]; [by exists new|].
  exists (r :: new). split; [by rewrite <- app_assoc|]. constructor; [|done].
  exists e. split; [by left|done].
Qed.
End properties.

(** *** Metadata made of JSON values

    A [map[string]any] of nils, booleans, numbers, strings, slices and such maps
    is the tree [encoding/json] prints, keys in their order. *)

Inductive anyValue : json -> Prop :=
  | any_null : anyValue JNull
  | any_bool b : anyValue (JBool b)
  | any_number t : JsonDecode.fitsFloat64 t = true -> anyValue (JNumber t)
  | any_string t : anyValue (JString t)
  | any_array items : Forall anyValue items -> anyValue (JArray items)
  | any_object fields : NoDup (map fst fields) -> Forall (fun kv => anyValue (snd kv)) fields -> anyValue (JObject fields).

Definition marshalTree (v : json) : option (list byte) := Some (bytes_of (of_chars (Json.encode v))).

Lemma lastWins_id fields : NoDup (map fst fields) -> JsonDecode.lastWins fields = fields.
Proof.
  induction fields as [|kv fields IH]; cbn [map JsonDecode.lastWins]; [done|]. intros [Hk Hn]%NoDup_cons.
  rewrite bool_decide_false by done. by rewrite IH.
Qed.

(** Decoding gives such a value back. *)
Lemma toAny_id v : anyValue v -> JsonDecode.toAny v = (v, None).
Proof.
  induction v as [|b|t|t|items IH|fields IH] using json_nested_ind; inversion 1; subst; cbn [JsonDecode.toAny]; try done.
  - match goal with Ht : _ = true |- _ => by rewrite Ht end.
  - match goal with Ha : Forall anyValue items |- _ => rename Ha into Hitems end.
    assert (Hall : map (fun v => fst (JsonDecode.toAny v)) items = items /\
      JsonDecode.firstError (map (fun v => snd (JsonDecode.toAny v)) items) = None).
    { clear -IH Hitems. induction IH as [|v items Hv _ IHi]; [done|]. apply Forall_cons in Hitems as [Ha Hitems].
      destruct (IHi Hitems) as [H1 H2]. cbn. rewrite (Hv Ha). cbn. unfold JsonDecode.firstError in *. by rewrite H1, H2. }
    destruct Hall as [-> ->]. done.
  - match goal with Ha : Forall _ fields |- _ => rename Ha into Hfields end.
    assert (Hall : map (fun kv => (fst kv, fst (JsonDecode.toAny (snd kv)))) fields = fields /\
      JsonDecode.firstError (map (fun kv => snd (JsonDecode.toAny (snd kv))) fields) = None).
    { clear -IH Hfields. induction IH as [|[k v] fields Hv _ IHf]; [done|]. apply Forall_cons in Hfields as [Ha Hfields].
      destruct (IHf Hfields) as [H1 H2]. cbn in *. rewrite (Hv Ha). cbn. unfold JsonDecode.firstError in *. by rewrite H1, H2. }
    destruct Hall as [-> ->]. by rewrite lastWins_id.
Qed.

(** What is judged is the metadata themselves: the detour over their encoding hides
    no name and no level. *)
Theorem Validate_judges_metadata `{UnicodeCase} (e : Event json) :
  JsonRoundTrip.printable 0 (Metadata e) -> anyValue (Metadata e) ->
  Validate marshalTree e = Ok tt -> clean 0 (Metadata e) /\
    blen (bytes_of (of_chars (Json.encode (Metadata e)))) <= MaxMetadataBytes.
Proof.
  intros Hp Ha Hv%Validate_Ok. destruct (ac_metadata _ _ Hv) as (encoded & v & Hm & Hl & Hu & Hc).
  unfold marshalTree in Hm. injection Hm as <-. split; [|done]. enough (v = Metadata e) by by subst.
  unfold unmarshalAny in Hu. rewrite <- (app_nil_r (Json.encode (Metadata e))) in Hu.
  rewrite (JsonOne.Unmarshal_encode TAny (Metadata e) [] (VAny (Metadata e))) in Hu; [by injection Hu|done|constructor|].
  cbn [JsonDecode.store]. by rewrite toAny_id.
Qed.

(** An event that passes and one with a secret two levels down. *)
#[local] Instance plainCase : UnicodeCase := {| lowerRune := id; upperRune := id |}.

Example inspect_sample :
  inspectMetadata (JObject [("ip", JString "::1"); ("tags", JArray [JNull])]) 0 = Ok tt /\
  inspectMetadata (JArray [JObject [("session-Token", JNull)]]) 0 = Err SensitiveField.
Proof. split; reflexivity. Qed.

End AuditProperties.
