(* ===== verification/GoFloat.v ===== *)
(** * Floating point: the part of Go's [float64] in use

    A [float64] is an IEEE binary64 number of [SpecFloat]; every operation rounds
    to nearest, ties to even, as Go's does. *)

From S2P Require Import Prelude GoTime.
From Stdlib Require Import SpecFloat.
From stdpp Require Import pretty.

#[local] Open Scope Z_scope.

Module Float64.

Definition prec : Z := 53.
Definition emax : Z := 1024.

Definition ofInt (z : Z) : spec_float := binary_normalize prec emax z 0 false.
Definition add := SFadd prec emax.
Definition mul := SFmul prec emax.
Definition div := SFdiv prec emax.
Definition leb := SFleb.
Definition ltb := SFltb.
Definition zero : spec_float := S754_zero false.

(** [uint64(f)] of a non-negative [f] below [2^64]: the fraction is dropped. *)
Definition toUint64 (f : spec_float) : Z :=
  match f with
  | S754_finite _ m e => wrapU64 (if 0 <=? e then Z.shiftl (Zpos m) e else Z.shiftr (Zpos m) (- e))
  | _ => 0
  end.

(** [d.Seconds()]: [float64(d / Second) + float64(d % Second) / 1e9]. *)
Definition Seconds (d : Duration) : spec_float :=
  add (ofInt (Z.quot d Second)) (div (ofInt (Z.rem d Second)) (ofInt 1000000000)).

Example toUint64_sample : map (fun p => toUint64 (div (ofInt (fst p)) (ofInt (snd p)))) [(7, 2); (1, 3); (2 ^ 60, 4)] = [3; 0; 2 ^ 58].
Proof. vm_compute. reflexivity. Qed.

End Float64.

(** ** Shortest decimal text ([strconv.FormatFloat(f, 'f', -1, 64)])

    The text has the fewest digits that lie between the midpoints to the
    neighbouring numbers, a midpoint counting where ties round to the number
    itself, that is for an even mantissa.  Of two such texts of equal length the
    nearer one is taken. *)

Module FloatText.

(** [v * 2^e <= d * 10^k] as a comparison of integers: [lhs v e k <= d * rhs e k]. *)
Definition lhs (v e k : Z) : Z := v * 2 ^ Z.max e 0 * 10 ^ Z.max (- k) 0.
Definition rhs (e k : Z) : Z := 10 ^ Z.max k 0 * 2 ^ Z.max (- e) 0.

(** A number [X * 2^e] with the midpoints [L * 2^e] and [U * 2^e] around it. *)
Record interval := { X : Z; L : Z; U : Z; exponent : Z; inclusive : bool }.

Definition intervalOf (m : positive) (e : Z) : interval :=
  {| X := 4 * Zpos m; U := 4 * Zpos m + 2;
     L := if (Zpos m =? 2 ^ 52) && (- 1074 <? e) then 4 * Zpos m - 1 else 4 * Zpos m - 2;
     exponent := e - 2; inclusive := Z.even (Zpos m) |}.

Definition above (i : interval) (d k : Z) : bool :=
  let n := lhs (L i) (exponent i) k in let v := d * rhs (exponent i) k in
  if inclusive i then n <=? v else n <? v.
Definition below (i : interval) (d k : Z) : bool :=
  let n := lhs (U i) (exponent i) k in let v := d * rhs (exponent i) k in
  if inclusive i then v <=? n else v <? n.

(** The number rounded down or up to a multiple of [10^k], if that reads back. *)
Definition attempt (i : interval) (k : Z) : option Z :=
  let n := lhs (X i) (exponent i) k in
  let unit := rhs (exponent i) k in
  let down := n / unit in
  match above i down k, below i (down + 1) k with
  | true, true =>
      match 2 * n ?= (2 * down + 1) * unit with
      | Lt => Some down
      | Gt => Some (down + 1)
      | Eq => Some (if Z.even down then down else down + 1)
      end
  | true, false => Some down
  | false, true => Some (down + 1)
  | false, false => None
  end.

(** The multiples of smaller and smaller powers of ten. *)
Fixpoint search (fuel : nat) (i : interval) (k : Z) : option (Z * Z) :=
  match attempt i k with
  | Some d => Some (d, k)
  | None => match fuel with O => None | S fuel => search fuel i (k - 1) end
  end.

(** The decimal exponent: [10^(dp-1) <= x < 10^dp]. *)
Definition decimalPoint (i : interval) : Z :=
  Z.of_nat (String.length (pretty (lhs (X i) (exponent i) (-400) / rhs (exponent i) (-400)))) - 400.

Definition shortest (m : positive) (e : Z) : option (Z * Z) :=
  let i := intervalOf m e in
  let dp := decimalPoint i in
  search (Z.to_nat (dp + 1100)) i dp.

(** [fmtF]: no exponent, and as many decimals as there are digits. *)
Definition fixedPoint (d k : Z) : string :=
  if 0 <=? k then pretty (d * 10 ^ k)
  else pretty (d / 10 ^ (- k)) +:+ "." +:+ of_chars (tail (chars (pretty (10 ^ (- k) + d mod 10 ^ (- k))))).

Definition FormatFloat (f : spec_float) : string :=
  match f with
  | S754_nan => "NaN"
  | S754_infinity s => if s then "-Inf" else "+Inf"
  | S754_zero s => if s then "-0" else "0"
  | S754_finite s m e =>
      (if s then "-" else "") +:+ match shortest m e with Some (d, k) => fixedPoint d k | None => "" end
  end.

Example FormatFloat_sample :
  map FormatFloat (map (fun p => Float64.div (Float64.ofInt (fst p)) (Float64.ofInt (snd p)))
    [(5, 1000); (1, 10); (25, 10); (10, 1); (1, 3); (-7, 2); (2 ^ 70, 1); (3, 10 ^ 9); (999999999999999999, 10)]) =
  ["0.005"; "0.1"; "2.5"; "10"; "0.3333333333333333"; "-3.5"; "1180591620717411300000"; "0.000000003"; "100000000000000000"].
Proof. vm_compute. reflexivity. Qed.
Example FormatFloat_sum : FormatFloat (Float64.add (Float64.div (Float64.ofInt 1) (Float64.ofInt 10)) (Float64.div (Float64.ofInt 2) (Float64.ofInt 10))) = "0.30000000000000004".
Proof. vm_compute. reflexivity. Qed.

End FloatText.

(** ** The text reads back as the number *)

Module FloatTextCorrect.
Import FloatText.

Lemma rhs_pos e k : 0 < rhs e k.
Proof. unfold rhs. apply Z.mul_pos_pos; apply Z.pow_pos_nonneg; lia. Qed.

Lemma lhs_lt v w e k : v < w -> lhs v e k < lhs w e k.
Proof.
  intros Hv. unfold lhs. pose proof (Z.pow_pos_nonneg 2 (Z.max e 0)). pose proof (Z.pow_pos_nonneg 10 (Z.max (- k) 0)).
  apply Z.mul_lt_mono_pos_r; [lia|]. apply Z.mul_lt_mono_pos_r; lia.
Qed.

(** A number lies strictly between its midpoints. *)
Lemma interval_order m e : let i := intervalOf m e in L i < X i < U i.
Proof. cbn -[Z.mul]. case_match; lia. Qed.

(** What is chosen lies within the midpoints. *)
Lemma attempt_within i k d : L i < X i < U i -> attempt i k = Some d -> above i d k = true /\ below i d k = true.
Proof.
  intros [HL HU]. unfold attempt. set (n := lhs (X i) (exponent i) k). set (u := rhs (exponent i) k).
  pose proof (rhs_pos (exponent i) k) as Hu. fold u in Hu.
  pose proof (Z.mul_div_le n u Hu) as Hd. pose proof (Z.mul_succ_div_gt n u Hu) as Hg.
  pose proof (lhs_lt (L i) (X i) (exponent i) k HL) as HLn. pose proof (lhs_lt (X i) (U i) (exponent i) k HU) as HUn.
  fold n in HLn, HUn.
  assert (Hbelow : below i (n / u) k = true) by (unfold below; fold u; case_match; nia).
  assert (Habove : above i (n / u + 1) k = true) by (unfold above; fold u; case_match; nia).
  destruct (above i (n / u) k) eqn:Ha, (below i (n / u + 1) k) eqn:Hb; intros Hs; try done.
  - repeat case_match; simplify_eq; done.
  - by simplify_eq.
  - by simplify_eq.
Qed.

Lemma search_within fuel i k d k' : L i < X i < U i -> search fuel i k = Some (d, k') ->
  above i d k' = true /\ below i d k' = true.
Proof.
  intros Hi. revert k. induction fuel as [|fuel IH]; intros k; cbn [search];
    (destruct (attempt i k) as [d0|] eqn:Ha; [intros [= <- <-]; by apply attempt_within|]); [done|apply IH].
Qed.

(** Once every binary digit is shown, the number itself is found. *)
Lemma attempt_exact i k : L i < X i < U i -> k <= Z.min 0 (exponent i) -> is_Some (attempt i k).
Proof.
  intros [HL HU] Hk. unfold attempt.
  assert (Hex : lhs (X i) (exponent i) k / rhs (exponent i) k * rhs (exponent i) k = lhs (X i) (exponent i) k).
  { assert (Hdiv : (rhs (exponent i) k | lhs (X i) (exponent i) k)).
    { unfold rhs, lhs. replace (Z.max k 0) with 0 by lia. rewrite Z.mul_1_l. apply Z.divide_mul_r.
      replace (Z.max (- k) 0) with (Z.max (- exponent i) 0 + (- k - Z.max (- exponent i) 0)) by lia.
      rewrite Z.pow_add_r by lia. apply Z.divide_mul_l. exists (5 ^ Z.max (- exponent i) 0).
      rewrite <- Z.pow_mul_l. done. }
    destruct Hdiv as [q ->]. rewrite Z.div_mul; [done|]. pose proof (rhs_pos (exponent i) k). lia. }
  assert (Ha : above i (lhs (X i) (exponent i) k / rhs (exponent i) k) k = true).
  { unfold above. rewrite Hex. pose proof (lhs_lt (L i) (X i) (exponent i) k HL). case_match; lia. }
  rewrite Ha. repeat case_match; eauto.
Qed.

Lemma search_total fuel i k : L i < X i < U i -> k - Z.of_nat fuel <= Z.min 0 (exponent i) -> is_Some (search fuel i k).
Proof.
  intros Hi. revert k. induction fuel as [|fuel IH]; intros k Hk; cbn [search]; destruct (attempt i k) eqn:Ha; eauto.
  - destruct (attempt_exact i k Hi ltac:(lia)) as [d Hd]. congruence.
  - apply IH. lia.
Qed.

(** Every finite number has a shortest text, and it lies within the midpoints. *)
Lemma shortest_reads_back m e : -1074 <= e ->
  exists d k, shortest m e = Some (d, k) /\ above (intervalOf m e) d k = true /\ below (intervalOf m e) d k = true.
Proof.
  intros He. pose proof (interval_order m e) as Hi. cbv zeta in Hi. unfold shortest.
  destruct (search_total (Z.to_nat (decimalPoint (intervalOf m e) + 1100)) (intervalOf m e) (decimalPoint (intervalOf m e)) Hi)
    as [[d k] Hs]; [cbn [exponent intervalOf]; lia|].
  exists d, k. split; [done|]. by eapply search_within.
Qed.

End FloatTextCorrect.

Abbreviation FormatFloat := FloatText.FormatFloat.
