(* ===== verification/GoDuration.v ===== *)
(** * Durations as text ([time.ParseDuration])

    A sign, then terms of a decimal number and a unit.  Whole parts are 64-bit
    integers; a fraction goes through [float64], and what lies below a nanosecond
    is dropped. *)

From S2P Require Import Prelude GoTime GoStrings GoFloat.
From Stdlib Require Import SpecFloat.
From stdpp Require Import pretty.

#[local] Open Scope Z_scope.

Module DurationText.
Import Float64.

(** [unitMap]; the micro sign is U+00B5 or U+03BC. *)
Definition unitMap : list (list ascii * Z) :=
  [(chars "ns", 1); (chars "us", 1000); (asciis [0xc2; 0xb5; 115], 1000); (asciis [0xce; 0xbc; 115], 1000);
   (chars "ms", Millisecond); (chars "s", Second); (chars "m", Minute); (chars "h", Hour)].

Definition unitOf (u : list ascii) : option Z := snd <$> find (fun e => fst e == u) unitMap.

(** [leadingInt]: [None] on overflow. *)
Fixpoint leadingInt (x : Z) (l : list ascii) : option (Z * list ascii) :=
  match l with
  | c :: t =>
      if negb (isDigit c) then Some (x, l)
      else if 2 ^ 63 / 10 <? x then None
      else
        let x := x * 10 + (code c - code "0") in
        if 2 ^ 63 <? x then None else leadingInt x t
  | [] => Some (x, [])
  end.

(** [leadingFraction]: digits that would overflow are skipped. *)
Fixpoint leadingFraction (x : Z) (scale : spec_float) (overflow : bool) (l : list ascii)
    : Z * spec_float * list ascii :=
  match l with
  | c :: t =>
      if negb (isDigit c) then (x, scale, l)
      else if overflow then leadingFraction x scale true t
      else if (2 ^ 63 - 1) / 10 <? x then leadingFraction x scale true t
      else
        let y := x * 10 + (code c - code "0") in
        if 2 ^ 63 <? y then leadingFraction x scale true t
        else leadingFraction y (mul scale (ofInt 10)) false t
  | [] => (x, scale, [])
  end.

(** The unit: everything up to a point or a digit. *)
Definition inNumber (c : ascii) : bool := (c == "."%char) || isDigit c.
Fixpoint unitText (l : list ascii) : list ascii * list ascii :=
  match l with
  | c :: t => if inNumber c then ([], l) else let '(u, rest) := unitText t in (c :: u, rest)
  | [] => ([], [])
  end.

(** [(\.[0-9]* )?], and whether digits follow the point. *)
Definition fraction (l : list ascii) : Z * spec_float * list ascii * bool :=
  match l with
  | c :: t =>
      if c == "."%char then
        let '(f, scale, rest) := leadingFraction 0 (ofInt 1) false t in
        (f, scale, rest, negb (length rest =? length t)%nat)
      else (0, ofInt 1, l, false)
  | [] => (0, ofInt 1, l, false)
  end.

(** One term: its nanoseconds, and the text behind it. *)
Definition term (l : list ascii) : option (Z * list ascii) :=
  if match l with c :: _ => negb (inNumber c) | [] => true end then None
  else
    '(v, l1) ← leadingInt 0 l;
    let pre := negb (length l1 =? length l)%nat in
    let '(f, scale, l2, post) := fraction l1 in
    if negb pre && negb post then None
    else
      let '(u, rest) := unitText l2 in
      if (length u =? 0)%nat then None
      else
        unit ← unitOf u;
        if 2 ^ 63 / unit <? v then None
        else
          let v := v * unit in
          if 0 <? f then
            let v := wrapU64 (v + toUint64 (mul (ofInt f) (div (ofInt unit) scale))) in
            if 2 ^ 63 <? v then None else Some (v, rest)
          else Some (v, rest).

(** The sum of the terms: [None] for an error, [Some None] when fuel is out. *)
Fixpoint terms (fuel : nat) (d : Z) (l : list ascii) : option (option Z) :=
  match l with
  | [] => Some (Some d)
  | _ =>
      match fuel with
      | O => Some None
      | S fuel =>
          '(v, rest) ← term l;
          let d := wrapU64 (d + v) in
          if 2 ^ 63 <? d then None else terms fuel d rest
      end
  end.

(** [[-+]?]. *)
Definition sign (l : list ascii) : bool * list ascii :=
  match l with
  | c :: t => if (c == "-"%char) || (c == "+"%char) then (c == "-"%char, t) else (false, l)
  | [] => (false, [])
  end.

Definition ParseDuration (s : string) : option Duration :=
  let '(neg, l) := sign (chars s) in
  if l == ["0"%char] then Some 0
  else if l == [] then None
  else
    d ← mjoin (terms (length l) 0 l);
    if neg : bool then Some (wrapS64 (- wrapS64 d))
    else if 2 ^ 63 - 1 <? d then None else Some d.

Example ParseDuration_sample :
  map ParseDuration ["0"; "100ms"; "1h15m30.918s"; "-1.5h"; "+5s"; ".5m"; "9223372036854775807ns";
                     of_chars (asciis [49; 0xc2; 0xb5; 115]); "0.3333333333333333333h"] =
  [Some 0; Some 100000000; Some 4530918000000; Some (-5400000000000); Some 5000000000; Some 30000000000;
   Some (2 ^ 63 - 1); Some 1000; Some 1200000000000].
Proof. vm_compute. reflexivity. Qed.
Example ParseDuration_rejects :
  map ParseDuration [""; "3"; "-"; "s"; "."; "-.s"; "1x"; " 1s"; "1s "; "9223372036854775808ns"; "3000000h"; "1e3s"] =
  replicate 12 None.
Proof. vm_compute. reflexivity. Qed.
Example ParseDuration_lowest : ParseDuration "-9223372036854775808ns" = Some minDuration.
Proof. vm_compute. reflexivity. Qed.

End DurationText.

Abbreviation ParseDuration := DurationText.ParseDuration.

(** ** Durations are read to the end and fit in [int64] *)

Module DurationCorrect.
Import Float64 DurationText.

Lemma leadingInt_spec l x v rest : leadingInt x l = Some (v, rest) -> (length rest <= length l)%nat.
Proof.
  revert x. induction l as [|c l IH]; intros x; cbn [leadingInt]; [by intros [= _ <-]|].
  destruct (isDigit c); cbn [negb]; [|by intros [= _ <-]]. repeat (case_match; [done|]).
  intros Hr%IH. cbn. lia.
Qed.

Lemma leadingFraction_spec l x sc o f sc' rest : leadingFraction x sc o l = (f, sc', rest) -> (length rest <= length l)%nat.
Proof.
  revert x sc o. induction l as [|c l IH]; intros x sc o; cbn [leadingFraction]; [by intros [= _ _ <-]|].
  destruct (isDigit c); cbn [negb]; [|by intros [= _ _ <-]].
  repeat case_match; intros Hr%IH; cbn; lia.
Qed.

Lemma fraction_length l f sc rest post : fraction l = (f, sc, rest, post) -> (length rest <= length l)%nat.
Proof.
  unfold fraction. destruct l as [|c t]; [by intros [= _ _ <- _]|]. case_match; [|by intros [= _ _ <- _]].
  destruct (leadingFraction _ _ _ _) as [[f0 sc0] l0] eqn:Hf. intros [= _ _ <- _].
  apply leadingFraction_spec in Hf. cbn. lia.
Qed.

Lemma unitText_length l : let '(u, rest) := unitText l in (length u + length rest = length l)%nat.
Proof.
  induction l as [|c l IH]; cbn [unitText]; [done|]. destruct (inNumber c); [done|]. destruct (unitText l). cbn in *. lia.
Qed.

Lemma term_shorter l v rest : term l = Some (v, rest) -> (length rest < length l)%nat.
Proof.
  unfold term. case_match; [done|]. intros ([v0 l1] & Hi%leadingInt_spec & HT)%bind_Some.
  destruct (fraction l1) as [[[f sc] l2] post] eqn:Hl2. apply fraction_length in Hl2. case_match; [done|].
  pose proof (unitText_length l2) as Hu. destruct (unitText l2) as [u r].
  case_match; [done|]. apply bind_Some in HT as (unit & _ & HT). case_match; [done|].
  repeat case_match; simplify_eq; lia.
Qed.

(** The fuel of [ParseDuration] is enough. *)
Lemma terms_never_stuck fuel d l : (length l <= fuel)%nat -> terms fuel d l <> Some None.
Proof.
  revert d l. induction fuel as [|fuel IH]; intros d [|c l] Hf; cbn [terms]; try done; [cbn in Hf; lia|].
  destruct (term (c :: l)) as [[v rest]|] eqn:Ht; [|done]. cbn. case_match; [done|].
  apply IH. apply term_shorter in Ht. cbn in *. lia.
Qed.

Lemma terms_range fuel d l d' : 0 <= d <= 2 ^ 63 -> terms fuel d l = Some (Some d') -> 0 <= d' <= 2 ^ 63.
Proof.
  revert d l. induction fuel as [|fuel IH]; intros d [|c l] Hd; cbn [terms]; try done; [by intros [= <-]..|].
  destruct (term (c :: l)) as [[v rest]|]; [|done]. cbn. case_match; [done|]. apply IH.
  unfold wrapU64 in *. pose proof (Z.mod_pos_bound (d + v) (2 ^ 64)). lia.
Qed.

Lemma ParseDuration_range s d : ParseDuration s = Some d -> minDuration <= d <= maxDuration.
Proof.
  unfold ParseDuration, minDuration, maxDuration. destruct (sign (chars s)) as [neg l].
  case_match; [by intros [= <-]|]. case_match; [done|].
  intros (d0 & Ht & HP)%bind_Some.
  destruct (terms _ 0 _) as [[d1|]|] eqn:E; cbn in Ht; simplify_eq. apply terms_range in E; [|lia].
  destruct neg; [|case_match; simplify_eq; lia]. injection HP as <-.
  unfold wrapS64. match goal with |- context[(?a) mod ?b - _] => pose proof (Z.mod_pos_bound a b) end. lia.
Qed.

(** *** Whole numbers of a unit *)

Lemma pretty_N_char_digit (x : N) : (x < 10)%N ->
  isDigit (pretty_N_char x) = true /\ code (pretty_N_char x) - code "0" = Z.of_N x.
Proof.
  intros Hx. assert (Hc : x ∈ [0; 1; 2; 3; 4; 5; 6; 7; 8; 9]%N) by (rewrite !elem_of_cons; lia).
  rewrite !elem_of_cons in Hc. destruct_or!; try subst x; try done; by apply elem_of_nil in Hc.
Qed.

Lemma leadingInt_pretty_go (x : N) : forall s, Z.of_N x <= 2 ^ 63 ->
  leadingInt 0 (chars (pretty_N_go x s)) = leadingInt (Z.of_N x) (chars s) /\
  (x <> 0%N -> exists c t, chars (pretty_N_go x s) = c :: t /\ isDigit c = true).
Proof.
  induction (N.lt_wf_0 x) as [x _ IH]. intros s Hx.
  destruct (decide (x = 0%N)) as [->|Hz]; [by rewrite pretty_N_go_0|].
  rewrite pretty_N_go_step by lia. pose proof (N.div_lt x 10 ltac:(lia) ltac:(lia)).
  pose proof (N.mod_lt x 10 ltac:(lia)) as Hm. destruct (pretty_N_char_digit _ Hm) as [Hd Hv].
  pose proof (N.div_mod x 10 ltac:(lia)) as Hdm.
  destruct (IH (x / 10)%N ltac:(lia) (String (pretty_N_char (x mod 10)) s) ltac:(lia)) as [Hi Hc]. split.
  - rewrite Hi. cbn [chars leadingInt]. rewrite Hd, Hv. cbn [negb].
    replace (Z.of_N (x / 10) * 10 + Z.of_N (x mod 10)) with (Z.of_N x) by lia.
    destruct (Z.ltb_spec (2 ^ 63 / 10) (Z.of_N (x / 10))); [|by destruct (Z.ltb_spec (2 ^ 63) (Z.of_N x)); [lia|]].
    lia.
  - intros _. destruct (decide (x / 10 = 0)%N) as [E|E]; [|by apply Hc]. rewrite E, pretty_N_go_0.
    cbn [chars]. eauto.
Qed.

Lemma pretty_N_go_app (x : N) : forall s t, pretty_N_go x (s +:+ t) = pretty_N_go x s +:+ t.
Proof.
  induction (N.lt_wf_0 x) as [x _ IH]. intros s t.
  destruct (decide (x = 0%N)) as [->|Hz]; [by rewrite !pretty_N_go_0|].
  rewrite !(pretty_N_go_step x) by lia. pose proof (N.div_lt x 10 ltac:(lia) ltac:(lia)).
  by rewrite <- (IH (x / 10)%N) by lia.
Qed.

(** [leadingInt] reads back what is printed. *)
Lemma leadingInt_pretty (n : N) s : Z.of_N n <= 2 ^ 63 ->
  leadingInt 0 (chars (pretty n +:+ s)) = leadingInt (Z.of_N n) (chars s) /\
  exists c t, chars (pretty n +:+ s) = c :: t /\ isDigit c = true.
Proof.
  intros Hn. unfold pretty, pretty_N. case_decide as Hz; [subst; cbn; eauto|].
  rewrite <- pretty_N_go_app. cbn [String.append]. destruct (leadingInt_pretty_go n s Hn) as [H1 H2]. auto.
Qed.

Lemma isDigit_inNumber c : isDigit c = true -> inNumber c = true /\ c <> "-"%char /\ c <> "+"%char.
Proof.
  intros Hd. unfold inNumber. rewrite Hd, orb_true_r.
  split_and!; [done|intros ->|intros ->]; by vm_compute in Hd.
Qed.

Lemma ParseDuration_whole (n : N) u unit : (u, unit) ∈ unitMap -> Z.of_N n * unit < 2 ^ 63 ->
  ParseDuration (pretty n +:+ of_chars u) = Some (Z.of_N n * unit).
Proof.
  intros Hu Hn.
  assert (Hs : 0 < unit /\ unitOf u = Some unit /\ unitText u = (u, []) /\ fraction u = (0, ofInt 1, u, false) /\
               leadingInt (Z.of_N n) u = Some (Z.of_N n, u) /\ (0 < length u)%nat).
  { unfold unitMap in Hu. rewrite !elem_of_cons, elem_of_nil in Hu.
    destruct_or!; simplify_eq; split_and!; done || reflexivity || (cbn; lia). }
  destruct Hs as (Hp & Ho & Ht & Hf & Hi & Hl).
  destruct (leadingInt_pretty n (of_chars u)) as [H1 (c & t & H2 & Hd)]; [nia|].
  rewrite chars_of_chars in H1. rewrite Hi, H2 in H1. destruct (isDigit_inNumber c Hd) as (Hc & Hm & Ha).
  assert (Hlen : (length u < length (c :: t))%nat).
  { cbn [leadingInt] in H1. rewrite Hd in H1. cbn [negb] in H1. repeat (case_match; [done|]).
    apply leadingInt_spec in H1. cbn. lia. }
  assert (Hterm : term (c :: t) = Some (Z.of_N n * unit, [])).
  { unfold term. rewrite Hc, H1. cbn [negb mbind option_bind]. rewrite Hf, Ht, Ho. cbn [mbind option_bind].
    destruct (Nat.eqb_spec (length u) (length (c :: t))); [lia|]. cbn [negb andb].
    destruct (Nat.eqb_spec (length u) 0); [lia|]. cbn.
    destruct (Z.ltb_spec (2 ^ 63 / unit) (Z.of_N n)) as [Hlt|]; [|done].
    pose proof (Z.div_le_lower_bound (2 ^ 63) unit (Z.of_N n) Hp ltac:(lia)). lia. }
  unfold ParseDuration. rewrite H2. cbn [sign].
  rewrite (bool_decide_false _ Hm), (bool_decide_false _ Ha). cbn [orb].
  rewrite bool_decide_false by (intros [= -> ->]; cbn in Hlen; lia). rewrite bool_decide_false by done.
  cbn [length terms]. rewrite Hterm. cbn [mbind option_bind]. unfold wrapU64. rewrite Z.mod_small by lia.
  cbn [Z.add]. destruct (Z.ltb_spec (2 ^ 63) (0 + Z.of_N n * unit)); [lia|].
  assert (Hnil : forall fuel d, terms fuel d [] = Some (Some d)) by by intros [].
  rewrite Hnil. cbn [mjoin option_join mbind option_bind].
  destruct (Z.ltb_spec (2 ^ 63 - 1) (0 + Z.of_N n * unit)); [lia|done].
Qed.

End DurationCorrect.
