(* ===== verification/Config.v ===== *)
(** * Configuration ([core/config/config.go])

    Defaults, a JSON file, environment variables and command-line overrides, in
    increasing precedence, followed by validation.  The file system and the
    environment are arguments. *)

From S2P Require Import Prelude GoTime GoStrings GoJson GoJsonScan GoJsonDecode GoDuration.

Inductive config_error :=
  | ReadConfigurationFile | ParseConfigurationFile | MultipleJSONValues
  | ParseFileField (name : string) | ParseEnv (name : string) | Invalid (msg : string).

(** [fileConfig]; a missing number is a nil pointer, a missing string empty. *)
Record fileConfig := {
  f_Address : string; f_ReadTimeout : string; f_ReadHeaderTimeout : string; f_WriteTimeout : string;
  f_IdleTimeout : string; f_QueueTimeout : string;
  f_MaxHeaderBytes : option Z; f_MaxConcurrentRequests : option Z;
  f_URL : string; f_MaxConnections : option Z; f_MinConnections : option Z;
  f_MaxMessageBytes : option Z; f_ConnectTimeout : string; f_AllowInsecure : bool;
  f_ShutdownTimeout : string
}.

(** The same type as the decoder sees it. *)
Definition fileConfigType : gotype := TStruct [
  ("HTTP", TStruct [("Address", TString); ("ReadTimeout", TString); ("ReadHeaderTimeout", TString);
                    ("WriteTimeout", TString); ("IdleTimeout", TString); ("QueueTimeout", TString);
                    ("MaxHeaderBytes", TPointer (TInt 64)); ("MaxConcurrentRequests", TPointer (TInt 64))]);
  ("Postgres", TStruct [("URL", TString); ("MaxConnections", TPointer (TInt 32));
                        ("MinConnections", TPointer (TInt 32)); ("MaxMessageBytes", TPointer (TInt 64));
                        ("ConnectTimeout", TString); ("AllowInsecure", TBool)]);
  ("ShutdownTimeout", TString)].

Definition pointedInt (v : goval) : option Z := match v with VPointer (VInt z) => Some z | _ => None end.

(** A decoded value as a [fileConfig]. *)
Definition fileConfigOf (v : goval) : option fileConfig :=
  match v with
  | VStruct [VStruct [VString address; VString readTimeout; VString readHeaderTimeout; VString writeTimeout;
                      VString idleTimeout; VString queueTimeout; maxHeaderBytes; maxConcurrentRequests];
             VStruct [VString url; maxConnections; minConnections; maxMessageBytes; VString connectTimeout;
                      VBool allowInsecure];
             VString shutdownTimeout] =>
      Some {| f_Address := address; f_ReadTimeout := readTimeout; f_ReadHeaderTimeout := readHeaderTimeout;
              f_WriteTimeout := writeTimeout; f_IdleTimeout := idleTimeout; f_QueueTimeout := queueTimeout;
              f_MaxHeaderBytes := pointedInt maxHeaderBytes;
              f_MaxConcurrentRequests := pointedInt maxConcurrentRequests;
              f_URL := url; f_MaxConnections := pointedInt maxConnections;
              f_MinConnections := pointedInt minConnections; f_MaxMessageBytes := pointedInt maxMessageBytes;
              f_ConnectTimeout := connectTimeout; f_AllowInsecure := allowInsecure;
              f_ShutdownTimeout := shutdownTimeout |}
  | _ => None
  end.

Record Overrides := { ConfigFile : string; HTTPAddress : string }.

Record HTTP := {
  Address : string; ReadTimeout : Duration; ReadHeaderTimeout : Duration; WriteTimeout : Duration;
  IdleTimeout : Duration; MaxHeaderBytes : Z; MaxConcurrentRequests : Z; QueueTimeout : Duration
}.

Record Postgres := {
  DatabaseURL : string; MaxConnections : Z; MinConnections : Z; ConnectTimeout : Duration;
  MaxMessageBytes : Z; AllowInsecure : bool
}.

Record Config := { cHTTP : HTTP; cPostgres : Postgres; ShutdownTimeout : Duration }.

Module Load.

Definition defaults : Config := {|
  cHTTP := {| Address := "127.0.0.1:8080"; ReadTimeout := 5 * Second; ReadHeaderTimeout := 5 * Second;
              WriteTimeout := 10 * Second; IdleTimeout := 60 * Second; MaxHeaderBytes := Z.shiftl 1 20;
              MaxConcurrentRequests := 128; QueueTimeout := 100 * Millisecond |};
  cPostgres := {| DatabaseURL := ""; MaxConnections := 10; MinConnections := 1;
                  ConnectTimeout := 5 * Second; MaxMessageBytes := Z.shiftl 16 20;
                  AllowInsecure := false |};
  ShutdownTimeout := 10 * Second |}.

(** [Validate]: the first violated rule. *)
Definition Validate (c : Config) : result config_error unit :=
  let h := cHTTP c in
  let p := cPostgres c in
  if Address h == "" then Err (Invalid "HTTP address must not be empty")
  else if ReadTimeout h <=? 0 then Err (Invalid "HTTP read timeout must be positive")
  else if ReadHeaderTimeout h <=? 0 then Err (Invalid "HTTP read header timeout must be positive")
  else if MaxHeaderBytes h <=? 0 then Err (Invalid "HTTP max header bytes must be positive")
  else if MaxConcurrentRequests h <=? 0 then
    Err (Invalid "HTTP max concurrent requests must be positive")
  else if QueueTimeout h <? 0 then Err (Invalid "HTTP queue timeout must not be negative")
  else if WriteTimeout h <=? 0 then Err (Invalid "HTTP write timeout must be positive")
  else if IdleTimeout h <=? 0 then Err (Invalid "HTTP idle timeout must be positive")
  else if ShutdownTimeout c <=? 0 then Err (Invalid "shutdown timeout must be positive")
  else if MaxConnections p <=? 0 then Err (Invalid "PostgreSQL max connections must be positive")
  else if (MinConnections p <? 0) || (MaxConnections p <? MinConnections p) then
    Err (Invalid "PostgreSQL min connections must be between zero and max connections")
  else if ConnectTimeout p <=? 0 then Err (Invalid "PostgreSQL connect timeout must be positive")
  else if MaxMessageBytes p <=? 0 then Err (Invalid "PostgreSQL max message bytes must be positive")
  else Ok tt.

Section load.
(** The environment and [os.ReadFile]. *)
Variable env : gmap string string.
Variable readFile : string -> option (list byte).

Definition envOr (name fallback : string) : string := default fallback (env !! name).

(** [durationEnv], [intEnv], [int32Env] and [boolEnv] share their shape. *)
Definition parsedEnv {A} (parse : string -> option A) (name : string) (fallback : A)
    : result config_error A :=
  match env !! name with
  | None => Ok fallback
  | Some value => match parse value with Some a => Ok a | None => Err (ParseEnv name) end
  end.

Definition durationEnv := parsedEnv ParseDuration.
Definition intEnv := parsedEnv Atoi.
Definition int32Env := parsedEnv (ParseInt 32).
Definition boolEnv := parsedEnv ParseBool.

(** [if value != "" { field, err = time.ParseDuration(value) ... }]. *)
Definition fileDuration (name value : string) (field : Duration) : result config_error Duration :=
  if value == "" then Ok field
  else match ParseDuration value with Some d => Ok d | None => Err (ParseFileField name) end.

Definition fileString (value field : string) : string := if value == "" then field else value.

(** Lines 142 to 150: one value, decoded strictly, then the end of the file. *)
Definition decodeFile (contents : list byte) : result config_error fileConfig :=
  match JsonDecode.Decode true fileConfigType false (JsonDecode.textOf contents) with
  | (Err _, _) => Err ParseConfigurationFile
  | (Ok values, rest) =>
      match JsonDecode.Decode true (TStruct []) false rest with
      | (Err JsonDecode.AtEOF, _) =>
          match fileConfigOf values with Some v => Ok v | None => Err ParseConfigurationFile end
      | _ => Err MultipleJSONValues
      end
  end.

Definition applyFile (cfg : Config) (filename : string) : result config_error Config :=
  match readFile filename with
  | None => Err ReadConfigurationFile
  | Some contents =>
      v ← decodeFile contents;
      let h := cHTTP cfg in
      let p := cPostgres cfg in
      readTimeout ← fileDuration "HTTP read timeout" (f_ReadTimeout v) (ReadTimeout h);
      readHeaderTimeout ←
        fileDuration "HTTP read header timeout" (f_ReadHeaderTimeout v) (ReadHeaderTimeout h);
      queueTimeout ← fileDuration "HTTP queue timeout" (f_QueueTimeout v) (QueueTimeout h);
      writeTimeout ← fileDuration "HTTP write timeout" (f_WriteTimeout v) (WriteTimeout h);
      idleTimeout ← fileDuration "HTTP idle timeout" (f_IdleTimeout v) (IdleTimeout h);
      connectTimeout ←
        fileDuration "PostgreSQL connect timeout" (f_ConnectTimeout v) (ConnectTimeout p);
      shutdownTimeout ← fileDuration "shutdown timeout" (f_ShutdownTimeout v) (ShutdownTimeout cfg);
      Ok {|
        cHTTP := {| Address := fileString (f_Address v) (Address h); ReadTimeout := readTimeout;
          ReadHeaderTimeout := readHeaderTimeout; WriteTimeout := writeTimeout;
          IdleTimeout := idleTimeout; MaxHeaderBytes := default (MaxHeaderBytes h) (f_MaxHeaderBytes v);
          MaxConcurrentRequests := default (MaxConcurrentRequests h) (f_MaxConcurrentRequests v);
          QueueTimeout := queueTimeout |};
        cPostgres := {| DatabaseURL := fileString (f_URL v) (DatabaseURL p);
          MaxConnections := default (MaxConnections p) (f_MaxConnections v);
          MinConnections := default (MinConnections p) (f_MinConnections v);
          ConnectTimeout := connectTimeout;
          MaxMessageBytes := default (MaxMessageBytes p) (f_MaxMessageBytes v);
          AllowInsecure := if f_AllowInsecure v then true else AllowInsecure p |};
        ShutdownTimeout := shutdownTimeout |}
  end.

(** The environment layer, lines 86 to 127. *)
Definition applyEnv (cfg : Config) : result config_error Config :=
  let h := cHTTP cfg in
  let p := cPostgres cfg in
  let address := envOr "SWF_HTTP_ADDRESS" (Address h) in
  let url := envOr "SWF_POSTGRES_URL" (DatabaseURL p) in
  maxHeaderBytes ← intEnv "SWF_HTTP_MAX_HEADER_BYTES" (MaxHeaderBytes h);
  maxConcurrent ← intEnv "SWF_HTTP_MAX_CONCURRENT_REQUESTS" (MaxConcurrentRequests h);
  maxConnections ← int32Env "SWF_POSTGRES_MAX_CONNECTIONS" (MaxConnections p);
  minConnections ← int32Env "SWF_POSTGRES_MIN_CONNECTIONS" (MinConnections p);
  maxMessageBytes ← intEnv "SWF_POSTGRES_MAX_MESSAGE_BYTES" (MaxMessageBytes p);
  allowInsecure ← boolEnv "SWF_POSTGRES_ALLOW_INSECURE" (AllowInsecure p);
  readTimeout ← durationEnv "SWF_HTTP_READ_TIMEOUT" (ReadTimeout h);
  readHeaderTimeout ← durationEnv "SWF_HTTP_READ_HEADER_TIMEOUT" (ReadHeaderTimeout h);
  queueTimeout ← durationEnv "SWF_HTTP_QUEUE_TIMEOUT" (QueueTimeout h);
  writeTimeout ← durationEnv "SWF_HTTP_WRITE_TIMEOUT" (WriteTimeout h);
  idleTimeout ← durationEnv "SWF_HTTP_IDLE_TIMEOUT" (IdleTimeout h);
  shutdownTimeout ← durationEnv "SWF_SHUTDOWN_TIMEOUT" (ShutdownTimeout cfg);
  connectTimeout ← durationEnv "SWF_POSTGRES_CONNECT_TIMEOUT" (ConnectTimeout p);
  Ok {|
    cHTTP := {| Address := address; ReadTimeout := readTimeout; ReadHeaderTimeout := readHeaderTimeout;
      WriteTimeout := writeTimeout; IdleTimeout := idleTimeout; MaxHeaderBytes := maxHeaderBytes;
      MaxConcurrentRequests := maxConcurrent; QueueTimeout := queueTimeout |};
    cPostgres := {| DatabaseURL := url; MaxConnections := maxConnections; MinConnections := minConnections;
      ConnectTimeout := connectTimeout; MaxMessageBytes := maxMessageBytes; AllowInsecure := allowInsecure |};
    ShutdownTimeout := shutdownTimeout |}.

Definition with_Address (cfg : Config) (address : string) : Config :=
  let h := cHTTP cfg in
  {| cHTTP := {| Address := address; ReadTimeout := ReadTimeout h;
       ReadHeaderTimeout := ReadHeaderTimeout h; WriteTimeout := WriteTimeout h;
       IdleTimeout := IdleTimeout h; MaxHeaderBytes := MaxHeaderBytes h;
       MaxConcurrentRequests := MaxConcurrentRequests h; QueueTimeout := QueueTimeout h |};
     cPostgres := cPostgres cfg; ShutdownTimeout := ShutdownTimeout cfg |}.

(** The file to read: the override, else [SWF_CONFIG_FILE], else none. *)
Definition configFile (o : Overrides) : string :=
  if ConfigFile o == "" then envOr "SWF_CONFIG_FILE" "" else ConfigFile o.

Definition LoadWithOverrides (o : Overrides) : result config_error Config :=
  cfg ← (if configFile o == "" then Ok defaults else applyFile defaults (configFile o));
  cfg ← applyEnv cfg;
  let cfg := if HTTPAddress o == "" then cfg else with_Address cfg (HTTPAddress o) in
  _ ← Validate cfg;
  Ok cfg.

Definition Load : result config_error Config :=
  LoadWithOverrides {| ConfigFile := ""; HTTPAddress := "" |}.
End load.

End Load.

(** ** What a loaded configuration promises *)

Module LoadSpec.
Import Load.

(** Operable settings. *)
Record operable (c : Config) : Prop := {
  op_address : Address (cHTTP c) <> "";
  op_read : 0 < ReadTimeout (cHTTP c);
  op_header : 0 < ReadHeaderTimeout (cHTTP c);
  op_write : 0 < WriteTimeout (cHTTP c);
  op_idle : 0 < IdleTimeout (cHTTP c);
  op_queue : 0 <= QueueTimeout (cHTTP c);
  op_bytes : 0 < MaxHeaderBytes (cHTTP c);
  op_concurrent : 0 < MaxConcurrentRequests (cHTTP c);
  op_shutdown : 0 < ShutdownTimeout c;
  op_connections : 0 <= MinConnections (cPostgres c) <= MaxConnections (cPostgres c);
  op_max : 0 < MaxConnections (cPostgres c);
  op_connect : 0 < ConnectTimeout (cPostgres c);
  op_message : 0 < MaxMessageBytes (cPostgres c)
}.

(** A setting in layers: a layer that says nothing keeps the value below, a
    layer that says something replaces it, and a malformed layer, even one that
    a higher layer would replace, leaves no value. *)
Definition over {A} (low : option A) (layer : option (option A)) : option A :=
  match layer with None => low | Some p => _ ← low; p end.

Section spec.
Variable env : gmap string string.
Variable file : option fileConfig.

Definition fromFile {A} (get : fileConfig -> option (option A)) : option (option A) := f ← file; get f.
Definition text (s : string) : option (option string) := if s == "" then None else Some (Some s).
Definition duration (s : string) : option (option Duration) :=
  if s == "" then None else Some (ParseDuration s).
Definition number (z : option Z) : option (option Z) := Some <$> z.
Definition flag (b : bool) : option (option bool) := if b then Some (Some true) else None.
Definition fromEnv {A} (parse : string -> option A) (name : string) : option (option A) :=
  parse <$> env !! name.

Record layered (o : Overrides) (c : Config) : Prop := {
  ly_address : over (over (over (Some "127.0.0.1:8080") (fromFile (fun f => text (f_Address f))))
    (fromEnv Some "SWF_HTTP_ADDRESS")) (text (HTTPAddress o)) = Some (Address (cHTTP c));
  ly_read : over (over (Some (5 * Second)) (fromFile (fun f => duration (f_ReadTimeout f))))
    (fromEnv ParseDuration "SWF_HTTP_READ_TIMEOUT") = Some (ReadTimeout (cHTTP c));
  ly_header : over (over (Some (5 * Second)) (fromFile (fun f => duration (f_ReadHeaderTimeout f))))
    (fromEnv ParseDuration "SWF_HTTP_READ_HEADER_TIMEOUT") = Some (ReadHeaderTimeout (cHTTP c));
  ly_write : over (over (Some (10 * Second)) (fromFile (fun f => duration (f_WriteTimeout f))))
    (fromEnv ParseDuration "SWF_HTTP_WRITE_TIMEOUT") = Some (WriteTimeout (cHTTP c));
  ly_idle : over (over (Some (60 * Second)) (fromFile (fun f => duration (f_IdleTimeout f))))
    (fromEnv ParseDuration "SWF_HTTP_IDLE_TIMEOUT") = Some (IdleTimeout (cHTTP c));
  ly_queue : over (over (Some (100 * Millisecond)) (fromFile (fun f => duration (f_QueueTimeout f))))
    (fromEnv ParseDuration "SWF_HTTP_QUEUE_TIMEOUT") = Some (QueueTimeout (cHTTP c));
  ly_bytes : over (over (Some (2 ^ 20)) (fromFile (fun f => number (f_MaxHeaderBytes f))))
    (fromEnv Atoi "SWF_HTTP_MAX_HEADER_BYTES") = Some (MaxHeaderBytes (cHTTP c));
  ly_concurrent : over (over (Some 128) (fromFile (fun f => number (f_MaxConcurrentRequests f))))
    (fromEnv Atoi "SWF_HTTP_MAX_CONCURRENT_REQUESTS") = Some (MaxConcurrentRequests (cHTTP c));
  ly_shutdown : over (over (Some (10 * Second)) (fromFile (fun f => duration (f_ShutdownTimeout f))))
    (fromEnv ParseDuration "SWF_SHUTDOWN_TIMEOUT") = Some (ShutdownTimeout c);
  ly_url : over (over (Some "") (fromFile (fun f => text (f_URL f))))
    (fromEnv Some "SWF_POSTGRES_URL") = Some (DatabaseURL (cPostgres c));
  ly_max : over (over (Some 10) (fromFile (fun f => number (f_MaxConnections f))))
    (fromEnv (ParseInt 32) "SWF_POSTGRES_MAX_CONNECTIONS") = Some (MaxConnections (cPostgres c));
  ly_min : over (over (Some 1) (fromFile (fun f => number (f_MinConnections f))))
    (fromEnv (ParseInt 32) "SWF_POSTGRES_MIN_CONNECTIONS") = Some (MinConnections (cPostgres c));
  ly_connect : over (over (Some (5 * Second)) (fromFile (fun f => duration (f_ConnectTimeout f))))
    (fromEnv ParseDuration "SWF_POSTGRES_CONNECT_TIMEOUT") = Some (ConnectTimeout (cPostgres c));
  ly_message : over (over (Some (2 ^ 24)) (fromFile (fun f => number (f_MaxMessageBytes f))))
    (fromEnv Atoi "SWF_POSTGRES_MAX_MESSAGE_BYTES") = Some (MaxMessageBytes (cPostgres c));
  ly_insecure : over (over (Some false) (fromFile (fun f => flag (f_AllowInsecure f))))
    (fromEnv ParseBool "SWF_POSTGRES_ALLOW_INSECURE") = Some (AllowInsecure (cPostgres c))
}.
End spec.

(** The file that is read, if any: it is one JSON text, white space around it,
    which can be stored in a [fileConfig] without a mismatch or unknown field. *)
Definition fileRead (env : gmap string string) (readFile : string -> option (list byte)) (o : Overrides)
    (file : option fileConfig) : Prop :=
  match file with
  | None => configFile env o = ""
  | Some f => configFile env o <> "" /\ exists contents text ws v x,
      readFile (configFile env o) = Some contents /\
      JsonDecode.textOf contents = text ++ ws /\ JsonGrammar.value 0 text v /\ JsonGrammar.spaces ws /\
      JsonDecode.store true fileConfigType (JsonDecode.zero fileConfigType) v = (x, None) /\
      fileConfigOf x = Some f
  end.

(** The integer a text denotes: an optional sign and decimal digits, each worth its
    power of ten. *)
Fixpoint positional (digits : list ascii) : Z :=
  match digits with
  | [] => 0
  | c :: rest => (code c - code "0") * 10 ^ Z.of_nat (length rest) + positional rest
  end.

Definition denotes (text : string) (z : Z) : Prop :=
  exists sign digits, chars text = sign ++ digits /\ digits <> [] /\ Forall (fun c => isDigit c = true) digits /\
    ((sign = [] \/ sign = ["+"%char]) /\ z = positional digits \/ sign = ["-"%char] /\ z = - positional digits).

Definition in_bits (bits z : Z) : Prop := - 2 ^ (bits - 1) <= z < 2 ^ (bits - 1).

(** The integer settings: their variables, their places in a file, the widths of their
    Go types ([int] and [int32]), and where a configuration has them. *)
Definition integerSettings : list (string * (string * string) * Z * (Config -> Z)) :=
  [("SWF_HTTP_MAX_HEADER_BYTES", ("HTTP", "MaxHeaderBytes"), 64, fun c => MaxHeaderBytes (cHTTP c));
   ("SWF_HTTP_MAX_CONCURRENT_REQUESTS", ("HTTP", "MaxConcurrentRequests"), 64, fun c => MaxConcurrentRequests (cHTTP c));
   ("SWF_POSTGRES_MAX_CONNECTIONS", ("Postgres", "MaxConnections"), 32, fun c => MaxConnections (cPostgres c));
   ("SWF_POSTGRES_MIN_CONNECTIONS", ("Postgres", "MinConnections"), 32, fun c => MinConnections (cPostgres c));
   ("SWF_POSTGRES_MAX_MESSAGE_BYTES", ("Postgres", "MaxMessageBytes"), 64, fun c => MaxMessageBytes (cPostgres c))].

(** The document that gives one number. *)
Definition oneNumber (place : string * string) (text : string) : json :=
  JObject [(fst place, JObject [(snd place, JNumber text)])].

(** A setting is given by its variable, or without one by a file that holds it and
    nothing else. *)
Definition given (env : gmap string string) (readFile : string -> option (list byte)) (o : Overrides)
    (variable : string) (place : string * string) (text : string) : Prop :=
  env !! variable = Some text \/
  (env !! variable = None /\ configFile env o <> "" /\ JsonGrammar.numberText (chars text) /\
   readFile (configFile env o) = Some (bytes_of (of_chars (Json.encode (oneNumber place text))))).

End LoadSpec.

Module LoadCorrect.
Import Load LoadSpec.

Lemma Validate_iff c : Validate c = Ok tt <-> operable c.
Proof.
  unfold Validate. split.
  - intros HV. repeat case_match; try done. split_guards. split; lia || done.
  - intros []. rewrite bool_decide_false by done. repeat (case_match; try lia). done.
Qed.

(** Every decoded value is a [fileConfig]. *)
Lemma fileConfigOf_total x : JsonTyped.typed fileConfigType x = true -> is_Some (fileConfigOf x).
Proof. intros Ht. unfold fileConfigType in Ht. JsonTyped.typed_fields. Qed.

Lemma decodeFile_Ok contents f :
  decodeFile contents = Ok f <->
  exists text ws v x, JsonDecode.textOf contents = text ++ ws /\ JsonGrammar.value 0 text v /\
    JsonGrammar.spaces ws /\
    JsonDecode.store true fileConfigType (JsonDecode.zero fileConfigType) v = (x, None) /\
    fileConfigOf x = Some f.
Proof.
  split.
  - unfold decodeFile. destruct (JsonDecode.Decode _ _ _ _) as [[x|] rest] eqn:HD; [|done].
    destruct (JsonDecode.Decode true (TStruct []) false rest) as [[|[]] ?] eqn:HE; try done.
    destruct (fileConfigOf x) as [g|] eqn:Hg; [|done]. intros [= <-].
    destruct (proj1 (JsonOne.Decode_then_EOF true fileConfigType (JsonDecode.zero fileConfigType) true (TStruct []) false
        (JsonDecode.textOf contents) x)) as (_ & l1 & ws & v & ? & ? & ? & ?); [|by exists l1, ws, v, x].
    exists rest. by rewrite HE.
  - intros (l1 & ws & v & x & Hl & Hv & Hws & Hs & Hf). unfold decodeFile.
    destruct (proj2 (JsonOne.Decode_then_EOF true fileConfigType (JsonDecode.zero fileConfigType) true (TStruct []) false
        (JsonDecode.textOf contents) x)) as (rest & HD & HE); [eauto 10|].
    unfold JsonDecode.Decode at 1. rewrite HD. destruct (JsonDecode.Decode true (TStruct []) false rest) as [r ?]. cbn in HE. by rewrite HE, Hf.
Qed.

(** Parsing gives exactly the denoted integers of the width. *)
Lemma decimal_positional l : forall acc v, decimal acc l = Some v <->
  Forall (fun c => isDigit c = true) l /\ v = acc * 10 ^ Z.of_nat (length l) + positional l.
Proof.
  induction l as [|c l IH]; intros acc v; cbn [decimal positional length].
  - rewrite Forall_nil. split; [intros [= ->]; split; [done|lia]|intros [_ ->]; f_equal; lia].
  - rewrite Forall_cons. destruct (isDigit c); [|naive_solver]. rewrite IH.
    replace (Z.of_nat (S (length l))) with (1 + Z.of_nat (length l)) by lia. rewrite Z.pow_add_r by lia.
    split; (intros [H1 H2]; repeat split; try apply H1; lia).
Qed.

Lemma ParseInt_iff bits s z : ParseInt bits s = Some z <-> denotes s z /\ in_bits bits z.
Proof.
  unfold ParseInt, in_bits. cbv beta zeta.
  assert (Hdig : forall (neg : bool) l z, match l with [] => None | _ =>
      v ← decimal 0 l;
      if (- 2 ^ (bits - 1) <=? if neg then - v else v) && ((if neg then - v else v) <? 2 ^ (bits - 1))
      then Some (if neg then - v else v) else None end = Some z <->
    l <> [] /\ Forall (fun c => isDigit c = true) l /\ z = (if neg then - positional l else positional l) /\
    - 2 ^ (bits - 1) <= z < 2 ^ (bits - 1)).
  { intros neg [|c l] z'; [naive_solver|]. rewrite bind_Some. setoid_rewrite decimal_positional. split.
    - intros (v & [Hall ->] & Hz). rewrite Z.mul_0_l, Z.add_0_l in *.
      destruct (_ && _) eqn:Hb in Hz; [|done]. injection Hz as <-.
      apply andb_true_iff in Hb as [H1%Z.leb_le H2%Z.ltb_lt]. by split_and!.
    - intros (_ & Hall & -> & Hb). exists (positional (c :: l)). split; [split; [done|lia]|].
      rewrite (proj2 (andb_true_iff _ _)); [done|by rewrite Z.leb_le, Z.ltb_lt]. }
  unfold denotes. destruct (chars s) as [|c rest] eqn:Hs.
  { split; [done|]. intros [(sign & digits & He & Hne & _) _]. symmetry in He. by apply app_eq_nil in He as [_ ->]. }
  destruct (bool_decide (c = "-"%char)) eqn:Hm; [|destruct (bool_decide (c = "+"%char)) eqn:Hp]; split_guards;
    [etrans; [apply (Hdig true rest)|]|etrans; [apply (Hdig false rest)|]|etrans; [apply (Hdig false (c :: rest))|]].
  - subst c. split.
    + intros (Hne & Hall & -> & Hb). split; [|done]. exists ["-"%char], rest. split_and!; [done..|by right].
    + intros [(sign & digits & He & Hne & Hall & Hsign) Hb].
      destruct Hsign as [[[->| ->] _]|[-> ->]]; cbn in He; [|done|injection He as <-; by split_and!; try apply Hb].
      subst digits. apply Forall_cons in Hall as [Hd _]. done.
  - subst c. split.
    + intros (Hne & Hall & -> & Hb). split; [|done]. exists ["+"%char], rest. split_and!; [done..|left]. split; [by right|done].
    + intros [(sign & digits & He & Hne & Hall & Hsign) Hb].
      destruct Hsign as [[[->| ->] ->]|[-> _]]; cbn in He; [|injection He as <-; by split_and!; try apply Hb|done].
      subst digits. apply Forall_cons in Hall as [Hd _]. done.
  - split.
    + intros (Hne & Hall & -> & Hb). split; [|done]. exists [], (c :: rest). split_and!; [done..|left]. split; [by left|done].
    + intros [(sign & digits & He & Hne & Hall & Hsign) Hb].
      destruct Hsign as [[[->| ->] ->]|[-> _]]; cbn in He; [subst digits; by split_and!; try apply Hb|congruence|congruence].
Qed.

Lemma denotes_unique s z z' : denotes s z -> denotes s z' -> z = z'.
Proof.
  assert (Hin : forall z z' : Z, exists b, in_bits b z /\ in_bits b z').
  { clear. intros z z'. exists (Z.max (Z.abs z) (Z.abs z') + 1 + 1). unfold in_bits.
    pose proof (Z.pow_gt_lin_r 2 (Z.max (Z.abs z) (Z.abs z') + 1) ltac:(lia) ltac:(lia)).
    replace (Z.max (Z.abs z) (Z.abs z') + 1 + 1 - 1) with (Z.max (Z.abs z) (Z.abs z') + 1) by lia. lia. }
  destruct (Hin z z') as (b & Hb & Hb'). intros Hz Hz'.
  pose proof (proj2 (ParseInt_iff b s z) (conj Hz Hb)). pose proof (proj2 (ParseInt_iff b s z') (conj Hz' Hb')). congruence.
Qed.

Section correct.
Context (env : gmap string string).

Lemma over_Some {A} (low : option A) layer a :
  over low layer = Some a <-> exists b, low = Some b /\ over (Some b) layer = Some a.
Proof.
  unfold over. destruct layer as [p|].
  - destruct low as [b|]; simpl; (split; [intros Hp|intros (b' & Hb & Hp)]); simplify_eq; eauto.
  - split; [|intros (b & -> & Hb)]; eauto.
Qed.

Lemma parsedEnv_Ok {A} (parse : string -> option A) name fallback a :
  parsedEnv env parse name fallback = Ok a <-> over (Some fallback) (fromEnv env parse name) = Some a.
Proof.
  unfold parsedEnv, over, fromEnv. destruct (env !! name) as [v|]; simpl; [|naive_solver].
  destruct (parse v); naive_solver.
Qed.

Lemma envOr_over name fallback :
  over (Some fallback) (fromEnv env Some name) = Some (envOr env name fallback).
Proof. unfold over, fromEnv, envOr. by destruct (env !! name). Qed.

Lemma fileDuration_Ok name s field d :
  fileDuration name s field = Ok d <->
  over (Some field) (duration s) = Some d.
Proof.
  unfold fileDuration, over, duration. case_match; simpl; [naive_solver|].
  destruct (ParseDuration s); naive_solver.
Qed.

Lemma over_text s field : over (Some field) (text s) = Some (fileString s field).
Proof. unfold over, text, fileString. by destruct (bool_decide _). Qed.

Lemma over_number z field : over (Some field) (number z) = Some (default field z).
Proof. by destruct z. Qed.

Lemma over_flag (b field : bool) : over (Some field) (flag b) = Some (if b then true else field).
Proof. by destruct b. Qed.

(** One layer applied to a whole configuration. *)
Record layer := {
  l_address : option (option string); l_read : option (option Duration);
  l_header : option (option Duration); l_write : option (option Duration);
  l_idle : option (option Duration); l_queue : option (option Duration);
  l_bytes : option (option Z); l_concurrent : option (option Z); l_shutdown : option (option Duration);
  l_url : option (option string); l_max : option (option Z); l_min : option (option Z);
  l_connect : option (option Duration); l_message : option (option Z); l_insecure : option (option bool)
}.

Definition applied (l : layer) (c c' : Config) : Prop :=
  over (Some (Address (cHTTP c))) (l_address l) = Some (Address (cHTTP c')) /\
  over (Some (ReadTimeout (cHTTP c))) (l_read l) = Some (ReadTimeout (cHTTP c')) /\
  over (Some (ReadHeaderTimeout (cHTTP c))) (l_header l) = Some (ReadHeaderTimeout (cHTTP c')) /\
  over (Some (WriteTimeout (cHTTP c))) (l_write l) = Some (WriteTimeout (cHTTP c')) /\
  over (Some (IdleTimeout (cHTTP c))) (l_idle l) = Some (IdleTimeout (cHTTP c')) /\
  over (Some (QueueTimeout (cHTTP c))) (l_queue l) = Some (QueueTimeout (cHTTP c')) /\
  over (Some (MaxHeaderBytes (cHTTP c))) (l_bytes l) = Some (MaxHeaderBytes (cHTTP c')) /\
  over (Some (MaxConcurrentRequests (cHTTP c))) (l_concurrent l)
    = Some (MaxConcurrentRequests (cHTTP c')) /\
  over (Some (ShutdownTimeout c)) (l_shutdown l) = Some (ShutdownTimeout c') /\
  over (Some (DatabaseURL (cPostgres c))) (l_url l) = Some (DatabaseURL (cPostgres c')) /\
  over (Some (MaxConnections (cPostgres c))) (l_max l) = Some (MaxConnections (cPostgres c')) /\
  over (Some (MinConnections (cPostgres c))) (l_min l) = Some (MinConnections (cPostgres c')) /\
  over (Some (ConnectTimeout (cPostgres c))) (l_connect l) = Some (ConnectTimeout (cPostgres c')) /\
  over (Some (MaxMessageBytes (cPostgres c))) (l_message l) = Some (MaxMessageBytes (cPostgres c')) /\
  over (Some (AllowInsecure (cPostgres c))) (l_insecure l) = Some (AllowInsecure (cPostgres c')).

Definition fileLayer (v : fileConfig) : layer :=
  let d := duration in
  {| l_address := text (f_Address v); l_read := d (f_ReadTimeout v); l_header := d (f_ReadHeaderTimeout v);
     l_write := d (f_WriteTimeout v); l_idle := d (f_IdleTimeout v); l_queue := d (f_QueueTimeout v);
     l_bytes := number (f_MaxHeaderBytes v); l_concurrent := number (f_MaxConcurrentRequests v);
     l_shutdown := d (f_ShutdownTimeout v); l_url := text (f_URL v); l_max := number (f_MaxConnections v);
     l_min := number (f_MinConnections v); l_connect := d (f_ConnectTimeout v);
     l_message := number (f_MaxMessageBytes v); l_insecure := flag (f_AllowInsecure v) |}.

Definition envLayer : layer :=
  let d := fromEnv env ParseDuration in
  {| l_address := fromEnv env Some "SWF_HTTP_ADDRESS"; l_read := d "SWF_HTTP_READ_TIMEOUT";
     l_header := d "SWF_HTTP_READ_HEADER_TIMEOUT"; l_write := d "SWF_HTTP_WRITE_TIMEOUT";
     l_idle := d "SWF_HTTP_IDLE_TIMEOUT"; l_queue := d "SWF_HTTP_QUEUE_TIMEOUT";
     l_bytes := fromEnv env Atoi "SWF_HTTP_MAX_HEADER_BYTES";
     l_concurrent := fromEnv env Atoi "SWF_HTTP_MAX_CONCURRENT_REQUESTS";
     l_shutdown := d "SWF_SHUTDOWN_TIMEOUT"; l_url := fromEnv env Some "SWF_POSTGRES_URL";
     l_max := fromEnv env (ParseInt 32) "SWF_POSTGRES_MAX_CONNECTIONS";
     l_min := fromEnv env (ParseInt 32) "SWF_POSTGRES_MIN_CONNECTIONS";
     l_connect := d "SWF_POSTGRES_CONNECT_TIMEOUT";
     l_message := fromEnv env Atoi "SWF_POSTGRES_MAX_MESSAGE_BYTES";
     l_insecure := fromEnv env ParseBool "SWF_POSTGRES_ALLOW_INSECURE" |}.

Lemma applyEnv_applied c c' :
  applyEnv env c = Ok c' <-> applied envLayer c c'.
Proof.
  unfold applyEnv, applied, durationEnv, intEnv, int32Env, boolEnv, envLayer; cbn -[fromEnv over]. split.
  - intros HE. repeat (apply bind_Ok_inv in HE as (? & ?%parsedEnv_Ok & HE)). simplify_eq. cbn -[fromEnv over].
    split_and!; first [done|apply envOr_over].
  - intros (Ha & Hr & Hh & Hw & Hi & Hq & Hb & Hc & Hs & Hu & Hx & Hn & Hk & Hm & Hf).
    rewrite envOr_over in Ha, Hu. injection Ha as Ha. injection Hu as Hu.
    apply parsedEnv_Ok in Hr, Hh, Hw, Hi, Hq, Hb, Hc, Hs, Hx, Hn, Hk, Hm, Hf.
    rewrite Hr, Hh, Hw, Hi, Hq, Hb, Hc, Hs, Hx, Hn, Hk, Hm, Hf, Ha, Hu. by destruct c' as [[] [] ?].
Qed.

Section file.
Context (readFile : string -> option (list byte)).

Lemma applyFile_applied c name c' :
  applyFile readFile c name = Ok c' <->
  exists contents v, readFile name = Some contents /\ decodeFile contents = Ok v /\ applied (fileLayer v) c c'.
Proof.
  unfold applyFile, applied, fileLayer; cbn -[over]. split.
  - destruct (readFile name) as [contents|]; [|done].
    intros (v & Hd & HF)%bind_Ok_inv.
    repeat (apply bind_Ok_inv in HF as (? & ?%fileDuration_Ok & HF)). simplify_eq.
    exists contents, v. cbn -[over].
    split_and!; first [done|apply over_text|apply over_number|apply over_flag].
  - intros (contents & v & -> & Hd & Ha & Hr & Hh & Hw & Hi & Hq & Hb & Hc & Hs & Hu & Hx & Hn & Hk & Hm & Hf).
    rewrite over_text in Ha, Hu. rewrite over_number in Hb, Hc, Hx, Hn, Hm. rewrite over_flag in Hf.
    apply (fileDuration_Ok "HTTP read timeout") in Hr.
    apply (fileDuration_Ok "HTTP read header timeout") in Hh.
    apply (fileDuration_Ok "HTTP queue timeout") in Hq.
    apply (fileDuration_Ok "HTTP write timeout") in Hw.
    apply (fileDuration_Ok "HTTP idle timeout") in Hi.
    apply (fileDuration_Ok "PostgreSQL connect timeout") in Hk.
    apply (fileDuration_Ok "shutdown timeout") in Hs. rewrite Hd. cbn [mbind result_bind].
    rewrite Hr, Hh, Hq, Hw, Hi, Hk, Hs. injection Ha as ->. injection Hu as ->. injection Hb as ->.
    injection Hc as ->. injection Hx as ->. injection Hn as ->. injection Hm as ->. injection Hf as ->.
    by destruct c' as [[] [] ?].
Qed.
End file.
End correct.

End LoadCorrect.

(** ** Properties *)

Module LoadProperties.
Import Load LoadSpec LoadCorrect.

Section properties.
Context (env : gmap string string) (readFile : string -> option (list byte)).

(** The layers below the command line, for a file that was read. *)
Definition below (file : option fileConfig) (mid : Config) : Prop :=
  match file with None => mid = defaults | Some v => applied (fileLayer v) defaults mid end.

Lemma load_layers o mid :
  (if configFile env o == "" then Ok defaults
   else applyFile readFile defaults (configFile env o)) = Ok mid <->
  exists file, fileRead env readFile o file /\ below file mid.
Proof.
  destruct (decide (configFile env o = "")) as [Hf|Hf].
  - rewrite bool_decide_true by done. split.
    + intros [= <-]. by exists None.
    + intros ([v|] & Hr & Hb); [|by rewrite Hb]. by destruct Hr.
  - rewrite bool_decide_false by done. rewrite applyFile_applied. split.
    + intros (contents & v & Hr & (text & ws & j & x & Hd)%decodeFile_Ok & Ha). exists (Some v). split; [|done].
      split; [done|]. by exists contents, text, ws, j, x.
    + intros ([v|] & Hr & Hb); [|done]. destruct Hr as (_ & contents & text & ws & j & x & Hr & Hd).
      exists contents, v. split_and!; [done| |done]. apply decodeFile_Ok. by exists text, ws, j, x.
Qed.

(** Two layers on top of each other, as the layered settings. *)
Lemma applied_layered file mid c : below file mid -> applied (envLayer env) mid c ->
  layered env file {| ConfigFile := ""; HTTPAddress := "" |} c.
Proof.
  intros Hb (Ha & Hr & Hh & Hw & Hi & Hq & Hby & Hc & Hs & Hu & Hx & Hn & Hk & Hm & Hf).
  destruct file as [v|]; simpl in Hb.
  - destruct Hb as (?&?&?&?&?&?&?&?&?&?&?&?&?&?&?).
    split; apply over_Some; eexists; split; try eassumption; try done.
    apply over_Some; eexists; split; eassumption.
  - subst mid. by split.
Qed.

Lemma layered_applied file c :
  layered env file {| ConfigFile := ""; HTTPAddress := "" |} c ->
  exists mid, below file mid /\ applied (envLayer env) mid c.
Proof.
  intros [Ha Hr Hh Hw Hi Hq Hby Hc Hs Hu Hx Hn Hk Hm Hf].
  destruct file as [v|]; [|exists defaults; by split_and!].
  change (text (HTTPAddress _)) with (@None (option string)) in Ha.
  change (over ?x None) with x in Ha.
  apply over_Some in Ha as (xHa & Ha0 & Ha).
  apply over_Some in Hr as (xHr & Hr0 & Hr).
  apply over_Some in Hh as (xHh & Hh0 & Hh).
  apply over_Some in Hw as (xHw & Hw0 & Hw).
  apply over_Some in Hi as (xHi & Hi0 & Hi).
  apply over_Some in Hq as (xHq & Hq0 & Hq).
  apply over_Some in Hby as (xHby & Hby0 & Hby).
  apply over_Some in Hc as (xHc & Hc0 & Hc).
  apply over_Some in Hs as (xHs & Hs0 & Hs).
  apply over_Some in Hu as (xHu & Hu0 & Hu).
  apply over_Some in Hx as (xHx & Hx0 & Hx).
  apply over_Some in Hn as (xHn & Hn0 & Hn).
  apply over_Some in Hk as (xHk & Hk0 & Hk).
  apply over_Some in Hm as (xHm & Hm0 & Hm).
  apply over_Some in Hf as (xHf & Hf0 & Hf).
  exists {| cHTTP := {| Address := xHa; ReadTimeout := xHr; ReadHeaderTimeout := xHh; WriteTimeout := xHw;
              IdleTimeout := xHi; MaxHeaderBytes := xHby; MaxConcurrentRequests := xHc;
              QueueTimeout := xHq |};
            cPostgres := {| DatabaseURL := xHu; MaxConnections := xHx; MinConnections := xHn;
              ConnectTimeout := xHk; MaxMessageBytes := xHm; AllowInsecure := xHf |};
            ShutdownTimeout := xHs |}.
  by split_and!.
Qed.

(** The command line replaces the address only. *)
Lemma layered_override file o c :
  layered env file o c <->
  exists c0, layered env file {| ConfigFile := ""; HTTPAddress := "" |} c0 /\
    c = if HTTPAddress o == "" then c0 else with_Address c0 (HTTPAddress o).
Proof.
  split.
  - intros [Ha Hr Hh Hw Hi Hq Hby Hc Hs Hu Hx Hn Hk Hm Hf].
    apply over_Some in Ha as (a0 & Ha0 & Ha). rewrite over_text in Ha. injection Ha as Ha.
    exists (with_Address c a0). split; [by split|].
    unfold fileString in Ha. destruct c as [[] ? ?]; cbn in *. case_match; cbn in *; by subst.
  - intros (c0 & [Ha Hr Hh Hw Hi Hq Hby Hc Hs Hu Hx Hn Hk Hm Hf] & ->).
    change (text (HTTPAddress _)) with (@None (option string)) in Ha.
    change (over ?x None) with x in Ha.
    split; try (case_match; done). apply over_Some. exists (Address (cHTTP c0)). split; [done|].
    rewrite over_text. unfold fileString. by case_match.
Qed.

Lemma load_sound o c : LoadWithOverrides env readFile o = Ok c ->
  operable c /\ exists file, fileRead env readFile o file /\ layered env file o c.
Proof.
  unfold LoadWithOverrides.
  intros (mid & Hmid & HL)%bind_Ok_inv. apply bind_Ok_inv in HL as (c0 & Henv & HL).
  apply bind_Ok_inv in HL as ([] & HV & [= <-]). apply Validate_iff in HV. split; [done|].
  apply load_layers in Hmid as (file & Hr & Hb). apply applyEnv_applied in Henv.
  exists file. split; [done|]. apply layered_override. eauto using applied_layered.
Qed.

(** C9.  Loading is layering: [LoadWithOverrides] returns a configuration
    exactly when the file it names (if any) is one strictly decoded JSON value,
    every setting is the value of its highest layer that says anything, of
    default, file, environment and command line, no layer is malformed, and the
    result is operable.  Secrets have no command-line layer. *)
Theorem LoadWithOverrides_layers (o : Overrides) (c : Config) :
  LoadWithOverrides env readFile o = Ok c <->
  operable c /\
  exists file, fileRead env readFile o file /\ layered env file o c.
Proof.
  split; [apply load_sound|].
  intros (HV & file & Hr & (c0 & Hc0 & ->)%layered_override). unfold LoadWithOverrides.
  apply layered_applied in Hc0 as (mid & Hb & Henv). apply applyEnv_applied in Henv.
  rewrite (proj2 (load_layers o mid)) by eauto. simpl. rewrite Henv. simpl.
  apply Validate_iff in HV. by rewrite HV.
Qed.

(** What a file with one number is read as. *)
Lemma oneNumber_read o place text f :
  readFile (configFile env o) = Some (bytes_of (of_chars (Json.encode (oneNumber place text)))) ->
  ValidString (fst place) = true -> ValidString (snd place) = true -> JsonGrammar.numberText (chars text) ->
  fileRead env readFile o (Some f) ->
  exists x, JsonDecode.store true fileConfigType (JsonDecode.zero fileConfigType) (oneNumber place text) = (x, None) /\
    fileConfigOf x = Some f.
Proof.
  intros Hr H1 H2 Hn (_ & contents & t & ws & v & x & Hr' & Ht & Hv & Hws & Hs & Hx). rewrite Hr in Hr'. injection Hr' as <-.
  assert (Hp : JsonRoundTrip.printable 0 (oneNumber place text)) by (repeat constructor; done).
  pose proof (JsonRoundTrip.parseAll_encode _ [] Hp ltac:(constructor)) as HP. rewrite app_nil_r in HP.
  assert (HP' : JsonScan.parseAll (JsonDecode.textOf (bytes_of (of_chars (Json.encode (oneNumber place text))))) = Some v).
  { apply JsonScanCorrect.parseAll_iff. by exists t, ws. }
  unfold JsonDecode.textOf in HP'. rewrite String.string_of_list_byte_of_string, chars_of_chars, HP in HP'. injection HP' as <-. by exists x.
Qed.

(** A given integer setting is what its text parses to, at the width of its type. *)
Lemma given_parsed o variable place bits get text c : (variable, place, bits, get) ∈ integerSettings ->
  given env readFile o variable place text -> LoadWithOverrides env readFile o = Ok c ->
  ParseInt bits text = Some (get c).
Proof.
  intros Hin [He|(He & Hf & Hn & Hr)] (_ & file & Hread & Hl)%load_sound; destruct Hl.
  - unfold integerSettings in Hin. repeat (apply elem_of_cons in Hin as [[= -> -> -> ->]|Hin];
      [match goal with H : over _ (fromEnv _ _ ?v) = Some (?g _) |- _ = Some (?g _) =>
         apply over_Some in H as (low & _ & H); unfold fromEnv, over in H; rewrite He in H; exact H end|]).
    by apply elem_of_nil in Hin.
  - destruct file as [f|]; [|by destruct Hf].
    assert (Hv : ValidString (fst place) = true /\ ValidString (snd place) = true).
    { unfold integerSettings in Hin. repeat (apply elem_of_cons in Hin as [[= -> -> -> ->]|Hin]; [by split|]). by apply elem_of_nil in Hin. }
    destruct (oneNumber_read o place text f Hr (proj1 Hv) (proj2 Hv) Hn Hread) as (x & Hs & Hx). clear Hread Hr Hv.
    unfold integerSettings in Hin. repeat (apply elem_of_cons in Hin as [[= -> -> -> ->]|Hin];
      [match goal with H : over (over _ _) (fromEnv _ _ ?v) = Some (?g _) |- _ = Some (?g _) =>
         unfold fromEnv in H; rewrite He in H; cbn [fmap option_fmap option_map over] in H;
         lazy -[ParseInt] in Hs; destruct (ParseInt _ text) as [z|] eqn:HP; lazy in Hs; [|done];
         injection Hs as <-; injection Hx as <-; exact H end|]).
    by apply elem_of_nil in Hin.
Qed.

(** C25.  Integer settings never wrap or lose digits: a setting that is given as a text,
    by its variable or, where that is not set, by a file that holds this number, is
    loaded as exactly the integer that the text denotes, an optional sign and decimal
    digits, and that integer is within the 64 or 32 bits of the setting's Go type; a text
    that denotes an integer outside them makes loading fail, and so does a text that
    denotes none, such as a fraction. *)
Theorem LoadWithOverrides_never_wraps (o : Overrides) (variable : string) (place : string * string) (bits : Z)
    (get : Config -> Z) (text : string) :
  (variable, place, bits, get) ∈ integerSettings -> given env readFile o variable place text ->
  (forall c, LoadWithOverrides env readFile o = Ok c -> denotes text (get c) /\ in_bits bits (get c)) /\
  (forall z, denotes text z -> ~ in_bits bits z -> exists e, LoadWithOverrides env readFile o = Err e) /\
  ((forall z, ~ denotes text z) -> exists e, LoadWithOverrides env readFile o = Err e).
Proof.
  intros Hin Hg.
  assert (Hok : forall c, LoadWithOverrides env readFile o = Ok c -> denotes text (get c) /\ in_bits bits (get c)).
  { intros c HL. apply ParseInt_iff. by eapply given_parsed. }
  split; [done|]. destruct (LoadWithOverrides env readFile o) as [c|e]; [|by split; eauto].
  destruct (Hok c eq_refl) as [Hd Hb]. split.
  - intros z Hz Hout. destruct Hout. by rewrite (denotes_unique _ _ _ Hz Hd).
  - intros Hno. by destruct (Hno (get c)).
Qed.

End properties.

(** The defaults alone load; a variable is read over them; a file is read below
    the environment; and a second value, an unknown field, a number out of range
    and a bare number for a duration are refused. *)
Definition sampleFile : string :=
  "{'http':{'address':':9000','ReadTimeout':'2.5s','MaxHeaderBytes':4096},
    'Postgres':{'MaxConnections':20,'AllowInsecure':true,'MinConnections':null},'ShutdownTimeout':'1m30s'} ".

Definition loadFile (contents : string) : result config_error Config :=
  LoadWithOverrides {[ "SWF_HTTP_MAX_HEADER_BYTES" := "8192"; "SWF_POSTGRES_CONNECT_TIMEOUT" := "750ms" ]}
    (fun _ => Some (JsonDecode.quoted contents)) {| ConfigFile := "app.json"; HTTPAddress := "" |}.

Example Load_sample :
  Load ∅ (fun _ => None) = Ok defaults /\
  Load {[ "SWF_POSTGRES_MAX_CONNECTIONS" := "0" ]} (fun _ => None) =
    Err (Invalid "PostgreSQL max connections must be positive") /\
  loadFile sampleFile = Ok {|
    cHTTP := {| Address := ":9000"; ReadTimeout := 2500 * Millisecond; ReadHeaderTimeout := 5 * Second;
                WriteTimeout := 10 * Second; IdleTimeout := 60 * Second; MaxHeaderBytes := 8192;
                MaxConcurrentRequests := 128; QueueTimeout := 100 * Millisecond |};
    cPostgres := {| DatabaseURL := ""; MaxConnections := 20; MinConnections := 1;
                    ConnectTimeout := 750 * Millisecond; MaxMessageBytes := Z.shiftl 16 20; AllowInsecure := true |};
    ShutdownTimeout := 90 * Second |} /\
  map loadFile ["{} {}"; "{'Database':{}}"; "{'Postgres':{'MaxConnections':2147483648}}"; "{'ShutdownTimeout':'10'}"] =
    [Err MultipleJSONValues; Err ParseConfigurationFile; Err ParseConfigurationFile;
     Err (ParseFileField "shutdown timeout")].
Proof. vm_compute. done. Qed.

Lemma LoadWithOverrides_never_wraps_witness : exists e,
  LoadWithOverrides {[ "SWF_POSTGRES_MAX_CONNECTIONS" := "4294967301" ]} (fun _ => None)
    {| ConfigFile := ""; HTTPAddress := "" |} = Err e.
Proof.
  apply (LoadWithOverrides_never_wraps {[ "SWF_POSTGRES_MAX_CONNECTIONS" := "4294967301" ]} (fun _ => None)
    {| ConfigFile := ""; HTTPAddress := "" |} "SWF_POSTGRES_MAX_CONNECTIONS" ("Postgres", "MaxConnections") 32
    (fun c => MaxConnections (cPostgres c)) "4294967301") with (z := 4294967301).
  - do 2 right. left.
  - left. reflexivity.
  - exists [], (chars "4294967301"). split; [reflexivity|]. split; [discriminate|].
    split; [repeat constructor|]. left. split; [left; reflexivity|vm_compute; reflexivity].
  - intros [_ Hlt]. vm_compute in Hlt. discriminate Hlt.
Defined.

End LoadProperties.
