(* ===== verification/Transactions.v ===== *)
(** * Database sessions: what the framework relies on of PostgreSQL transactions

    A session holds the durable state and at most one transaction, which works
    on a copy of it.  A statement that fails aborts the transaction; only a commit
    makes its work durable.  The acknowledgement of a commit can be lost, and then
    the client learns nothing of whether it was applied. *)

From S2P Require Import Prelude.

(** No transaction, one with its private state, or one that a failed statement
    aborted. *)
Inductive txState (D : Type) := Closed | Active (d : D) | Aborted.
Arguments Closed {D}. Arguments Active {D}. Arguments Aborted {D}.

Record session (D : Type) := { durable : D; tx : txState D }.
Arguments durable {D}. Arguments tx {D}.

(** How the server and the network treat a commit. *)
Inductive commitOutcome := Committed | Refused | AckLost (applied : bool).

Module Tx.
Section tx.
Context {D : Type}.
Implicit Types (s : session D).

Definition idle (d : D) : session D := {| durable := d; tx := Closed |}.

Definition Begin s : session D := {| durable := durable s; tx := Active (durable s) |}.

(** [tx.Exec]: the new state, and whether it returned no error. *)
Definition Exec (statement : D -> option D) s : session D * bool :=
  match tx s with
  | Active d =>
      match statement d with
      | Some d' => ({| durable := durable s; tx := Active d' |}, true)
      | None => ({| durable := durable s; tx := Aborted |}, false)
      end
  | _ => (s, false)
  end.

(** [tx.Commit]: committing an aborted transaction rolls it back and reports an
    error, as does committing a closed one. *)
Definition Commit (c : commitOutcome) s : session D * bool :=
  match tx s with
  | Active d =>
      match c with
      | Committed => (idle d, true)
      | Refused => (idle (durable s), false)
      | AckLost applied => (idle (if applied then d else durable s), false)
      end
  | Aborted => (idle (durable s), false)
  | Closed => (s, false)
  end.

(** [tx.Rollback]; on a closed transaction it has no effect. *)
Definition Rollback s : session D := {| durable := durable s; tx := Closed |}.

Lemma Exec_durable statement s : durable (fst (Exec statement s)) = durable s.
Proof. unfold Exec. by destruct (tx s) as [|d|]; [|destruct (statement d)|]. Qed.

Lemma Commit_true c s s' : Commit c s = (s', true) -> c = Committed /\ exists d, tx s = Active d /\ s' = idle d.
Proof.
  unfold Commit. destruct (tx s) as [|d|]; [done| |done].
  destruct c; intros [= <-]. split; [done|]. by exists d.
Qed.

(** A commit that reports an error kept the state, or lost the acknowledgement of
    one that was applied. *)
Lemma Commit_false c s s' : Commit c s = (s', false) ->
  durable s' = durable s \/ c = AckLost true /\ exists d, tx s = Active d /\ s' = idle d.
Proof.
  unfold Commit. destruct (tx s) as [|d|]; [by intros [= <-]; left| |by intros [= <-]; left].
  destruct c as [| |[]]; intros [= <-]; [by left| |by left]. right. split; [done|]. by exists d.
Qed.
End tx.
End Tx.

(** ** The connection below a transaction

    A script sent over the connection may end the server's transaction without the
    client's transaction object knowing.  Without one, a statement takes effect at
    once, and a commit succeeds with a warning. *)
Module Conn.
Section conn.
Context {D : Type}.
Implicit Types (s : session D).

Definition Exec (statement : D -> option D) s : session D * bool :=
  match tx s with
  | Closed =>
      match statement (durable s) with
      | Some d => (Tx.idle d, true)
      | None => (s, false)
      end
  | _ => Tx.Exec statement s
  end.

Definition Commit (c : commitOutcome) s : session D * bool :=
  match tx s with
  | Closed => (s, match c with Committed => true | _ => false end)
  | _ => Tx.Commit c s
  end.
End conn.
End Conn.
