(* ===== verification/Migrate.v ===== *)
(** * Schema migrations ([data/migrate/migrate.go])

    [Load] selects, checks and sorts migration files; [Apply] runs the pending
    ones in one transaction.  The database is its schema and the bookkeeping
    table; what a file does when it is sent over the connection, which may be
    anything, and where the connection fails, are arguments; transactions are those
    of [Transactions]. *)

From S2P Require Import Prelude GoStrings Sha256 Transactions.

Record Migration := { Version : Z; Name : string; SQL : list byte; Checksum : string }.

Inductive migrate_error :=
  | ReadMigrations | InvalidVersion (name : string) | DuplicateVersion (v : Z) | ReadMigration (name : string)
  | PoolRequired | BeginFailed | LockFailed | CreateTableFailed | ReadStateFailed
  | ChecksumChanged (v : Z) | ApplyFailed (v : Z) | RecordFailed (v : Z) | CommitFailed.

Module Migrate.
Import Sha256.

(** ** Loading *)

Definition lowerAlnum (c : ascii) : bool := isLower c || isDigit c.
Definition nameChar (c : ascii) : bool := lowerAlnum c || (c == "_"%char) || (c == "-"%char).

Fixpoint span (f : ascii -> bool) (l : list ascii) : list ascii * list ascii :=
  match l with
  | c :: rest => if f c then let '(a, b) := span f rest in (c :: a, b) else ([], l)
  | [] => ([], [])
  end.

(** [filenamePattern]: the digits it captures. *)
Definition matchFilename (name : string) : option string :=
  let '(digits, rest) := span isDigit (chars name) in
  match digits, rest with
  | _ :: _, "_"%char :: c :: rest =>
      if lowerAlnum c && (snd (span nameChar rest) == chars ".up.sql") then Some (of_chars digits) else None
  | _, _ => None
  end.

Record dirEntry := { EntryName : string; IsDir : bool }.

Section load.
Variable readFile : string -> option (list byte).

(** The loop over the directory; [seen] is kept as the versions so far. *)
Fixpoint Load_loop (seen : gset Z) (entries : list dirEntry) : result migrate_error (list Migration) :=
  match entries with
  | [] => Ok []
  | entry :: entries =>
      if IsDir entry then Load_loop seen entries
      else
        match matchFilename (EntryName entry) with
        | None => Load_loop seen entries
        | Some digits =>
            match ParseInt 64 digits with
            | None => Err (InvalidVersion (EntryName entry))
            | Some version =>
                if version <=? 0 then Err (InvalidVersion (EntryName entry))
                else if bool_decide (version ∈ seen) then Err (DuplicateVersion version)
                else
                  match readFile (EntryName entry) with
                  | None => Err (ReadMigration (EntryName entry))
                  | Some contents =>
                      rest ← Load_loop ({[ version ]} ∪ seen) entries;
                      Ok ({| Version := version; Name := EntryName entry; SQL := contents;
                             Checksum := hexEncode (Sum256 contents) |} :: rest)
                  end
            end
        end
  end.

Definition version_le (a b : Migration) : Prop := Version a <= Version b.
#[export] Instance version_le_dec : RelDecision version_le.
Proof. intros a b. unfold version_le. apply _. Defined.

Definition Load (entries : option (list dirEntry)) : result migrate_error (list Migration) :=
  match entries with
  | None => Err ReadMigrations
  | Some entries => ms ← Load_loop ∅ entries; Ok (merge_sort version_le ms)
  end.
End load.

(** ** Applying *)

(** The rows of [swf_schema_migrations]: name and checksum by version. *)
Record database (S : Type) := { schema : S; table : gmap Z (string * string) }.
Arguments schema {S}. Arguments table {S}.

(** The database's side of the conversation: what the text of a file does to the
    session (it is sent without arguments, so it may hold any statements, also ones
    that end the transaction or change the bookkeeping) and whether it succeeds, and
    which operations fail for other reasons. *)
Record server (S : Type) := {
  execSQL : list byte -> session (database S) -> session (database S) * bool;
  beginOk : bool; lockOk : bool; createOk : bool; queryOk : bool; commit : commitOutcome;
  insertOk : Z -> bool
}.
Arguments execSQL {S}. Arguments beginOk {S}. Arguments lockOk {S}. Arguments createOk {S}.
Arguments queryOk {S}. Arguments commit {S}. Arguments insertOk {S}.

Section apply.
Context {S : Type} (srv : server S).

(** The insertion of a row, whose key must be new. *)
Definition insertRow (m : Migration) (d : database S) : option (database S) :=
  if insertOk srv (Version m) && bool_decide (table d !! Version m = None)
  then Some {| schema := schema d; table := <[Version m := (Name m, Checksum m)]> (table d) |} else None.

(** The loop over the migrations; [applied] was read before it. *)
Fixpoint Apply_loop (applied : gmap Z string) (s : session (database S)) (ms : list Migration)
    : session (database S) * result migrate_error unit :=
  match ms with
  | [] => (s, Ok tt)
  | m :: ms =>
      match applied !! Version m with
      | Some checksum =>
          if checksum != Checksum m then (s, Err (ChecksumChanged (Version m))) else Apply_loop applied s ms
      | None =>
          let '(s, ok) := execSQL srv (SQL m) s in
          if negb ok then (s, Err (ApplyFailed (Version m)))
          else
            let '(s, ok) := Conn.Exec (insertRow m) s in
            if negb ok then (s, Err (RecordFailed (Version m))) else Apply_loop applied s ms
      end
  end.

(** [Apply]: the lock, the table and the state it reads come first, and the
    deferred rollback runs on every exit after the begin. *)
Definition Apply (pool : bool) (s : session (database S)) (ms : list Migration)
    : session (database S) * result migrate_error unit :=
  if negb pool then (s, Err PoolRequired)
  else if negb (beginOk srv) then (s, Err BeginFailed)
  else
    let s := Tx.Begin s in
    let '(s, r) :=
      if negb (lockOk srv) then (s, Err LockFailed)
      else if negb (createOk srv) then (s, Err CreateTableFailed)
      else if negb (queryOk srv) then (s, Err ReadStateFailed)
      else
        let '(s, r) := Apply_loop (snd <$> table (durable s)) s ms in
        match r with
        | Err e => (s, Err e)
        | Ok _ =>
            let '(s, ok) := Conn.Commit (commit srv) s in
            (s, if ok then Ok tt else Err CommitFailed)
        end in
    (Tx.Rollback s, r).
End apply.

End Migrate.

(** ** Facts *)

Module MigrateCorrect.
Import Sha256 Migrate.

Section load.
Context (readFile : string -> option (list byte)).

(** What one directory entry contributes: nothing, an error, or a migration. *)
Definition candidate (e : dirEntry) : option (option Migration) :=
  if IsDir e then None
  else
    digits ← matchFilename (EntryName e);
    Some (version ← ParseInt 64 digits;
          if version <=? 0 then None
          else
            contents ← readFile (EntryName e);
            Some {| Version := version; Name := EntryName e; SQL := contents;
                    Checksum := hexEncode (Sum256 contents) |}).

Lemma Load_loop_Ok es : forall seen ms,
  Load_loop readFile seen es = Ok ms <->
  omap candidate es = map Some ms /\ NoDup (map Version ms) /\ Forall (fun m => Version m ∉ seen) ms.
Proof.
  induction es as [|e es IH]; intros seen ms; simpl.
  { split; [intros [= <-]|intros ([= Hms%symmetry%map_eq_nil] & _)]; [|by subst].
    split_and!; [done|constructor|constructor]. }
  unfold candidate at 1. destruct (IsDir e); [apply IH|].
  destruct (matchFilename (EntryName e)) as [digits|]; simpl; [|apply IH].
  destruct (ParseInt 64 digits) as [v|]; simpl; [|split; [done|]; by destruct ms; intros ([=] & _)].
  case_match; [split; [done|]; by destruct ms; intros ([=] & _)|].
  destruct (readFile (EntryName e)) as [contents|]; simpl.
  2:{ split; [by case_match|]. by destruct ms; intros ([=] & _). }
  set (m := {| Version := v |}).
  split.
  - intros HL. case_match; [done|]. split_guards. apply bind_Ok_inv in HL as (rest & Hr & [= <-]).
    apply IH in Hr as (Ho & Hnd & Hf). split; [simpl; f_equal; exact Ho|].
    rewrite Forall_forall in Hf. split.
    + constructor; [|done]. intros (m' & Hv & Hm')%list_elem_of_In%in_map_iff.
      apply list_elem_of_In in Hm'. apply Hf in Hm'. set_solver.
    + constructor; [done|]. rewrite Forall_forall. intros x Hx. apply Hf in Hx. set_solver.
  - destruct ms as [|m' ms]; intros ([=] & Hnd & Hf). subst m'. simpl in Hnd.
    apply NoDup_cons in Hnd as [Hv Hnd]. apply Forall_cons in Hf as [Hm Hf].
    rewrite bool_decide_false by done. rewrite (proj2 (IH ({[v]} ∪ seen) ms)); [done|].
    split_and!; [done|done|]. rewrite Forall_forall in *. intros x Hx. apply not_elem_of_union.
    split; [|by apply Hf]. apply not_elem_of_singleton. intros Heq. apply Hv.
    apply list_elem_of_In, in_map_iff. exists x. split; [done|by apply list_elem_of_In].
Qed.
End load.

Section sorting.
#[export] Instance version_le_trans : Transitive version_le.
Proof. intros a b c. unfold version_le. lia. Qed.
#[export] Instance version_le_total : Total version_le.
Proof. intros a b. unfold version_le. lia. Qed.

Lemma Version_inj_NoDup ms m m' : NoDup (map Version ms) -> m ∈ ms -> m' ∈ ms ->
  Version m = Version m' -> m = m'.
Proof.
  induction ms as [|x ms IH]; simpl; [by intros _ ?%elem_of_nil|].
  intros [Hx Hnd]%NoDup_cons Hm Hm' Hv.
  assert (Hin : forall y, y ∈ ms -> Version y ∈ map Version ms).
  { intros y Hy. apply list_elem_of_In, in_map_iff. exists y. split; [done|by apply list_elem_of_In]. }
  apply elem_of_cons in Hm as [->|Hm]; apply elem_of_cons in Hm' as [->|Hm']; try done.
  - exfalso. apply Hx. rewrite Hv. auto.
  - exfalso. apply Hx. rewrite <- Hv. auto.
  - auto.
Qed.

Lemma sorted_strictly ms : NoDup (map Version ms) ->
  StronglySorted (fun a b => Version a < Version b) (merge_sort version_le ms).
Proof.
  intros Hnd. pose proof (StronglySorted_merge_sort version_le ms) as Hs.
  assert (Hp : NoDup (map Version (merge_sort version_le ms))).
  { rewrite (merge_sort_Permutation version_le ms). done. }
  induction Hs as [|m l Hs IH Hall]; [constructor|]. simpl in Hp. apply NoDup_cons in Hp as [Hm Hp].
  constructor; [auto|]. rewrite Forall_forall in *. intros x Hx. pose proof (Hall x Hx) as Hle.
  unfold version_le in Hle. destruct (decide (Version m = Version x)) as [He|]; [|lia].
  exfalso. apply Hm. rewrite He. apply list_elem_of_In, in_map_iff. exists x.
  split; [done|by apply list_elem_of_In].
Qed.

Lemma merge_sort_unique ms ms' : NoDup (map Version ms) -> ms ≡ₚ ms' ->
  merge_sort version_le ms = merge_sort version_le ms'.
Proof.
  intros Hnd Hp. apply (StronglySorted_unique_strong version_le).
  - intros x y Hx Hy Hxy Hyx. apply (Version_inj_NoDup ms); [done| | |].
    + by rewrite <- (merge_sort_Permutation version_le ms).
    + rewrite Hp. by rewrite <- (merge_sort_Permutation version_le ms').
    + unfold version_le in *. lia.
  - apply StronglySorted_merge_sort; apply _.
  - apply StronglySorted_merge_sort; apply _.
  - by rewrite !merge_sort_Permutation.
Qed.
End sorting.

Section apply.
Context {S : Type} (srv : server S) (run : list byte -> S -> option S).
Implicit Types (applied : gmap Z string) (d : database S).

(** A file that stays within its transaction and off the bookkeeping: in an active
    transaction it changes the schema as [run] says, or fails. *)
Definition contained (m : Migration) : Prop := forall s d, tx s = Active d ->
  execSQL srv (SQL m) s =
  Tx.Exec (fun d => s' ← run (SQL m) (schema d); Some {| schema := s'; table := table d |}) s.

(** What the loop does to the state of the transaction when every file is so. *)
Fixpoint upgradeLoop applied d (ms : list Migration) : result migrate_error (database S) :=
  match ms with
  | [] => Ok d
  | m :: ms =>
      match applied !! Version m with
      | Some checksum =>
          if checksum != Checksum m then Err (ChecksumChanged (Version m)) else upgradeLoop applied d ms
      | None =>
          match run (SQL m) (schema d) with
          | None => Err (ApplyFailed (Version m))
          | Some s =>
              match insertRow srv m {| schema := s; table := table d |} with
              | None => Err (RecordFailed (Version m))
              | Some d => upgradeLoop applied d ms
              end
          end
      end
  end.

Lemma Apply_loop_contained applied D d ms : (forall m, m ∈ ms -> contained m) ->
  let s := {| durable := D; tx := Active d |} in
  match upgradeLoop applied d ms with
  | Ok d' => Apply_loop srv applied s ms = ({| durable := D; tx := Active d' |}, Ok tt)
  | Err e => exists s', Apply_loop srv applied s ms = (s', Err e) /\ durable s' = D
  end.
Proof.
  revert d. induction ms as [|m ms IH]; intros d Hms; cbn [upgradeLoop Apply_loop]; [done|].
  assert (Hms' : forall x, x ∈ ms -> contained x) by (intros x Hx; apply Hms; by right).
  destruct (applied !! Version m) as [c|]; [destruct (c != Checksum m); [by eexists|by apply IH]|].
  rewrite (Hms m ltac:(left) {| durable := D; tx := Active d |} d eq_refl). unfold Tx.Exec. cbn [tx durable].
  destruct (run (SQL m) (schema d)) as [s|]; cbn [mbind option_bind negb]; [|by eexists].
  unfold Conn.Exec, Tx.Exec. cbn [tx durable].
  destruct (insertRow srv m _) as [d'|]; cbn [negb]; [by apply IH|by eexists].
Qed.

Lemma upgradeLoop_app applied d ms1 ms2 :
  upgradeLoop applied d (ms1 ++ ms2) = (d1 ← upgradeLoop applied d ms1; upgradeLoop applied d1 ms2).
Proof.
  revert d. induction ms1 as [|m ms1 IH]; intros d; simpl; [done|].
  destruct (applied !! Version m) as [c|]; [by case_match|].
  destruct (run (SQL m) (schema d)); [|done]. by destruct (insertRow srv m _).
Qed.

Lemma upgradeLoop_ext applied applied' d ms :
  (forall m, m ∈ ms -> applied !! Version m = applied' !! Version m) ->
  upgradeLoop applied d ms = upgradeLoop applied' d ms.
Proof.
  revert d. induction ms as [|m ms IH]; intros d Heq; simpl; [done|].
  rewrite (Heq m) by by left.
  assert (Heq' : forall x, x ∈ ms -> applied !! Version x = applied' !! Version x)
    by (intros x Hx; apply Heq; by right).
  destruct (applied' !! Version m) as [c|]; [by rewrite IH|].
  destruct (run (SQL m) (schema d)); [|done].
  destruct (insertRow srv m _); [by rewrite IH|done].
Qed.

(** What a completed loop has recorded. *)
Lemma upgradeLoop_table applied d ms d' : upgradeLoop applied d ms = Ok d' ->
  (forall v, is_Some (table d !! v) -> table d' !! v = table d !! v) /\
  (forall v, table d' !! v = None -> table d !! v = None) /\
  (forall m, m ∈ ms ->
     applied !! Version m = Some (Checksum m) \/
     applied !! Version m = None /\ table d' !! Version m = Some (Name m, Checksum m)) /\
  (forall v r, table d' !! v = Some r -> table d !! v = Some r \/
     exists m, m ∈ ms /\ Version m = v /\ applied !! v = None /\ r = (Name m, Checksum m)).
Proof.
  revert d. induction ms as [|m ms IH]; intros d; simpl.
  { intros [= <-]. split_and!; try done; [by intros m ?%elem_of_nil|by left]. }
  destruct (applied !! Version m) as [c|] eqn:Hap.
  - case_match; [done|]. split_guards. intros (H1 & H2 & H3 & H4)%IH. split_and!; try done.
    + intros x [->|Hx]%elem_of_cons; [left; by subst|by apply H3].
    + intros v r Hr. apply H4 in Hr as [Hr|(x & Hx & Hr)]; [by left|right; exists x].
      split; [by right|done].
  - destruct (run (SQL m) (schema d)) as [s|]; [|done]. unfold insertRow.
    destruct (insertOk srv (Version m) && _) eqn:Hins; [|done]. split_guards.
    intros (G1 & G2 & G3 & G4)%IH. simpl in *. split_and!.
    + intros v [r Hr]. assert (Version m <> v) by (intros <-; simplify_eq).
      specialize (G1 v). rewrite lookup_insert_ne in G1 by done. apply G1. by rewrite Hr.
    + intros v Hv. apply G2 in Hv. by apply lookup_insert_None in Hv as [? _].
    + intros x [->|Hx]%elem_of_cons; [|by apply G3]. right. split; [done|].
      rewrite G1 by (rewrite lookup_insert_eq; eauto). by rewrite lookup_insert_eq.
    + intros v r Hr. apply G4 in Hr as [Hr|(x & Hx & Hr)].
      * apply lookup_insert_Some in Hr as [[Hv <-]|[_ Hr]]; [|by left]. right.
        exists m. split; [by left|]. by subst v.
      * right. exists x. split; [by right|done].
Qed.

(** A loop over recorded migrations does nothing. *)
Lemma upgradeLoop_done applied d ms :
  (forall m, m ∈ ms -> applied !! Version m = Some (Checksum m)) -> upgradeLoop applied d ms = Ok d.
Proof.
  induction ms as [|m ms IH]; intros Ha; simpl; [done|].
  rewrite Ha by by left. rewrite bool_decide_true by done. simpl. apply IH.
  intros x Hx. apply Ha. by right.
Qed.

Lemma upgradeLoop_recorded d ms d' :
  upgradeLoop (snd <$> table d) d ms = Ok d' ->
  forall m, m ∈ ms -> (snd <$> table d') !! Version m = Some (Checksum m).
Proof.
  intros (H1 & _ & H3 & _)%upgradeLoop_table m Hm. rewrite lookup_fmap.
  destruct (H3 m Hm) as [Hc|[_ ->]]; [|done]. rewrite lookup_fmap in Hc.
  destruct (table d !! Version m) as [r|] eqn:Hr; [|done]. rewrite H1 by eauto. by rewrite Hr.
Qed.

Lemma Apply_Ok pool s ms s' : (forall m, m ∈ ms -> contained m) ->
  Apply srv pool s ms = (s', Ok tt) <->
  pool = true /\ beginOk srv = true /\ lockOk srv = true /\ createOk srv = true /\
  queryOk srv = true /\ commit srv = Committed /\ tx s' = Closed /\
  upgradeLoop (snd <$> table (durable s)) (durable s) ms = Ok (durable s').
Proof.
  intros Hms. unfold Apply. destruct pool, (beginOk srv), (lockOk srv), (createOk srv), (queryOk srv); cbn [negb];
    try naive_solver.
  pose proof (Apply_loop_contained (snd <$> table (durable s)) (durable s) (durable s) ms Hms) as HL. cbv zeta in HL.
  change (durable (Tx.Begin s)) with (durable s). unfold Tx.Begin.
  destruct (upgradeLoop _ _ ms) as [d|e]; [rewrite HL|destruct HL as (s1 & -> & _); naive_solver].
  unfold Conn.Commit, Tx.Commit. cbn [tx]. destruct (commit srv) as [| |a]; cbn; [|naive_solver..].
  split; [intros [= <-]; by split_and!|]. intros (_ & _ & _ & _ & _ & _ & Ht & [= ->]).
  destruct s' as [d' t]. cbn in Ht. subst t. done.
Qed.

(** Any other end leaves the database as it was, unless the acknowledgement of
    the commit was lost. *)
Lemma Apply_Err pool s ms s' e : (forall m, m ∈ ms -> contained m) -> tx s = Closed ->
  Apply srv pool s ms = (s', Err e) ->
  tx s' = Closed /\
  (durable s' = durable s \/
   e = CommitFailed /\ commit srv = AckLost true /\
   upgradeLoop (snd <$> table (durable s)) (durable s) ms = Ok (durable s')).
Proof.
  intros Hms Hs. unfold Apply. destruct pool; cbn [negb]; [|intros [= <- _]; by split; [|left]].
  destruct (beginOk srv); cbn [negb]; [|intros [= <- _]; by split; [|left]].
  destruct (lockOk srv), (createOk srv), (queryOk srv); cbn [negb]; try (intros [= <- _]; by split; [|left]).
  pose proof (Apply_loop_contained (snd <$> table (durable s)) (durable s) (durable s) ms Hms) as HL. cbv zeta in HL.
  change (durable (Tx.Begin s)) with (durable s). unfold Tx.Begin.
  destruct (upgradeLoop _ _ ms) as [d|e']; [rewrite HL|destruct HL as (s1 & -> & <-); intros [= <- _]; by split; [|left]].
  change (Conn.Commit (commit srv) ?s) with (Tx.Commit (commit srv) s).
  destruct (Tx.Commit (commit srv) _) as [s1 ok] eqn:HC. destruct ok; intros [= <- <-].
  apply Tx.Commit_false in HC as [HC|[-> (d' & [= <-] & ->)]]; (split; [done|]); [by left|right]. done.
Qed.
End apply.

End MigrateCorrect.

(** ** Properties *)

Module MigrateProperties.
Import Sha256 Migrate MigrateCorrect.

(** Loaded migrations are complete and ordered: they are strictly
    increasing in version, and are exactly the regular files whose names have
    the migration form, each with a positive version, its contents and their
    SHA-256 checksum; the order in which the directory is listed does not
    matter. *)
Theorem Load_complete (readFile : string -> option (list byte)) (es es' : list dirEntry)
    (ms : list Migration) :
  Load readFile (Some es) = Ok ms -> es ≡ₚ es' ->
  Load readFile (Some es') = Ok ms /\
  StronglySorted (fun a b => Version a < Version b) ms /\
  forall m, m ∈ ms <-> exists e digits, e ∈ es /\ IsDir e = false /\
    matchFilename (EntryName e) = Some digits /\ ParseInt 64 digits = Some (Version m) /\
    0 < Version m /\ Name m = EntryName e /\ readFile (EntryName e) = Some (SQL m) /\
    Checksum m = hexEncode (Sum256 (SQL m)).
Proof.
  unfold Load. intros (ms0 & HL & [= <-])%bind_Ok_inv Hp.
  apply Load_loop_Ok in HL as (Ho & Hnd & _). split_and!.
  - assert (Hp' : omap (candidate readFile) es' ≡ₚ map Some ms0).
    { rewrite <- Ho. symmetry. by apply (omap_Permutation (candidate readFile)). }
    apply Permutation_map_inv in Hp' as (ms1 & Hms1 & Hp1).
    rewrite (proj2 (Load_loop_Ok readFile es' ∅ ms1)).
    + simpl. f_equal. symmetry. by apply merge_sort_unique.
    + split_and!; [done|by rewrite <- Hp1|]. apply Forall_forall. set_solver.
  - by apply sorted_strictly.
  - intros m. rewrite merge_sort_Permutation.
    assert (Hm : m ∈ ms0 <-> Some m ∈ omap (candidate readFile) es).
    { rewrite Ho. rewrite !list_elem_of_In, in_map_iff. naive_solver. }
    rewrite Hm, list_elem_of_omap. unfold candidate. split.
    + intros (e & He & Hc). case_match; [done|].
      apply bind_Some in Hc as (digits & Hd & [= Hc]).
      apply bind_Some in Hc as (v & Hv & Hc). case_match; [done|].
      apply bind_Some in Hc as (contents & Hr & [= <-]). exists e, digits. simpl.
      split_and!; try done. lia.
    + intros (e & digits & He & Hdir & Hd & Hv & Hpos & Hn & Hr & Hc). exists e. split; [done|].
      rewrite Hdir, Hd. simpl. rewrite Hv. simpl.
      destruct (Z.leb_spec (Version m) 0); [lia|]. rewrite Hr. simpl. rewrite <- Hn, <- Hc.
      by destruct m.
Qed.

Section apply.
Context {S : Type} (srv : server S) (run : list byte -> S -> option S).

(** The schema after the statements of some migrations, in order. *)
Fixpoint runAll (ms : list Migration) (s : S) : option S :=
  match ms with
  | [] => Some s
  | m :: ms => s' ← run (SQL m) s; runAll ms s'
  end.

Definition pending (d : database S) (ms : list Migration) : list Migration :=
  filter (fun m => table d !! Version m = None) ms.

Lemma upgradeLoop_schema applied d ms d' : upgradeLoop srv run applied d ms = Ok d' ->
  runAll (filter (fun m => applied !! Version m = None) ms) (schema d) = Some (schema d').
Proof.
  revert d. induction ms as [|m ms IH]; intros d; simpl; [by intros [= <-]|]. rewrite filter_cons.
  destruct (applied !! Version m) as [c|]; simpl.
  - case_match; [done|]. apply IH.
  - destruct (run (SQL m) (schema d)) as [s|]; [|done]. simpl.
    unfold insertRow. destruct (insertOk srv (Version m) && _); [|done]. by intros ?%IH.
Qed.

Lemma pending_applied d ms :
  filter (fun m => (snd <$> table d) !! Version m = None) ms = pending d ms.
Proof.
  unfold pending. apply list_filter_iff. intros m. rewrite lookup_fmap.
  by destruct (table d !! Version m).
Qed.

(** The whole effect of the migrations on a database. *)
Record upgraded (d d' : database S) (ms : list Migration) : Prop := {
  up_schema : runAll (pending d ms) (schema d) = Some (schema d');
  up_recorded m : m ∈ ms -> exists name, table d' !! Version m = Some (name, Checksum m);
  up_kept v row : table d !! v = Some row -> table d' !! v = Some row;
  up_only v row : table d' !! v = Some row -> table d !! v = Some row \/
    exists m, m ∈ pending d ms /\ Version m = v /\ row = (Name m, Checksum m)
}.

Lemma upgradeLoop_upgraded d ms d' : upgradeLoop srv run (snd <$> table d) d ms = Ok d' -> upgraded d d' ms.
Proof.
  intros HL. pose proof (upgradeLoop_schema _ _ _ _ HL) as Hs. rewrite pending_applied in Hs.
  pose proof (upgradeLoop_recorded _ _ _ _ _ HL) as Hrec.
  destruct (upgradeLoop_table _ _ _ _ _ _ HL) as (H1 & _ & _ & H4). split; [done| | |].
  - intros m Hm. specialize (Hrec m Hm). rewrite lookup_fmap in Hrec.
    destruct (table d' !! Version m) as [[n c]|]; [|done]. simpl in Hrec. simplify_eq. eauto.
  - intros v row Hr. rewrite H1 by eauto. done.
  - intros v row Hr. apply H4 in Hr as [Hr|(m & Hm & <- & Hap & ->)]; [by left|right].
    exists m. split_and!; try done. apply list_elem_of_filter. split; [|done].
    rewrite lookup_fmap in Hap. by destruct (table d !! Version m).
Qed.

(** C8.  Migrations apply all or nothing: for files that neither end the transaction
    nor touch the bookkeeping table, no transaction stays open, and the database is either as before, or upgraded as a whole: its schema is the
    result of running exactly the pending statements in order, every migration
    given is recorded with its checksum, rows already there are untouched (and
    agreed with the given checksums), and nothing else is recorded.  Success means
    the latter; an error means the former, unless it is a commit error whose
    acknowledgement was lost. *)
Theorem Apply_all_or_nothing (pool : bool) (s s' : session (database S)) (ms : list Migration)
    (r : result migrate_error unit) :
  (forall m, m ∈ ms -> contained srv run m) -> tx s = Closed -> Apply srv pool s ms = (s', r) ->
  tx s' = Closed /\
  match r with
  | Ok _ => upgraded (durable s) (durable s') ms
  | Err e =>
      durable s' = durable s \/
      e = CommitFailed /\ commit srv = AckLost true /\ upgraded (durable s) (durable s') ms
  end.
Proof.
  intros Hms Hs HA. destruct r as [[]|e].
  - apply (Apply_Ok srv run) in HA as (_ & _ & _ & _ & _ & _ & Ht & HL); [|done]. split; [done|]. by apply upgradeLoop_upgraded.
  - apply (Apply_Err srv run) in HA as [Ht HA]; [|done..]. split; [done|].
    destruct HA as [HA|(-> & Hc & HL)]; [by left|right]. split_and!; try done. by apply upgradeLoop_upgraded.
Qed.

(** Applying again is a no-op: after a successful [Apply], the same
    migrations apply successfully to any later database that still has their
    rows, without running a statement or changing anything. *)
Theorem Apply_idempotent (pool : bool) (s s' : session (database S)) (d : database S) (ms : list Migration) :
  (forall m, m ∈ ms -> contained srv run m) -> Apply srv pool s ms = (s', Ok tt) ->
  (forall v row, table (durable s') !! v = Some row -> table d !! v = Some row) ->
  Apply srv pool (Tx.idle d) ms = (Tx.idle d, Ok tt).
Proof.
  intros Hms (-> & Hb & Hl & Hc & Hq & Hco & Ht & HL)%(Apply_Ok srv run) Hle; [|done].
  apply (Apply_Ok srv run); [done|]. split_and!; try done.
  apply upgradeLoop_done. intros m Hm. pose proof (upgradeLoop_recorded _ _ _ _ _ HL m Hm) as Hr.
  rewrite lookup_fmap in *. cbn [Tx.idle durable].
  destruct (table (durable s') !! Version m) as [row|] eqn:Hd; [|done].
  by rewrite (Hle _ _ Hd).
Qed.

(** Upgrading in stages is upgrading at once: applying the first part of
    a list of distinct versions and then the whole list succeeds with exactly
    the database that applying the whole list directly gives. *)
Theorem Apply_staged (pool : bool) (d d1 d2 : database S) (ms1 ms2 : list Migration) :
  (forall m, m ∈ ms1 ++ ms2 -> contained srv run m) -> NoDup (map Version (ms1 ++ ms2)) ->
  Apply srv pool (Tx.idle d) ms1 = (Tx.idle d1, Ok tt) ->
  Apply srv pool (Tx.idle d1) (ms1 ++ ms2) = (Tx.idle d2, Ok tt) <->
  Apply srv pool (Tx.idle d) (ms1 ++ ms2) = (Tx.idle d2, Ok tt).
Proof.
  intros Hms Hnd (-> & Hb & Hl & Hc & Hq & Hco & _ & HL)%(Apply_Ok srv run);
    [|intros m Hm; apply Hms, elem_of_app; by left].
  rewrite !(Apply_Ok srv run) by done. cbn [Tx.idle durable tx] in *.
  rewrite !upgradeLoop_app, HL.
  rewrite (upgradeLoop_done srv run _ d1 ms1) by (by eapply upgradeLoop_recorded). simpl.
  rewrite (upgradeLoop_ext srv run (snd <$> table d1) (snd <$> table d)); [done|].
  intros m Hm. rewrite !lookup_fmap. destruct (upgradeLoop_table _ _ _ _ _ _ HL) as (H1 & _ & _ & H4).
  destruct (table d !! Version m) as [row|] eqn:Hd; [by rewrite H1, Hd by (rewrite Hd; eauto)|].
  destruct (table d1 !! Version m) as [row|] eqn:Hd1; [|done].
  apply H4 in Hd1 as [Hd1|(x & Hx & Hv & _)]; [congruence|]. exfalso.
  rewrite map_app in Hnd. apply NoDup_app in Hnd as (_ & Hdis & _).
  apply (Hdis (Version x)); apply list_elem_of_In, in_map_iff; [exists x|exists m];
    (split; [done|by apply list_elem_of_In]).
Qed.
End apply.

(** *** A database whose schema is the list of statements it ran. *)

Definition logRun (q : list byte) (s : list (list byte)) : option (list (list byte)) := Some (s ++ [q]).
Definition logServer : server (list (list byte)) :=
  {| execSQL q := Conn.Exec (fun d => s ← logRun q (schema d); Some {| schema := s; table := table d |}); beginOk := true; lockOk := true; createOk := true;
     queryOk := true; commit := Committed; insertOk _ := true |}.
Definition emptyDatabase : database (list (list byte)) := {| schema := []; table := ∅ |}.
Definition sampleMigration (v : Z) (name : string) : Migration :=
  {| Version := v; Name := name; SQL := [byte_of v]; Checksum := hexEncode (Sum256 [byte_of v]) |}.
Definition one : Migration := sampleMigration 1 "1_a.up.sql".
Definition two : Migration := sampleMigration 2 "02_b-c.up.sql".
Definition sampleFiles : list dirEntry :=
  [{| EntryName := "02_b-c.up.sql"; IsDir := false |}; {| EntryName := "1_a.up.sql"; IsDir := false |};
   {| EntryName := "1_a.down.sql"; IsDir := false |}; {| EntryName := "3_d.up.sql"; IsDir := true |}].
Definition sampleRead (name : string) : option (list byte) :=
  Some [byte_of (if name == "1_a.up.sql" then 1 else 2)].
Definition afterOne : database (list (list byte)) :=
  {| schema := [[byte_of 1]]; table := {[ 1 := (Name one, Checksum one) ]} |}.
Definition afterTwo : database (list (list byte)) :=
  {| schema := [[byte_of 1]; [byte_of 2]];
     table := {[ 2 := (Name two, Checksum two); 1 := (Name one, Checksum one) ]} |}.

Lemma Load_complete_witness : StronglySorted (fun a b => Version a < Version b) [one; two].
Proof.
  apply (Load_complete sampleRead sampleFiles sampleFiles [one; two]); [vm_compute; reflexivity|done].
Defined.

Lemma log_contained m : contained logServer logRun m.
Proof. intros s d Hs. cbn [execSQL logServer]. unfold Conn.Exec. by rewrite Hs. Qed.

Lemma Apply_all_or_nothing_witness : upgraded logRun emptyDatabase afterOne [one].
Proof.
  exact (proj2 (Apply_all_or_nothing logServer logRun true (Tx.idle emptyDatabase) (Tx.idle afterOne) [one] (Ok tt)
    (fun m _ => log_contained m) eq_refl ltac:(vm_compute; reflexivity))).
Defined.

(** A file that commits is outside these terms: of two files of which the second
    fails, the first is kept if it ends the transaction, although [Apply] reports the
    failure. *)
Definition commitServer : server (list (list byte)) :=
  {| execSQL q s :=
       if q == [byte_of 1] then (fst (Tx.Commit Committed (fst (execSQL logServer q s))), true)
       else Conn.Exec (fun _ => None) s;
     beginOk := true; lockOk := true; createOk := true; queryOk := true; commit := Committed; insertOk _ := true |}.

Example committing_file_is_kept :
  Apply commitServer true (Tx.idle emptyDatabase) [one; two] = (Tx.idle afterOne, Err (ApplyFailed 2)).
Proof. vm_compute. reflexivity. Qed.

Lemma Apply_idempotent_witness : Apply logServer true (Tx.idle afterTwo) [one] = (Tx.idle afterTwo, Ok tt).
Proof.
  apply (Apply_idempotent logServer logRun true (Tx.idle emptyDatabase) (Tx.idle afterOne));
    [intros m _; apply log_contained|vm_compute; reflexivity|].
  intros v row Hr. unfold afterOne, Tx.idle, durable, table in Hr. apply lookup_singleton_Some in Hr as [<- <-].
  reflexivity.
Defined.

Lemma Apply_staged_witness :
  Apply logServer true (Tx.idle emptyDatabase) ([one] ++ [two]) = (Tx.idle afterTwo, Ok tt).
Proof.
  apply (Apply_staged logServer logRun true emptyDatabase afterOne).
  - intros m _. apply log_contained.
  - by apply (bool_decide_eq_true_1 _).
  - vm_compute; reflexivity.
  - vm_compute; reflexivity.
Defined.

End MigrateProperties.
