(* ===== verification/Postgres.v ===== *)
(** * The PostgreSQL pool ([data/postgres/postgres.go])

    Opening a pool and running a callback in a transaction.  [pgxpool] is an
    argument: what its parser makes of a URL and whether it connects; transactions
    are those of [Transactions]. *)

From S2P Require Import Prelude GoTime Transactions.

Inductive postgres_error :=
  | InvalidOptions (msg : string) | ParseFailed | TLSRequired | CreateFailed | ConnectFailed
  | CallbackRequired | BeginTransaction | Callback (msg : string) | CommitTransaction.

Record Options := {
  oURL : string; oMaxConnections : Z; oMinConnections : Z; oConnectTimeout : Duration;
  oMaxMessageBytes : Z; oAllowInsecure : bool
}.

(** The parts of [pgxpool.Config] in use: whether the connection and each
    fallback have a TLS configuration, and the limits. *)
Record poolConfig := {
  TLSConfig : bool; Fallbacks : list bool; MaxConns : Z; MinConns : Z;
  ConfigConnectTimeout : Duration; MaxProtocolMessageBodyLen : Z
}.

Module Postgres.

Definition validate (o : Options) : result postgres_error unit :=
  if oURL o == "" then Err (InvalidOptions "PostgreSQL URL is required")
  else if oMaxConnections o <=? 0 then
    Err (InvalidOptions "PostgreSQL max connections must be positive")
  else if (oMinConnections o <? 0) || (oMaxConnections o <? oMinConnections o) then
    Err (InvalidOptions "PostgreSQL min connections must be between zero and max connections")
  else if oConnectTimeout o <=? 0 then
    Err (InvalidOptions "PostgreSQL connect timeout must be positive")
  else if oMaxMessageBytes o <=? 0 then
    Err (InvalidOptions "PostgreSQL max message bytes must be positive")
  else Ok tt.

Definition permitsPlaintext (config : poolConfig) : bool :=
  negb (TLSConfig config) || existsb negb (Fallbacks config).

Definition configured (config : poolConfig) (o : Options) : poolConfig :=
  {| TLSConfig := TLSConfig config; Fallbacks := Fallbacks config;
     MaxConns := oMaxConnections o; MinConns := oMinConnections o;
     ConfigConnectTimeout := oConnectTimeout o; MaxProtocolMessageBodyLen := oMaxMessageBytes o |}.

(** [Open]: the pools it leaves open, and its result. *)
Definition Open (ParseConfig : string -> option poolConfig) (newOk pingOk : poolConfig -> bool)
    (o : Options) : list poolConfig * result postgres_error poolConfig :=
  match validate o with
  | Err e => ([], Err e)
  | Ok _ =>
      match ParseConfig (oURL o) with
      | None => ([], Err ParseFailed)
      | Some config =>
          if negb (oAllowInsecure o) && permitsPlaintext config then ([], Err TLSRequired)
          else
            let config := configured config o in
            if negb (newOk config) then ([], Err CreateFailed)
            else if negb (pingOk config) then ([], Err ConnectFailed)
            else ([config], Ok config)
      end
  end.

(** ** The pool's own methods *)

(** [pgxpool.Pool]: the effect of its methods on the pools at their addresses. *)
Class PgxPool (W : Type) := {
  pgxPing : positive -> W -> option string;
  pgxClose : positive -> W -> W
}.

(** [Pool] holds the address of one. *)
Record Pool := { pool : positive }.

Section pool.
Context `{PgxPool W}.

Definition Ping (p : Pool) (w : W) : option string := pgxPing (pool p) w.
Definition Close (p : Pool) (w : W) : W := pgxClose (pool p) w.
Definition Native (p : Pool) : positive := pool p.
End pool.

(** ** Transactions *)

(** How a callback ends: with an error value or nil, or with a panic. *)
Inductive ending := Returned (err : option string) | Panicked.

(** How [WithinTransaction] ends. *)
Inductive outcome := Finished (r : result postgres_error unit) | Propagated.

Section transaction.
Context {D : Type}.

(** [WithinTransaction]: the callback works on the open transaction in any way,
    and the deferred rollback runs on every exit, also while a panic
    propagates. *)
Definition WithinTransaction (beginOk : bool) (c : commitOutcome) (s : session D)
    (work : option (session D -> session D * ending)) : session D * outcome :=
  match work with
  | None => (s, Finished (Err CallbackRequired))
  | Some work =>
      if negb beginOk then (s, Finished (Err BeginTransaction))
      else
        let '(s, o) :=
          let '(s, e) := work (Tx.Begin s) in
          match e with
          | Panicked => (s, Propagated)
          | Returned (Some err) => (s, Finished (Err (Callback err)))
          | Returned None =>
              let '(s, ok) := Tx.Commit c s in
              (s, if ok then Finished (Ok tt) else Finished (Err CommitTransaction))
          end in
        (Tx.Rollback s, o)
  end.
End transaction.

End Postgres.

(** ** Properties *)

Module PostgresProperties.
Import Postgres.

(** An open pool is bounded and, unless insecure connections were
    explicitly allowed, uses TLS on the primary connection and on every
    fallback; a failed [Open] leaves no pool behind. *)
Theorem Open_is_secure (ParseConfig : string -> option poolConfig) (newOk pingOk : poolConfig -> bool)
    (o : Options) (pools : list poolConfig) (r : result postgres_error poolConfig) :
  Open ParseConfig newOk pingOk o = (pools, r) ->
  match r with
  | Err _ => pools = []
  | Ok pool =>
      pools = [pool] /\
      (oAllowInsecure o = false -> TLSConfig pool = true /\ Forall (eq true) (Fallbacks pool)) /\
      0 <= MinConns pool <= MaxConns pool /\ 0 < MaxConns pool /\
      0 < ConfigConnectTimeout pool /\ 0 < MaxProtocolMessageBodyLen pool
  end.
Proof.
  unfold Open. intros HO. destruct (validate o) as [[]|e] eqn:HV; [|by simplify_eq].
  destruct (ParseConfig (oURL o)) as [config|]; [|by simplify_eq].
  destruct (negb (oAllowInsecure o) && permitsPlaintext config) eqn:Hp; [by simplify_eq|].
  destruct (newOk (configured config o)), (pingOk (configured config o)); simpl in HO; simplify_eq; try done.
  unfold validate in HV. repeat case_match; try done. split_guards. simpl. split_and!; try lia; [done|].
  intros Hi. rewrite Hi in Hp. simpl in Hp. unfold permitsPlaintext in Hp. split_guards. split; [done|].
  rewrite Forall_forall. intros b Hb. destruct b; [done|].
  assert (existsb negb (Fallbacks config) = true); [|congruence].
  apply existsb_exists. exists false. split; [by apply list_elem_of_In|done].
Qed.

(** C39.  A transaction is atomic: for a callback that does not end the
    transaction itself, whatever else it does and however it ends, no transaction
    stays open; success is reported only when the callback returned without error
    in a live transaction whose state is now durable; after an error or a panic
    the database is as before, except that a commit whose acknowledgement was lost
    may have applied the whole of the callback's work, and is then reported as a
    commit error; and a panic is propagated, never reported as success. *)
Theorem WithinTransaction_atomic {D} (beginOk : bool) (c : commitOutcome) (s s' : session D)
    (work : session D -> session D * ending) (o : outcome) :
  tx s = Closed -> (forall s0, durable (fst (work s0)) = durable s0) ->
  WithinTransaction beginOk c s (Some work) = (s', o) ->
  tx s' = Closed /\
  match o with
  | Finished (Ok _) =>
      exists s1, work (Tx.Begin s) = (s1, Returned None) /\ tx s1 = Active (durable s')
  | Propagated => snd (work (Tx.Begin s)) = Panicked /\ durable s' = durable s
  | Finished (Err CommitTransaction) =>
      durable s' = durable s \/
      exists s1, work (Tx.Begin s) = (s1, Returned None) /\ tx s1 = Active (durable s') /\ c = AckLost true
  | Finished (Err _) => durable s' = durable s
  end.
Proof.
  intros Hs Hw. unfold WithinTransaction. destruct beginOk; cbn [negb]; [|by intros [= <- <-]].
  specialize (Hw (Tx.Begin s)). destruct (work (Tx.Begin s)) as [s1 [[err|]|]]; cbn [fst Tx.Begin durable] in Hw;
    [by intros [= <- <-]| |by intros [= <- <-]].
  destruct (Tx.Commit c s1) as [s2 []] eqn:HC; intros [= <- <-]; (split; [done|]); cbn [Tx.Rollback durable].
  - apply Tx.Commit_true in HC as [_ (d & Hd & ->)]. by exists s1.
  - apply Tx.Commit_false in HC as [HC|[-> (d & Hd & ->)]]; [left; congruence|right]. by exists s1.
Qed.

(** Two statements, the second of which fails: nothing is kept. *)
Definition sampleWork (s : session Z) : session Z * ending :=
  let '(s, _) := Tx.Exec (fun d => Some (d + 1)) s in
  let '(s, ok) := Tx.Exec (fun _ => None) s in
  (s, Returned (if ok then None else Some "failed")).

Lemma WithinTransaction_atomic_witness :
  WithinTransaction true Committed (Tx.idle 7) (Some sampleWork) = (Tx.idle 7, Finished (Err (Callback "failed"))) /\
  durable (Tx.idle 7) = 7.
Proof.
  assert (HW : WithinTransaction true Committed (Tx.idle 7) (Some sampleWork) =
    (Tx.idle 7, Finished (Err (Callback "failed")))) by reflexivity.
  split; [exact HW|].
  exact (proj2 (WithinTransaction_atomic true Committed (Tx.idle 7) (Tx.idle 7) sampleWork
    (Finished (Err (Callback "failed"))) eq_refl
    ltac:(intros [d [|x|]]; reflexivity) HW)).
Defined.

Definition sampleParsed : poolConfig :=
  {| TLSConfig := true; Fallbacks := [true]; MaxConns := 1; MinConns := 0; ConfigConnectTimeout := 1;
     MaxProtocolMessageBodyLen := 0 |}.
Definition sampleOptions : Options :=
  {| oURL := "postgres://db"; oMaxConnections := 4; oMinConnections := 1; oConnectTimeout := Second;
     oMaxMessageBytes := 1024; oAllowInsecure := false |}.

Lemma Open_is_secure_witness : Forall (eq true) (Fallbacks (configured sampleParsed sampleOptions)).
Proof.
  destruct (Open_is_secure (fun _ => Some sampleParsed) (fun _ => true) (fun _ => true) sampleOptions
    [configured sampleParsed sampleOptions] (Ok (configured sampleParsed sampleOptions)))
    as (_ & Htls & _); [reflexivity|]. by apply Htls.
Defined.

End PostgresProperties.
