(* ===== verification/AuditSchema.v ===== *)
(** * The audit store on its schema ([audit/postgres/migrations.go] with [data/migrate] and [audit/postgres/store.go])

    The embedded migration, loaded and applied by the migration code, and the
    store's insertions under the constraints of the table it creates: the primary
    key and the check on results.  Other limits of PostgreSQL's types are an
    argument. *)

From S2P Require Import Prelude GoTime GoStrings Sha256 Security AuditLog Transactions Migrate.

Module AuditSchema.
Import Audit Migrate.

(** [migrations/001_create_audit_events.up.sql]. *)
Definition createAuditEvents : string := "CREATE TABLE swf_audit_events (
    id text PRIMARY KEY,
    occurred_at timestamptz NOT NULL,
    actor text NOT NULL,
    action text NOT NULL,
    resource text NOT NULL,
    result text NOT NULL CHECK (result IN ('success', 'failure', 'denied')),
    correlation_id text NOT NULL DEFAULT '',
    metadata jsonb NOT NULL DEFAULT '{}'::jsonb
);

CREATE INDEX swf_audit_events_occurred_at_idx
    ON swf_audit_events (occurred_at DESC);

CREATE INDEX swf_audit_events_resource_idx
    ON swf_audit_events (resource, occurred_at DESC);
".

(** [migrationFiles], the embedded directory, and [Migrations]. *)
Definition migrationFiles : list dirEntry := [{| EntryName := "001_create_audit_events.up.sql"; IsDir := false |}].
Definition readMigration (name : string) : option (list byte) :=
  if name == "001_create_audit_events.up.sql" then Some (bytes_of createAuditEvents) else None.
Definition Migrations : result migrate_error (list Migration) := Load readMigration (Some migrationFiles).

(** The part of the database schema in question: the table, once it exists. *)
Abbreviation auditSchema := (option (list row)) (only parsing).

(** What the statements of the migration do: they create the table, and fail if
    it is already there. *)
Definition createTable (sql : list byte) (s : auditSchema) : option auditSchema :=
  if sql == bytes_of createAuditEvents then match s with None => Some (Some []) | Some _ => None end else None.

(** The constraints of the table on a new row; [storable] are the limits of the
    column types. *)
Definition insertable (storable : row -> bool) (rows : list row) (r : row) : bool :=
  bool_decide (r_id r ∉ map r_id rows) && bool_decide (r_result r ∈ ["success"; "failure"; "denied"]) && storable r.

(** A server that answers. *)
Definition answering : server auditSchema :=
  {| execSQL sql := Conn.Exec (fun d => s ← createTable sql (schema d); Some {| schema := s; table := table d |});
     beginOk := true; lockOk := true; createOk := true; queryOk := true;
     commit := Committed; insertOk := fun _ => true |}.

End AuditSchema.

Module AuditSchemaProperties.
Import Sensitive Audit AuditSpec AuditProperties Migrate AuditSchema.

(** The migration as loaded. *)
Definition auditMigration : Migration :=
  {| Version := 1; Name := "001_create_audit_events.up.sql"; SQL := bytes_of createAuditEvents;
     Checksum := hexEncode (Sha256.Sum256 (bytes_of createAuditEvents)) |}.

Lemma Migrations_loaded : Migrations = Ok [auditMigration].
Proof. reflexivity. Qed.

Section events.
Context `{UnicodeCase} {M : Type} (marshal : M -> option (list byte)).
Context (storable : row -> bool).
Implicit Types (e : Event M) (rows : list row).

Local Abbreviation append := (Append marshal).

(** A valid event whose row the column types can hold is refused only for its
    ID. *)
Lemma Append_stores rows e : acceptable marshal e -> (forall r, rowOf marshal e r -> storable r = true) ->
  exists r, r ∈ fst (append rows (insertable storable) e) /\ r_id r = ID e.
Proof.
  intros Ha Hs. unfold Append. rewrite (proj2 (Validate_Ok marshal e) Ha).
  destruct (ac_metadata _ _ Ha) as (encoded & v & Hm & _). rewrite Hm.
  set (r := {| r_id := ID e |}). destruct (insertable storable rows r) eqn:Hi; cbn [fst].
  - exists r. split; [|done]. apply elem_of_app. right. left.
  - unfold insertable in Hi. rewrite (bool_decide_true (r_result r ∈ _)) in Hi by apply (ac_result _ _ Ha).
    rewrite (Hs r) in Hi by done. rewrite !andb_true_r in Hi. apply bool_decide_eq_false_1, dec_stable in Hi.
    apply list_elem_of_In, in_map_iff in Hi as (r' & He & Hin). exists r'. by rewrite list_elem_of_In.
Qed.

Lemma Append_keeps rows e : exists new, fst (append rows (insertable storable) e) = rows ++ new /\
  (NoDup (map r_id rows) -> NoDup (map r_id (rows ++ new))).
Proof.
  unfold Append. destruct (Validate marshal e) as [[]|]; [|exists []; by rewrite app_nil_r].
  destruct (marshal (Metadata e)); [|exists []; by rewrite app_nil_r].
  set (r := {| r_id := ID e |}). destruct (insertable storable rows r) eqn:Hi; cbn [fst]; [|exists []; by rewrite app_nil_r].
  exists [r]. split; [done|]. intros Hn. unfold insertable in Hi. split_guards. rewrite map_app.
  apply NoDup_app. split_and!; [done| |apply NoDup_singleton]. intros x Hx ->%list_elem_of_singleton. done.
Qed.

Lemma appendAll_spec es : forall rows, NoDup (map r_id rows) ->
  let rows' := appendAll marshal rows (insertable storable) es in
  NoDup (map r_id rows') /\ rows `prefix_of` rows' /\
  forall e, e ∈ es -> acceptable marshal e -> (forall r, rowOf marshal e r -> storable r = true) ->
    exists r, r ∈ rows' /\ r_id r = ID e.
Proof.
  induction es as [|e es IH]; intros rows Hn; cbn [appendAll].
  { split; [done|]. split; [done|]. by intros e ?%elem_of_nil. }
  destruct (Append_keeps rows e) as (new & Happ & Hnew).
  destruct (IH (fst (append rows (insertable storable) e))) as (H1 & H2 & H3); [rewrite Happ; by apply Hnew|].
  split; [done|]. split; [etrans; [|exact H2]; rewrite Happ; by eexists|].
  intros e' [->|He]%elem_of_cons Ha Hs; [|by apply H3].
  destruct (Append_stores rows e Ha Hs) as (r & Hr & Hid). exists r. split; [|done].
  destruct H2 as [rest ->]. apply elem_of_app. by left.
Qed.

(** C32.  The audit store works on the schema it ships: the embedded migration
    loads, applies to a database without the table and creates it empty; and of
    any events then submitted, the table holds at most one row per event ID, each
    the full record of a valid event, and a valid event is never missing: unless
    a column type cannot hold its values, a row with its ID is there, so the check
    on results never refuses what validation accepted. *)
Theorem audit_store_on_its_schema (s : session (database auditSchema)) (es : list (Event M)) :
  schema (durable s) = None -> table (durable s) !! 1 = None ->
  exists ms s', Migrations = Ok ms /\ Apply answering true s ms = (s', Ok tt) /\ schema (durable s') = Some [] /\
    let rows := appendAll marshal [] (insertable storable) es in
    NoDup (map r_id rows) /\
    Forall (fun r => exists e, e ∈ es /\ rowOf marshal e r /\ acceptable marshal e) rows /\
    (forall e, e ∈ es -> acceptable marshal e -> (forall r, rowOf marshal e r -> storable r = true) ->
       exists r, r ∈ rows /\ r_id r = ID e).
Proof.
  intros Hs Ht. exists [auditMigration].
  exists (Tx.idle {| schema := Some []; table := <[1 := (Name auditMigration, Checksum auditMigration)]> (table (durable s)) |}).
  split; [exact Migrations_loaded|]. split.
  - apply (MigrateCorrect.Apply_Ok answering createTable).
    { intros m _ s0 d Hd. cbn [execSQL answering]. unfold Conn.Exec. by rewrite Hd. }
    split_and!; try done. cbn [MigrateCorrect.upgradeLoop Version auditMigration].
    rewrite lookup_fmap, Ht. cbn [fmap option_fmap option_map]. cbn [SQL auditMigration].
    unfold createTable. rewrite bool_decide_true by done. rewrite Hs. unfold insertRow.
    cbn [insertOk answering Version auditMigration table]. rewrite bool_decide_true by done. reflexivity.
  - split; [done|]. cbv zeta. destruct (appendAll_spec es [] (NoDup_nil_2)) as (H1 & _ & H3). split; [exact H1|].
    split; [|exact H3]. destruct (appendAll_append_only marshal [] (insertable storable) es) as (new & -> & Hnew).
    exact Hnew.
Qed.
End events.

#[local] Instance plainCase : UnicodeCase := {| lowerRune := id; upperRune := id |}.

Definition sampleEvent (id actor : string) : Event unit :=
  {| ID := id; Timestamp := Second; Actor := actor; Action := "login"; Resource := "app"; Result := ResultDenied;
     CorrelationID := ""; Metadata := tt |}.
Definition sampleMarshal (_ : unit) : option (list byte) := Some (bytes_of "{}").
Definition emptyDatabase : session (database (option (list row))) := Tx.idle {| schema := None; table := ∅ |}.

Lemma audit_store_on_its_schema_witness :
  exists r, r ∈ appendAll sampleMarshal [] (insertable (fun _ => true))
      [sampleEvent "1" "eve"; sampleEvent "1" "bob"; sampleEvent "2" ""] /\ r_id r = "1".
Proof.
  destruct (audit_store_on_its_schema sampleMarshal (fun _ => true) emptyDatabase
    [sampleEvent "1" "eve"; sampleEvent "1" "bob"; sampleEvent "2" ""])
    as (ms & s' & _ & _ & _ & _ & _ & Hin); [reflexivity|reflexivity|].
  apply (Hin (sampleEvent "1" "eve")); [left| |reflexivity].
  apply Validate_Ok. reflexivity.
Defined.

Example first_event_wins :
  map (fun r => (r_id r, r_actor r)) (appendAll sampleMarshal [] (insertable (fun _ => true))
    [sampleEvent "1" "eve"; sampleEvent "1" "bob"; sampleEvent "2" ""]) = [("1", "eve")].
Proof. vm_compute. reflexivity. Qed.

End AuditSchemaProperties.
