(* ===== verification/Ids.v ===== *)
(** * Random identifiers ([core/id/id.go])

    Version-4 identifiers from 16 random bytes, which are an argument. *)

From S2P Require Import Prelude GoStrings.

Module Ids.

(** The version and variant bits. *)
Definition stamp (value : list byte) : list byte :=
  <[6%nat := byte_of (Z.lor (Z.land (bval (nth 6 value Byte.x00)) 0x0f) 0x40)]>
    (<[8%nat := byte_of (Z.lor (Z.land (bval (nth 8 value Byte.x00)) 0x3f) 0x80)]> value).

(** [New]: the 16 random bytes, stamped, in hexadecimal groups. *)
Definition New (random : option (list byte)) : option string :=
  match random with
  | None => None
  | Some value =>
      let v := stamp value in
      Some (hexEncode (slice v 0 4) +:+ "-" +:+ hexEncode (slice v 4 6) +:+ "-" +:+
            hexEncode (slice v 6 8) +:+ "-" +:+ hexEncode (slice v 8 10) +:+ "-" +:+
            hexEncode (slice v 10 16))
  end.

Example New_sample :
  New (Some (map byte_of [0; 1; 2; 3; 4; 5; 0xff; 7; 0xff; 9; 10; 11; 12; 13; 14; 15]))
  = Some "00010203-0405-4f07-bf09-0a0b0c0d0e0f".
Proof. vm_compute; reflexivity. Qed.

End Ids.

(** ** Shape *)

Module IdsCorrect.
Import Ids.

(** Characters of an identifier. *)
Definition idChar (c : ascii) : bool := isDigit c || between (code "a") (code "f") (code c) || (c == "-"%char).

Lemma hexChar_idChar i : 0 <= i < 16 -> idChar (hexChar i) = true.
Proof.
  intros Hi.
  assert (Hall : forallb (fun k => idChar (hexChar (Z.of_nat k))) (seq 0 16) = true)
    by (vm_compute; reflexivity).
  rewrite forallb_forall in Hall. specialize (Hall (Z.to_nat i)). rewrite Z2Nat.id in Hall by lia.
  apply Hall, in_seq. lia.
Qed.

Lemma hexEncode_chars bs : forallb idChar (chars (hexEncode bs)) = true.
Proof.
  unfold hexEncode. rewrite chars_of_chars. induction bs as [|b bs IH]; [done|].
  cbn [flat_map app forallb]. bounds. by rewrite !hexChar_idChar, IH by lia.
Qed.

Lemma hexEncode_len bs : len (hexEncode bs) = 2 * blen bs.
Proof.
  unfold hexEncode. rewrite len_chars, chars_of_chars. unfold blen.
  induction bs as [|b bs IH]; [done|]. cbn [flat_map app length]. lia.
Qed.

Lemma stamp_length v : length (stamp v) = length v.
Proof. unfold stamp. by rewrite !length_insert. Qed.

(** A generated identifier is 36 characters of hexadecimal digits and hyphens. *)
Lemma New_shape v s : blen v = 16 -> New (Some v) = Some s ->
  len s = 36 /\ forallb idChar (chars s) = true.
Proof.
  unfold New. intros Hv [= <-].
  assert (Hst : blen (stamp v) = 16) by (unfold blen in *; by rewrite stamp_length).
  split.
  - rewrite !len_app, !hexEncode_len, !blen_slice by lia. reflexivity.
  - rewrite !chars_app, !forallb_app, !hexEncode_chars. reflexivity.
Qed.

End IdsCorrect.
