(* ===== verification/Problem.v ===== *)
(** * Coded errors and problem responses ([core/errors/errors.go],
      [web/problem/problem.go])

    Error values with a public code and message and a private cause, and the
    problem documents made from them, with their JSON text. *)

From stdpp Require Import pretty.
From S2P Require Import Prelude GoStrings GoJson GoJsonScan GoJsonDecode GoHttp.

#[local] Open Scope Z_scope.

#[local] Set Warnings "-register-all".

(** An error value: a coded [*Error] with its cause, an error wrapping another
    with [%w], or any other error. *)
Inductive goerror :=
  | Coded (code public : string) (cause : option goerror)
  | Wrapped (msg : string) (inner : goerror)
  | Plain (msg : string).

Module Errors.

Definition New (code public : string) : goerror := Coded code public None.
Definition Wrap (code public : string) (cause : option goerror) : goerror := Coded code public cause.

(** [Unwrap]. *)
Definition Unwrap (e : goerror) : option goerror :=
  match e with Coded _ _ cause => cause | Wrapped _ inner => Some inner | Plain _ => None end.

(** [Error()]. *)
Fixpoint Error (e : goerror) : string :=
  match e with
  | Coded code _ None => code
  | Coded code _ (Some cause) => code +:+ ": " +:+ Error cause
  | Wrapped msg inner => msg +:+ ": " +:+ Error inner
  | Plain msg => msg
  end.

(** [As]: the first coded error of the chain. *)
Fixpoint As (e : goerror) : option (string * string) :=
  match e with
  | Coded code public _ => Some (code, public)
  | Wrapped _ inner => As inner
  | Plain _ => None
  end.

End Errors.

Record FieldError := { Field : string; FieldCode : string; Message : string }.

Record Details := {
  Type_ : string; Title : string; Status : Z; Code : string; CorrelationID : string;
  Errors_ : list FieldError
}.

#[export] Instance FieldError_eq_dec : EqDecision FieldError.
Proof. solve_decision. Defined.

Module Problem.
Import Http Errors.

(** [http.StatusText] on client and server errors. *)
Definition statusTexts : list (Z * string) :=
  [(400, "Bad Request"); (401, "Unauthorized"); (402, "Payment Required"); (403, "Forbidden");
   (404, "Not Found"); (405, "Method Not Allowed"); (406, "Not Acceptable");
   (407, "Proxy Authentication Required"); (408, "Request Timeout"); (409, "Conflict"); (410, "Gone");
   (411, "Length Required"); (412, "Precondition Failed"); (413, "Request Entity Too Large");
   (414, "Request URI Too Long"); (415, "Unsupported Media Type");
   (416, "Requested Range Not Satisfiable"); (417, "Expectation Failed"); (418, "I'm a teapot");
   (421, "Misdirected Request"); (422, "Unprocessable Entity"); (423, "Locked");
   (424, "Failed Dependency"); (425, "Too Early"); (426, "Upgrade Required");
   (428, "Precondition Required"); (429, "Too Many Requests");
   (431, "Request Header Fields Too Large"); (451, "Unavailable For Legal Reasons");
   (500, "Internal Server Error"); (501, "Not Implemented"); (502, "Bad Gateway");
   (503, "Service Unavailable"); (504, "Gateway Timeout"); (505, "HTTP Version Not Supported");
   (506, "Variant Also Negotiates"); (507, "Insufficient Storage"); (508, "Loop Detected");
   (510, "Not Extended"); (511, "Network Authentication Required")].

Definition StatusText (status : Z) : string :=
  match find (fun p => fst p =? status) statusTexts with Some p => snd p | None => "" end.

Definition internalError (correlation : string) : Details :=
  {| Type_ := "about:blank"; Title := StatusText 500; Status := 500; Code := "internal_error";
     CorrelationID := correlation; Errors_ := [] |}.

(** The details as sent, lines 41 to 52. *)
Definition complete (requestID : string) (d : Details) : Details :=
  let d := if (Status d <? 400) || (599 <? Status d) then internalError (CorrelationID d) else d in
  {| Type_ := if Type_ d == "" then "about:blank" else Type_ d;
     Title := if Title d == "" then StatusText (Status d) else Title d;
     Status := Status d; Code := Code d;
     CorrelationID := if CorrelationID d == "" then requestID else CorrelationID d;
     Errors_ := Errors_ d |}.

(** *** The JSON text of a document *)

(** [omitempty] of a string. *)
Definition omitempty (name value : string) : list (string * json) :=
  if value == "" then [] else [(name, JString value)].

Definition marshalFieldError (f : FieldError) : json :=
  JObject ([("field", JString (Field f)); ("code", JString (FieldCode f))] ++ omitempty "message" (Message f)).

Definition marshalDetails (d : Details) : json :=
  JObject ([("type", JString (Type_ d)); ("title", JString (Title d)); ("status", JNumber (pretty (Status d)))] ++
    omitempty "code" (Code d) ++ omitempty "correlation_id" (CorrelationID d) ++
    (if Errors_ d == [] then [] else [("errors", JArray (map marshalFieldError (Errors_ d)))])).

(** The line [json.NewEncoder(w).Encode(details)] writes. *)
Definition documentLine (d : Details) : list byte :=
  bytes_of (of_chars (Json.encode (marshalDetails d) ++ [Json.newline])).

(** *** The response *)

Definition Write (d : Details) (w : Writer) : Writer :=
  let d := complete (hGet (wHeader w) "X-Request-ID") d in
  let w := onHeader (hSet "Content-Type" "application/problem+json") w in
  let w := onHeader (hSet "Cache-Control" "no-store") w in
  let w := WriteHeader (Status d) w in
  Http.Write (documentLine d) w.

Definition WriteError (status : Z) (err : goerror) (w : Writer) : Writer :=
  let d := {| Type_ := ""; Title := ""; Status := status; Code := ""; CorrelationID := ""; Errors_ := [] |} in
  Write (match As err with
         | Some (code, public) =>
             {| Type_ := ""; Title := public; Status := status; Code := code; CorrelationID := "";
                Errors_ := [] |}
         | None => d
         end) w.

(** The struct tags, for a client that decodes the document. *)
Definition fieldErrorType : gotype := TStruct [("field", TString); ("code", TString); ("message", TString)].
Definition detailsType : gotype := TStruct [("type", TString); ("title", TString); ("status", TInt 64);
  ("code", TString); ("correlation_id", TString); ("errors", TSlice fieldErrorType)].

Definition fieldErrorOf (v : goval) : option FieldError :=
  match v with
  | VStruct [VString field; VString code; VString message] =>
      Some {| Field := field; FieldCode := code; Message := message |}
  | _ => None
  end.

Definition unmarshalDetails (line : list byte) : option Details :=
  v ← JsonDecode.Unmarshal detailsType line;
  match v with
  | VStruct [VString typ; VString title; VInt status; VString code; VString correlation; errors] =>
      Some {| Type_ := typ; Title := title; Status := status; Code := code; CorrelationID := correlation;
              Errors_ := match errors with VSlice n cells => omap fieldErrorOf (take n cells) | _ => [] end |}
  | _ => None
  end.

End Problem.

(** ** Facts *)

Module ProblemCorrect.
Import Http Errors Problem.

Lemma complete_status id d : 400 <= Status (complete id d) <= 599.
Proof.
  unfold complete. cbn [Status]. case_match; simpl; [lia|]. lia.
Qed.

Lemma not_informational status : 400 <= status <= 599 -> isInformational status = false.
Proof. unfold isInformational, between. lia. Qed.

(** A problem written to a fresh response is the response. *)
Lemma Write_commits d w : committed w = None ->
  let d' := complete (hGet (wHeader w) "X-Request-ID") d in
  let h := hSet "Cache-Control" "no-store" (hSet "Content-Type" "application/problem+json" (wHeader w)) in
  committed (Write d w) = Some (Status d', h) /\ body (Write d w) = body w ++ [documentLine d'] /\
  wHeader (Write d w) = h /\ informational (Write d w) = informational w.
Proof.
  intros Hc. unfold Write, WriteHeader, Http.Write. cbn [committed wHeader body informational onHeader].
  rewrite Hc. pose proof (complete_status (hGet (wHeader w) "X-Request-ID") d) as Hs.
  rewrite not_informational by done. cbn [committed wHeader body informational]. by rewrite app_nil_r.
Qed.

(** A problem written after the response began only appends a document. *)
Lemma Write_committed d w c : committed w = Some c -> committed (Write d w) = Some c.
Proof.
  intros Hc. unfold Write, WriteHeader, Http.Write. cbn [committed onHeader]. rewrite Hc.
  cbn [committed]. by rewrite ?Hc.
Qed.

(** *** Documents read back *)

(** Text that JSON can carry unchanged. *)
Definition textual (d : Details) : Prop :=
  Forall (fun s => ValidString s = true) [Type_ d; Title d; Code d; CorrelationID d] /\
  Forall (fun f => Forall (fun s => ValidString s = true) [Field f; FieldCode f; Message f]) (Errors_ d).

Lemma omitempty_printable d name value : ValidString name = true -> ValidString value = true ->
  Forall (fun kv => ValidString (fst kv) = true /\ JsonRoundTrip.printable d (snd kv)) (omitempty name value).
Proof. intros Hn Hv. unfold omitempty. case_match; repeat constructor; done. Qed.

(** Statuses print as JSON numbers that read back. *)
Lemma status_number status : 400 <= status <= 599 ->
  JsonGrammar.numberText (chars (pretty status)) /\ ParseInt 64 (pretty status) = Some status.
Proof.
  intros Hs.
  assert (Hall : forallb (fun k => let z := 400 + Z.of_nat k in
    bool_decide (JsonScan.scanNumber JsonScan.NumStart (chars (pretty z)) = Ok (chars (pretty z), [])) &&
    bool_decide (ParseInt 64 (pretty z) = Some z)) (seq 0 200) = true) by (vm_compute; reflexivity).
  rewrite forallb_forall in Hall. specialize (Hall (Z.to_nat (status - 400)) ltac:(apply in_seq; lia)).
  replace (400 + Z.of_nat (Z.to_nat (status - 400))) with status in Hall by lia. cbv zeta in Hall. by split_guards.
Qed.

Lemma marshalDetails_printable d : textual d -> 400 <= Status d <= 599 -> JsonRoundTrip.printable 0 (marshalDetails d).
Proof.
  intros [Ht Hf] [Hn _]%status_number. rewrite !Forall_cons in Ht. destruct Ht as (H1 & H2 & H3 & H4 & _).
  constructor; [done|]. apply Forall_app. split; [by repeat constructor|].
  apply Forall_app. split; [by apply omitempty_printable|]. apply Forall_app. split; [by apply omitempty_printable|].
  case_match; repeat constructor. apply Forall_map. eapply Forall_impl; [exact Hf|]. intros f Hs.
  rewrite !Forall_cons in Hs. destruct Hs as (? & ? & ? & _). constructor; [done|]. apply Forall_app.
  split; [by repeat constructor|by apply omitempty_printable].
Qed.

(** Storing an optional text in its field, which is empty before. *)
Lemma storeMembers_omitempty strict fields vs name value i rest vs' :
  JsonDecode.findField fields name = Some (i, JsonDecode.store strict TString) -> vs !! i = Some (VString "") ->
  JsonDecode.storeMembers strict fields (<[i := VString value]> vs) rest = (vs', None) ->
  JsonDecode.storeMembers strict fields vs (omitempty name value ++ rest) = (vs', None).
Proof.
  intros Hf Hv Hr. unfold omitempty. case_match; split_guards.
  - subst value. by rewrite list_insert_id in Hr.
  - cbn [app]. eapply JsonOne.storeMembers_step; [exact Hf| |exact Hr]. done.
Qed.

Lemma store_fieldError f : JsonDecode.store false fieldErrorType (JsonDecode.zero fieldErrorType) (marshalFieldError f) =
  (VStruct [VString (Field f); VString (FieldCode f); VString (Message f)], None).
Proof.
  apply JsonOne.store_struct. rewrite <- (app_nil_r (_ ++ omitempty _ _)), <- app_assoc. cbn [app].
  do 2 (eapply JsonOne.storeMembers_step; [reflexivity|reflexivity|]).
  by eapply storeMembers_omitempty.
Qed.

Lemma unmarshalDetails_documentLine d : textual d -> 400 <= Status d <= 599 ->
  unmarshalDetails (documentLine d) = Some d.
Proof.
  intros Ht Hs. unfold unmarshalDetails, documentLine.
  set (cells := map (fun f => VStruct [VString (Field f); VString (FieldCode f); VString (Message f)]) (Errors_ d)).
  set (errors := if Errors_ d == [] then VNil else VSlice (length (Errors_ d)) cells).
  rewrite (JsonOne.Unmarshal_encode detailsType (marshalDetails d) [Json.newline]
    (VStruct [VString (Type_ d); VString (Title d); VInt (Status d); VString (Code d); VString (CorrelationID d); errors])).
  - cbn [mbind option_bind].
    assert (He : match errors with VSlice n cells => omap fieldErrorOf (take n cells) | _ => [] end = Errors_ d).
    { unfold errors. destruct (decide (Errors_ d = [])) as [E|E]; [by rewrite bool_decide_true, E|]. rewrite bool_decide_false by done. unfold cells. rewrite take_ge by by rewrite length_map.
      clear. induction (Errors_ d) as [|[] fs IH]; [done|]. cbn. by f_equal. }
    rewrite He. by destruct d.
  - by apply marshalDetails_printable.
  - by repeat constructor.
  - apply JsonOne.store_struct. cbn [app].
    do 2 (eapply JsonOne.storeMembers_step; [reflexivity|reflexivity|]).
    eapply JsonOne.storeMembers_step; [reflexivity|cbn; by rewrite (proj2 (status_number _ Hs))|].
    eapply storeMembers_omitempty; [reflexivity|reflexivity|]. eapply storeMembers_omitempty; [reflexivity|reflexivity|].
    unfold errors. case_match; [reflexivity|].
    eapply JsonOne.storeMembers_step; [reflexivity| |reflexivity].
    rewrite <- (length_map marshalFieldError). apply JsonOne.store_slice. unfold cells. clear.
    induction (Errors_ d) as [|f fs IH]; constructor; [apply store_fieldError|done].
Qed.

End ProblemCorrect.

(** ** Properties *)

Module ProblemProperties.
Import Http Errors Problem ProblemCorrect.

(** Internal causes stay internal: the response of [WriteError] depends
    only on the status, the public code and message, and the request ID; two
    errors with the same first coded error give the same response, whatever they
    wrap, and an error without one gives a response without any of its text. *)
Theorem WriteError_hides_cause (status : Z) (err err' : goerror) (w : Writer) :
  As err = As err' ->
  WriteError status err w = WriteError status err' w /\
  (committed w = None ->
   exists d, body (WriteError status err w) = body w ++ [documentLine d] /\
     400 <= Status d <= 599 /\ Errors_ d = [] /\
     CorrelationID d = hGet (wHeader w) "X-Request-ID" /\
     (As err = None -> Code d = "" \/ Code d = "internal_error") /\
     (Title d = StatusText (Status d) \/ exists code, As err = Some (code, Title d))).
Proof.
  intros Has. unfold WriteError. rewrite Has. split; [done|]. intros Hc.
  eexists. split; [apply Write_commits; exact Hc|]. split; [apply complete_status|].
  destruct (As err') as [[code public]|]; unfold complete; cbn [Status CorrelationID Type_ Title Code Errors_];
    case_match; cbn [internalError Status CorrelationID Title Code Errors_]; split_and!; try done; auto.
  case_match; [by left|right; eauto].
Qed.

(** What a client is told of the given details: the given texts, or where they are
    empty the fallbacks; of details without an error status only that they failed. *)
Definition orElse (given fallback : string) : string :=
  match given with EmptyString => fallback | _ => given end.

Record tells (requestID : string) (d d' : Details) : Prop := {
  tells_correlation : CorrelationID d' = orElse (CorrelationID d) requestID;
  tells_error : 400 <= Status d <= 599 ->
    Status d' = Status d /\ Type_ d' = orElse (Type_ d) "about:blank" /\
    Title d' = orElse (Title d) (StatusText (Status d)) /\ Code d' = Code d /\ Errors_ d' = Errors_ d;
  tells_other : ~ 400 <= Status d <= 599 ->
    Status d' = 500 /\ Type_ d' = "about:blank" /\ Title d' = "Internal Server Error" /\
    Code d' = "internal_error" /\ Errors_ d' = []
}.

Lemma if_orElse s t : (if s == "" then t else s) = orElse s t.
Proof. by destruct s. Qed.

Lemma complete_tells id d : tells id d (complete id d).
Proof.
  unfold complete. destruct ((Status d <? 400) || (599 <? Status d)) eqn:Hg; split; cbn [internalError Status CorrelationID Type_ Title Code Errors_]; intros;
    first [by rewrite !if_orElse|exfalso; lia|done].
Qed.

(** C30.  A client reads what was meant: the bytes a problem response ends in decode,
    under the documented names, to details with the given status, code and field errors,
    the given type, title and correlation ID or their documented fallbacks
    (about:blank, the text of the status, the request ID); details whose status is not
    one of an error decode to an internal error that carries nothing of them but the
    correlation ID.  The status of the response is the one in the document, which is
    typed as a problem and not cached. *)
Theorem Write_document_roundtrip (d : Details) (w : Writer) :
  textual d -> ValidString (hGet (wHeader w) "X-Request-ID") = true -> committed w = None ->
  exists line d', body (Write d w) = body w ++ [line] /\ unmarshalDetails line = Some d' /\
    tells (hGet (wHeader w) "X-Request-ID") d d' /\
    committed (Write d w) = Some (Status d', wHeader (Write d w)) /\
    hGet (wHeader (Write d w)) "Content-Type" = "application/problem+json" /\
    hGet (wHeader (Write d w)) "Cache-Control" = "no-store".
Proof.
  intros [Ht Hf] Hid Hc. destruct (Write_commits d w Hc) as (H1 & H2 & H3 & _).
  eexists _, _. split; [exact H2|]. rewrite H3. split; [apply unmarshalDetails_documentLine; [|apply complete_status]|].
  2:{ split; [apply complete_tells|]. unfold hGet, hSet. by rewrite lookup_insert_eq, lookup_insert_ne, lookup_insert_eq. }
  rewrite !Forall_cons in Ht. destruct Ht as (? & ? & ? & ? & _).
  assert (Hst : forall z, ValidString (StatusText z) = true).
  { intros z. unfold StatusText. destruct (find _ statusTexts) as [p|] eqn:E; [|done].
    apply find_some in E as [E _].
    assert (Hall : forallb (fun p => ValidString (snd p)) statusTexts = true) by (vm_compute; reflexivity).
    rewrite forallb_forall in Hall. by apply Hall. }
  unfold complete, textual. case_match; cbn [Type_ Title Code CorrelationID Errors_ Status internalError].
  all: rewrite !Forall_cons; split_and!; try done; try constructor; repeat case_match; done.
Qed.

Definition sampleDetails : Details :=
  {| Type_ := ""; Title := ""; Status := 422; Code := "invalid"; CorrelationID := "";
     Errors_ := [{| Field := "name"; FieldCode := "too_short"; Message := "" |}] |}.

Lemma Write_document_roundtrip_witness : exists line d',
  body (Write sampleDetails newWriter) = [line] /\ unmarshalDetails line = Some d' /\
  Errors_ d' = Errors_ sampleDetails /\ Title d' = "Unprocessable Entity".
Proof.
  destruct (Write_document_roundtrip sampleDetails newWriter) as (line & d' & Hb & Hd & Ht & _).
  - by split; repeat constructor.
  - reflexivity.
  - reflexivity.
  - exists line, d'. split; [exact Hb|]. split; [exact Hd|].
    destruct (tells_error _ _ _ Ht) as (_ & _ & Ht' & _ & He); [cbn; lia|]. split; [exact He|exact Ht'].
Defined.

Example documentLine_sample :
  documentLine (complete "r-1" sampleDetails) = JsonDecode.quoted
    "{'type':'about:blank','title':'Unprocessable Entity','status':422,'code':'invalid','correlation_id':'r-1','errors':[{'field':'name','code':'too_short'}]}"
    ++ [byte_of 10].
Proof. vm_compute. reflexivity. Qed.

Lemma WriteError_hides_cause_witness :
  WriteError 404 (Wrapped "load" (Coded "not_found" "No such user" (Some (Plain "row 7: dial db:5432"))))
    newWriter = WriteError 404 (New "not_found" "No such user") newWriter.
Proof.
  apply (WriteError_hides_cause 404
    (Wrapped "load" (Coded "not_found" "No such user" (Some (Plain "row 7: dial db:5432"))))
    (New "not_found" "No such user") newWriter). reflexivity.
Defined.

End ProblemProperties.
