(* ===== verification/Middleware.v ===== *)
(** * The standard middleware chain ([web/middleware/middleware.go])

    Request IDs, security headers, the access log and panic recovery, each as a
    handler transformer over the exchanges of [GoHttp], and their composition.
    [MiddlewareCorrect] follows a header, a tracked status and a log line through
    the chain; [MiddlewareProperties] states what every request gets. *)

From S2P Require Import Prelude GoStrings GoHttp Ids Problem.

(** What the chain logs. *)
Inductive logEntry :=
  | RequestPanic (requestID : string)
  | RequestCompleted (requestID method route : string) (status : Z).

Module Middleware.
Import Http.

Abbreviation handler := (Handler logEntry) (only parsing).

Definition RequestID (r : Request) : string := rContextID r.

Definition validRequestID (id : string) : bool :=
  if (id == "") || (128 <? len id) then false
  else forallb (fun character =>
    between (code "a") (code "z") character || between (code "A") (code "Z") character ||
    between (code "0") (code "9") character || (character =? code "-") || (character =? code "_"))
    (runes id).

(** [requestID]: [random] is what the random source gives [id.New]. *)
Definition requestID (random : option (list byte)) (next : handler) : handler := fun r s =>
  let id := hGet (rHeader r) "X-Request-ID" in
  let id := if validRequestID id then id else default "" (Ids.New random) in
  if id != "" then
    let s := onWriter (onHeader (hSet "X-Request-ID" id)) s in
    let '(r, s) := WithRequestID id r s in
    next r s
  else next r s.

Definition securityHeaders (next : handler) : handler := fun r s =>
  let set k v := onWriter (onHeader (hSet k v)) in
  let s := set "X-Content-Type-Options" "nosniff" s in
  let s := set "X-Frame-Options" "DENY" s in
  let s := set "Referrer-Policy" "no-referrer" s in
  let s := set "Content-Security-Policy" "default-src 'none'; frame-ancestors 'none'" s in
  let s := set "Permissions-Policy" "camera=(), microphone=(), geolocation=()" s in
  let s := if rTLS r then set "Strict-Transport-Security" "max-age=31536000" s else s in
  next r s.

(** [accessLog]: a panic of [next] skips the log line. *)
Definition accessLog (next : handler) : handler := fun r s =>
  let '(s, e) := next r (onWriter pushTracker s) in
  match e with
  | Panics => (onWriter popTracker s, Panics)
  | Returns =>
      let status := topTracker (writer s) in
      let status := if status =? 0 then 200 else status in
      let route := if Pattern r s == "" then "unmatched" else Pattern r s in
      (logged (RequestCompleted (RequestID r) (rMethod r) route status) (onWriter popTracker s), Returns)
  end.

Definition internalProblem : Details :=
  {| Type_ := "https://docs.stumpfworks.de/problems/internal"; Title := "Internal server error";
     Status := 500; Code := "internal_error"; CorrelationID := ""; Errors_ := [] |}.

Definition recoverer (next : handler) : handler := fun r s =>
  let '(s, e) := next r s in
  match e with
  | Returns => (s, Returns)
  | Panics =>
      let s := logged (RequestPanic (hGet (wHeader (writer s)) "X-Request-ID")) s in
      (onWriter (Problem.Write internalProblem) s, Returns)
  end.

Definition Chain (random : option (list byte)) (next : handler) : handler :=
  requestID random (securityHeaders (accessLog (recoverer next))).

End Middleware.

(** ** Facts about responses *)

Module MiddlewareCorrect.
Import Http Problem ProblemCorrect Middleware.

(** The calls a handler can make without a run-time panic inside [net/http]. *)
Definition validStatus (status : Z) : Prop := 100 <= status <= 999.
Definition wellFormed (a : action) : Prop :=
  match a with AWriteHeader status => validStatus status | _ => True end.

Definition touches (k : string) (a : action) : Prop :=
  match a with
  | ASet k' _ | AAdd k' _ | ADel k' => CanonicalHeaderKey k' = k
  | _ => False
  end.

(** *** Headers that nobody touches *)

Definition holds (k : string) (vs : list string) (w : Writer) : Prop :=
  wHeader w !! k = Some vs /\
  match committed w with Some (_, h) => h !! k = Some vs | None => True end.

Lemma holds_onHeader k vs f w : (forall h, f h !! k = h !! k) -> holds k vs w -> holds k vs (onHeader f w).
Proof. intros Hf [Hw Hc]. split; simpl; [by rewrite Hf|done]. Qed.

Lemma holds_WriteHeader k vs status w : holds k vs w -> holds k vs (WriteHeader status w).
Proof.
  intros [Hw Hc]. split; simpl; [done|]. destruct (committed w) as [[c h]|]; [done|].
  by destruct (isInformational status).
Qed.

Lemma holds_Write k vs c w : holds k vs w -> holds k vs (Http.Write c w).
Proof.
  intros Hh. pose proof (holds_WriteHeader k vs 200 w Hh) as H2. unfold Http.Write.
  destruct (committed w) eqn:E; split; simpl; [apply Hh|apply Hh|apply H2|apply H2].
Qed.

Lemma holds_perform k vs a w : ~ touches k a -> holds k vs w -> holds k vs (perform a w).
Proof.
  intros Ht Hh. destruct a; simpl in *; try (apply holds_onHeader; [|done]; intros h).
  - unfold hSet. by rewrite lookup_insert_ne.
  - unfold hAdd. by rewrite lookup_insert_ne.
  - unfold hDel. by rewrite lookup_delete_ne.
  - by apply holds_WriteHeader.
  - by apply holds_Write.
Qed.

Lemma holds_performAll k vs acts w : Forall (fun a => ~ touches k a) acts -> holds k vs w ->
  holds k vs (performAll acts w).
Proof.
  unfold performAll. intros Hf. revert w. induction Hf as [|a acts Ha _ IH]; intros w Hw; simpl; [done|].
  apply IH. by apply holds_perform.
Qed.

Lemma holds_problem k vs d w : k <> "Content-Type" -> k <> "Cache-Control" -> holds k vs w ->
  holds k vs (Problem.Write d w).
Proof.
  intros H1 H2 Hw. unfold Problem.Write. apply holds_Write, holds_WriteHeader.
  apply holds_onHeader; [intros h; unfold hSet; by rewrite lookup_insert_ne|].
  apply holds_onHeader; [intros h; unfold hSet; by rewrite lookup_insert_ne|done].
Qed.

Lemma holds_set k v w : committed w = None -> holds (CanonicalHeaderKey k) [v] (onHeader (hSet k v) w).
Proof.
  intros Hc. split; simpl; [unfold hSet; by rewrite lookup_insert_eq|by rewrite Hc].
Qed.

(** *** What a tracker records *)

(** The statuses sent so far, informational ones first. *)
Definition statuses (w : Writer) : list Z :=
  informational w ++ match committed w with Some (c, _) => [c] | None => [] end.

(** The top tracker holds the first status sent since it was pushed on a
    response that had sent none. *)
Definition tracked (w : Writer) : Prop :=
  exists t ts, trackers w = t :: ts /\ t = default 0 (head (statuses w)) /\ Forall validStatus (statuses w).

Lemma tracked_nonzero w : tracked w -> statuses w <> [] -> topTracker w <> 0.
Proof.
  intros (t & ts & Ht & -> & Hv) Hne. unfold topTracker. rewrite Ht. simpl.
  destruct (statuses w) as [|c cs]; [done|]. apply Forall_cons in Hv as [Hc _].
  unfold validStatus in Hc. simpl. lia.
Qed.

Lemma track_valid status t : validStatus t -> track status t = t.
Proof. unfold validStatus, track. intros. case_match; lia. Qed.

(** Tracking one more status keeps the first of a list. *)
Lemma track_first status sent : Forall validStatus sent ->
  track status (default 0 (head sent)) = default 0 (head (sent ++ [status])).
Proof. intros Hv. destruct Hv as [|t sent Ht Hv]; [done|]. by apply track_valid. Qed.

Lemma tracked_WriteHeader status w : validStatus status -> tracked w -> tracked (WriteHeader status w).
Proof.
  intros Hs (t & ts & Ht & Heq & Hv). unfold tracked, statuses in *. cbn [trackers informational committed WriteHeader].
  rewrite Ht. cbn [map]. eexists _, _. split; [done|]. rewrite Heq.
  destruct (committed w) as [[c h]|].
  - rewrite app_nil_r. split; [|done].
    assert (Hne : informational w ++ [c] <> []) by by destruct (informational w).
    destruct Hv; [done|]. by apply track_valid.
  - rewrite app_nil_r in *. rewrite track_first by done.
    destruct (isInformational status); rewrite ?app_nil_r;
      (split; [done|by apply Forall_app; split; [|constructor]]).
Qed.

Lemma tracked_Write c w : tracked w -> tracked (Http.Write c w).
Proof.
  intros Hw. pose proof (tracked_WriteHeader 200 w ltac:(unfold validStatus; lia) Hw) as H2.
  unfold Http.Write. destruct (committed w) as [[s h]|] eqn:E; [|exact H2].
  destruct Hw as (t & ts & Ht & Heq & Hv). unfold tracked, statuses in *.
  cbn [trackers informational committed]. rewrite E in *. rewrite Ht. cbn [map].
  eexists _, _. split; [done|]. split; [|done]. rewrite Heq.
  assert (Hne : informational w ++ [s] <> []) by by destruct (informational w).
  destruct Hv; [done|]. by apply track_valid.
Qed.

Lemma tracked_performAll acts w : Forall wellFormed acts -> tracked w -> tracked (performAll acts w).
Proof.
  unfold performAll. intros Hf. revert w. induction Hf as [|a acts Ha _ IH]; intros w Hw; simpl; [done|].
  apply IH. destruct a; simpl in *; try exact Hw; [by apply tracked_WriteHeader|by apply tracked_Write].
Qed.

Lemma tracked_problem d w : tracked w -> tracked (Problem.Write d w).
Proof.
  intros Hw. unfold Problem.Write. apply tracked_Write, tracked_WriteHeader; [|exact Hw].
  pose proof (complete_status (hGet (wHeader w) "X-Request-ID") d). unfold validStatus. lia.
Qed.

(** Without informational responses the tracker, or 200 when it is 0, is the
    final status. *)
Lemma tracked_finish w : tracked w -> informational w = [] ->
  (if topTracker w =? 0 then 200 else topTracker w) = fst (finish w).
Proof.
  intros (t & ts & Ht & Heq & Hv) Hi. unfold topTracker, finish, statuses in *. rewrite Ht, Heq, Hi in *.
  simpl in *. destruct (committed w) as [[c h]|]; simpl in *; [|done].
  apply Forall_cons in Hv as [Hc _]. unfold validStatus in Hc. case_match; lia.
Qed.

(** *** The chain *)

(** The request ID in force. *)
Definition chainID (random : option (list byte)) (r : Request) : string :=
  let id := hGet (rHeader r) "X-Request-ID" in
  if validRequestID id then id else default "" (Ids.New random).

(** The request as the inner handlers see it. *)
Definition seenAs (r r' : Request) (id : string) : Prop :=
  rMethod r' = rMethod r /\ rHeader r' = rHeader r /\ rTLS r' = rTLS r /\
  rContextID r' = (if id == "" then rContextID r else id) /\ rPath r' = rPath r.

Definition policy (tls : bool) : list (string * string) :=
  [("X-Content-Type-Options", "nosniff"); ("X-Frame-Options", "DENY"); ("Referrer-Policy", "no-referrer");
   ("Content-Security-Policy", "default-src 'none'; frame-ancestors 'none'");
   ("Permissions-Policy", "camera=(), microphone=(), geolocation=()")] ++
  (if tls then [("Strict-Transport-Security", "max-age=31536000")] else []).

Definition routeLabel (pattern : string) : string := if pattern == "" then "unmatched" else pattern.

(** The writer after the handler, and after panic recovery. *)
Definition served (serve : list action * ending) (w : Writer) : Writer :=
  performAll (fst serve) (pushTracker w).
Definition recovered (serve : list action * ending) (w : Writer) : Writer :=
  match snd serve with Returns => served serve w | Panics => Problem.Write internalProblem (served serve w) end.

(** What the inner handlers start from. *)
Record prepared (id : string) (tls : bool) (w : Writer) : Prop := {
  pr_fresh : committed w = None;
  pr_first : informational w = [];
  pr_policy k v : (k, v) ∈ policy tls -> holds k [v] w;
  pr_id : id <> "" -> holds "X-Request-Id" [id] w
}.

Lemma securityHeaders_prepared (next : Handler logEntry) id r s :
  committed (writer s) = None -> informational (writer s) = [] ->
  (id <> "" -> holds "X-Request-Id" [id] (writer s)) ->
  exists w, securityHeaders next r s = next r {| writer := w; patterns := patterns s; logs := logs s |} /\
    prepared id (rTLS r) w /\ body w = body (writer s).
Proof.
  intros Hc Hi Hid. unfold securityHeaders.
  destruct (rTLS r); (eexists; split; [reflexivity|]); (split; [|reflexivity]); (split; [exact Hc|exact Hi| |]).
  - intros k v Hk. repeat (apply elem_of_cons in Hk as [[= -> ->]|Hk]); [..|by apply elem_of_nil in Hk];
      (split; [cbn; unfold hSet; by repeat first [apply lookup_insert_eq|rewrite lookup_insert_ne by done]
              |by cbn; rewrite Hc]).
  - intros [Hw _]%Hid. split; [|by cbn; rewrite Hc]. cbn. unfold hSet. by rewrite !lookup_insert_ne.
  - intros k v Hk. repeat (apply elem_of_cons in Hk as [[= -> ->]|Hk]); [..|by apply elem_of_nil in Hk];
      (split; [cbn; unfold hSet; by repeat first [apply lookup_insert_eq|rewrite lookup_insert_ne by done]
              |by cbn; rewrite Hc]).
  - intros [Hw _]%Hid. split; [|by cbn; rewrite Hc]. cbn. unfold hSet. by rewrite !lookup_insert_ne.
Qed.

(** The log and the patterns as the inner handlers find them: a copied request
    carries the pattern of the original. *)
Definition carried (r r' : Request) (s s' : World logEntry) : Prop :=
  logs s' = logs s /\ Pattern r' s' = Pattern r s.

Lemma requestID_prepared random (next : Handler logEntry) r s :
  committed (writer s) = None -> informational (writer s) = [] ->
  exists r' s', requestID random next r s = next r' s' /\ seenAs r r' (chainID random r) /\
    committed (writer s') = None /\ informational (writer s') = [] /\ body (writer s') = body (writer s) /\
    carried r r' s s' /\ (chainID random r <> "" -> holds "X-Request-Id" [chainID random r] (writer s')).
Proof.
  intros Hc Hi. unfold requestID. fold (chainID random r).
  destruct (decide (chainID random r = "")) as [He|He].
  - rewrite bool_decide_true by done. cbn [negb]. exists r, s. unfold seenAs, carried.
    rewrite bool_decide_true by done. by split_and!.
  - rewrite bool_decide_false by done. cbn [negb]. unfold WithRequestID. eexists _, _.
    split; [reflexivity|]. unfold seenAs, carried, Pattern. rewrite bool_decide_false by done. cbn.
    rewrite lookup_insert_eq. split_and!; try done. intros _. by apply (holds_set "X-Request-ID").
Qed.

(** What the access log and panic recovery make of the end of a handler. *)
Definition concluded (r' : Request) (end_ : World logEntry * ending) : World logEntry :=
  let s := match snd end_ with
           | Returns => fst end_
           | Panics => onWriter (Problem.Write internalProblem)
               (logged (RequestPanic (hGet (wHeader (writer (fst end_))) "X-Request-ID")) (fst end_))
           end in
  let t := topTracker (writer s) in
  logged (RequestCompleted (rContextID r') (rMethod r') (routeLabel (Pattern r' s)) (if t =? 0 then 200 else t))
    (onWriter popTracker s).

(** The chain around any handler. *)
Lemma Chain_inner random (next : Handler logEntry) r s :
  committed (writer s) = None -> informational (writer s) = [] ->
  exists r' s', seenAs r r' (chainID random r) /\ prepared (chainID random r) (rTLS r) (writer s') /\
    body (writer s') = body (writer s) /\ carried r r' s s' /\
    Chain random next r s = (concluded r' (next r' (onWriter pushTracker s')), Returns).
Proof.
  intros Hc Hi. unfold Chain.
  destruct (requestID_prepared random (securityHeaders (accessLog (recoverer next))) r s Hc Hi)
    as (r' & s1 & -> & Hseen & Hc1 & Hi1 & Hb1 & [Hl1 Hp1] & Hid).
  destruct (securityHeaders_prepared (accessLog (recoverer next)) (chainID random r) r' s1
    Hc1 Hi1 ltac:(intros Hne; by apply Hid)) as (w & -> & Hp & Hbw).
  exists r', {| writer := w; patterns := patterns s1; logs := logs s1 |}.
  rewrite (proj1 (proj2 (proj2 Hseen))) in Hp. split; [done|]. split; [done|]. split; [cbn; congruence|].
  split; [done|]. unfold accessLog, recoverer, concluded.
  destruct (next r' _) as [s2 [|]]; reflexivity.
Qed.

Lemma Chain_run random route serve r s :
  committed (writer s) = None -> informational (writer s) = [] ->
  exists r' w s', Chain random (mux route serve) r s = (s', Returns) /\
    seenAs r r' (chainID random r) /\ prepared (chainID random r) (rTLS r) w /\
    writer s' = popTracker (recovered (serve r') w) /\
    logs s' = logs s ++
      match snd (serve r') with
      | Returns => []
      | Panics => [RequestPanic (hGet (wHeader (served (serve r') w)) "X-Request-ID")]
      end ++
      [RequestCompleted (rContextID r') (rMethod r) (routeLabel (route r'))
         (let t := topTracker (recovered (serve r') w) in if t =? 0 then 200 else t)].
Proof.
  intros Hc Hi. destruct (Chain_inner random (mux route serve) r s Hc Hi)
    as (r' & s1 & Hseen & Hp & _ & [Hl Hpat] & ->).
  exists r', (writer s1). eexists. split; [done|]. split; [done|]. split; [done|].
  rewrite <- (proj1 Hseen), <- Hl. unfold concluded, mux, recovered, served, Pattern.
  destruct (serve r') as [acts [|]]; cbn; rewrite lookup_insert_eq; cbn; (split; [reflexivity|]);
    by rewrite ?app_nil_l, <- ?app_assoc.
Qed.

Lemma pushTracker_tracked w : committed w = None -> informational w = [] -> tracked (pushTracker w).
Proof. intros Hc Hi. unfold tracked, statuses. cbn. rewrite Hc, Hi. eexists _, _. by split_and!. Qed.

Lemma recovered_tracked serve w : Forall wellFormed (fst serve) -> committed w = None ->
  informational w = [] -> tracked (recovered serve w).
Proof.
  intros Hf Hc Hi. assert (tracked (served serve w)) by (apply tracked_performAll, pushTracker_tracked; done).
  unfold recovered. destruct (snd serve); [done|by apply tracked_problem].
Qed.

End MiddlewareCorrect.

(** ** Properties *)

Module MiddlewareProperties.
Import Http Problem ProblemCorrect Middleware MiddlewareCorrect.

(** A request ID the chain lets through. *)
Definition plainID (id : string) : Prop :=
  id <> "" /\ len id <= 128 /\
  Forall (fun c => isLower c || isUpper c || isDigit c || (c == "-"%char) || (c == "_"%char) = true) (chars id).

Lemma plain_idChar c : IdsCorrect.idChar c = true ->
  isLower c || isUpper c || isDigit c || (c == "-"%char) || (c == "_"%char) = true.
Proof.
  unfold IdsCorrect.idChar, isLower, between. intros Hc. apply orb_true_iff in Hc as [Hc|Hc].
  - apply orb_true_iff in Hc as [Hc|Hc]; [rewrite Hc; by rewrite !orb_true_r|].
    apply andb_true_iff in Hc as [H1 H2]. replace (code c <=? code "z") with true; [by rewrite H1|].
    change (code "f") with 102 in H2. change (code "z") with 122. lia.
  - rewrite Hc. by rewrite !orb_true_r.
Qed.

Lemma generated_plain random id : (forall v, random = Some v -> blen v = 16) ->
  Ids.New random = Some id -> plainID id.
Proof.
  intros Hr HN. destruct random as [v|]; [|done].
  destruct (IdsCorrect.New_shape v id (Hr v eq_refl) HN) as [Hl Hc]. split_and!.
  - intros ->. done.
  - lia.
  - rewrite forallb_forall in Hc. apply Forall_forall. intros c Hin.
    apply plain_idChar, Hc. by apply list_elem_of_In.
Qed.

(** Runes outside ASCII never pass, so a valid ID is plain. *)
Lemma decodeRune_high b l : 0x80 <= b -> 0 <= b < 256 -> Forall (fun z => 0 <= z < 256) l ->
  0x80 <= fst (decodeRune (b :: l)).
Proof.
  intros Hb Hb2 Hl. unfold decodeRune, RuneError, between, cont, between.
  destruct (Z.ltb_spec b 0x80); [lia|]. destruct l as [|b1 [|b2 [|b3 l]]]; simpl; [lia|..];
    destruct (Z.eqb_spec b 0xe0), (Z.eqb_spec b 0xed), (Z.eqb_spec b 0xf0), (Z.eqb_spec b 0xf4); try lia;
    repeat (case_match; simpl; try lia).
Qed.

Lemma runes_ascii_only f l : (forall z, f z = true -> z < 0x80) -> Forall (fun z => 0 <= z < 256) l ->
  forall fuel, (length l <= fuel)%nat ->
  forallb f (map fst (runesFrom fuel l)) = true -> Forall (fun z => f z = true) l.
Proof.
  intros Hf. induction 1 as [|z l Hz Hl IH]; intros fuel Hfuel Hall; [constructor|].
  simpl in Hfuel. destruct fuel as [|fuel]; [lia|]. cbn [runesFrom map forallb] in Hall.
  apply andb_true_iff in Hall as [Hz' Hall].
  destruct (Z.ltb_spec z 0x80) as [Hlow|Hhigh].
  - unfold decodeRune in Hz', Hall. rewrite (proj2 (Z.ltb_lt _ _) Hlow) in Hz', Hall.
    cbn [fst snd drop] in Hz', Hall. constructor; [done|]. apply (IH fuel); [lia|done].
  - pose proof (decodeRune_high z l Hhigh Hz Hl). apply Hf in Hz'. lia.
Qed.

Lemma validRequestID_plain id : validRequestID id = true -> plainID id.
Proof.
  unfold validRequestID. case_match; [done|]. split_guards. intros Hv. unfold plainID.
  split_and!; [done|lia|].
  apply runes_ascii_only in Hv.
  - unfold byteValues in Hv. rewrite Forall_map in Hv. eapply Forall_impl; [exact Hv|].
    intros c. simpl. unfold isLower, isUpper, isDigit, between. intros Hc.
    repeat (apply orb_true_iff in Hc as [Hc|Hc]).
    + by rewrite Hc.
    + by rewrite Hc, orb_true_r.
    + by rewrite Hc, !orb_true_r.
    + rewrite (bool_decide_true (c = "-"%char)); [by rewrite !orb_true_r|].
      apply code_inj. change (code "-") with 45 in *. lia.
    + rewrite (bool_decide_true (c = "_"%char)); [by rewrite !orb_true_r|].
      apply code_inj. change (code "_") with 95 in *. lia.
  - intros z. unfold between. change (code "a") with 97. change (code "z") with 122.
    change (code "A") with 65. change (code "Z") with 90. change (code "0") with 48.
    change (code "9") with 57. change (code "-") with 45. change (code "_") with 95. lia.
  - unfold byteValues. rewrite Forall_map. apply Forall_forall. intros c _. pose proof (code_range c). simpl. lia.
  - unfold byteValues. rewrite length_map. apply Nat.eq_le_incl.
    pose proof (len_chars id) as Hl. unfold len, blen in Hl. lia.
Qed.

Lemma popTracker_finish (w : Writer) : finish (popTracker w) = finish w.
Proof. done. Qed.

(** C21.  No panic escapes the chain: whatever a handler wrote before it
    panicked, the chain returns; if it had not yet sent a status, the client
    receives a 500 problem document with no-store caching that carries the
    request ID and nothing of the panic, and the panic is logged under that ID. *)
Theorem Chain_contains_panics (random : option (list byte)) (route : Request -> string)
    (serve : Request -> list action * ending) (r : Request) (s : World logEntry) :
  committed (writer s) = None -> informational (writer s) = [] ->
  exists r' w s', Chain random (mux route serve) r s = (s', Returns) /\
    seenAs r r' (chainID random r) /\ prepared (chainID random r) (rTLS r) w /\
    (snd (serve r') = Panics -> committed (served (serve r') w) = None ->
     let id := hGet (wHeader (served (serve r') w)) "X-Request-ID" in
     RequestPanic id ∈ logs s' /\
     fst (finish (writer s')) = 500 /\
     hGet (snd (finish (writer s'))) "Content-Type" = "application/problem+json" /\
     hGet (snd (finish (writer s'))) "Cache-Control" = "no-store" /\
     body (writer s') = body (served (serve r') w) ++
       [documentLine {| Type_ := "https://docs.stumpfworks.de/problems/internal";
                    Title := "Internal server error"; Status := 500; Code := "internal_error";
                    CorrelationID := id; Errors_ := [] |}]).
Proof.
  intros Hc Hi. destruct (Chain_run random route serve r s Hc Hi)
    as (r' & w & s' & HC & Hseen & Hp & Hw & Hl).
  exists r', w, s'. split; [done|]. split; [done|]. split; [done|]. intros Hpanic Hcom.
  unfold recovered in Hw. rewrite Hpanic in Hw, Hl. rewrite Hw, popTracker_finish.
  destruct (Write_commits internalProblem (served (serve r') w) Hcom) as (Hc2 & Hb & _ & _).
  unfold finish. rewrite Hc2. cbn [default id from_option fst snd popTracker body]. split_and!.
  - rewrite Hl. apply elem_of_app. right. by left.
  - done.
  - unfold hGet, hSet. rewrite lookup_insert_ne by done. by rewrite lookup_insert_eq.
  - unfold hGet, hSet. by rewrite lookup_insert_eq.
  - exact Hb.
Qed.

(** Every request is logged once, with the route pattern the router
    matched (never the raw path), the method, the request ID in force and, as
    long as no informational response was sent, exactly the status the client
    received, whether the handler returned or panicked. *)
Theorem Chain_access_log (random : option (list byte)) (route : Request -> string)
    (serve : Request -> list action * ending) (r : Request) (s : World logEntry) :
  committed (writer s) = None -> informational (writer s) = [] ->
  (forall r', Forall wellFormed (fst (serve r'))) ->
  exists r' s' before status, Chain random (mux route serve) r s = (s', Returns) /\
    seenAs r r' (chainID random r) /\
    logs s' = logs s ++ before ++
      [RequestCompleted (rContextID r') (rMethod r) (routeLabel (route r')) status] /\
    (before = [] \/ exists id, before = [RequestPanic id]) /\
    (informational (writer s') = [] -> status = fst (finish (writer s'))).
Proof.
  intros Hc Hi Hwf. destruct (Chain_run random route serve r s Hc Hi)
    as (r' & w & s' & HC & Hseen & Hp & Hw & Hl).
  eexists r', s', _, _. split_and!; [done|done|exact Hl|destruct (snd (serve r')); eauto|].
  intros Hinf. rewrite Hw in *. rewrite popTracker_finish. cbv zeta.
  apply tracked_finish; [|exact Hinf]. apply recovered_tracked; [done|by apply Hp|by apply Hp].
Qed.

(** Every response carries the security headers and a safe request ID:
    each header of the policy that the handler does not itself change reaches
    the client with the policy's value, HSTS exactly on TLS requests, also on
    panics; and the request ID header is the client's only if it is 1 to 128
    letters, digits, hyphens or underscores, else a fresh identifier of that
    form. *)
Theorem Chain_headers (random : option (list byte)) (route : Request -> string)
    (serve : Request -> list action * ending) (r : Request) (s : World logEntry) :
  committed (writer s) = None -> informational (writer s) = [] ->
  (exists v, random = Some v /\ blen v = 16) ->
  exists s', Chain random (mux route serve) r s = (s', Returns) /\
    plainID (chainID random r) /\
    forall k v, (k, v) ∈ ("X-Request-Id", chainID random r) :: policy (rTLS r) ->
      (forall r', Forall (fun a => ~ touches k a) (fst (serve r'))) ->
      snd (finish (writer s')) !! k = Some [v].
Proof.
  intros Hc Hi (bytes & Hr & Hb). destruct (Chain_run random route serve r s Hc Hi)
    as (r' & w & s' & HC & Hseen & Hp & Hw & Hl).
  assert (Hid : plainID (chainID random r)).
  { unfold chainID. destruct (validRequestID _) eqn:Hv; [by apply validRequestID_plain|].
    destruct (Ids.New random) as [id|] eqn:HN; [|by rewrite Hr in HN].
    apply (generated_plain random id); [|done]. intros v Hv'. rewrite Hr in Hv'. by simplify_eq. }
  exists s'. split; [done|]. split; [done|]. intros k v Hk Hserve.
  assert (Hh : holds k [v] w).
  { apply elem_of_cons in Hk as [[= -> ->]|Hk]; [apply (pr_id _ _ _ Hp), Hid|by apply (pr_policy _ _ _ Hp)]. }
  assert (Hkey : k <> "Content-Type" /\ k <> "Cache-Control").
  { unfold policy in Hk. split; intros ->; destruct (rTLS r);
      repeat (apply elem_of_cons in Hk as [[=]|Hk]); by apply elem_of_nil in Hk. }
  assert (Hs : holds k [v] (served (serve r') w)) by (apply holds_performAll; [apply Hserve|exact Hh]).
  assert (Hrec : holds k [v] (recovered (serve r') w)).
  { unfold recovered. destruct (snd (serve r')); [done|]. by apply holds_problem; try apply Hkey. }
  rewrite Hw, popTracker_finish. destruct Hrec as [H1 H2]. unfold finish.
  by destruct (committed (recovered (serve r') w)) as [[c h]|].
Qed.

(** *** Evaluations *)

Definition sampleRequest : Request :=
  {| rObject := 1; rMethod := "GET"; rPath := ["users"; "7"]; rHeader := {[ "X-Request-Id" := ["a b"] ]}; rTLS := true;
     rContextID := "" |}.
Definition sampleWorld : World logEntry :=
  {| writer := newWriter; patterns := {[ 1%positive := "" ]}; logs := [] |}.
Definition sampleServe (r : Request) : list action * ending :=
  ([ASet "X-Extra" "1"; AWriteHeader 204], Returns).
Definition panicServe (r : Request) : list action * ending := ([ASet "X-Extra" "1"], Panics).
Definition sampleRoute (r : Request) : string := "GET /users/{id}".
Definition sampleRandom : option (list byte) := Some (replicate 16 (byte_of 0xab)).

Lemma Chain_contains_panics_witness :
  exists s', Chain sampleRandom (mux sampleRoute panicServe) sampleRequest sampleWorld = (s', Returns).
Proof.
  destruct (Chain_contains_panics sampleRandom sampleRoute panicServe sampleRequest sampleWorld)
    as (r' & w & s' & HC & _); [reflexivity|reflexivity|]. exists s'. exact HC.
Defined.

Lemma Chain_access_log_witness :
  exists s', Chain sampleRandom (mux sampleRoute sampleServe) sampleRequest sampleWorld = (s', Returns).
Proof.
  destruct (Chain_access_log sampleRandom sampleRoute sampleServe sampleRequest sampleWorld)
    as (r' & s' & before & status & HC & _); [reflexivity|reflexivity| |exists s'; exact HC].
  intros r'. repeat constructor; unfold validStatus; lia.
Defined.

Lemma Chain_headers_witness :
  exists s', Chain sampleRandom (mux sampleRoute panicServe) sampleRequest sampleWorld = (s', Returns) /\
    snd (finish (writer s')) !! "X-Frame-Options" = Some ["DENY"].
Proof.
  destruct (Chain_headers sampleRandom sampleRoute panicServe sampleRequest sampleWorld)
    as (s' & HC & _ & Hk); [reflexivity|reflexivity|by exists (replicate 16 (byte_of 0xab))|].
  exists s'. split; [exact HC|]. apply Hk; [by apply (bool_decide_eq_true_1 _)|].
  intros r'. repeat constructor. discriminate.
Defined.

(** The status a tracker reports when the handler sent early hints first. *)
Example early_hints_status :
  let '(s, _) := Chain sampleRandom (mux sampleRoute (fun _ => ([AWriteHeader 103; AWriteHeader 200], Returns)))
    sampleRequest sampleWorld in
  fst (finish (writer s)) = 200 /\
  logs s = [RequestCompleted "abababab-abab-4bab-abab-abababababab" "GET" "GET /users/{id}" 103].
Proof. vm_compute. split; reflexivity. Qed.

End MiddlewareProperties.
