(* ===== verification/Cors.v ===== *)
(** * Cross-origin policy ([web/middleware/cors.go])

    [CORS] vets the configured origins, methods and headers; [corsHandler] answers
    a request with them.  [CorsProperties] states what a browser can be granted. *)

From S2P Require Import Prelude GoTime GoStrings GoUrl GoUrlParse GoHttp Problem Middleware.
From stdpp Require Import pretty.

#[local] Open Scope Z_scope.




Module Cors.
Import Http.





Section cors.
Context `{UnicodeCase}.






End cors.

End Cors.

(** ** Properties *)

Module CorsProperties.
Import Http Cors.

Section properties.
Context `{UnicodeCase}.













End properties.

(** *** An evaluation *)

#[local] Instance asciiCase : UnicodeCase := {| lowerRune := id; upperRune := id |}.



End CorsProperties.
