(* ===== verification/Concurrency.v ===== *)
(** * The concurrency limiter ([web/middleware/concurrency.go])

    A semaphore of [maximum] slots.  The state keeps the clock, the number of tokens in
    the channel and the phase of every request that has arrived, a waiting one with the
    moment its timer fires; each event is one choice of a [select], an arrival, the end
    of an admitted request, or time passing. *)

From S2P Require Import Prelude GoTime GoHttp Problem Simulation.

Inductive limit_error := InvalidMaximum | InvalidQueueTimeout.

(** A request waits for a slot, runs inside, or is over: served (returned or
    panicked), rejected with 503, or abandoned by its client.  A waiting request has a
    timer when there is a queue; without one it is about to run the [select] with a
    default case. *)
Inductive phase := Waiting (timer : option time) | Inside | Served | Rejected | Abandoned.

#[export] Instance phase_eq_dec : EqDecision phase.
Proof. solve_decision. Defined.

Inductive event := Arrive (i : positive) | Acquire (i : positive) | Default (i : positive)
  | Expire (i : positive) | Cancel (i : positive) | Finish (i : positive) | Elapse (d : Duration).

Record limiter := { maximum : Z; queueTimeout : Duration }.
Record state := { clock : time; tokens : Z; requests : gmap positive phase }.

Module Concurrency.
Import Http.

Definition LimitConcurrency (maximum : Z) (queueTimeout : Duration) : result limit_error limiter :=
  if maximum <=? 0 then Err InvalidMaximum
  else if queueTimeout <? 0 then Err InvalidQueueTimeout
  else Ok {| maximum := maximum; queueTimeout := queueTimeout |}.

(** [unavailable]. *)
Definition unavailable (w : Writer) : Writer :=
  Problem.Write
    {| Type_ := "https://docs.stumpfworks.de/problems/overloaded"; Title := "Service temporarily unavailable";
       Status := 503; Code := "service_overloaded"; CorrelationID := ""; Errors_ := [] |}
    (onHeader (hSet "Retry-After" "1") w).

Definition idle (start : time) : state := {| clock := start; tokens := 0; requests := ∅ |}.

Definition set_phase (s : state) (dt : Z) (i : positive) (p : phase) : state :=
  {| clock := clock s; tokens := tokens s + dt; requests := <[i := p]> (requests s) |}.

(** One step of the handler goroutines; [None] when the event cannot happen. *)
Definition step (l : limiter) (s : state) (e : event) : option state :=
  match e with
  | Arrive i =>
      (* the handler is called; with a queue, time.NewTimer(queueTimeout) *)
      match requests s !! i with
      | Some _ => None
      | None => Some (set_phase s 0 i
          (Waiting (if queueTimeout l =? 0 then None else Some (Add (clock s) (queueTimeout l)))))
      end
  | Acquire i =>
      match requests s !! i with
      | Some (Waiting _) => if tokens s <? maximum l then Some (set_phase s 1 i Inside) else None
      | _ => None
      end
  | Default i =>
      (* taken only when the channel is full *)
      match requests s !! i with
      | Some (Waiting None) => if tokens s <? maximum l then None else Some (set_phase s 0 i Rejected)
      | _ => None
      end
  | Expire i =>
      match requests s !! i with
      | Some (Waiting (Some deadline)) =>
          if deadline <=? clock s then Some (set_phase s 0 i Rejected) else None
      | _ => None
      end
  | Cancel i =>
      match requests s !! i with
      | Some (Waiting (Some _)) => Some (set_phase s 0 i Abandoned)
      | _ => None
      end
  | Finish i =>
      match requests s !! i with Some Inside => Some (set_phase s (-1) i Served) | _ => None end
  | Elapse d =>
      if d <? 0 then None
      else Some {| clock := clock s + d; tokens := tokens s; requests := requests s |}
  end.

Fixpoint run (l : limiter) (s : state) (es : list event) : option state :=
  match es with
  | [] => Some s
  | e :: es => s' ← step l s e; run l s' es
  end.

(** How the [select] of one request ends: its slot, the timer (or the default
    case), or the client going away. *)
Inductive admission := GotSlot | NoSlot | ClientGone.

(** The handler around [next] for a request whose [select] ends as given; the
    slot is released also while a panic propagates. *)
Definition limited {L} (a : admission) (next : Handler L) : Handler L := fun r s =>
  match a with
  | GotSlot => next r s
  | NoSlot => (onWriter unavailable s, Returns)
  | ClientGone => (s, Returns)
  end.

(** Requests inside the protected handler. *)
Definition inside (s : state) : Z :=
  Z.of_nat (size (filter (fun ip => snd ip = Inside) (requests s))).

End Concurrency.

Module ConcurrencyCorrect.
Import Concurrency.

Record wf (l : limiter) (s : state) : Prop := {
  wf_tokens : tokens s = inside s;
  wf_bound : 0 <= tokens s <= maximum l
}.

Lemma inside_insert s i p dt :
  inside (set_phase s dt i p) =
  inside s + (if bool_decide (p = Inside) then 1 else 0) -
    (if bool_decide (requests s !! i = Some Inside) then 1 else 0).
Proof.
  unfold inside, set_phase. cbn [requests].
  set (P := fun ip : positive * phase => snd ip = Inside).
  assert (Hdel : Z.of_nat (size (filter P (requests s))) =
    Z.of_nat (size (filter P (delete i (requests s)))) +
    (if bool_decide (requests s !! i = Some Inside) then 1 else 0)).
  { destruct (requests s !! i) as [q|] eqn:Hi.
    - rewrite <- (insert_delete_id (requests s) i q Hi) at 1.
      destruct (decide (q = Inside)) as [->|Hq].
      + rewrite map_filter_insert_True, map_size_insert_None by
          (done || (rewrite map_lookup_filter_None; left; apply lookup_delete_eq)).
        rewrite bool_decide_true by done. lia.
      + rewrite map_filter_insert_False by (unfold P; simpl; congruence).
        rewrite delete_delete_eq, bool_decide_false by congruence. lia.
    - rewrite delete_id by done. rewrite bool_decide_false by done. lia. }
  rewrite <- insert_delete_eq. destruct (decide (p = Inside)) as [->|Hp].
  - rewrite (bool_decide_true (Inside = Inside)) by done.
    rewrite map_filter_insert_True, map_size_insert_None by
      (done || (rewrite map_lookup_filter_None; left; apply lookup_delete_eq)). lia.
  - rewrite (bool_decide_false (p = Inside)) by done.
    rewrite map_filter_insert_False by (unfold P; simpl; congruence).
    rewrite delete_delete_eq. lia.
Qed.

Lemma step_keeps_wf l s e s' : wf l s -> step l s e = Some s' -> wf l s'.
Proof.
  intros [Ht Hb] Hs.
  assert (Hins : forall i p dt, s' = set_phase s dt i p ->
    dt = (if bool_decide (p = Inside) then 1 else 0) -
         (if bool_decide (requests s !! i = Some Inside) then 1 else 0) ->
    0 <= tokens s + dt <= maximum l -> wf l s').
  { intros i p dt -> Hdt Hr. split; [rewrite inside_insert; cbn; lia|exact Hr]. }
  assert (Hpos : forall i, requests s !! i = Some Inside -> 0 < tokens s).
  { intros i Hi. rewrite Ht. pose proof (inside_insert s i Served 0) as Hn.
    rewrite (bool_decide_true (requests s !! i = _)) in Hn by done. unfold inside in *. simpl in Hn. lia. }
  destruct e as [i|i|i|i|i|i|d]; [..|by simpl in Hs; case_match; simplify_eq; split]; simpl in Hs;
    destruct (requests s !! i) as [p|] eqn:Hi; try done;
    try (destruct p; try done); repeat (case_match; try done); simplify_eq;
    (eapply Hins; [done|rewrite Hi; reflexivity|]); try lia.
  specialize (Hpos i Hi). lia.
Qed.

Lemma run_keeps_wf l s es s' : wf l s -> run l s es = Some s' -> wf l s'.
Proof.
  revert s. induction es as [|e es IH]; intros s Hw; simpl; [by intros [= <-]|].
  intros (s1 & Hs & Hr)%bind_Some. eauto using step_keeps_wf.
Qed.

Lemma idle_wf l start : 0 < maximum l -> wf l (idle start).
Proof. intros Hm. split; [reflexivity|cbn; lia]. Qed.

Lemma LimitConcurrency_Ok m q l : LimitConcurrency m q = Ok l ->
  maximum l = m /\ queueTimeout l = q /\ 0 < m /\ 0 <= q.
Proof. unfold LimitConcurrency. intros HL. repeat (case_match; [done|]). simplify_eq. simpl. lia. Qed.

(** *** A room with a fixed number of seats *)

(** What is visible of the limiter, with the moment it happens: a request comes, is let
    in, gives its seat back, or is turned away. *)
Inductive visit := Comes (i : positive) (t : time) | Enters (i : positive) (t : time)
  | Leaves (i : positive) (t : time) | TurnedAway (i : positive) (t : time).

(** The room: a clock, the seated, and the queue with the moment each joined it. *)
Record hall := { hallClock : time; seats : gset positive; queue : gmap positive time }.

(** The specification: a request that came enters only while there is a seat, and is
    turned away only when it has waited for the whole of [q], or, without a queue, when
    the room is full; only where there is a queue may it go away on its own. *)
Inductive seated (m : Z) (q : Duration) : hall -> option visit -> hall -> Prop :=
  | room_time t t' S Q : t <= t' ->
      seated m q {| hallClock := t; seats := S; queue := Q |} None {| hallClock := t'; seats := S; queue := Q |}
  | room_come t S Q i : i ∉ S -> Q !! i = None ->
      seated m q {| hallClock := t; seats := S; queue := Q |} (Some (Comes i t))
        {| hallClock := t; seats := S; queue := <[i := t]> Q |}
  | room_enter t S Q i t0 : Q !! i = Some t0 -> Z.of_nat (size S) < m ->
      seated m q {| hallClock := t; seats := S; queue := Q |} (Some (Enters i t))
        {| hallClock := t; seats := S ∪ {[ i ]}; queue := delete i Q |}
  | room_leave t S Q i : i ∈ S ->
      seated m q {| hallClock := t; seats := S; queue := Q |} (Some (Leaves i t))
        {| hallClock := t; seats := S ∖ {[ i ]}; queue := Q |}
  | room_refuse t S Q i t0 : Q !! i = Some t0 ->
      (q = 0 /\ Z.of_nat (size S) = m) \/ (0 < q /\ q <= t - t0) ->
      seated m q {| hallClock := t; seats := S; queue := Q |} (Some (TurnedAway i t))
        {| hallClock := t; seats := S; queue := delete i Q |}
  | room_give_up t S Q i t0 : Q !! i = Some t0 -> 0 < q ->
      seated m q {| hallClock := t; seats := S; queue := Q |} None
        {| hallClock := t; seats := S; queue := delete i Q |}.

Definition room (m : Z) (q : Duration) : Lts visit :=
  {| lts_state := hall; lts_init c := seats c = ∅ /\ queue c = ∅; lts_step := seated m q |}.

(** What an event of the limiter shows. *)
Definition shows (e : event) (t : time) : option visit :=
  match e with
  | Arrive i => Some (Comes i t)
  | Acquire i => Some (Enters i t)
  | Default i | Expire i => Some (TurnedAway i t)
  | Finish i => Some (Leaves i t)
  | Cancel _ | Elapse _ => None
  end.

Definition limiterSystem (l : limiter) : Lts visit :=
  {| lts_state := state; lts_init s := exists start, s = idle start;
     lts_step s v s' := exists e, step l s e = Some s' /\ v = shows e (clock s) |}.

Definition insiders (s : state) : gset positive :=
  dom (filter (fun ip : positive * phase => snd ip = Inside) (requests s)).

Lemma elem_of_insiders i s : i ∈ insiders s <-> requests s !! i = Some Inside.
Proof.
  unfold insiders. rewrite elem_of_dom. unfold is_Some. setoid_rewrite map_lookup_filter_Some. naive_solver.
Qed.

Lemma size_insiders s : Z.of_nat (size (insiders s)) = inside s.
Proof. unfold insiders, inside. by rewrite size_dom. Qed.

Lemma insiders_set_phase s dt i p : insiders (set_phase s dt i p) =
  if bool_decide (p = Inside) then insiders s ∪ {[ i ]} else insiders s ∖ {[ i ]}.
Proof.
  apply set_eq. intros j. rewrite elem_of_insiders. cbn [set_phase requests].
  destruct (decide (i = j)) as [->|Hne];
    [rewrite lookup_insert_eq|rewrite lookup_insert_ne by done; rewrite <- elem_of_insiders];
    case_bool_decide; set_solver.
Qed.

(** A change of phase between phases outside changes nothing. *)
Lemma insiders_outside s dt i p : p <> Inside -> requests s !! i <> Some Inside ->
  insiders (set_phase s dt i p) = insiders s.
Proof.
  intros Hp Hi. rewrite insiders_set_phase, bool_decide_false by done.
  rewrite <- elem_of_insiders in Hi. set_solver.
Qed.

(** The queue of the room: who waits, since when; a timer fires a queue timeout after
    its request came. *)
Definition waits (l : limiter) (s : state) (Q : gmap positive time) : Prop :=
  (forall i t0, Q !! i = Some t0 ->
     requests s !! i = Some (Waiting (if queueTimeout l =? 0 then None else Some (t0 + queueTimeout l)))) /\
  (forall i timer, requests s !! i = Some (Waiting timer) -> is_Some (Q !! i)).

Lemma waits_found l s Q i timer : waits l s Q -> requests s !! i = Some (Waiting timer) ->
  exists t0, Q !! i = Some t0 /\ timer = (if queueTimeout l =? 0 then None else Some (t0 + queueTimeout l)).
Proof.
  intros [H1 H2] Hi. destruct (H2 i timer Hi) as [t0 Ht0]. exists t0. split; [done|].
  specialize (H1 i t0 Ht0). congruence.
Qed.

Lemma waits_none l s Q i : waits l s Q -> (forall timer, requests s !! i <> Some (Waiting timer)) -> Q !! i = None.
Proof. intros [H1 _] Hi. destruct (Q !! i) eqn:E; [|done]. by apply H1, Hi in E. Qed.

Lemma waits_enqueue l s Q i dt : waits l s Q ->
  waits l (set_phase s dt i (Waiting (if queueTimeout l =? 0 then None else Some (clock s + queueTimeout l))))
    (<[i := clock s]> Q).
Proof.
  intros [H1 H2]. split.
  - intros j t0 [[<- <-]|[Hne Hj]]%lookup_insert_Some; cbn [set_phase requests];
      [by rewrite lookup_insert_eq|rewrite lookup_insert_ne by done; auto].
  - intros j timer. cbn [set_phase requests]. intros [[<- _]|[Hne Hj]]%lookup_insert_Some;
      [rewrite lookup_insert_eq; eauto|rewrite lookup_insert_ne by done; eauto].
Qed.

(** A phase that is not one of waiting takes its request out of the queue. *)
Lemma waits_dequeue l s Q i dt p : (forall timer, p <> Waiting timer) -> waits l s Q ->
  waits l (set_phase s dt i p) (delete i Q).
Proof.
  intros Hp [H1 H2]. split.
  - intros j t0 [Hne Hj]%lookup_delete_Some. cbn [set_phase requests]. rewrite lookup_insert_ne by done. auto.
  - intros j timer. cbn [set_phase requests]. intros [[_ Hw]|[Hne Hj]]%lookup_insert_Some; [by destruct (Hp timer)|].
    rewrite lookup_delete_ne by done. eauto.
Qed.

Definition hallOf (s : state) (Q : gmap positive time) : hall :=
  {| hallClock := clock s; seats := insiders s; queue := Q |}.

Definition limiterRelated (l : limiter) (s : state) (c : hall) : Prop :=
  wf l s /\ exists Q, waits l s Q /\ c = hallOf s Q.

(** Every event of the limiter is one the room allows. *)
Lemma step_seated m q l s e s' Q : LimitConcurrency m q = Ok l -> wf l s -> waits l s Q -> step l s e = Some s' ->
  exists Q', waits l s' Q' /\ seated m q (hallOf s Q) (shows e (clock s)) (hallOf s' Q').
Proof.
  intros (Hm & Hq & Hpos & Hq0)%LimitConcurrency_Ok [Ht Hb] HQ Hs. pose proof (size_insiders s) as Hsz.
  unfold hallOf. destruct e as [i|i|i|i|i|i|d]; cbn [step] in Hs.
  - destruct (requests s !! i) as [p|] eqn:Hi; [done|]. injection Hs as <-.
    eexists. split; [by apply waits_enqueue|]. rewrite insiders_outside by (done || by rewrite Hi).
    apply room_come; [by rewrite elem_of_insiders, Hi|]. eapply waits_none; [done|]. by rewrite Hi.
  - destruct (requests s !! i) as [[timer| | | |]|] eqn:Hi; try done.
    destruct (Z.ltb_spec (tokens s) (maximum l)); [|done]. injection Hs as <-.
    destruct (waits_found l s Q i timer HQ Hi) as (t0 & Ht0 & _).
    eexists. split; [by apply waits_dequeue|]. rewrite insiders_set_phase, bool_decide_true by done.
    eapply room_enter; [done|lia].
  - destruct (requests s !! i) as [[[t|]| | | |]|] eqn:Hi; try done.
    destruct (Z.ltb_spec (tokens s) (maximum l)); [done|]. injection Hs as <-.
    destruct (waits_found l s Q i None HQ Hi) as (t0 & Ht0 & Htimer).
    eexists. split; [by apply waits_dequeue|]. rewrite insiders_outside by (done || by rewrite Hi).
    eapply room_refuse; [done|]. left. case_match; [lia|done].
  - destruct (requests s !! i) as [[[t|]| | | |]|] eqn:Hi; try done.
    destruct (Z.leb_spec t (clock s)); [|done]. injection Hs as <-.
    destruct (waits_found l s Q i (Some t) HQ Hi) as (t0 & Ht0 & Htimer).
    eexists. split; [by apply waits_dequeue|]. rewrite insiders_outside by (done || by rewrite Hi).
    eapply room_refuse; [done|]. right. case_match; [done|]. injection Htimer as ->. cbn. lia.
  - destruct (requests s !! i) as [[[t|]| | | |]|] eqn:Hi; try done. injection Hs as <-.
    destruct (waits_found l s Q i (Some t) HQ Hi) as (t0 & Ht0 & Htimer).
    eexists. split; [by apply waits_dequeue|]. rewrite insiders_outside by (done || by rewrite Hi).
    eapply room_give_up; [done|]. case_match; [done|]. lia.
  - destruct (requests s !! i) as [[| | | |]|] eqn:Hi; try done. injection Hs as <-.
    assert (Hnone : Q !! i = None) by (eapply waits_none; [done|]; by rewrite Hi).
    exists Q. split; [rewrite <- (delete_id Q i Hnone); by apply waits_dequeue|].
    rewrite insiders_set_phase, bool_decide_false by done. apply room_leave. by apply elem_of_insiders.
  - destruct (Z.ltb_spec d 0); [done|]. injection Hs as <-. exists Q. split; [done|]. apply room_time. cbn. lia.
Qed.

#[export] Instance limiter_simulation m q l (HL : LimitConcurrency m q = Ok l) :
  ForwardSimulation (limiterSystem l) (room m q) (limiterRelated l).
Proof.
  split.
  - intros s [start ->]. exists (hallOf (idle start) ∅). split.
    + split; [|done]. apply set_eq. intros i. cbn [hallOf seats]. rewrite elem_of_insiders. cbn. rewrite lookup_empty. set_solver.
    + apply LimitConcurrency_Ok in HL as (Hm & _ & Hpos & _). split; [apply idle_wf; lia|].
      exists ∅. split; [|done]. split; intros i ?; cbn; by rewrite lookup_empty.
  - intros s v s' c (e & Hs & ->) (Hw & Q & HQ & ->).
    destruct (step_seated m q l s e s' Q HL Hw HQ Hs) as (Q' & HQ' & Hseat).
    exists (hallOf s' Q'). split; [by apply (runs_one (M := room m q))|].
    split; [by eapply step_keeps_wf|]. by exists Q'.
Qed.

End ConcurrencyCorrect.

(** ** Properties *)

Module ConcurrencyProperties.
Import Http Problem ProblemCorrect Concurrency ConcurrencyCorrect.

(** At most [maximum] requests are inside the protected handler, in
    every interleaving of arrivals, admissions, timeouts, cancellations and
    completions; the semaphore counts exactly those requests, so no slot is ever
    lost: whenever none is inside, every slot is free again. *)
Theorem limiter_bounds_inside (m : Z) (q : Duration) (l : limiter) (start : time) (es : list event) (s : state) :
  LimitConcurrency m q = Ok l -> run l (idle start) es = Some s ->
  inside s <= m /\ tokens s = inside s.
Proof.
  intros (Hm & _ & Hpos & _)%LimitConcurrency_Ok Hr.
  destruct (run_keeps_wf l (idle start) es s) as [Ht Hb]; [apply idle_wf; lia|done|]. lia.
Qed.

(** Requests are turned away only under load: without a queue, a request that came is
    rejected exactly when all slots are taken and admitted otherwise; with one, it can
    be admitted whenever a slot is free, and be rejected from the moment on at which
    it has waited for the queue timeout. *)
Theorem limiter_rejects_only_full (m : Z) (q : Duration) (l : limiter) (start : time) (es : list event)
    (s s' : state) (i : positive) (d : Duration) :
  LimitConcurrency m q = Ok l -> run l (idle start) es = Some s -> step l s (Arrive i) = Some s' -> 0 <= d ->
  (is_Some (step l s' (Acquire i)) <-> inside s' < m) /\
  (q = 0 -> is_Some (step l s' (Default i)) <-> inside s' = m) /\
  (q <> 0 -> is_Some (run l s' [Elapse d; Expire i]) <-> q <= d).
Proof.
  intros (Hm & Hq & Hpos & Hq0)%LimitConcurrency_Ok Hr Hs Hd.
  assert (Hw : wf l s) by (eapply run_keeps_wf; [|done]; apply idle_wf; lia).
  pose proof (step_keeps_wf _ _ _ _ Hw Hs) as [Ht' Hb']. simpl in Hs.
  destruct (requests s !! i); [done|]. injection Hs as <-. unfold run. cbn [step set_phase requests clock].
  destruct (Z.ltb_spec d 0); [lia|]. cbn [mbind option_bind requests clock set_phase] in *. rewrite !lookup_insert_eq.
  rewrite <- Ht'. unfold Add in *. cbn [set_phase tokens] in *. split_and!.
  - destruct (Z.ltb_spec (tokens s + 0) (maximum l)); [split; [lia|eauto]|split; [by intros []|lia]].
  - intros ->. rewrite Hq. cbn.
    destruct (Z.ltb_spec (tokens s + 0) (maximum l)); [split; [by intros []|lia]|split; [lia|eauto]].
  - intros Hne. destruct (Z.eqb_spec (queueTimeout l) 0); [lia|].
    destruct (Z.leb_spec (clock s + queueTimeout l) (clock s + d)); [split; [lia|cbn; eauto]|split; [by intros []|lia]].
Qed.

(** C23.  The limiter implements a timed room of [maximum] seats: whatever the
    interleaving of arrivals, admissions, timeouts, cancellations, completions and
    passing time, requests enter only while a seat is free, a request that ends gives
    its seat back, and a request is turned away only when at least the configured
    queue timeout has passed since it came or, without a queue, when all seats are
    taken; the moments of coming, entering, leaving and being turned away are part of
    what is shown. *)
Theorem limiter_refines_room (m : Z) (q : Duration) (l : limiter) :
  LimitConcurrency m q = Ok l -> refines (limiterSystem l) (room m q).
Proof. intros HL. pose proof (limiter_simulation m q l HL). apply simulation_refines. Qed.

(** The answer to a rejected request. *)
Lemma unavailable_answer w : committed w = None ->
  fst (finish (unavailable w)) = 503 /\ hGet (snd (finish (unavailable w))) "Retry-After" = "1".
Proof.
  intros Hc. unfold unavailable, finish.
  match goal with |- context [Problem.Write ?d ?w'] =>
    destruct (Write_commits d w' Hc) as (-> & _) end.
  split; [done|]. cbn. unfold hGet, hSet. by rewrite !lookup_insert_ne, lookup_insert_eq by done.
Qed.

Definition sampleLimiter : limiter := {| maximum := 1; queueTimeout := 5 |}.
Definition oneInside : state := {| clock := 100; tokens := 1; requests := {[ 1%positive := Inside ]} |}.
Definition oneWaits : state :=
  {| clock := 100; tokens := 1; requests := {[ 2%positive := Waiting (Some 105); 1%positive := Inside ]} |}.
Definition oneRejected : state :=
  {| clock := 105; tokens := 1; requests := {[ 2%positive := Rejected; 1%positive := Inside ]} |}.

Lemma limiter_bounds_inside_witness : inside oneRejected <= 1.
Proof.
  apply (limiter_bounds_inside 1 5 sampleLimiter 100
    [Arrive 1; Acquire 1; Arrive 2; Elapse 5; Expire 2] oneRejected); vm_compute; reflexivity.
Defined.

(** A timer that has not run cannot fire. *)
Example no_early_expiry : run sampleLimiter (idle 100) [Arrive 1; Elapse 4; Expire 1] = None.
Proof. reflexivity. Qed.

Lemma limiter_refines_room_witness :
  traces (room 1 5) [Comes 1 100; Enters 1 100; Comes 2 100; TurnedAway 2 105].
Proof.
  apply (limiter_refines_room 1 5 sampleLimiter); [reflexivity|].
  exists (idle 100), oneRejected. split; [exists 100; reflexivity|].
  set (st es := default (idle 100) (run sampleLimiter (idle 100) es)).
  assert (Hstep : forall es e, step sampleLimiter (st es) e = Some (st (es ++ [e])) ->
    lts_step (limiterSystem sampleLimiter) (st es) (shows e (clock (st es))) (st (es ++ [e]))).
  { intros es e Hs. exists e. split; [exact Hs|reflexivity]. }
  apply (runs_cons (limiterSystem sampleLimiter) (st []) (Some (Comes 1 100)) (st [Arrive 1])
    [Enters 1 100; Comes 2 100; TurnedAway 2 105]); [apply (Hstep [] (Arrive 1)); reflexivity|].
  apply (runs_cons (limiterSystem sampleLimiter) _ (Some (Enters 1 100)) (st [Arrive 1; Acquire 1])
    [Comes 2 100; TurnedAway 2 105]); [apply (Hstep [Arrive 1] (Acquire 1)); reflexivity|].
  apply (runs_cons (limiterSystem sampleLimiter) _ (Some (Comes 2 100)) (st [Arrive 1; Acquire 1; Arrive 2])
    [TurnedAway 2 105]); [apply (Hstep [Arrive 1; Acquire 1] (Arrive 2)); reflexivity|].
  apply (runs_cons (limiterSystem sampleLimiter) _ None (st [Arrive 1; Acquire 1; Arrive 2; Elapse 5])
    [TurnedAway 2 105]); [apply (Hstep [Arrive 1; Acquire 1; Arrive 2] (Elapse 5)); reflexivity|].
  apply (runs_cons (limiterSystem sampleLimiter) _ (Some (TurnedAway 2 105)) oneRejected []);
    [apply (Hstep [Arrive 1; Acquire 1; Arrive 2; Elapse 5] (Expire 2)); reflexivity|constructor].
Defined.

Lemma limiter_rejects_only_full_witness :
  is_Some (run sampleLimiter oneWaits [Elapse 5; Expire 2]) <-> 5 <= 5.
Proof.
  apply (limiter_rejects_only_full 1 5 sampleLimiter 100 [Arrive 1; Acquire 1] oneInside oneWaits 2 5);
    vm_compute; (reflexivity || discriminate).
Defined.

End ConcurrencyProperties.
