(* ===== verification/Health.v ===== *)
(** * Health endpoints ([web/health/health.go])

    Readiness runs every registered check in a goroutine of its own and collects
    their results until all have answered or the deadline passes.  The order in
    which results and the deadline reach the collecting loop is a list of
    events.  The documents are written as the bytes [encoding/json] prints for
    them; [decodeBody] reads them back. *)

From S2P Require Import Prelude GoTime GoStrings GoJson GoJsonScan GoJsonDecode GoHttp.

(** How a check ends, when it does. *)
Inductive answer := Ready_ | Fails | PanicsInCheck.

#[export] Instance answer_eq_dec : EqDecision answer.
Proof. solve_decision. Defined.

(** What reaches the collecting loop: the end of a check, or the deadline. *)
Inductive arrival := Result (name : string) (a : answer) | Done.

(** The response document: the map that is given to the encoder. *)
Inductive healthBody := Up | Down (failed_checks : list string).

Inductive health_error := NameRequired | CheckRequired | TimeoutNotPositive.

(** [Handler]: the registered checks, by name, and the readiness deadline. *)
Record handler (Check : Type) := { checks : gmap string Check; timeout : Duration }.
Arguments checks {Check}. Arguments timeout {Check}.

Module Health.
Import Http.

Definition New {Check} : handler Check := {| checks := ∅; timeout := 2 * Second |}.

Definition NewWithTimeout {Check} (timeout : Duration) : result health_error (handler Check) :=
  if timeout <=? 0 then Err TimeoutNotPositive else Ok {| checks := ∅; timeout := timeout |}.

Definition Register {Check} (h : handler Check) (name : string) (check : option Check)
    : handler Check * result health_error unit :=
  if name == "" then (h, Err NameRequired)
  else
    match check with
    | None => (h, Err CheckRequired)
    | Some check => ({| checks := <[name := check]> (checks h); timeout := timeout h |}, Ok tt)
    end.

(** The map of a document; the encoder sorts its keys. *)
Definition bodyOf (b : healthBody) : json :=
  match b with
  | Up => JObject [("status", JString "up")]
  | Down failed => JObject [("failed_checks", JArray (map JString failed)); ("status", JString "down")]
  end.

(** The line [json.NewEncoder(w).Encode(body)] writes. *)
Definition encodeBody (b : healthBody) : list ascii := Json.encode (bodyOf b) ++ [Json.newline].

Section responses.
Implicit Types (w : Writer).

Definition respond (status : Z) (b : healthBody) w : Writer :=
  let w := onHeader (hSet "Content-Type" "application/json") w in
  let w := onHeader (hSet "Cache-Control" "no-store") w in
  Write (bytes_of (of_chars (encodeBody b))) (WriteHeader status w).

Definition Live w : Writer := respond 200 Up w.
End responses.

(** What a goroutine sends: a panic is an error. *)
Definition reported (a : answer) : bool := match a with Ready_ => false | Fails | PanicsInCheck => true end.

(** The collecting loop; [None] while it waits for the next arrival. *)
Fixpoint collect (pending : gset string) (failed : list string) (arrivals : list arrival)
    : option (list string) :=
  if bool_decide (pending = ∅) then Some failed
  else
    match arrivals with
    | [] => None
    | Result name a :: arrivals =>
        collect (pending ∖ {[ name ]}) (if reported a then failed ++ [name] else failed) arrivals
    | Done :: _ => Some (failed ++ elements pending)
    end.

Definition Ready {Check} (h : handler Check) (arrivals : list arrival) (w : Writer) : option Writer :=
  failed ← collect (dom (checks h)) [] arrivals;
  let failed := merge_sort String.le failed in
  Some (if 0 <? blen failed then respond 503 (Down failed) w else respond 200 Up w).

End Health.

Module HealthCorrect.
Import Http Health.

(** What a client of the endpoint decodes: a status and the names of checks. *)
Definition documentType : gotype := TStruct [("status", TString); ("failed_checks", TSlice TString)].

Definition decodeBody (line : list byte) : option healthBody :=
  v ← JsonDecode.Unmarshal documentType line;
  match v with
  | VStruct [VString status; names] =>
      if status == "up" then Some Up
      else if status == "down" then Some (Down (JsonDecode.stringsOf names)) else None
  | _ => None
  end.

Lemma bodyOf_printable b :
  (forall failed, b = Down failed -> Forall (fun s => ValidString s = true) failed) ->
  JsonRoundTrip.printable 0 (bodyOf b).
Proof.
  intros Hv. destruct b as [|failed]; constructor; try done; repeat (constructor; try done).
  apply Forall_map. eapply Forall_impl; [by apply Hv|]. by constructor.
Qed.

Lemma decodeBody_encode b : (forall failed, b = Down failed -> Forall (fun s => ValidString s = true) failed) ->
  decodeBody (bytes_of (of_chars (encodeBody b))) = Some b.
Proof.
  intros Hp%bodyOf_printable. unfold decodeBody, encodeBody.
  rewrite (JsonOne.Unmarshal_encode documentType (bodyOf b) [Json.newline]
    (match b with Up => VStruct [VString "up"; VNil]
     | Down failed => VStruct [VString "down"; VSlice (length failed) (map VString failed)] end)); [|done|by repeat constructor|].
  - destruct b as [|failed]; [done|]. cbn [mbind option_bind]. by rewrite JsonOne.stringsOf_strings.
  - destruct b as [|failed]; [done|]. apply JsonOne.store_struct.
    eapply JsonOne.storeMembers_step; [reflexivity|apply JsonOne.store_strings|reflexivity].
Qed.

(** The bytes of a document. *)
Definition document (b : healthBody) : list byte := bytes_of (of_chars (encodeBody b)).

Lemma respond_finish status b (w : Writer) : committed w = None -> isInformational status = false ->
  finish (respond status b w) = (status, hSet "Cache-Control" "no-store"
    (hSet "Content-Type" "application/json" (wHeader w))) /\
  body (respond status b w) = body w ++ [document b].
Proof. intros Hc Hs. unfold respond, finish, Write, WriteHeader. cbn. rewrite Hc, Hs. done. Qed.

(** How the checks that end before the deadline end. *)
Fixpoint beforeDone (arrivals : list arrival) : list (string * answer) :=
  match arrivals with
  | Result name a :: arrivals => (name, a) :: beforeDone arrivals
  | _ => []
  end.

(** Each check sends one result, of its own name. *)
Definition fair (names : gset string) (arrivals : list arrival) : Prop :=
  NoDup (map fst (beforeDone arrivals)) /\ Forall (fun r => fst r ∈ names) (beforeDone arrivals).

(** A check did not end well when it failed, panicked, or did not end. *)
Lemma not_ready_iff (n : string) (rs : list (string * answer)) : NoDup (map fst rs) ->
  (n, Ready_) ∉ rs <-> (n, Fails) ∈ rs \/ (n, PanicsInCheck) ∈ rs \/ n ∉ map fst rs.
Proof.
  induction rs as [|[m a] rs IH]; [cbn; set_solver|]. cbn [map fst]. intros [Hm Hnd]%NoDup_cons.
  specialize (IH Hnd). rewrite !elem_of_cons.
  assert (Hf : forall b, (n, b) ∈ rs -> n ∈ map fst rs).
  { intros b Hb. apply list_elem_of_fmap. by exists (n, b). }
  destruct (decide (n = m)) as [->|Hne]; [|naive_solver].
  destruct a; naive_solver.
Qed.

(** The loop ends on a list without repetition of exactly the names that did
    not answer well before the deadline. *)
Lemma collect_exact arrivals : forall pending failed result,
  fair pending arrivals -> NoDup failed -> (forall n, n ∈ failed -> n ∉ pending) ->
  collect pending failed arrivals = Some result ->
  NoDup result /\
  forall n, n ∈ result <-> n ∈ failed \/ (n ∈ pending /\ (n, Ready_) ∉ beforeDone arrivals).
Proof.
  induction arrivals as [|[name a|] arrivals IH]; intros pending failed result [Hnd Hin] Hf Hdis; simpl;
    (destruct (decide (pending = ∅)) as [->|Hne];
      [rewrite bool_decide_true by done; intros [= <-]; split; [done|set_solver]
      |rewrite bool_decide_false by done]).
  - done.
  - simpl in Hnd, Hin. apply NoDup_cons in Hnd as [Hn Hnd]. apply Forall_cons in Hin as [Hname Hin].
    cbn [fst] in Hname.
    assert (Hrest : forall n b, (n, b) ∈ beforeDone arrivals -> n <> name).
    { intros n b Hb ->. apply Hn. apply list_elem_of_In, in_map_iff. exists (name, b).
      split; [done|by apply list_elem_of_In]. }
    intros Hc. apply IH in Hc as [Hr Hiff].
    + split; [done|]. intros n. rewrite Hiff, elem_of_cons, elem_of_difference, not_elem_of_singleton.
      destruct (reported a) eqn:Ha; rewrite ?elem_of_app, ?list_elem_of_singleton.
      * assert (Hbad : a <> Ready_) by by intros ->. destruct (decide (n = name)) as [->|]; [|naive_solver].
        split; [intros _; right|by auto]. split; [done|]. intros [[= <-]|Hb]; [done|]. by apply Hrest in Hb.
      * assert (a = Ready_) as -> by by destruct a. destruct (decide (n = name)) as [->|]; [|naive_solver].
        split; [intros [?|[[_ ?] _]]; [by left|done]|]. intros [?|[_ Hno]]; [by left|]. destruct Hno. by left.
    + split; [done|]. rewrite Forall_forall in *. intros [n b] Hb. apply elem_of_difference.
      split; [by apply (Hin _ Hb)|]. apply not_elem_of_singleton. by eapply Hrest.
    + destruct (reported a) eqn:Ha; [|done]. apply NoDup_app. split_and!; [done| |by apply NoDup_singleton].
      intros n Hnf ->%list_elem_of_singleton. by apply (Hdis name).
    + intros n Hnf. destruct (reported a) eqn:Ha; [apply elem_of_app in Hnf as [?| ->%list_elem_of_singleton]|]; set_solver.
  - intros [= <-]. split.
    + apply NoDup_app. split_and!; [done| |apply NoDup_elements]. intros n Hn. rewrite elem_of_elements. auto.
    + intros n. rewrite elem_of_app, elem_of_elements. split; [intros [?|?]|intros [?|[??]]]; auto.
      right. split; [done|]. apply not_elem_of_nil.
Qed.

(** The loop ends once the deadline is among the arrivals, or every check
    answered. *)
Lemma collect_terminates arrivals : forall pending failed,
  (Done ∈ arrivals \/ forall n, n ∈ pending -> n ∈ map fst (beforeDone arrivals)) ->
  is_Some (collect pending failed arrivals).
Proof.
  induction arrivals as [|[name a|] arrivals IH]; intros pending failed Hend; simpl;
    (destruct (decide (pending = ∅)) as [->|Hne];
      [rewrite bool_decide_true by done; eauto|rewrite bool_decide_false by done]); [| |eauto].
  - exfalso. destruct Hend as [?%elem_of_nil|Hall]; [done|]. apply Hne, set_eq. intros n.
    split; [|set_solver]. intros Hn%Hall. by apply elem_of_nil in Hn.
  - apply IH. destruct Hend as [[[=]|?]%elem_of_cons|Hall]; [by left|]. right.
    intros n [Hn Hne']%elem_of_difference. apply Hall in Hn. simpl in Hn. set_solver.
Qed.

End HealthCorrect.

(** ** Properties *)

Module HealthProperties.
Import Http Health HealthCorrect.

(** C26.  Readiness answers at its deadline at the latest, and truthfully: as soon as
    every check has ended or the deadline reaches the loop, the handler responds,
    200 exactly when every registered check returned without an error or a panic
    before it, and otherwise 503 with the sorted list, without repetition, of exactly
    the other checks: those that returned an error, panicked or were late. *)
Theorem Ready_is_truthful {Check} (h : handler Check) (arrivals : list arrival) (w : Writer) :
  fair (dom (checks h)) arrivals -> committed w = None ->
  (Done ∈ arrivals \/ forall n, n ∈ dom (checks h) -> n ∈ map fst (beforeDone arrivals)) ->
  exists w', Ready h arrivals w = Some w' /\
    hGet (snd (finish w')) "Cache-Control" = "no-store" /\
    ((fst (finish w') = 200 /\ body w' = body w ++ [document Up] /\
      forall n, n ∈ dom (checks h) -> (n, Ready_) ∈ beforeDone arrivals) \/
     (exists failed, fst (finish w') = 503 /\ body w' = body w ++ [document (Down failed)] /\
      failed <> [] /\ NoDup failed /\ Sorted String.le failed /\
      forall n, n ∈ failed <-> n ∈ dom (checks h) /\
        ((n, Fails) ∈ beforeDone arrivals \/ (n, PanicsInCheck) ∈ beforeDone arrivals \/
         n ∉ map fst (beforeDone arrivals)))).
Proof.
  intros Hfair Hc Hend. destruct (collect_terminates arrivals _ [] Hend) as [failed Hcol].
  destruct (collect_exact arrivals _ [] failed Hfair) as [Hnd Hiff];
    [constructor|by intros n ?%elem_of_nil|done|].
  unfold Ready. rewrite Hcol. simpl. eexists. split; [done|].
  assert (Hiff' : forall n, n ∈ merge_sort String.le failed <->
    n ∈ dom (checks h) /\ (n, Ready_) ∉ beforeDone arrivals).
  { intros n. rewrite merge_sort_Permutation, Hiff. set_solver. }
  destruct (Z.ltb_spec 0 (blen (merge_sort String.le failed))) as [Hlt|Hge].
  - destruct (respond_finish 503 (Down (merge_sort String.le failed)) w Hc eq_refl) as [-> ->].
    split; [unfold hGet, hSet; cbn; by rewrite lookup_insert_eq|]. right. eexists. split_and!; try done.
    + intros He. rewrite He in Hlt. done.
    + by rewrite merge_sort_Permutation.
    + apply Sorted_merge_sort. apply _.
    + intros n. by rewrite Hiff', (not_ready_iff _ _ (proj1 Hfair)).
  - destruct (respond_finish 200 Up w Hc eq_refl) as [-> ->].
    split; [unfold hGet, hSet; cbn; by rewrite lookup_insert_eq|]. left. split_and!; try done.
    intros n Hn. destruct (decide ((n, Ready_) ∈ beforeDone arrivals)) as [|Hno]; [done|]. exfalso.
    assert (Hin : n ∈ merge_sort String.le failed) by by apply Hiff'.
    unfold blen in Hge. destruct (merge_sort String.le failed); [by apply elem_of_nil in Hin|simpl in Hge; lia].
Qed.

Definition sampleHandler : handler unit := {| checks := {[ "db" := (); "ldap" := () ]}; timeout := Second |}.

Lemma Ready_is_truthful_witness :
  exists w : Writer, Ready sampleHandler [Result "ldap" Ready_; Done] newWriter = Some w.
Proof.
  destruct (Ready_is_truthful sampleHandler [Result "ldap" Ready_; Done] newWriter) as (w & Hw & _).
  - split; by apply (bool_decide_eq_true_1 _).
  - reflexivity.
  - left. right. left.
  - exists w. exact Hw.
Defined.

(** C29.  The document a client reads is the one the handler meant: the line of
    [respond] decodes to the same status and the same names, in order, whatever
    quotes, control characters, markup or text outside ASCII the names contain, as
    long as they are valid UTF-8. *)
Theorem respond_document_roundtrip (status : Z) (b : healthBody) (w : Writer) :
  (forall failed, b = Down failed -> Forall (fun name => ValidString name = true) failed) ->
  exists line, body (respond status b w) = body w ++ [line] /\
    decodeBody line = Some b.
Proof.
  intros Hv. exists (bytes_of (of_chars (encodeBody b))). split.
  - unfold respond, Write. cbn [body]. by destruct (committed (WriteHeader status _)).
  - by apply decodeBody_encode.
Qed.

Definition oddNames : list string := ["a<b"; of_chars (Json.dquote :: asciis [0xc3; 0xa9; 10])].

Lemma respond_document_roundtrip_witness :
  exists line : list byte, body (respond 503 (Down oddNames) newWriter) = [line] /\
    decodeBody line = Some (Down oddNames).
Proof.
  destruct (respond_document_roundtrip 503 (Down oddNames) newWriter) as (line & Hb & Hd).
  - intros failed [= <-]. repeat constructor.
  - exists line. split; [exact Hb|exact Hd].
Defined.

(** The text, with single quotes for the double ones. *)
Example down_text :
  of_chars (map (fun c => if c == Json.dquote then "'"%char else if c == Json.newline then ";"%char else c)
    (encodeBody (Down ["db"; "a<b"]))) = "{'failed_checks':['db','a\u003cb'],'status':'down'};".
Proof. reflexivity. Qed.

End HealthProperties.
