(* ===== verification/App.v ===== *)
(** * The application lifecycle ([core/app/app.go])

    Registration of routes, middleware and resources, the composition of the handler,
    and a run of the server with its shutdown.  What the listener, the server
    and the context do in a run is an argument, and so is the handler that the
    router makes of its routes. *)

From S2P Require Import Prelude GoTime GoHttp.

Inductive app_error :=
  | AppInvalid (msg : string) | ResourceRequired | MiddlewareRequired | ContextRequired
  | ListenFailed | ServeFailed (msg : string) | ShutdownFailed (msg : string).

Record Options := {
  Name : string; Version : string; Address : string; ReadTimeout : Duration; ReadHeaderTimeout : Duration;
  WriteTimeout : Duration; IdleTimeout : Duration; ShutdownTimeout : Duration; MaxHeaderBytes : Z;
  Logger : bool
}.

(** A value as [reflect] sees it: of a kind that can be nil, or not. *)
Inductive reflected := Nilable (isNil : bool) | Concrete.

Record App (H R : Type) := {
  appOptions : Options; routes : list (Http.route H); middleware : list (H -> H); resources : list R
}.
Arguments appOptions {H R}. Arguments routes {H R}. Arguments middleware {H R}. Arguments resources {H R}.

Module Lifecycle.

Section app.
Context {H R : Type}.

Definition New (o : Options) : result app_error (App H R) :=
  if Name o == "" then Err (AppInvalid "application name is required")
  else if Address o == "" then Err (AppInvalid "HTTP address is required")
  else if negb (Logger o) then Err (AppInvalid "logger is required")
  else if (ReadTimeout o <=? 0) || (ReadHeaderTimeout o <=? 0) || (WriteTimeout o <=? 0) ||
          (IdleTimeout o <=? 0) || (ShutdownTimeout o <=? 0) then
    Err (AppInvalid "all timeouts must be positive")
  else if MaxHeaderBytes o <=? 0 then Err (AppInvalid "max header bytes must be positive")
  else Ok {| appOptions := o; routes := []; middleware := []; resources := [] |}.

(** [Handle]; [None] is the panic of the router on a pattern it already has. *)
Definition Handle (a : App H R) (t : Http.route H) : option (App H R) :=
  rts ← Http.muxHandle (routes a) t;
  Some {| appOptions := appOptions a; routes := rts; middleware := middleware a; resources := resources a |}.

Definition isNil (v : reflected) : bool := match v with Nilable b => b | Concrete => false end.

(** [Use]: a nil interface, or a typed nil, is refused. *)
Definition Use (a : App H R) (resource : option (reflected * R)) : App H R * result app_error unit :=
  match resource with
  | None => (a, Err ResourceRequired)
  | Some (v, r) =>
      if isNil v then (a, Err ResourceRequired)
      else ({| appOptions := appOptions a; routes := routes a; middleware := middleware a;
                resources := resources a ++ [r] |}, Ok tt)
  end.

Definition UseHTTP (a : App H R) (m : option (H -> H)) : App H R * result app_error unit :=
  match m with
  | None => (a, Err MiddlewareRequired)
  | Some m =>
      ({| appOptions := appOptions a; routes := routes a; middleware := middleware a ++ [m];
          resources := resources a |}, Ok tt)
  end.

(** The loop from the last index down to 0. *)
Fixpoint wrapFrom (n : nat) (ms : list (H -> H)) (h : H) : H :=
  match n with
  | O => h
  | S i => match ms !! i with Some m => wrapFrom i ms (m h) | None => wrapFrom i ms h end
  end.

Definition handler (mux : list (Http.route H) -> H) (a : App H R) : H :=
  wrapFrom (length (middleware a)) (middleware a) (mux (routes a)).

(** The resources in the order they are closed. *)
Fixpoint closeFrom (n : nat) (rs : list R) : list R :=
  match n with
  | O => []
  | S i => match rs !! i with Some r => r :: closeFrom i rs | None => closeFrom i rs end
  end.

Definition closeResources (a : App H R) : list R := closeFrom (length (resources a)) (resources a).
End app.

(** ** Running *)

(** What [server.Serve] returns. *)
Inductive serveResult := ErrServerClosed | OtherServeError (msg : string).

(** The case of the [select] that is taken, and what the calls after it
    return. *)
Inductive serveCase :=
  | ServerStopped (err : serveResult)
  | ContextDone (shutdownErr : option string) (err : serveResult).

(** The fields of [http.Server] that [serve] sets. *)
Record Server (H : Type) := {
  Addr : string; Handler : H; srvReadTimeout : Duration; srvReadHeaderTimeout : Duration;
  srvWriteTimeout : Duration; srvIdleTimeout : Duration; srvMaxHeaderBytes : Z
}.
Arguments Addr {H}. Arguments Handler {H}. Arguments srvReadTimeout {H}. Arguments srvReadHeaderTimeout {H}.
Arguments srvWriteTimeout {H}. Arguments srvIdleTimeout {H}. Arguments srvMaxHeaderBytes {H}.

(** What a run does, in order: listening, [server.Serve], the log lines, the
    bounded shutdown, the forced close, and the release of a resource. *)
Inductive effect (H R : Type) :=
  | Listening | Serving (server : Server H) | Started | Stopping | Shutdown (timeout : Duration) | ServerClose
  | Stopped | CloseResource (r : R).
Arguments Listening {H R}. Arguments Serving {H R}. Arguments Started {H R}. Arguments Stopping {H R}.
Arguments Shutdown {H R}. Arguments ServerClose {H R}. Arguments Stopped {H R}. Arguments CloseResource {H R}.

Section run.
Context {H R : Type} (mux : list (Http.route H) -> H).

Definition newServer (a : App H R) : Server H :=
  let o := appOptions a in
  {| Addr := Address o; Handler := handler mux a; srvReadTimeout := ReadTimeout o;
     srvReadHeaderTimeout := ReadHeaderTimeout o; srvWriteTimeout := WriteTimeout o;
     srvIdleTimeout := IdleTimeout o; srvMaxHeaderBytes := MaxHeaderBytes o |}.

Definition serve (a : App H R) (c : serveCase) : list (effect H R) * result app_error unit :=
  let start := [Serving (newServer a); Started] in
  match c with
  | ServerStopped ErrServerClosed => (start, Ok tt)
  | ServerStopped (OtherServeError msg) => (start, Err (ServeFailed msg))
  | ContextDone shutdownErr err =>
      let stopping := start ++ [Stopping; Shutdown (ShutdownTimeout (appOptions a))] in
      match shutdownErr with
      | Some msg => (stopping ++ [ServerClose], Err (ShutdownFailed msg))
      | None =>
          match err with
          | ErrServerClosed => (stopping ++ [Stopped], Ok tt)
          | OtherServeError msg => (stopping, Err (ServeFailed msg))
          end
      end
  end.

(** [Run]; the deferred [closeResources] runs on every return after the first
    guard. *)
Definition Run (a : App H R) (ctx listenOk : bool) (c : serveCase)
    : list (effect H R) * result app_error unit :=
  if negb ctx then ([], Err ContextRequired)
  else
    let '(effects, r) :=
      if negb listenOk then ([], Err ListenFailed)
      else let '(effects, r) := serve a c in (Listening :: effects, r) in
    (effects ++ map CloseResource (closeResources a), r).
End run.

End Lifecycle.

(** ** Properties *)

Module LifecycleProperties.
Import Lifecycle.

Lemma wrapFrom_app {H} (ms ms' : list (H -> H)) h :
  wrapFrom (length ms) (ms ++ ms') h = fold_right (fun m h => m h) h ms.
Proof.
  revert ms' h. induction ms as [|m ms IH] using rev_ind; intros ms' h; [done|].
  rewrite length_app, Nat.add_comm. simpl. rewrite <- app_assoc. simpl.
  rewrite list_lookup_middle by done. rewrite IH, fold_right_app. done.
Qed.

Lemma closeFrom_app {R} (rs rs' : list R) : closeFrom (length rs) (rs ++ rs') = rev rs.
Proof.
  revert rs'. induction rs as [|r rs IH] using rev_ind; intros rs'; [done|].
  rewrite length_app, Nat.add_comm. simpl. rewrite <- app_assoc. simpl.
  rewrite list_lookup_middle by done. by rewrite IH, rev_app_distr.
Qed.

Lemma handler_order {H R} mux (a : App H R) :
  handler mux a = fold_right (fun m h => m h) (mux (routes a)) (middleware a).
Proof.
  unfold handler. pose proof (wrapFrom_app (middleware a) [] (mux (routes a))) as Hw. by rewrite app_nil_r in Hw.
Qed.

Lemma closeResources_order {H R} (a : App H R) : closeResources a = rev (resources a).
Proof.
  unfold closeResources. pose proof (closeFrom_app (resources a) []) as Hc. by rewrite app_nil_r in Hc.
Qed.

(** Registration calls on a new application. *)
Inductive registration (H R : Type) :=
  | RegisterRoute (t : Http.route H) | RegisterHTTP (m : option (H -> H)) | RegisterResource (r : option (reflected * R)).
Arguments RegisterRoute {H R}. Arguments RegisterHTTP {H R}. Arguments RegisterResource {H R}.

(** [None] when registering panics. *)
Definition register {H R} (a : App H R) (c : registration H R) : option (App H R) :=
  match c with
  | RegisterRoute t => Handle a t
  | RegisterHTTP m => Some (fst (UseHTTP a m))
  | RegisterResource r => Some (fst (Use a r))
  end.

Fixpoint registerAll {H R} (a : App H R) (cs : list (registration H R)) : option (App H R) :=
  match cs with [] => Some a | c :: cs => a' ← register a c; registerAll a' cs end.

(** The routes, middleware and resources that were accepted, in order. *)
Definition acceptedRoutes {H R} : list (registration H R) -> list (Http.route H) :=
  omap (fun c => match c with RegisterRoute t => Some t | _ => None end).
Definition acceptedHTTP {H R} : list (registration H R) -> list (H -> H) :=
  omap (fun c => match c with RegisterHTTP m => m | _ => None end).
Definition acceptedResources {H R} : list (registration H R) -> list R :=
  omap (fun c => match c with
                 | RegisterResource (Some (v, r)) => if isNil v then None else Some r
                 | _ => None
                 end).

Lemma register_all {H R} (cs : list (registration H R)) : forall a a' : App H R, registerAll a cs = Some a' ->
  routes a' = routes a ++ acceptedRoutes cs /\ middleware a' = middleware a ++ acceptedHTTP cs /\
  resources a' = resources a ++ acceptedResources cs /\ appOptions a' = appOptions a.
Proof.
  induction cs as [|c cs IH]; intros a a' HR; cbn [registerAll] in HR; [injection HR as <-; simpl; by rewrite !app_nil_r|].
  apply bind_Some in HR as (a1 & H1 & (Hr & Hm & Hs & Ho)%IH). rewrite Hr, Hm, Hs, Ho. clear IH Hr Hm Hs Ho.
  destruct c as [t|[m|]|[[v r]|]]; cbn in H1 |- *.
  - apply bind_Some in H1 as (rts & Hrts & [= <-]). unfold Http.muxHandle in Hrts.
    case_match; [done|]. injection Hrts as <-. cbn. by rewrite <- app_assoc.
  - injection H1 as <-. cbn. by rewrite <- app_assoc.
  - by injection H1 as <-.
  - destruct (isNil v); injection H1 as <-; cbn; [done|by rewrite <- app_assoc].
  - by injection H1 as <-.
Qed.

Lemma New_empty {H R} (o : Options) (a : App H R) : New o = Ok a ->
  appOptions a = o /\ routes a = [] /\ middleware a = [] /\ resources a = [].
Proof. unfold New. intros HN. repeat (case_match; [done|]). by simplify_eq. Qed.

Lemma New_limits {H R} (o : Options) (a : App H R) : New o = Ok a ->
  0 < ReadTimeout o /\ 0 < ReadHeaderTimeout o /\ 0 < WriteTimeout o /\ 0 < IdleTimeout o /\
  0 < ShutdownTimeout o /\ 0 < MaxHeaderBytes o.
Proof. unfold New. intros HN. repeat (case_match; [done|]). lia. Qed.

(** After the server was started, nothing is served anew and nothing released; the
    shutdown is asked for when the context ends, and forced when it fails. *)
Lemma serve_effects {H R} mux (a : App H R) c effects r : serve mux a c = (effects, r) ->
  exists rest, effects = Serving (newServer mux a) :: rest /\
  (forall x, CloseResource x ∉ rest) /\ (forall server, Serving server ∉ rest) /\
  (forall t, Shutdown t ∈ rest <->
     t = ShutdownTimeout (appOptions a) /\ exists e1 e2, c = ContextDone e1 e2) /\
  (ServerClose ∈ rest <-> exists msg e, c = ContextDone (Some msg) e) /\
  (r = Ok tt <-> c = ServerStopped ErrServerClosed \/ c = ContextDone None ErrServerClosed).
Proof.
  unfold serve. intros HS.
  destruct c as [[|msg]|[sm|] [|msg]]; injection HS as <- <-; cbn [app]; eexists; (split; [reflexivity|]);
    repeat setoid_rewrite elem_of_cons; repeat setoid_rewrite elem_of_nil; naive_solver.
Qed.

(** C27.  The application serves and releases what was registered.  When the port can
    be listened on, one server is started, at the configured address and with the
    configured read, header, write and idle timeouts and header limit, all of them
    positive, and it serves the routes inside every middleware, the first registered
    outermost; when the context ends it is asked to shut down within the configured
    time, and closed by force when that fails.  Whatever happens in a run (the port is
    taken, the server fails, shutdown succeeds or times out), every resource the
    application owns is closed exactly once, last registered first, after serving has
    ended; a run succeeds exactly when it listened and the server was closed in an
    orderly way. *)
Theorem Run_releases_resources {H R} (o : Options) (a0 a : App H R) (cs : list (registration H R))
    (mux : list (Http.route H) -> H) (listenOk : bool) (c : serveCase) :
  New o = Ok a0 -> registerAll a0 cs = Some a ->
  exists serving, fst (Run mux a true listenOk c) = serving ++ map CloseResource (rev (acceptedResources cs)) /\
    (forall r, CloseResource r ∉ serving) /\
    (listenOk = false -> serving = []) /\
    (listenOk = true -> exists server rest, serving = Listening :: Serving server :: rest /\
       (forall server', Serving server' ∉ rest) /\
       Addr server = Address o /\
       Handler server = fold_right (fun m h => m h) (mux (acceptedRoutes cs)) (acceptedHTTP cs) /\
       srvReadTimeout server = ReadTimeout o /\ 0 < ReadTimeout o /\ srvReadHeaderTimeout server = ReadHeaderTimeout o /\ 0 < ReadHeaderTimeout o /\
       srvWriteTimeout server = WriteTimeout o /\ 0 < WriteTimeout o /\ srvIdleTimeout server = IdleTimeout o /\ 0 < IdleTimeout o /\
       srvMaxHeaderBytes server = MaxHeaderBytes o /\ 0 < MaxHeaderBytes o /\
       (forall t, Shutdown t ∈ rest <-> t = ShutdownTimeout o /\ exists e1 e2, c = ContextDone e1 e2) /\
       (ServerClose ∈ rest <-> exists msg e, c = ContextDone (Some msg) e)) /\
    (snd (Run mux a true listenOk c) = Ok tt <->
     listenOk = true /\ (c = ServerStopped ErrServerClosed \/ c = ContextDone None ErrServerClosed)).
Proof.
  intros HN HA. destruct (New_empty o a0 HN) as (Ho & Ht & Hm & Hr). pose proof (New_limits o a0 HN) as Hpos.
  destruct (register_all cs a0 a HA) as (Ht' & Hm' & Hr' & Ho'). rewrite Ht, Hm, Hr, Ho in *. cbn [app] in Ht', Hm', Hr'.
  pose proof (handler_order mux a) as Hh. pose proof (closeResources_order a) as Hc. rewrite Hm', Ht' in Hh. rewrite Hr' in Hc.
  unfold Run. rewrite Hc. cbn [negb]. destruct listenOk; cbn [negb].
  - destruct (serve mux a c) as [effects r] eqn:HS. exists (Listening :: effects). split; [done|].
    destruct (serve_effects mux a c effects r HS) as (rest & -> & H1 & H2 & H3 & H4 & H5).
    rewrite Ho' in H3. split_and!.
    + intros x. rewrite !not_elem_of_cons. split_and!; [done..|apply H1].
    + done.
    + intros _. exists (newServer mux a), rest. cbn. rewrite Hh, Ho'. naive_solver.
    + cbn [snd]. rewrite H5. naive_solver.
  - exists []. split; [done|]. split; [intros r; apply not_elem_of_nil|]. split; [done|]. split; [done|naive_solver].
Qed.

Definition sampleOptions : Options :=
  {| Name := "app"; Version := "1"; Address := ":1"; ReadTimeout := 1; ReadHeaderTimeout := 1;
     WriteTimeout := 1; IdleTimeout := 1; ShutdownTimeout := 1; MaxHeaderBytes := 1; Logger := true |}.
Definition sampleApp : App (list nat) nat :=
  {| appOptions := sampleOptions; routes := []; middleware := []; resources := [] |}.

Definition sampleRegistrations : list (registration (list nat) nat) :=
  [RegisterHTTP (Some (cons 1%nat)); RegisterResource (Some (Concrete, 7%nat));
   RegisterRoute {| Http.rtMethod := "GET"; Http.rtPath := ["a"]; Http.rtHandler := [5%nat] |}; RegisterHTTP (Some (cons 2%nat));
   RegisterResource (Some (Nilable true, 8%nat)); RegisterResource (Some (Nilable false, 9%nat))].

Definition sampleMux : list (Http.route (list nat)) -> list nat := flat_map Http.rtHandler.

Lemma Run_releases_resources_witness :
  exists a serving, registerAll sampleApp sampleRegistrations = Some a /\
    fst (Run sampleMux a true true (ContextDone (Some "deadline") ErrServerClosed)) =
      serving ++ [CloseResource 9%nat; CloseResource 7%nat].
Proof.
  eexists. edestruct (Run_releases_resources sampleOptions sampleApp) as (serving & Hs & _);
    [reflexivity|apply (eq_refl : registerAll sampleApp sampleRegistrations = Some _)|].
  exists serving. split; [reflexivity|exact Hs].
Defined.

Example sample_handler : exists a, registerAll sampleApp sampleRegistrations = Some a /\
  handler sampleMux a = [1; 2; 5]%nat.
Proof. eexists. split; reflexivity. Qed.

End LifecycleProperties.
