(* ===== verification/LdapReader.v ===== *)
(** * Directory lookups ([directory/ldap/reader.go])

    Configuration checks and the lookup of one user.  What a lookup meets on the
    network (the dial, the context, the bind, the search) is an argument; every
    exit sets the outcome and stage that the observer is told. *)

From S2P Require Import Prelude GoTime GoStrings GoUrl GoUrlParse.

Inductive ldap_error :=
  | ErrUnavailable | ErrNotFound | ErrAmbiguous | ConfigurationError (msg : string)
  | InputError (msg : string) | ContextCanceled | DeadlineExceeded.

(** The certificate pool is its certificates; [Observer] tells whether there is
    one. *)
Record Config := {
  URL_ : string; BaseDN : string; BindDN : string; BindPassword : string;
  Roots : option (list (list byte)); Timeout : Duration; Observer : bool
}.

Record User := { Username : string; DisplayName : string; DN : string; Mail : string }.

Record Reader := { config : Config; address : string; hostname : string }.

Record LookupObservation := { Outcome : string; Stage : string; LookupDuration : Duration }.

(** An entry of a search result: its DN and attributes. *)
Record entry := { EntryDN : string; Attributes : gmap string (list string) }.

Module Reader_.

Definition OutcomeSuccess : string := "success".
Definition OutcomeNotFound : string := "not_found".
Definition OutcomeAmbiguous : string := "ambiguous".
Definition OutcomeCanceled : string := "canceled".
Definition OutcomeTimeout : string := "timeout".
Definition OutcomeUnavailable : string := "unavailable".
Definition OutcomeInvalidInput : string := "invalid_input".

Definition StageValidation : string := "validation".
Definition StageConnect : string := "connect".
Definition StageBind : string := "bind".
Definition StageSearch : string := "search".
Definition StageResult : string := "result".

(** [net.JoinHostPort]. *)
Definition JoinHostPort (host port : string) : string :=
  if bool_decide (":"%char ∈ chars host) then "[" +:+ host +:+ "]:" +:+ port else host +:+ ":" +:+ port.

Definition with_Timeout (c : Config) (t : Duration) : Config :=
  {| URL_ := URL_ c; BaseDN := BaseDN c; BindDN := BindDN c; BindPassword := BindPassword c;
     Roots := Roots c; Timeout := t; Observer := Observer c |}.

(** [New]: [ParseDN] is that of the LDAP library. *)
Definition New (ParseDN : string -> bool) (c : Config)
    : result ldap_error Reader :=
  if (2048 <? len (URL_ c)) || (4096 <? len (BaseDN c)) || (4096 <? len (BindDN c)) ||
     (4096 <? len (BindPassword c)) then
    Err (ConfigurationError "directory configuration exceeds size limits")
  else
    match urlParse (URL_ c) with
    | None => Err (ConfigurationError "directory requires an LDAPS host URL")
    | Some u =>
        if (Scheme u != "ldaps") || (NetUrl.Hostname u == "") || GoUrlParse.User u || (UPath u != "") || (RawQuery u != "") ||
           ForceQuery u || (Fragment u != "") then
          Err (ConfigurationError "directory requires an LDAPS host URL")
        else
          let port := if NetUrl.Port u == "" then "636" else NetUrl.Port u in
          match Atoi port with
          | None => Err (ConfigurationError "invalid directory port")
          | Some p =>
              if (p <? 1) || (65535 <? p) then Err (ConfigurationError "invalid directory port")
              else if (BaseDN c == "") || (BindDN c == "") || (BindPassword c == "") then
                Err (ConfigurationError "directory requires base DN and service credentials")
              else if negb (ParseDN (BaseDN c)) then Err (ConfigurationError "invalid directory base DN")
              else
                let c := if Timeout c =? 0 then with_Timeout c (8 * Second) else c in
                if (Timeout c <? Second) || (30 * Second <? Timeout c) then
                  Err (ConfigurationError "directory timeout must be 1..30 seconds")
                else Ok {| config := c; address := JoinHostPort (NetUrl.Hostname u) port; hostname := NetUrl.Hostname u |}
          end
    end.

Definition userFilter (EscapeFilter : string -> string) (username : string) : string :=
  "(&(objectCategory=person)(objectClass=user)(!(userAccountControl:1.2.840.113556.1.4.803:=2))(sAMAccountName="
  +:+ EscapeFilter username +:+ "))".

(** [ctx.Err()]. *)
Inductive ctxError := CtxCanceled | CtxDeadline.

Definition ctxOutcome (e : ctxError) : string :=
  match e with CtxDeadline => OutcomeTimeout | CtxCanceled => OutcomeCanceled end.
Definition ctxValue (e : ctxError) : ldap_error :=
  match e with CtxDeadline => DeadlineExceeded | CtxCanceled => ContextCanceled end.

(** The dialer's TLS configuration and the search request. *)
Record tlsConfig := { MinVersion : Z; ServerName : string; RootCAs : option (list (list byte)) }.
Definition VersionTLS12 : Z := 0x0303.

Inductive searchScope := ScopeBaseObject | ScopeSingleLevel | ScopeWholeSubtree.
Inductive derefAliases := NeverDerefAliases | DerefInSearching | DerefFindingBaseObj | DerefAlways.

Record SearchRequest := {
  sBaseDN : string; sScope : searchScope; sDerefAliases : derefAliases; SizeLimit : Z; TimeLimit : Z;
  TypesOnly : bool; Filter : string; sAttributes : list string
}.

(** What a lookup meets: whether each call succeeds, and [ctx.Err()] when it is
    consulted after it; [search] gives the entries and the number of referrals;
    [deadline] is that of the derived context. *)
Record network := {
  dial : string -> tlsConfig -> bool; dialCtx : option ctxError; deadline : time;
  bind : string -> string -> bool; bindCtx : option ctxError;
  search : SearchRequest -> option (list entry * Z); searchCtx : option ctxError
}.

(** What a lookup does, deferred calls included: [CloseWhenDone] is
    [context.AfterFunc(ctx, raw.Close)] and [StopClosing] its [stop], [Start] makes
    the LDAP connection over the framed and bounded [raw], and [Cancel] releases
    the derived context. *)
Inductive effect :=
  | Dial (address : string) (c : tlsConfig) | SetDeadline (t : time) | CloseWhenDone | Start
  | SetTimeout (d : Duration) | Bind (dn password : string) | SearchFor (q : SearchRequest)
  | CloseConn | StopClosing | CloseRaw | Cancel | Observe (o : LookupObservation).

(** What the observer is told. *)
Definition told : list effect -> list LookupObservation :=
  omap (fun e => match e with Observe o => Some o | _ => None end).

Definition lookupTLS (r : Reader) : tlsConfig :=
  {| MinVersion := VersionTLS12; ServerName := hostname r; RootCAs := Roots (config r) |}.

(** The request for a name; between 1 and 30 seconds [int(Timeout.Seconds())] is
    the whole seconds of the timeout. *)
Definition userSearch (EscapeFilter : string -> string) (r : Reader) (username : string) : SearchRequest :=
  {| sBaseDN := BaseDN (config r); sScope := ScopeWholeSubtree; sDerefAliases := NeverDerefAliases;
     SizeLimit := 2; TimeLimit := Z.quot (Timeout (config r)) Second; TypesOnly := false;
     Filter := userFilter EscapeFilter username; sAttributes := ["sAMAccountName"; "displayName"; "mail"] |}.

Definition GetAttributeValue (e : entry) (name : string) : string :=
  match default [] (Attributes e !! name) with v :: _ => v | [] => "" end.

(** The end of a call that did [done]: the deferred observation, in which a panic
    of the observer is recovered. *)
Definition leave (r : Reader) (elapsed : Duration) (done : list effect) (outcome stage : string)
    (res : result ldap_error User) : list effect * result ldap_error User :=
  (done ++ (if Observer (config r)
            then [Observe {| Outcome := outcome; Stage := stage; LookupDuration := elapsed |}] else []), res).

(** What is done with a connection: it is prepared, used for [work] and, by the
    deferred calls in reverse order, closed. *)
Definition connected (r : Reader) (n : network) (work : list effect) : list effect :=
  [Dial (address r) (lookupTLS r); SetDeadline (deadline n); CloseWhenDone; Start; SetTimeout (Timeout (config r))] ++
  work ++ [CloseConn; StopClosing; CloseRaw; Cancel].

(** [GetUser]: what it does and its result; [elapsed] is the time the call took. *)
Definition GetUser (EscapeFilter : string -> string) (r : Reader) (ctx : bool) (username : string)
    (elapsed : Duration) (n : network) : list effect * result ldap_error User :=
  if negb ctx then
    leave r elapsed [] OutcomeInvalidInput StageValidation (Err (InputError "directory context required"))
  else if (256 <? len username) || negb (ValidString username) then
    leave r elapsed [] OutcomeInvalidInput StageValidation (Err (InputError "invalid directory username"))
  else
    let username := TrimSpace username in
    if (username == "") || bool_decide (ascii_of_N 0 ∈ chars username) then
      leave r elapsed [] OutcomeInvalidInput StageValidation (Err (InputError "invalid directory username"))
    else if negb (dial n (address r) (lookupTLS r)) then
      let done := [Dial (address r) (lookupTLS r); Cancel] in
      match dialCtx n with
      | Some e => leave r elapsed done (ctxOutcome e) StageConnect (Err (ctxValue e))
      | None => leave r elapsed done OutcomeUnavailable StageConnect (Err ErrUnavailable)
      end
    else
      let binding := Bind (BindDN (config r)) (BindPassword (config r)) in
      if negb (bind n (BindDN (config r)) (BindPassword (config r))) then
        let done := connected r n [binding] in
        match bindCtx n with
        | Some e => leave r elapsed done (ctxOutcome e) StageBind (Err (ctxValue e))
        | None => leave r elapsed done OutcomeUnavailable StageBind (Err ErrUnavailable)
        end
      else
        let done := connected r n [binding; SearchFor (userSearch EscapeFilter r username)] in
        match searchCtx n with
        | Some e => leave r elapsed done (ctxOutcome e) StageSearch (Err (ctxValue e))
        | None =>
            match search n (userSearch EscapeFilter r username) with
            | None => leave r elapsed done OutcomeUnavailable StageSearch (Err ErrUnavailable)
            | Some (entries, referrals) =>
                if (blen entries =? 0) && (0 <? referrals) then
                  leave r elapsed done OutcomeUnavailable StageSearch (Err ErrUnavailable)
                else
                  match entries with
                  | [] => leave r elapsed done OutcomeNotFound StageResult (Err ErrNotFound)
                  | [e] =>
                      let name := GetAttributeValue e "sAMAccountName" in
                      let display := GetAttributeValue e "displayName" in
                      if name == "" then leave r elapsed done OutcomeUnavailable StageResult (Err ErrUnavailable)
                      else leave r elapsed done OutcomeSuccess StageResult
                             (Ok {| Username := name;
                                    DisplayName := if display == "" then name else display;
                                    DN := EntryDN e; Mail := GetAttributeValue e "mail" |})
                  | _ => leave r elapsed done OutcomeAmbiguous StageResult (Err ErrAmbiguous)
                  end
            end
        end.

End Reader_.

(** ** Redacted forms ([directory/ldap/redaction.go])

    What formatting, structured logging and JSON encoding show of the values that
    hold credentials. *)

Module Redaction.

Definition ConfigString (_ : Config) : string := "LDAP configuration [REDACTED]".
Definition ConfigGoString (c : Config) : string := ConfigString c.
Definition ConfigLogValue (c : Config) : string := ConfigString c.
(** [{"redacted":true}]; the double quote is character 34. *)
Definition ConfigMarshalJSON (_ : Config) : list byte :=
  bytes_of "{" ++ [byte_of 34] ++ bytes_of "redacted" ++ [byte_of 34] ++ bytes_of ":true}".

Definition ReaderString (_ : Reader) : string := "LDAP reader [REDACTED]".
Definition ReaderGoString (r : Reader) : string := ReaderString r.
Definition ReaderLogValue (r : Reader) : string := ReaderString r.

End Redaction.

(** ** The protocol of a connection *)

Module ConnectionProtocol.
Import Reader_.

(** What holds of the connection of a call: it is open, has a deadline, is closed
    when its context ends, and serves LDAP. *)
Record guard := { isOpen : bool; hasDeadline : bool; armed : bool; started : bool }.

Definition unguarded : guard := {| isOpen := false; hasDeadline := false; armed := false; started := false |}.

(** Messages are sent only on an open connection that has a deadline and that the
    end of the context closes; the context is released only when there is nothing
    it would close; nothing is told while a connection is open. *)
Definition allowed (n : network) (g : guard) (e : effect) : option guard :=
  match e with
  | Dial a c => if isOpen g then None
      else Some {| isOpen := dial n a c; hasDeadline := false; armed := false; started := false |}
  | SetDeadline _ => if isOpen g then
      Some {| isOpen := true; hasDeadline := true; armed := armed g; started := started g |} else None
  | CloseWhenDone => if isOpen g then
      Some {| isOpen := true; hasDeadline := hasDeadline g; armed := true; started := started g |} else None
  | Start => if isOpen g && hasDeadline g && armed g then
      Some {| isOpen := true; hasDeadline := true; armed := true; started := true |} else None
  | SetTimeout _ | Bind _ _ | SearchFor _ => if isOpen g && hasDeadline g && armed g && started g then Some g else None
  | CloseConn => if started g then
      Some {| isOpen := isOpen g; hasDeadline := hasDeadline g; armed := armed g; started := false |} else None
  | StopClosing => if armed g then
      Some {| isOpen := isOpen g; hasDeadline := hasDeadline g; armed := false; started := started g |} else None
  | CloseRaw => if isOpen g && negb (armed g) && negb (started g) then Some unguarded else None
  | Cancel | Observe _ => if isOpen g || armed g then None else Some g
  end.

Definition follows (n : network) (es : list effect) (g : guard) : option guard :=
  fold_left (fun g e => g ≫= fun g => allowed n g e) es (Some g).

(** A call that uses a connection by the rules and leaves none open. *)
Definition owned (n : network) (es : list effect) : Prop := follows n es unguarded = Some unguarded.

Lemma owned_app n es es' : owned n es -> owned n es' -> owned n (es ++ es').
Proof. unfold owned, follows. intros H1 H2. by rewrite fold_left_app, H1. Qed.

Lemma owned_connected r n work : dial n (address r) (lookupTLS r) = true ->
  Forall (fun e => match e with Bind _ _ | SearchFor _ => True | _ => False end) work ->
  owned n (connected r n work) /\ told (connected r n work) = [].
Proof.
  intros Hd Hw. unfold owned, follows, connected, told. split.
  - rewrite fold_left_app. cbn. rewrite Hd. rewrite fold_left_app.
    replace (fold_left _ work _) with (Some {| isOpen := true; hasDeadline := true; armed := true; started := true |});
      [done|].
    clear Hd. induction Hw as [|e work He _ IH]; [done|]. cbn [fold_left]. by destruct e.
  - cbn. induction Hw as [|e work He _ IH]; [done|]. by destruct e.
Qed.

End ConnectionProtocol.

(** ** Properties *)

Module ReaderProperties.
Import Reader_ ConnectionProtocol.

(** The one outcome label each result is observed under. *)
Definition outcomeOf (r : result ldap_error User) : string :=
  match r with
  | Ok _ => OutcomeSuccess
  | Err ErrNotFound => OutcomeNotFound
  | Err ErrAmbiguous => OutcomeAmbiguous
  | Err ContextCanceled => OutcomeCanceled
  | Err DeadlineExceeded => OutcomeTimeout
  | Err (InputError _) => OutcomeInvalidInput
  | Err _ => OutcomeUnavailable
  end.

(** What a call says to the network. *)
Definition said : list effect -> list effect :=
  omap (fun e => match e with Dial _ _ | Bind _ _ | SearchFor _ => Some e | _ => None end).

Lemma said_connected r n work :
  Forall (fun e => match e with Bind _ _ | SearchFor _ => True | _ => False end) work ->
  said (connected r n work) = Dial (address r) (lookupTLS r) :: work.
Proof.
  intros Hw. unfold said, connected. rewrite !omap_app. cbn. rewrite app_nil_r. f_equal.
  induction Hw as [|e work He _ IH]; [done|]. cbn. destruct e; try done; by rewrite IH.
Qed.

(** The request for an account name: the enabled users of the whole subtree of that
    name, at most two of them, aliases and referrals left alone. *)
Definition request (EscapeFilter : string -> string) (r : Reader) (name : string) : SearchRequest :=
  {| sBaseDN := BaseDN (config r); sScope := ScopeWholeSubtree; sDerefAliases := NeverDerefAliases; SizeLimit := 2;
     TimeLimit := Timeout (config r) ÷ 10 ^ 9; TypesOnly := false;
     Filter := "(&(objectCategory=person)(objectClass=user)(!(userAccountControl:1.2.840.113556.1.4.803:=2))(sAMAccountName="
       +:+ EscapeFilter name +:+ "))";
     sAttributes := ["sAMAccountName"; "displayName"; "mail"] |}.

(** The conversation of a lookup that gets to its end. *)
Definition conversation (EscapeFilter : string -> string) (r : Reader) (name : string) : list effect :=
  [Dial (address r) {| MinVersion := 0x0303; ServerName := hostname r; RootCAs := Roots (config r) |};
   Bind (BindDN (config r)) (BindPassword (config r)); SearchFor (request EscapeFilter r name)].

(** What every way out has in common. *)
Lemma leave_facts EscapeFilter name r n elapsed done outcome stage res0 es res : leave r elapsed done outcome stage res0 = (es, res) ->
  outcome = outcomeOf res0 -> stage ∈ [StageValidation; StageConnect; StageBind; StageSearch; StageResult] ->
  owned n done -> told done = [] -> said done `prefix_of` conversation EscapeFilter r name ->
  res = res0 /\ (exists stage, stage ∈ [StageValidation; StageConnect; StageBind; StageSearch; StageResult] /\
    told es = if Observer (config r)
              then [{| Outcome := outcomeOf res; Stage := stage; LookupDuration := elapsed |}] else []) /\
  owned n es /\ said es `prefix_of` conversation EscapeFilter r name /\ said es = said done.
Proof.
  intros [= <- <-] -> Hs Ho Ht Hp. split; [done|].
  assert (Hsd : said (done ++ if Observer (config r)
    then [Observe {| Outcome := outcomeOf res0; Stage := stage; LookupDuration := elapsed |}] else []) = said done).
  { unfold said. rewrite omap_app. by destruct (Observer (config r)); rewrite app_nil_r. }
  rewrite Hsd. split; [|split; [|done]].
  - exists stage. split; [done|]. unfold told in *. rewrite omap_app, Ht. by destruct (Observer (config r)).
  - apply owned_app; [done|]. by destruct (Observer (config r)).
Qed.

(** A way out with an error. *)
Ltac ldap_exit E name n HG :=
  apply (leave_facts E name _ n) in HG as (-> & HG & Ho & Hpre & Hsaid);
  [split_and!; try done|reflexivity|by apply (bool_decide_eq_true_1 _)|done|done|first [apply prefix_nil|done]].

(** What a lookup does and what it tells the observer. *)
Lemma GetUser_facts (EscapeFilter : string -> string) (r : Reader) (ctx : bool) (username : string)
    (elapsed : Duration) (n : network) (es : list effect) (res : result ldap_error User) :
  GetUser EscapeFilter r ctx username elapsed n = (es, res) ->
  (exists stage, stage ∈ [StageValidation; StageConnect; StageBind; StageSearch; StageResult] /\
    told es = if Observer (config r)
              then [{| Outcome := outcomeOf res; Stage := stage; LookupDuration := elapsed |}] else []) /\
  owned n es /\
  said es `prefix_of` conversation EscapeFilter r (TrimSpace username) /\
  match res with
  | Ok u =>
      said es = conversation EscapeFilter r (TrimSpace username) /\
      dial n (address r) {| MinVersion := 0x0303; ServerName := hostname r; RootCAs := Roots (config r) |} = true /\
      bind n (BindDN (config r)) (BindPassword (config r)) = true /\ searchCtx n = None /\
      len username <= 256 /\ TrimSpace username <> "" /\
      exists e referrals,
        search n (request EscapeFilter r (TrimSpace username)) = Some ([e], referrals) /\
        DN u = EntryDN e /\ Username u = GetAttributeValue e "sAMAccountName" /\ Username u <> "" /\
        (GetAttributeValue e "displayName" <> "" -> DisplayName u = GetAttributeValue e "displayName") /\
        (GetAttributeValue e "displayName" = "" -> DisplayName u = Username u) /\
        Mail u = GetAttributeValue e "mail"
  | Err ErrNotFound => exists referrals,
      search n (request EscapeFilter r (TrimSpace username)) = Some ([], referrals) /\ referrals <= 0
  | Err ErrAmbiguous => exists entries referrals,
      search n (request EscapeFilter r (TrimSpace username)) = Some (entries, referrals) /\ 2 <= blen entries
  | Err _ => True
  end.
Proof.
  unfold GetUser. intros HG.
  change (request EscapeFilter r (TrimSpace username)) with (userSearch EscapeFilter r (TrimSpace username)).
  set (E := EscapeFilter) in *. set (name := TrimSpace username) in *.
  destruct ctx; cbn [negb] in HG; [|ldap_exit E name n HG].
  destruct ((256 <? len username) || _) eqn:E1; [ldap_exit E name n HG|].
  destruct ((name == "") || _) eqn:E2; [ldap_exit E name n HG|].
  destruct (dial n (address r) (lookupTLS r)) eqn:Hd; cbn [negb] in HG.
  2: { assert (Hno : owned n [Dial (address r) (lookupTLS r); Cancel]) by (unfold owned, follows; cbn; by rewrite Hd).
       assert (Hpd : said [Dial (address r) (lookupTLS r); Cancel] `prefix_of` conversation E r name) by by eexists.
       destruct (dialCtx n) as [[]|]; by ldap_exit E name n HG. }
  assert (Hw1 : forall ws : list effect, ws = [Bind (BindDN (config r)) (BindPassword (config r))] \/
      ws = [Bind (BindDN (config r)) (BindPassword (config r)); SearchFor (userSearch E r name)] ->
    owned n (connected r n ws) /\ told (connected r n ws) = [] /\
    said (connected r n ws) `prefix_of` conversation E r name /\
    said (connected r n ws) = Dial (address r) (lookupTLS r) :: ws).
  { intros ws Hws.
    assert (Hall : Forall (fun e => match e with Bind _ _ | SearchFor _ => True | _ => False end) ws)
      by (destruct Hws as [->| ->]; by repeat constructor).
    destruct (owned_connected r n ws Hd Hall). rewrite said_connected by done. split_and!; try done.
    destruct Hws as [->| ->]; [by eexists [_]|by exists []]. }
  destruct (Hw1 _ (or_introl eq_refl)) as (Hb & Htb & Hpb & _). destruct (Hw1 _ (or_intror eq_refl)) as (Hc & Htc & Hpc & Hsc). clear Hw1.
  cbv zeta in HG. destruct (bind n _ _); cbn [negb] in HG; [|destruct (bindCtx n) as [[]|]; by ldap_exit E name n HG].
  destruct (searchCtx n) as [[]|]; [by ldap_exit E name n HG..|].
  destruct (search n (userSearch E r name)) as [[entries referrals]|] eqn:Hsearch; [|by ldap_exit E name n HG].
  destruct ((blen entries =? 0) && _) eqn:E3; [by ldap_exit E name n HG|].
  destruct entries as [|e [|e' rest]].
  - ldap_exit E name n HG. exists referrals. split; [done|]. change (blen []) with 0 in E3. lia.
  - destruct (bool_decide (GetAttributeValue e "sAMAccountName" = "")) eqn:Hn; [by ldap_exit E name n HG|].
    apply (leave_facts E name _ n) in HG as (-> & HG & Ho & Hpre & Hsaid); [|reflexivity|by apply (bool_decide_eq_true_1 _)|done..].
    split; [done|]. split; [done|]. split; [done|]. rewrite Hsaid, Hsc. clear HG Ho Hpre Hsaid Hb Hc Htb Htc Hpb Hpc Hsc.
    split_guards. split_and!; try done; [lia|]. exists e, referrals. cbn.
    split_and!; try done; intros; by case_match; split_guards.
  - ldap_exit E name n HG. exists (e :: e' :: rest), referrals. split; [done|]. unfold blen. cbn [length]. lia.
Qed.

(** C34.  A user is returned only for exactly one directory entry, found by the
    request for the trimmed name over a connection dialled with TLS 1.2 or newer
    to this reader's host and bound with its service account; the entry has a
    non-empty account name, and the display name is the one of the entry or, where
    that is empty, the account name.  Whatever happens, nothing is said to the network
    but that dial, that bind and that one search, in this order, so no referral is
    ever followed; a lookup that finds nothing but referrals is not reported as a
    missing user, and a user is ambiguous only for at least two entries.  Messages are sent only on a connection that
    has a deadline and is closed when the context ends, and the call closes its
    connection before it returns.  Every call is observed at most once, exactly
    when there is an observer, under the outcome of its result and one of five
    stages, and with nothing of its input. *)
Theorem GetUser_one_entry (EscapeFilter : string -> string) (r : Reader) (ctx : bool) (username : string)
    (elapsed : Duration) (n : network) (es : list effect) (res : result ldap_error User) :
  GetUser EscapeFilter r ctx username elapsed n = (es, res) ->
  (exists stage, stage ∈ [StageValidation; StageConnect; StageBind; StageSearch; StageResult] /\
    told es = if Observer (config r)
              then [{| Outcome := outcomeOf res; Stage := stage; LookupDuration := elapsed |}] else []) /\
  owned n es /\
  said es `prefix_of` conversation EscapeFilter r (TrimSpace username) /\
  match res with
  | Ok u =>
      said es = conversation EscapeFilter r (TrimSpace username) /\
      dial n (address r) {| MinVersion := 0x0303; ServerName := hostname r; RootCAs := Roots (config r) |} = true /\
      bind n (BindDN (config r)) (BindPassword (config r)) = true /\ searchCtx n = None /\
      len username <= 256 /\ TrimSpace username <> "" /\
      exists e referrals,
        search n (request EscapeFilter r (TrimSpace username)) = Some ([e], referrals) /\
        DN u = EntryDN e /\ Username u = GetAttributeValue e "sAMAccountName" /\ Username u <> "" /\
        (GetAttributeValue e "displayName" <> "" -> DisplayName u = GetAttributeValue e "displayName") /\
        (GetAttributeValue e "displayName" = "" -> DisplayName u = Username u) /\
        Mail u = GetAttributeValue e "mail"
  | Err ErrNotFound => exists referrals,
      search n (request EscapeFilter r (TrimSpace username)) = Some ([], referrals) /\ referrals <= 0
  | Err ErrAmbiguous => exists entries referrals,
      search n (request EscapeFilter r (TrimSpace username)) = Some (entries, referrals) /\ 2 <= blen entries
  | Err _ => True
  end.
Proof. apply GetUser_facts. Qed.

(** A reader exists only for an encrypted directory: [New] accepts only
    an LDAPS URL with a host, no credentials, path, query or fragment, a port in
    range, complete service credentials and a timeout of 1 to 30 seconds, 8 by
    default. *)
Theorem New_requires_ldaps (ParseDN : string -> bool)
    (c : Config) (r : Reader) :
  New ParseDN c = Ok r ->
  exists u p, urlParse (URL_ c) = Some u /\ Scheme u = "ldaps" /\ GoUrlParse.User u = false /\ UPath u = "" /\
    hostname r = NetUrl.Hostname u /\ hostname r <> "" /\
    Atoi (if NetUrl.Port u == "" then "636" else NetUrl.Port u) = Some p /\ 1 <= p <= 65535 /\
    BindDN (config r) = BindDN c /\ BindDN c <> "" /\ BindPassword (config r) <> "" /\
    ParseDN (BaseDN (config r)) = true /\
    Second <= Timeout (config r) <= 30 * Second /\
    (Timeout c <> 0 -> Timeout (config r) = Timeout c) /\ (Timeout c = 0 -> Timeout (config r) = 8 * Second).
Proof.
  unfold New. intros HN. case_match; [done|]. destruct (urlParse (URL_ c)) as [u|]; [|done].
  case_match; [done|]. destruct (Atoi _) as [p|] eqn:Hp; [|done].
  case_match; [done|]. case_match; [done|]. case_match; [done|].
  assert (Hc : forall c', c' = (if Timeout c =? 0 then with_Timeout c (8 * Second) else c) ->
    BaseDN c' = BaseDN c /\ BindDN c' = BindDN c /\ BindPassword c' = BindPassword c /\
    (Timeout c <> 0 -> Timeout c' = Timeout c) /\ (Timeout c = 0 -> Timeout c' = 8 * Second)).
  { intros c' ->. destruct (Z.eqb_spec (Timeout c) 0); split_and!; try done. }
  cbv zeta in HN. remember (if Timeout c =? 0 then with_Timeout c (8 * Second) else c) as c' eqn:Hc'.
  destruct (Hc c' eq_refl) as (H1' & H2' & H3' & H4' & H5'). clear Hc Hc'.
  case_match; [done|]. simplify_eq. split_guards. exists u, p. cbn [config hostname].
  rewrite H1', H2', H3'. split_and!; try done; lia.
Qed.

Definition sampleReader : Reader :=
  {| config := {| URL_ := "ldaps://dc.example"; BaseDN := "dc=example"; BindDN := "cn=svc";
                  BindPassword := "p"; Roots := None; Timeout := 8 * Second; Observer := true |};
     address := "dc.example:636"; hostname := "dc.example" |}.
Definition sampleEntry : entry := {| EntryDN := "cn=alice"; Attributes := {[ "sAMAccountName" := ["alice"] ]} |}.
Definition sampleNetwork : network :=
  {| dial a c := a == "dc.example:636"; dialCtx := None; deadline := 8 * Second; bind dn p := p == "p"; bindCtx := None;
     search q := if Filter q == userFilter (fun s => s) "alice" then Some ([sampleEntry], 1) else Some ([], 0);
     searchCtx := None |}.

Lemma GetUser_one_entry_witness : exists e referrals,
  search sampleNetwork (request (fun s => s) sampleReader "alice") = Some ([e], referrals).
Proof.
  destruct (GetUser_one_entry (fun s => s) sampleReader true " alice " 5 sampleNetwork
    (connected sampleReader sampleNetwork
       [Bind "cn=svc" "p"; SearchFor (userSearch (fun s => s) sampleReader "alice")] ++
     [Observe {| Outcome := "success"; Stage := "result"; LookupDuration := 5 |}])
    (Ok {| Username := "alice"; DisplayName := "alice"; DN := "cn=alice"; Mail := "" |}))
    as (_ & _ & _ & _ & _ & _ & _ & _ & _ & e & referrals & Hs & _); [vm_compute; reflexivity|].
  exists e, referrals. exact Hs.
Defined.

Lemma New_requires_ldaps_witness : hostname sampleReader <> "".
Proof.
  destruct (New_requires_ldaps (fun _ => true)
    {| URL_ := "ldaps://dc.example"; BaseDN := "dc=example"; BindDN := "cn=svc";
       BindPassword := "p"; Roots := None; Timeout := 0; Observer := true |} sampleReader)
    as (u & p & _ & _ & _ & _ & _ & Hh & _); [vm_compute; reflexivity|exact Hh].
Defined.

End ReaderProperties.
