(* ===== verification/Metrics.v ===== *)
(** * HTTP and directory metrics ([web/metrics/metrics.go], [web/metrics/auth.go])

    Counters and histograms by bounded labels, their Prometheus text exposition,
    and bearer protection.  Durations in seconds are IEEE binary64 numbers,
    computed and printed as Go does. *)

From S2P Require Import Prelude GoTime GoStrings GoFloat Sha256 GoHttp Problem Ids Middleware LdapReader.
From Stdlib Require Import SpecFloat.
From stdpp Require Import pretty.

#[local] Open Scope Z_scope.

Module Metrics.
Import Http Float64 Reader_.

(** ** Registry *)

(** The upper bounds, as the nearest binary64 numbers. *)
Definition buckets : list spec_float :=
  Eval vm_compute in map (fun ms => div (ofInt ms) (ofInt 1000))
    [5; 10; 25; 50; 100; 250; 500; 1000; 2500; 5000; 10000].

(** [key] (method, route, status) and [directoryKey] (outcome, stage). *)
Abbreviation key := (string * string * Z)%type (only parsing).
Abbreviation directoryKey := (string * string)%type (only parsing).

Record observation := { count : Z; sum : spec_float; bucketCounts : list Z }.

(** The zero value a map read of a new label gives. *)
Definition zeroObservation : observation :=
  {| count := 0; sum := zero; bucketCounts := map (fun _ => 0) buckets |}.

(** [frameworkpg.Stats]. *)
Record Stats := {
  AcquiredConnections : Z; ConstructingConnections : Z; IdleConnections : Z; MaxConnections : Z;
  TotalConnections : Z; AcquireCount : Z; CanceledAcquireCount : Z; EmptyAcquireCount : Z;
  NewConnectionsCount : Z; AcquireDuration : Duration
}.

(** What the accessors of [pgxpool.Stat] give, and [Pool.Stats]. *)
Record poolStat := {
  AcquiredConns : Z; ConstructingConns : Z; IdleConns : Z; MaxConns : Z; TotalConns : Z;
  stAcquireCount : Z; stCanceledAcquireCount : Z; stEmptyAcquireCount : Z; NewConnsCount : Z;
  stAcquireDuration : Duration
}.

Definition Stats_ (stat : poolStat) : Stats :=
  {| AcquiredConnections := AcquiredConns stat; ConstructingConnections := ConstructingConns stat;
     IdleConnections := IdleConns stat; MaxConnections := MaxConns stat; TotalConnections := TotalConns stat;
     AcquireCount := stAcquireCount stat; CanceledAcquireCount := stCanceledAcquireCount stat;
     EmptyAcquireCount := stEmptyAcquireCount stat; NewConnectionsCount := NewConnsCount stat;
     AcquireDuration := stAcquireDuration stat |}.

(** [postgres] is a Go interface: nil, or holding a [*Pool], itself nil or the
    address of a pool. *)
Record Registry := {
  data : gmap key observation; directory : gmap directoryKey observation; postgres : option (option positive)
}.

Definition New : Registry := {| data := ∅; directory := ∅; postgres := None |}.

Definition RegisterPostgresPool (registry : Registry) (pool : option positive) : Registry :=
  {| data := data registry; directory := directory registry; postgres := Some pool |}.

(** One observation: [uint64] counters wrap. *)
Definition record (item : observation) (seconds : spec_float) : observation :=
  {| count := wrapU64 (count item + 1);
     sum := add (sum item) seconds;
     bucketCounts := zip_with (fun upper n => if leb seconds upper then wrapU64 (n + 1) else n)
       buckets (bucketCounts item) |}.

Definition observe (registry : Registry) (label : key) (seconds : spec_float) : Registry :=
  {| data := <[label := record (default zeroObservation (data registry !! label)) seconds]> (data registry);
     directory := directory registry; postgres := postgres registry |}.

Definition boundedLDAPStage (stage : string) : string :=
  if bool_decide (stage ∈ [StageValidation; StageConnect; StageBind; StageSearch; StageResult])
  then stage else StageResult.

Definition boundedLDAPOutcome (outcome : string) : string :=
  if bool_decide (outcome ∈ [OutcomeSuccess; OutcomeNotFound; OutcomeAmbiguous; OutcomeCanceled;
                             OutcomeTimeout; OutcomeUnavailable; OutcomeInvalidInput])
  then outcome else OutcomeUnavailable.

Definition ObserveLDAPLookup (registry : Registry) (item : LookupObservation) : Registry :=
  let label := (boundedLDAPOutcome (Outcome item), boundedLDAPStage (Stage item)) in
  let seconds := Seconds (LookupDuration item) in
  let seconds := if ltb seconds zero then zero else seconds in
  {| data := data registry;
     directory := <[label := record (default zeroObservation (directory registry !! label)) seconds]>
       (directory registry); postgres := postgres registry |}.

Definition methodLabel (method : string) : string :=
  if bool_decide (method ∈ ["GET"; "HEAD"; "POST"; "PUT"; "PATCH"; "DELETE"; "OPTIONS"; "CONNECT"; "TRACE"])
  then method else "OTHER".

(** [Middleware]: [elapsed] is the time the request took. *)
Definition Middleware_ {L} (elapsed : Duration) (next : Handler L)
    (r : Request) (s : World L) (registry : Registry) : World L * Registry * ending :=
  let '(s, e) := next r (onWriter pushTracker s) in
  match e with
  | Panics => (onWriter popTracker s, registry, Panics)
  | Returns =>
      let status := topTracker (writer s) in
      let status := if status =? 0 then 200 else status in
      let route := if Pattern r s == "" then "unmatched" else Pattern r s in
      (onWriter popTracker s, observe registry (methodLabel (rMethod r), route, status) (Seconds elapsed), Returns)
  end.

(** ** Exposition *)

Definition dq : ascii := ascii_of_N 34.
Definition nl : ascii := ascii_of_N 10.

(** [strings.ReplaceAll(s, old, new)] for a one-byte [old]. *)
Definition replaceAll (old : ascii) (new : list ascii) (l : list ascii) : list ascii :=
  flat_map (fun c => if c == old then new else [c]) l.

Definition quote (value : string) : string :=
  let l := replaceAll "\" ["\"%char; "\"%char] (chars value) in
  let l := replaceAll nl ["\"%char; "n"%char] l in
  let l := replaceAll dq ["\"%char; dq] l in
  of_chars (dq :: l ++ [dq]).

(** [key.text]; the [%q] of a number is the number in quotes. *)
Definition text (label : key) : string :=
  let '(method, route, status) := label in
  "{method=" +:+ quote method +:+ ",route=" +:+ quote route +:+ ",status=" +:+ quote (pretty status) +:+ "}".

(** [strings.TrimSuffix] of a one-byte suffix. *)
Definition trimLast (s : string) (c : ascii) : string :=
  match rev (chars s) with
  | d :: rest => if d == c then of_chars (rev rest) else s
  | [] => s
  end.

Definition textWithBucket (label : key) (bucket : string) : string :=
  trimLast (text label) "}" +:+ ",le=" +:+ quote bucket +:+ "}".

(** The order of [sort.Slice] on labels. *)
Definition key_leb (a b : key) : bool :=
  let '(m1, r1, s1) := a in
  let '(m2, r2, s2) := b in
  if m1 != m2 then String.leb m1 m2 else if r1 != r2 then String.leb r1 r2 else s1 <=? s2.
Definition directoryKey_leb (a b : directoryKey) : bool :=
  if fst a != fst b then String.leb (fst a) (fst b) else String.leb (snd a) (snd b).

#[export] Instance key_leb_dec : RelDecision (fun a b : key => key_leb a b = true).
Proof. intros a b. apply _. Defined.
#[export] Instance directoryKey_leb_dec : RelDecision (fun a b : directoryKey => directoryKey_leb a b = true).
Proof. intros a b. apply _. Defined.

(** The histogram of one label: its buckets, then the infinite one, the sum and
    the count. *)
Definition histogram (name : string) (withBucket : string -> string) (labels : string) (item : observation)
    : list string :=
  zip_with (fun upper n => name +:+ "_bucket" +:+ withBucket (FormatFloat upper) +:+ " " +:+ pretty n)
    buckets (bucketCounts item) ++
  [name +:+ "_bucket" +:+ withBucket "+Inf" +:+ " " +:+ pretty (count item);
   name +:+ "_sum" +:+ labels +:+ " " +:+ FormatFloat (sum item);
   name +:+ "_count" +:+ labels +:+ " " +:+ pretty (count item)].

Definition header (name help kind : string) : list string :=
  ["# HELP " +:+ name +:+ " " +:+ help; "# TYPE " +:+ name +:+ " " +:+ kind].

Definition httpLines (registry : Registry) : list string :=
  let labels := merge_sort (fun a b : key => key_leb a b = true) (map fst (map_to_list (data registry))) in
  let item label := default zeroObservation (data registry !! label) in
  header "swf_http_requests_total" "Completed HTTP requests." "counter" ++
  map (fun label => "swf_http_requests_total" +:+ text label +:+ " " +:+ pretty (count (item label))) labels ++
  header "swf_http_request_duration_seconds" "HTTP request duration in seconds." "histogram" ++
  flat_map (fun label =>
    histogram "swf_http_request_duration_seconds" (textWithBucket label) (text label) (item label)) labels.

Definition directoryText (label : directoryKey) : string :=
  "outcome=" +:+ quote (fst label) +:+ ",stage=" +:+ quote (snd label).

Definition directoryLines (registry : Registry) : list string :=
  let labels := merge_sort (fun a b : directoryKey => directoryKey_leb a b = true)
    (map fst (map_to_list (directory registry))) in
  let item label := default zeroObservation (directory registry !! label) in
  header "swf_directory_lookups_total" "Completed directory user lookups." "counter" ++
  map (fun label => "swf_directory_lookups_total{" +:+ directoryText label +:+ "} " +:+
    pretty (count (item label))) labels ++
  header "swf_directory_lookup_duration_seconds" "Directory user lookup duration in seconds." "histogram" ++
  flat_map (fun label =>
    histogram "swf_directory_lookup_duration_seconds"
      (fun bucket => "{" +:+ directoryText label +:+ ",le=" +:+ quote bucket +:+ "}")
      ("{" +:+ directoryText label +:+ "}") (item label)) labels.

(** [writePostgresMetrics]. *)
Definition postgresLines (stats : Stats) : list string :=
  header "swf_postgres_connections" "Current PostgreSQL pool connections by bounded state." "gauge" ++
  map (fun sv => "swf_postgres_connections{state=" +:+ quote (fst sv) +:+ "} " +:+ pretty (snd sv))
    [("acquired", AcquiredConnections stats); ("constructing", ConstructingConnections stats);
     ("idle", IdleConnections stats); ("max", MaxConnections stats); ("total", TotalConnections stats)] ++
  flat_map (fun nhv => header (fst (fst nhv)) (snd (fst nhv)) "counter" ++
                       [fst (fst nhv) +:+ " " +:+ pretty (snd nhv)])
    [("swf_postgres_acquires_total", "Cumulative successful PostgreSQL pool acquires.", AcquireCount stats);
     ("swf_postgres_acquire_canceled_total", "Cumulative canceled PostgreSQL pool acquires.",
        CanceledAcquireCount stats);
     ("swf_postgres_acquire_empty_total", "Cumulative PostgreSQL acquires that waited for a connection.",
        EmptyAcquireCount stats);
     ("swf_postgres_connections_created_total", "Cumulative PostgreSQL connections created by the pool.",
        NewConnectionsCount stats)] ++
  header "swf_postgres_acquire_duration_seconds_total"
    "Cumulative time waiting to acquire PostgreSQL connections." "counter" ++
  ["swf_postgres_acquire_duration_seconds_total " +:+ FormatFloat (Seconds (AcquireDuration stats))].

(** The snapshot of the registered pool: a nil [*Pool] panics when its statistics
    are read, as may a live one ([PoolStat] gives [None]); both are recovered. *)
Definition postgresSnapshot (PoolStat : positive -> option poolStat) (registry : Registry) : option Stats :=
  match postgres registry with
  | None => None
  | Some None => None
  | Some (Some pool) => Stats_ <$> PoolStat pool
  end.

(** [Handler]: the lines of the response. *)
Definition expose (PoolStat : positive -> option poolStat) (registry : Registry) : list string :=
  httpLines registry ++ directoryLines registry ++
  match postgresSnapshot PoolStat registry with Some stats => postgresLines stats | None => [] end.

(** The whole response. *)
Definition Handler_ {L} (PoolStat : positive -> option poolStat) (registry : Registry) : Handler L := fun _ s =>
  let s := onWriter (onHeader (hSet "Content-Type" "text/plain; version=0.0.4; charset=utf-8")) s in
  let s := onWriter (onHeader (hSet "Cache-Control" "no-store")) s in
  (onWriter (performAll (map (fun line => AWrite ((bytes_of line ++ [byte_of 10])))
     (expose PoolStat registry))) s, Returns).

(** ** Bearer protection *)

Definition minBearerTokenBytes : Z := 32.
Definition maxBearerTokenBytes : Z := 512.

Definition validBearerToken (token : string) : bool :=
  if (len token <? minBearerTokenBytes) || (maxBearerTokenBytes <? len token) then false
  else forallb (fun value => GoStrings.between 0x21 0x7e (bval value)) (bytes_of token).

Inductive bearer_error := HandlerRequired | InvalidBearerToken.

(** [http.Error(w, "unauthorized", 401)]. *)
Definition unauthorized (w : Writer) : Writer :=
  let w := onHeader (hDel "Content-Length") w in
  let w := onHeader (hSet "Content-Type" "text/plain; charset=utf-8") w in
  let w := onHeader (hSet "X-Content-Type-Options" "nosniff") w in
  Write ((bytes_of "unauthorized" ++ [byte_of 10])) (WriteHeader 401 w).

Definition ProtectBearer {L} (next : option (Handler L)) (token : string)
    : result bearer_error (Handler L) :=
  match next with
  | None => Err HandlerRequired
  | Some next =>
      if negb (validBearerToken token) then Err InvalidBearerToken
      else
        let expected := Sha256.Sum256 (bytes_of token) in
        Ok (fun r s =>
          let s := onWriter (onHeader (hSet "Cache-Control" "no-store")) s in
          let '(provided, ok) := CutPrefix (hGet (rHeader r) "Authorization") "Bearer " in
          let actual := Sha256.Sum256 (bytes_of provided) in
          if negb ok || negb (validBearerToken provided) || (actual != expected) then
            let s := onWriter (onHeader (hSet "WWW-Authenticate"
              ("Bearer realm=" +:+ of_chars [dq] +:+ "metrics" +:+ of_chars [dq]))) s in
            (onWriter unauthorized s, Returns)
          else next r s)
  end.

End Metrics.

(** ** Facts *)

Module MetricsCorrect.
Import Http Float64 Metrics.

(** *** Floats *)

(** An observation within one bound is within every larger bound. *)
Lemma leb_bounds f mu eu mv ev :
  SFleb f (S754_finite false mu eu) = true ->
  SFleb (S754_finite false mu eu) (S754_finite false mv ev) = true ->
  SFleb f (S754_finite false mv ev) = true.
Proof.
  unfold SFleb, SFcompare. destruct f as [s|s| |s m e]; [done|by destruct s|done|].
  destruct s; [done|].
  change (PosDef.Pos.compare_cont Eq m mu) with (m ?= mu)%positive.
  change (PosDef.Pos.compare_cont Eq mu mv) with (mu ?= mv)%positive.
  change (PosDef.Pos.compare_cont Eq m mv) with (m ?= mv)%positive. intros H1 H2.
  destruct (Z.compare_spec e eu) as [E1|E1|E1], (Z.compare_spec eu ev) as [E2|E2|E2],
    (Z.compare_spec e ev) as [E3|E3|E3]; try discriminate; try done; try lia.
  destruct (Pos.compare_spec m mu), (Pos.compare_spec mu mv), (Pos.compare_spec m mv);
    try discriminate; try done; lia.
Qed.

Definition positive_finite (f : spec_float) : bool := match f with S754_finite false _ _ => true | _ => false end.

Lemma leb_step f u v : positive_finite u = true -> positive_finite v = true -> leb u v = true ->
  leb f u = true -> leb f v = true.
Proof.
  destruct u as [| | |[] mu eu], v as [| | |[] mv ev]; try done. intros _ _ Huv Hfu.
  by eapply leb_bounds.
Qed.

(** *** Histograms *)

Definition recordAll (item : observation) (secs : list spec_float) : observation := fold_left record secs item.

Definition within (u : spec_float) (secs : list spec_float) : Z :=
  Z.of_nat (length (filter (fun s => leb s u = true) secs)).

Lemma wrapU64_succ a : wrapU64 (wrapU64 a + 1) = wrapU64 (a + 1).
Proof. unfold wrapU64. by rewrite Zplus_mod_idemp_l. Qed.

Lemma recordAll_count secs : forall item, count item = wrapU64 (count item) ->
  count (recordAll item secs) = wrapU64 (count item + Z.of_nat (length secs)).
Proof.
  induction secs as [|s secs IH]; intros item Hw; simpl; [by rewrite Z.add_0_r|].
  rewrite IH.
  - cbn [record count]. unfold wrapU64. rewrite Zplus_mod_idemp_l. f_equal. lia.
  - cbn [record count]. unfold wrapU64. by rewrite Z.mod_mod.
Qed.

Lemma recordAll_buckets secs : forall item, length (bucketCounts item) = length buckets ->
  bucketCounts (recordAll item secs) =
  fold_left (fun counts s => zip_with (fun u n => if leb s u then wrapU64 (n + 1) else n) buckets counts)
    secs (bucketCounts item).
Proof. induction secs as [|s secs IH]; intros item Hl; simpl; [done|]. apply IH. cbn [record bucketCounts].
  rewrite length_zip_with. lia.
Qed.

Lemma fold_counts (us : list spec_float) secs : forall counts pre,
  counts = map (fun u => wrapU64 (within u pre)) us ->
  fold_left (fun counts s => zip_with (fun u n => if leb s u then wrapU64 (n + 1) else n) us counts)
    secs counts = map (fun u => wrapU64 (within u (pre ++ secs))) us.
Proof.
  induction secs as [|s secs IH]; intros counts pre ->; simpl; [by rewrite app_nil_r|].
  rewrite (IH _ (pre ++ [s])); [by rewrite <- app_assoc|].
  clear IH. induction us as [|u us IHu]; [done|]. simpl. f_equal; [|exact IHu].
  unfold within. rewrite filter_app, length_app, filter_cons, filter_nil.
  destruct (leb s u) eqn:E; case_decide; try congruence; simpl.
  - rewrite wrapU64_succ. f_equal. lia.
  - f_equal. lia.
Qed.

Lemma recordAll_exact secs :
  count (recordAll zeroObservation secs) = wrapU64 (Z.of_nat (length secs)) /\
  bucketCounts (recordAll zeroObservation secs) = map (fun u => wrapU64 (within u secs)) buckets.
Proof.
  split; [by rewrite recordAll_count|].
  rewrite recordAll_buckets by done. apply (fold_counts buckets secs _ []). reflexivity.
Qed.

(** The observations of one label, in order. *)
Definition observed (label : string * string * Z) (os : list (string * string * Z * spec_float)) : list spec_float :=
  map snd (filter (fun o => fst o = label) os).

Lemma observe_all os : forall registry label,
  data (fold_left (fun reg o => observe reg (fst o) (snd o)) os registry) !! label =
  match observed label os with
  | [] => data registry !! label
  | secs => Some (recordAll (default zeroObservation (data registry !! label)) secs)
  end.
Proof.
  induction os as [|[k s] os IH]; intros registry label; [done|]. cbn [fold_left fst snd].
  rewrite IH. unfold observed. rewrite filter_cons. cbn [fst].
  destruct (decide (k = label)) as [->|Hne]; cbn [observe data map snd].
  - rewrite lookup_insert_eq. simpl. by destruct (map snd _).
  - rewrite lookup_insert_ne by done. done.
Qed.

Lemma within_le u v secs : (forall f, leb f u = true -> leb f v = true) -> within u secs <= within v secs.
Proof.
  intros Huv. unfold within. induction secs as [|s secs IH]; [done|]. rewrite !filter_cons.
  repeat case_decide; simpl; try lia. exfalso. auto.
Qed.

Lemma within_all u secs : 0 <= within u secs <= Z.of_nat (length secs).
Proof. unfold within. pose proof (length_filter (fun s => leb s u = true) secs). lia. Qed.

(** *** Labels *)

Definition escapeLabel (c : ascii) : list ascii :=
  if c == "\"%char then ["\"%char; "\"%char]
  else if c == nl then ["\"%char; "n"%char]
  else if c == dq then ["\"%char; dq]
  else [c].

(** What a reader of the exposition makes of a quoted value. *)
Fixpoint readRest (l : list ascii) : option (list ascii * list ascii) :=
  match l with
  | [] => None
  | c :: l =>
      if c == dq then Some ([], l)
      else if c == "\"%char then
        match l with
        | d :: l =>
            vr ← readRest l;
            if d == "\"%char then Some ("\"%char :: fst vr, snd vr)
            else if d == "n"%char then Some (nl :: fst vr, snd vr)
            else if d == dq then Some (dq :: fst vr, snd vr)
            else None
        | [] => None
        end
      else vr ← readRest l; Some (c :: fst vr, snd vr)
  end.

Definition readQuoted (l : list ascii) : option (list ascii * list ascii) :=
  match l with c :: l => if c == dq then readRest l else None | [] => None end.

(** The three replacements in sequence escape each byte on its own. *)
Lemma quote_escape value : chars (quote value) = dq :: flat_map escapeLabel (chars value) ++ [dq].
Proof.
  unfold quote. rewrite chars_of_chars. f_equal. f_equal. unfold replaceAll.
  induction (chars value) as [|c l IH]; [done|]. cbn [flat_map].
  rewrite !flat_map_app, IH. f_equal. unfold escapeLabel.
  destruct (decide (c = "\"%char)) as [->|]; [reflexivity|].
  rewrite !(bool_decide_false (c = "\"%char)) by done. cbn [flat_map app].
  destruct (decide (c = nl)) as [->|]; [reflexivity|].
  rewrite !(bool_decide_false (c = nl)) by done. cbn [flat_map app].
  by destruct (bool_decide (c = dq)).
Qed.

Lemma readRest_escape l rest : readRest (flat_map escapeLabel l ++ dq :: rest) = Some (l, rest).
Proof.
  induction l as [|c l IH]; [reflexivity|]. cbn [flat_map]. unfold escapeLabel at 1.
  destruct (decide (c = "\"%char)) as [->|H1].
  { rewrite bool_decide_true by done. cbn [app readRest]. by rewrite IH. }
  rewrite bool_decide_false by done. destruct (decide (c = nl)) as [->|H2].
  { rewrite bool_decide_true by done. cbn [app readRest]. by rewrite IH. }
  rewrite bool_decide_false by done. destruct (decide (c = dq)) as [->|H3].
  { rewrite bool_decide_true by done. cbn [app readRest]. by rewrite IH. }
  rewrite bool_decide_false by done. cbn [app readRest].
  rewrite (bool_decide_false (c = dq)), (bool_decide_false (c = "\"%char)) by done. by rewrite IH.
Qed.

Lemma readQuoted_quote value rest : readQuoted (chars (quote value) ++ rest) = Some (chars value, rest).
Proof.
  rewrite quote_escape. cbn [app readQuoted]. rewrite bool_decide_true by done.
  rewrite <- app_assoc. apply readRest_escape.
Qed.

Lemma quote_one_line value : nl ∉ chars (quote value).
Proof.
  rewrite quote_escape. rewrite not_elem_of_cons, not_elem_of_app, list_elem_of_singleton.
  split; [done|]. split; [|done]. intros (c & _ & Hc)%list_elem_of_In%in_flat_map.
  apply list_elem_of_In in Hc. unfold escapeLabel in Hc. repeat case_match; split_guards; set_solver.
Qed.

Lemma quote_app_inj a b s t : chars (quote a) ++ s = chars (quote b) ++ t -> a = b /\ s = t.
Proof.
  intros He. apply (f_equal readQuoted) in He. rewrite !readQuoted_quote in He.
  injection He as H1 H2. split; [by apply chars_inj|done].
Qed.

(** *** Lines *)

Definition oneLine (s : string) : Prop := nl ∉ chars s.

Lemma oneLine_app s t : oneLine s -> oneLine t -> oneLine (s +:+ t).
Proof. unfold oneLine. rewrite chars_app, not_elem_of_app. done. Qed.

Lemma oneLine_quote v : oneLine (quote v).
Proof. apply quote_one_line. Qed.

Lemma oneLine_pretty_N_go x : forall s, oneLine s -> oneLine (pretty_N_go x s).
Proof.
  induction (N.lt_wf_0 x) as [x _ IH]; intros s Hs.
  destruct (decide (0 < x)%N) as [Hx|Hx]; [|by replace x with 0%N by lia].
  rewrite pretty_N_go_step by done. apply IH; [by apply N.div_lt|].
  unfold oneLine. simpl. rewrite not_elem_of_cons. split; [|done].
  unfold pretty_N_char. repeat case_match; discriminate.
Qed.

Lemma oneLine_pretty (z : Z) : oneLine (pretty z).
Proof.
  assert (Hn : forall n : N, oneLine (pretty n)).
  { intros n. unfold pretty, pretty_N. case_decide; [by apply (bool_decide_eq_true_1 _)|].
    apply oneLine_pretty_N_go. by apply (bool_decide_eq_true_1 _). }
  destruct z as [|p|p]; [by apply (bool_decide_eq_true_1 _)|apply Hn|].
  apply (oneLine_app "-"); [by apply (bool_decide_eq_true_1 _)|apply Hn].
Qed.

Lemma oneLine_lit (s : string) : bool_decide (oneLine s) = true -> oneLine s.
Proof. apply bool_decide_eq_true_1. Qed.

Create HintDb lines discriminated.
#[local] Hint Resolve oneLine_quote oneLine_pretty : lines.

Lemma oneLine_FormatFloat f : oneLine (FormatFloat f).
Proof.
  destruct f as [[]|[]| |s m e]; try by apply (bool_decide_eq_true_1 _).
  cbn [FormatFloat]. apply oneLine_app; [by destruct s; apply (bool_decide_eq_true_1 _)|].
  destruct (FloatText.shortest m e) as [[d k]|]; [|by apply (bool_decide_eq_true_1 _)]. unfold FloatText.fixedPoint.
  case_match; [apply oneLine_pretty|]. apply oneLine_app; [apply oneLine_pretty|].
  apply (oneLine_app "."); [by apply (bool_decide_eq_true_1 _)|]. unfold oneLine. rewrite chars_of_chars.
  match goal with |- _ ∉ tail (chars (pretty ?z)) => pose proof (oneLine_pretty z) as Hp end. unfold oneLine in Hp.
  destruct (chars _); [done|]. by apply not_elem_of_cons in Hp as [_ Hp].
Qed.
#[local] Hint Resolve oneLine_FormatFloat : lines.

(** A concatenation is one line if its parts are; literals are evaluated. *)
Ltac one_line :=
  lazymatch goal with
  | |- oneLine (_ +:+ _) => apply oneLine_app; one_line
  | |- oneLine _ => first [solve [auto with lines] | apply oneLine_lit; vm_compute; reflexivity]
  end.

(** The label without its closing brace. *)
Definition openText (label : string * string * Z) : string :=
  "{method=" +:+ quote (fst (fst label)) +:+ ",route=" +:+ quote (snd (fst label)) +:+
  ",status=" +:+ quote (pretty (snd label)).

Lemma text_open label : chars (text label) = chars (openText label) ++ ["}"%char].
Proof. destruct label as [[m r] st]. unfold text, openText. rewrite !chars_app, <- !app_assoc. reflexivity. Qed.

Lemma textWithBucket_open label bucket :
  chars (textWithBucket label bucket) = chars (openText label) ++ chars (",le=" +:+ quote bucket +:+ "}").
Proof.
  unfold textWithBucket, trimLast. rewrite text_open, rev_app_distr. cbn [rev app].
  rewrite bool_decide_true by done. rewrite rev_involutive, chars_app, chars_of_chars. reflexivity.
Qed.

(** What follows a label determines nothing of it. *)
Lemma openText_app_inj l1 l2 s t :
  chars (openText l1) ++ s = chars (openText l2) ++ t -> l1 = l2 /\ s = t.
Proof.
  destruct l1 as [[m1 r1] s1], l2 as [[m2 r2] s2]. unfold openText. cbn [fst snd].
  rewrite !chars_app, <- !app_assoc. intros He.
  apply app_inv_head in He. apply quote_app_inj in He as [-> He].
  apply app_inv_head in He. apply quote_app_inj in He as [-> He].
  apply app_inv_head in He. apply quote_app_inj in He as [Hs ->].
  split; [by apply (inj pretty) in Hs as ->|done].
Qed.

Lemma oneLine_open label : oneLine (openText label).
Proof. unfold openText. one_line. Qed.

Lemma oneLine_text label : oneLine (text label).
Proof.
  unfold oneLine. rewrite text_open, not_elem_of_app. split; [apply oneLine_open|].
  by apply (bool_decide_eq_true_1 _).
Qed.

Lemma oneLine_textWithBucket label bucket : oneLine (textWithBucket label bucket).
Proof.
  unfold oneLine. rewrite textWithBucket_open, not_elem_of_app. split; [apply oneLine_open|].
  apply oneLine_app; one_line.
Qed.
#[local] Hint Resolve oneLine_text oneLine_textWithBucket : lines.

Section lines.

Lemma oneLine_histogram name withBucket labels item :
  oneLine name -> oneLine labels -> (forall b, oneLine (withBucket b)) ->
  Forall oneLine (histogram name withBucket labels item).
Proof.
  intros Hn Hl Hb. unfold histogram. apply Forall_app. split; [|repeat constructor; one_line].
  apply Forall_zip_with_snd with (P := fun _ => True); [|by apply Forall_true].
  apply Forall_forall. intros upper _ n _. one_line.
Qed.

Lemma oneLine_header name help kind : oneLine name -> oneLine help -> oneLine kind ->
  Forall oneLine (header name help kind).
Proof. intros. unfold header. repeat constructor; one_line. Qed.

Lemma oneLine_directoryText label : oneLine (directoryText label).
Proof. unfold directoryText. one_line. Qed.
#[local] Hint Resolve oneLine_directoryText : lines.

Lemma oneLine_map {A} (f : A -> string) l : (forall x, oneLine (f x)) -> Forall oneLine (map f l).
Proof. intros Hf. apply Forall_map, Forall_forall. intros x _. apply Hf. Qed.

Lemma oneLine_flat_map {A} (f : A -> list string) l : (forall x, Forall oneLine (f x)) ->
  Forall oneLine (flat_map f l).
Proof. intros Hf. apply Forall_flat_map, Forall_forall. intros x _. apply Hf. Qed.

Lemma oneLine_http registry : Forall oneLine (httpLines registry).
Proof.
  unfold httpLines. repeat (apply Forall_app; split); try (apply oneLine_header; one_line).
  - apply oneLine_map. intros label. one_line.
  - apply oneLine_flat_map. intros label. apply oneLine_histogram; [one_line|one_line|intros b; one_line].
Qed.

Lemma oneLine_directory registry : Forall oneLine (directoryLines registry).
Proof.
  unfold directoryLines. repeat (apply Forall_app; split); try (apply oneLine_header; one_line).
  - apply oneLine_map. intros label. one_line.
  - apply oneLine_flat_map. intros label. apply oneLine_histogram; [one_line|one_line|intros b; one_line].
Qed.

Lemma oneLine_postgres stats : Forall oneLine (postgresLines stats).
Proof.
  unfold postgresLines. cbn [map flat_map app fst snd header]. repeat constructor; one_line.
Qed.

Lemma oneLine_expose PoolStat registry : Forall oneLine (expose PoolStat registry).
Proof.
  unfold expose. apply Forall_app. split; [apply oneLine_http|].
  apply Forall_app. split; [apply oneLine_directory|].
  destruct (postgresSnapshot PoolStat registry); [apply oneLine_postgres|constructor].
Qed.
End lines.

(** *** Requests *)

(** The chain serves a copy of the request once there is a request ID: the
    router's match never reaches the outer request object. *)
Lemma Chain_pattern random route serve r (s : World logEntry) :
  MiddlewareCorrect.chainID random r <> "" ->
  exists s', Middleware.Chain random (mux route serve) r s = (s', Returns) /\ Pattern r s' = Pattern r s.
Proof.
  intros Hid. unfold Middleware.Chain, Middleware.requestID. fold (MiddlewareCorrect.chainID random r).
  rewrite bool_decide_false by done. cbn [negb]. unfold WithRequestID.
  pose proof (is_fresh (dom (patterns s) ∪ {[ rObject r ]})) as Hf. cbn.
  set (o := fresh _) in *. assert (o <> rObject r) by set_solver.
  unfold Middleware.securityHeaders, Middleware.accessLog, Middleware.recoverer, mux.
  destruct (serve _) as [acts e]. unfold Pattern. cbn.
  destruct e, (rTLS r); cbn; (eexists; split; [reflexivity|]); cbn; by rewrite !lookup_insert_ne.
Qed.

Lemma recordAll_sum secs : forall item, sum (recordAll item secs) = fold_left add secs (sum item).
Proof. induction secs as [|s secs IH]; intros item; [done|]. apply IH. Qed.

Lemma wrapU64_small z : 0 <= z < 2 ^ 64 -> wrapU64 z = z.
Proof. apply Z.mod_small. Qed.

(** As long as no counter wrapped, the buckets are cumulative. *)
Lemma buckets_sorted secs : Z.of_nat (length secs) < 2 ^ 64 ->
  Sorted Z.le (map (fun u => wrapU64 (within u secs)) buckets ++ [wrapU64 (Z.of_nat (length secs))]).
Proof.
  intros Hn. assert (Hw : forall u, wrapU64 (within u secs) = within u secs).
  { intros u. pose proof (within_all u secs). apply wrapU64_small. lia. }
  rewrite (wrapU64_small (Z.of_nat _)) by lia.
  rewrite (map_ext _ (fun u => within u secs)) by (intros; apply Hw).
  unfold buckets. cbn [map app].
  repeat first [apply Sorted_cons | apply Sorted_nil | apply HdRel_nil | apply HdRel_cons];
    first [apply within_all | apply within_le; intros f; apply leb_step; reflexivity].
Qed.

(** *** Bearer tokens *)

Lemma validBearerToken_spec token : validBearerToken token = true ->
  32 <= len token <= 512 /\ Forall (fun b => 0x21 <= bval b <= 0x7e) (bytes_of token).
Proof.
  unfold validBearerToken, minBearerTokenBytes, maxBearerTokenBytes. case_match; [done|]. split_guards.
  intros Hall. split; [lia|]. apply Forall_forall. intros b Hb.
  rewrite forallb_forall in Hall. apply list_elem_of_In, Hall in Hb. unfold GoStrings.between in Hb. lia.
Qed.

Lemma CutPrefix_app p s : CutPrefix (p +:+ s) p = (s, true).
Proof.
  unfold CutPrefix. rewrite chars_app.
  rewrite (proj2 (stripPrefix_Some (chars p) (chars p ++ chars s) (chars s)) eq_refl). by rewrite of_chars_chars.
Qed.

Lemma CutPrefix_true s p rest : CutPrefix s p = (rest, true) -> s = p +:+ rest.
Proof.
  unfold CutPrefix. destruct (stripPrefix _ _) as [l|] eqn:E; [|done]. intros [= <-].
  apply stripPrefix_Some in E. apply chars_inj. by rewrite E, chars_app, chars_of_chars.
Qed.

Lemma ProtectBearer_inv {L} (next h : Handler L) token : ProtectBearer (Some next) token = Ok h ->
  validBearerToken token = true /\
  h = fun r s =>
        let s := onWriter (onHeader (hSet "Cache-Control" "no-store")) s in
        let '(provided, ok) := CutPrefix (hGet (rHeader r) "Authorization") "Bearer " in
        if negb ok || negb (validBearerToken provided) ||
           (Sha256.Sum256 (bytes_of provided) != Sha256.Sum256 (bytes_of token)) then
          (onWriter unauthorized (onWriter (onHeader (hSet "WWW-Authenticate"
             ("Bearer realm=" +:+ of_chars [dq] +:+ "metrics" +:+ of_chars [dq]))) s), Returns)
        else next r s.
Proof. unfold ProtectBearer. destruct (validBearerToken token); [|done]. cbn [negb]. intros [= <-]. done. Qed.

(** The rejection of a protected handler. *)
Lemma unauthorized_response {L} v (s : World L) : v <> "" ->
  let s2 := onWriter unauthorized (onWriter (onHeader (hSet "WWW-Authenticate" v))
    (onWriter (onHeader (hSet "Cache-Control" "no-store")) s)) in
  body (writer s2) = body (writer s) ++ [(bytes_of "unauthorized" ++ [byte_of 10])] /\
  (committed (writer s) = None ->
   fst (finish (writer s2)) = 401 /\
   hGet (snd (finish (writer s2))) "Cache-Control" = "no-store" /\
   hGet (snd (finish (writer s2))) "Www-Authenticate" <> "").
Proof.
  intros Hv. unfold unauthorized, onWriter, Write, WriteHeader, finish. cbn.
  destruct (committed (writer s)) eqn:E; [split; [done|discriminate]|]. cbn. split; [done|]. intros _.
  split; [done|]. unfold hGet, hSet, hDel.
  split; repeat first [rewrite lookup_insert_eq | rewrite lookup_insert_ne by done
                      | rewrite lookup_delete_ne by done]; done.
Qed.

End MetricsCorrect.

(** ** Properties *)

Module MetricsProperties.
Import Http Float64 Metrics MetricsCorrect.

(** C35.  What the registry reports for a label is exactly what was observed:
    the label appears iff a request was observed under it; its count, its sum (in
    the order of the requests) and each bucket are those of its own observations,
    modulo 2^64 as [uint64] counters are; and below 2^64 observations the buckets
    are cumulative, none above the count. *)
Theorem histogram_exact (os : list (string * string * Z * spec_float)) (label : string * string * Z) :
  let registry := fold_left (fun registry o => observe registry (fst o) (snd o)) os New in
  let secs := observed label os in
  (data registry !! label = None <-> secs = []) /\
  forall item, data registry !! label = Some item ->
    count item = wrapU64 (Z.of_nat (length secs)) /\
    sum item = fold_left add secs zero /\
    bucketCounts item = map (fun upper => wrapU64 (within upper secs)) buckets /\
    (Z.of_nat (length secs) < 2 ^ 64 -> Sorted Z.le (bucketCounts item ++ [count item])).
Proof.
  cbv zeta. rewrite observe_all. cbn [New data]. rewrite lookup_empty.
  destruct (observed label os) as [|s secs]; [naive_solver|]. split; [naive_solver|].
  intros item Hi. apply (inj Some) in Hi as <-. change (default zeroObservation None) with zeroObservation.
  destruct (recordAll_exact (s :: secs)) as [Hc Hb]. rewrite Hc, Hb. split_and!; try done.
  - apply recordAll_sum.
  - apply buckets_sorted.
Qed.

(** The exposition cannot be forged by a label: whatever bytes a route
    contains, every entry of the response is one line, and the text of a label
    (alone or with a bucket) determines the method, route, status and bucket it
    was made from. *)
Theorem exposition_unambiguous (PoolStat : positive -> option poolStat)
    (registry : Registry) :
  Forall (fun line => nl ∉ chars line) (expose PoolStat registry) /\
  (forall l1 l2, text l1 = text l2 -> l1 = l2) /\
  (forall l1 l2 b1 b2, textWithBucket l1 b1 = textWithBucket l2 b2 -> l1 = l2 /\ b1 = b2).
Proof.
  split; [apply oneLine_expose|]. split.
  - intros l1 l2 He%(f_equal chars). rewrite !text_open in He. by apply openText_app_inj in He as [He _].
  - intros l1 l2 b1 b2 He%(f_equal chars). rewrite !textWithBucket_open in He.
    apply openText_app_inj in He as [-> He]. split; [done|]. rewrite !chars_app in He.
    apply app_inv_head in He. by apply quote_app_inj in He as [He _].
Qed.

(** C36.  Metrics are served to the token's holder alone: a protected handler
    exists only for a token of 32 to 512 visible ASCII bytes; the request with
    that token is served; any other request that is served presented a token of
    the same SHA-256 digest, and every remaining one receives 401 with a
    challenge, uncached, and nothing of the protected response. *)
Theorem ProtectBearer_admits_only {L} (next h : Handler L) (token : string) :
  ProtectBearer (Some next) token = Ok h ->
  (32 <= len token <= 512 /\ Forall (fun b => 0x21 <= bval b <= 0x7e) (bytes_of token)) /\
  forall r s, let s1 := onWriter (onHeader (hSet "Cache-Control" "no-store")) s in
    (hGet (rHeader r) "Authorization" = "Bearer " +:+ token -> h r s = next r s1) /\
    ((h r s = next r s1 /\ exists provided, hGet (rHeader r) "Authorization" = "Bearer " +:+ provided /\
        Sha256.Sum256 (bytes_of provided) = Sha256.Sum256 (bytes_of token)) \/
     exists s2, h r s = (s2, Returns) /\ logs s2 = logs s /\
       body (writer s2) = body (writer s) ++ [(bytes_of "unauthorized" ++ [byte_of 10])] /\
       (committed (writer s) = None ->
        fst (finish (writer s2)) = 401 /\
        hGet (snd (finish (writer s2))) "Cache-Control" = "no-store" /\
        hGet (snd (finish (writer s2))) "Www-Authenticate" <> "")).
Proof.
  intros HP. destruct (ProtectBearer_inv _ _ _ HP) as [Hv ->]. split; [by apply validBearerToken_spec|].
  intros r s s1. fold s1. split.
  - intros Ha. rewrite Ha, CutPrefix_app. cbn [negb orb]. rewrite Hv, bool_decide_true by done. done.
  - destruct (CutPrefix _ _) as [provided ok] eqn:Hc. destruct (negb ok || _ || _) eqn:Hg.
    + right. eexists. split; [reflexivity|]. split; [done|]. by apply unauthorized_response.
    + left. split_guards. subst ok. split; [done|]. exists provided. split; [|done].
      by apply CutPrefix_true.
Qed.

(** C37.  What a request is counted under: directly around the router, the
    registry counts it under the pattern the router matched and, without
    informational responses, under the status the client received; around the
    standard chain it counts it under "unmatched" whatever the router matched,
    because the chain hands the router a copy of the request once it has a
    request ID. *)
Theorem Middleware_labels (elapsed : Duration) (random : option (list byte)) (route : Request -> string)
    (serve : Request -> list action * ending) (r : Request) (s : World logEntry)
    (registry : Registry) :
  committed (writer s) = None -> informational (writer s) = [] -> Pattern r s = "" ->
  (forall r', Forall MiddlewareCorrect.wellFormed (fst (serve r'))) ->
  (snd (serve r) = Returns ->
   exists s' status,
     Middleware_ elapsed (mux route serve) r s registry =
       (s', observe registry (methodLabel (rMethod r), MiddlewareCorrect.routeLabel (route r), status)
          (Seconds elapsed), Returns) /\
     (informational (writer s') = [] -> status = fst (finish (writer s')))) /\
  (MiddlewareCorrect.chainID random r <> "" ->
   exists s' status,
     Middleware_ elapsed (Middleware.Chain random (mux route serve)) r s registry =
       (s', observe registry (methodLabel (rMethod r), "unmatched", status) (Seconds elapsed), Returns)).
Proof.
  intros Hc Hi Hp Hwf. split.
  - intros Hr. unfold Middleware_, mux. rewrite Hr. eexists _, _. split.
    + unfold Pattern, setPattern. cbn. rewrite lookup_insert_eq. cbn.
      unfold MiddlewareCorrect.routeLabel. reflexivity.
    + intros Hinf. apply (MiddlewareCorrect.tracked_finish (performAll (fst (serve r)) (pushTracker (writer s))));
        [|exact Hinf]. apply MiddlewareCorrect.tracked_performAll; [apply Hwf|]. by apply MiddlewareCorrect.pushTracker_tracked.
  - intros Hid. unfold Middleware_.
    destruct (Chain_pattern random route serve r (onWriter pushTracker s) Hid) as (s' & -> & HP).
    change (Pattern r (onWriter pushTracker s)) with (Pattern r s) in HP. rewrite HP, Hp.
    eexists _, _. reflexivity.
Qed.

(** *** Evaluations *)

Definition sampleLabel : string * string * Z := ("GET", "GET /users/{id}", 200).
Definition sampleOs : list (string * string * Z * spec_float) :=
  [(sampleLabel, Seconds 7000000); (("GET", "unmatched", 404), Seconds 1); (sampleLabel, Seconds (20 * Second))].

Lemma histogram_exact_witness :
  exists item, data (fold_left (fun registry o => observe registry (fst o) (snd o)) sampleOs New) !! sampleLabel
    = Some item /\ count item = 2 /\ bucketCounts item = [0; 1; 1; 1; 1; 1; 1; 1; 1; 1; 1].
Proof.
  destruct (histogram_exact sampleOs sampleLabel) as [_ Hi]. eexists. split; [vm_compute; reflexivity|].
  destruct (Hi _ ltac:(vm_compute; reflexivity)) as (H1 & _ & H2 & _). rewrite H1, H2.
  split; vm_compute; reflexivity.
Defined.

(** The lines of one request of a twentieth of a second, double quotes as single
    ones. *)
Definition shown (line : string) : string := of_chars (map (fun c => if c == dq then "'"%char else c) (chars line)).

Example exposition_sample :
  map shown (expose (fun _ => None) (observe New ("GET", of_chars [dq; nl; "}"%char], 200) (Seconds (50 * Millisecond)))) !! 7%nat =
    Some "swf_http_request_duration_seconds_bucket{method='GET',route='\'\n}',status='200',le='0.025'} 0" /\
  map shown (expose (fun _ => None) (observe New ("GET", "/", 200) (Seconds (50 * Millisecond)))) !! 17%nat =
    Some "swf_http_request_duration_seconds_sum{method='GET',route='/',status='200'} 0.05".
Proof. vm_compute. done. Qed.

Definition sampleToken : string := of_chars (repeat "t"%char 32).
Definition sampleNext : Handler logEntry := fun _ s => (onWriter (WriteHeader 200) s, Returns).

Lemma sampleToken_valid : validBearerToken sampleToken = true.
Proof. vm_compute. reflexivity. Qed.

Lemma sample_protected : exists h, ProtectBearer (Some sampleNext) sampleToken = Ok h.
Proof. unfold ProtectBearer. rewrite sampleToken_valid. cbn [negb]. eexists. reflexivity. Qed.

Lemma ProtectBearer_admits_only_witness :
  exists h, ProtectBearer (Some sampleNext) sampleToken = Ok h /\ 32 <= len sampleToken <= 512.
Proof.
  destruct sample_protected as [h HP]. exists h. split; [exact HP|].
  exact (proj1 (proj1 (ProtectBearer_admits_only sampleNext h sampleToken HP))).
Defined.

Lemma Middleware_labels_witness :
  exists s' status,
    Middleware_ 5 (Middleware.Chain MiddlewareProperties.sampleRandom
        (mux MiddlewareProperties.sampleRoute MiddlewareProperties.sampleServe))
      MiddlewareProperties.sampleRequest MiddlewareProperties.sampleWorld New =
    (s', observe New ("GET", "unmatched", status) (Seconds 5), Returns).
Proof.
  destruct (Middleware_labels 5 MiddlewareProperties.sampleRandom MiddlewareProperties.sampleRoute
    MiddlewareProperties.sampleServe MiddlewareProperties.sampleRequest MiddlewareProperties.sampleWorld New)
    as [_ HC]; [reflexivity|reflexivity|reflexivity| |].
  - intros r'. repeat constructor; unfold MiddlewareCorrect.validStatus; lia.
  - apply HC. vm_compute. discriminate.
Defined.

(** Unregistering a pool and never having registered one expose the same. *)
Lemma unregister_pool PoolStat registry : postgres registry = None ->
  expose PoolStat (RegisterPostgresPool registry None) = expose PoolStat registry.
Proof. intros Hn. unfold expose, postgresSnapshot. by rewrite Hn. Qed.

End MetricsProperties.
