(* ===== verification/DirectoryMetrics.v ===== *)
(** * Directory lookups under metrics ([directory/ldap/reader.go] with [web/metrics/metrics.go])

    The reader's observer is the registry ([Registry.LDAPObserver]).  A history of
    lookups against any networks leaves counters that say how many lookups ended
    in which outcome, under labels from a fixed set. *)

From S2P Require Import Prelude GoTime GoStrings LdapReader GoHttp Metrics.

Module DirectoryMetrics.
Import Reader_ Metrics.

(** One call of [GetUser]. *)
Record call := {
  cReader : Reader; cContext : bool; cUsername : string; cElapsed : Duration; cNetwork : network
}.

Section lookups.
Variable EscapeFilter : string -> string.

Definition lookup_ (c : call) : list effect * result ldap_error User :=
  GetUser EscapeFilter (cReader c) (cContext c) (cUsername c) (cElapsed c) (cNetwork c).

(** [LDAPObserver]: what the reader tells goes to the registry. *)
Definition LDAPObserver (registry : Registry) (observations : list LookupObservation) : Registry :=
  fold_left ObserveLDAPLookup observations registry.

Definition history (registry : Registry) (calls : list call) : Registry :=
  fold_left (fun registry c => LDAPObserver registry (told (fst (lookup_ c)))) calls registry.
End lookups.

Definition outcomes : list string :=
  [OutcomeSuccess; OutcomeNotFound; OutcomeAmbiguous; OutcomeCanceled; OutcomeTimeout; OutcomeUnavailable;
   OutcomeInvalidInput].
Definition stages : list string := [StageValidation; StageConnect; StageBind; StageSearch; StageResult].

Definition countAt (registry : Registry) (outcome stage : string) : Z :=
  count (default zeroObservation (directory registry !! (outcome, stage))).

(** The lookups counted under an outcome, at any stage. *)
Definition total (registry : Registry) (outcome : string) : Z :=
  foldr (fun stage n => countAt registry outcome stage + n) 0 stages.

(** The lookups that ended so. *)
Definition ended (EscapeFilter : string -> string) (calls : list call) (outcome : string) : Z :=
  Z.of_nat (length (filter (fun c => ReaderProperties.outcomeOf (snd (lookup_ EscapeFilter c)) = outcome) calls)).

End DirectoryMetrics.

Module DirectoryMetricsProperties.
Import Reader_ Metrics DirectoryMetrics.

Lemma outcomeOf_bounded r : ReaderProperties.outcomeOf r ∈ outcomes.
Proof. destruct r as [u|[]]; by apply (bool_decide_eq_true_1 _). Qed.

(** One observation under bounded labels. *)
Lemma observe_counts registry outcome stage elapsed : outcome ∈ outcomes -> stage ∈ stages ->
  let registry' := ObserveLDAPLookup registry {| Outcome := outcome; Stage := stage; LookupDuration := elapsed |} in
  dom (directory registry') = {[ (outcome, stage) ]} ∪ dom (directory registry) /\ data registry' = data registry /\
  forall o st, countAt registry' o st =
    if bool_decide ((o, st) = (outcome, stage)) then wrapU64 (countAt registry o st + 1) else countAt registry o st.
Proof.
  intros Ho Hs registry'. subst registry'. unfold ObserveLDAPLookup, boundedLDAPOutcome, boundedLDAPStage, countAt.
  cbn [Outcome Stage LookupDuration directory data]. rewrite !bool_decide_true by done.
  split; [apply dom_insert_L|]. split; [done|]. intros o st. case_bool_decide as Heq.
  - rewrite Heq, lookup_insert_eq. done.
  - by rewrite lookup_insert_ne by congruence.
Qed.

(** Counting one more lookup changes the total of its outcome only. *)
Lemma total_step registry registry' outcome stage : stage ∈ stages ->
  (forall st, 0 <= countAt registry outcome st < 2 ^ 64 - 1) ->
  (forall o st, countAt registry' o st =
    if bool_decide ((o, st) = (outcome, stage)) then wrapU64 (countAt registry o st + 1) else countAt registry o st) ->
  forall o, total registry' o = total registry o + if bool_decide (o = outcome) then 1 else 0.
Proof.
  intros Hs Hb Hc o. unfold total, stages. cbn [foldr]. rewrite !Hc.
  destruct (decide (o = outcome)) as [->|Ho].
  - rewrite (bool_decide_true (outcome = outcome)) by done.
    assert (Hw : forall st, wrapU64 (countAt registry outcome st + 1) = countAt registry outcome st + 1).
    { intros st. unfold wrapU64. specialize (Hb st). rewrite Z.mod_small; lia. }
    assert (Hpair : forall a b : string, bool_decide ((outcome, a) = (outcome, b)) = bool_decide (a = b)).
    { intros a b. apply bool_decide_ext. naive_solver. }
    rewrite !Hw, !Hpair. unfold stages in Hs.
    repeat (apply elem_of_cons in Hs as [->|Hs];
      [repeat match goal with |- context [bool_decide (?a = ?b)] =>
         let v := eval vm_compute in (bool_decide (a = b)) in change (bool_decide (a = b)) with v end;
       cbn; lia|]). by apply elem_of_nil in Hs.
  - rewrite (bool_decide_false (o = outcome)) by done. rewrite !bool_decide_false by (intros [= ? ?]; done). lia.
Qed.

Section history.
Context (EscapeFilter : string -> string).

(** What a history leaves. *)
Record counted (calls : list call) (registry : Registry) : Prop := {
  co_http : data registry = ∅;
  co_labels label : label ∈ dom (directory registry) -> fst label ∈ outcomes /\ snd label ∈ stages;
  co_range o st : 0 <= countAt registry o st <= Z.of_nat (length calls);
  co_total o : o ∈ outcomes -> total registry o = ended EscapeFilter calls o
}.

Lemma history_counted calls : Forall (fun c => Observer (config (cReader c)) = true) calls ->
  Z.of_nat (length calls) < 2 ^ 64 -> counted calls (history EscapeFilter New calls).
Proof.
  induction calls as [|c calls IH] using rev_ind; intros Hf Hl.
  { split; [done|set_solver|done|]. intros o Ho. unfold outcomes in Ho.
    repeat (apply elem_of_cons in Ho as [->|Ho]; [reflexivity|]). by apply elem_of_nil in Ho. }
  apply Forall_app in Hf as [Hf Hc]. apply Forall_cons in Hc as [Hobs _]. rewrite length_app in Hl. simpl in Hl.
  destruct IH as [H1 H2 H3 H4]; [done|lia|].
  unfold history. rewrite fold_left_app. cbn [fold_left]. fold (history EscapeFilter New calls).
  set (registry := history EscapeFilter New calls) in *.
  destruct (lookup_ EscapeFilter c) as [os res] eqn:HG. pose proof HG as HG'. unfold lookup_ in HG'.
  apply ReaderProperties.GetUser_facts in HG' as [(stage & Hstage & Htold) _]. cbn [fst]. rewrite Htold, Hobs. cbn [fst LDAPObserver fold_left].
  destruct (observe_counts registry (ReaderProperties.outcomeOf res) stage (cElapsed c) (outcomeOf_bounded res) Hstage)
    as (Hdom & Hdata & Hcount).
  set (registry' := ObserveLDAPLookup registry _) in *. split.
  - congruence.
  - intros label. rewrite Hdom, elem_of_union, elem_of_singleton. intros [->|Hin]; [|by apply H2].
    split; [apply outcomeOf_bounded|done].
  - intros o st. rewrite Hcount, length_app. specialize (H3 o st). simpl. case_bool_decide; [|lia].
    unfold wrapU64. rewrite Z.mod_small; lia.
  - intros o Ho. rewrite (total_step registry registry' (ReaderProperties.outcomeOf res) stage Hstage);
      [|intros st; specialize (H3 (ReaderProperties.outcomeOf res) st); lia|done].
    rewrite H4 by done. unfold ended. rewrite filter_app, length_app, filter_cons, filter_nil, HG. cbn [snd].
    destruct (decide (ReaderProperties.outcomeOf res = o)) as [<-|Hne].
    + rewrite bool_decide_true by done. cbn [length]. lia.
    + rewrite bool_decide_false by congruence. cbn [length]. lia.
Qed.

(** C33.  Directory metrics are bounded and truthful: after any history of
    observed lookups, whatever the users asked for and the directory answered, the
    labels are among the seven outcomes and five stages, and for each outcome the
    counters say exactly how many lookups returned it, each lookup counted once;
    the HTTP series are untouched. *)
Theorem lookups_counted (calls : list call) :
  Forall (fun c => Observer (config (cReader c)) = true) calls -> Z.of_nat (length calls) < 2 ^ 64 ->
  let registry := history EscapeFilter New calls in
  data registry = ∅ /\
  (forall label, label ∈ dom (directory registry) -> fst label ∈ outcomes /\ snd label ∈ stages) /\
  (forall outcome, outcome ∈ outcomes -> total registry outcome = ended EscapeFilter calls outcome).
Proof. intros Hf Hl registry. destruct (history_counted calls Hf Hl) as [H1 H2 _ H4]. by split_and!. Qed.
End history.

Definition sampleCalls : list call :=
  [{| cReader := ReaderProperties.sampleReader; cContext := true; cUsername := " alice "; cElapsed := 5;
      cNetwork := ReaderProperties.sampleNetwork |};
   {| cReader := ReaderProperties.sampleReader; cContext := true; cUsername := "bob"; cElapsed := Second;
      cNetwork := ReaderProperties.sampleNetwork |};
   {| cReader := ReaderProperties.sampleReader; cContext := false; cUsername := "eve"; cElapsed := 0;
      cNetwork := ReaderProperties.sampleNetwork |}].

Lemma lookups_counted_witness :
  total (history (fun s => s) New sampleCalls) OutcomeNotFound = 1 /\
  ended (fun s => s) sampleCalls OutcomeNotFound = 1.
Proof.
  destruct (lookups_counted (fun s => s) sampleCalls) as (_ & _ & Ht).
  - repeat constructor.
  - reflexivity.
  - rewrite Ht by (by apply (bool_decide_eq_true_1 _)). split; vm_compute; reflexivity.
Defined.

End DirectoryMetricsProperties.
