(* ===== verification/Certificates.v ===== *)
(** * Certificate verification ([security/certificates/verify.go])

    The policy around Go's X.509 verifier: explicit options, canonical input,
    leaf freshness and usage, public-key binding and root pinning.  DER parsing,
    chain building and hostname matching ([crypto/x509]) are an interface. *)

From S2P Require Import Prelude GoTime GoStrings Sha256.
From Stdlib Require Import Hexadecimal HexadecimalString HexadecimalNat HexadecimalN.

(** [x509.ExtKeyUsage]; every other usage only has to differ. *)
Inductive ExtKeyUsage := ExtKeyUsageClientAuth | ExtKeyUsageServerAuth | ExtKeyUsageOther (n : Z).

#[export] Instance ExtKeyUsage_eq_dec : EqDecision ExtKeyUsage.
Proof. solve_decision. Defined.

(** The fields of [x509.Certificate] in use; [PublicKey] is the parsed key,
    URIs and IP addresses are kept as what [String()] gives for them. *)
Record Certificate (Key : Type) := {
  Raw : list byte;
  SerialNumber : option Z;
  NotBefore : time; NotAfter : time;
  ExtKeyUsages : list ExtKeyUsage;
  URIs : list (option string); DNSNames : list string; EmailAddresses : list string; IPAddresses : list string;
  PublicKey : Key; IsCA : bool
}.
Arguments Raw {Key}. Arguments SerialNumber {Key}. Arguments NotBefore {Key}. Arguments NotAfter {Key}.
Arguments ExtKeyUsages {Key}. Arguments URIs {Key}. Arguments DNSNames {Key}. Arguments EmailAddresses {Key}.
Arguments IPAddresses {Key}. Arguments PublicKey {Key}. Arguments IsCA {Key}.

Record VerifyOptions (Pool : Type) := {
  vRoots : option Pool; vIntermediates : option Pool; CurrentTime : time; KeyUsages : list ExtKeyUsage;
  vDNSName : string
}.
Arguments vRoots {Pool}. Arguments vIntermediates {Pool}. Arguments CurrentTime {Pool}.
Arguments KeyUsages {Pool}. Arguments vDNSName {Pool}.

(** [crypto/x509]: a parsed certificate keeps the DER it was parsed from. *)
Class X509 := {
  Key : Type;
  CertPool : Type;
  ParseCertificate : list byte -> option (Certificate Key);
  ParsePKIXPublicKey : list byte -> option Key;
  MarshalPKIXPublicKey : Key -> option (list byte);
  Verify : Certificate Key -> VerifyOptions CertPool -> option (list (list (Certificate Key)));
  VerifyHostname : Certificate Key -> string -> bool;
  Parse_Raw der c : ParseCertificate der = Some c -> Raw c = der
}.

Inductive certificate_error :=
  | ErrInvalidInput | ErrUnverifiedPeer | ErrCertificateRejected | ErrKeyMismatch | ErrPinMismatch.

Record Metadata := {
  FingerprintSHA256 : string; Serial : string; mNotBefore : time; mNotAfter : time;
  mURIs : list string; mDNSNames : list string; mEmailAddresses : list string; mIPAddresses : list string
}.

Record PeerOptions := { Now : time; Usage : ExtKeyUsage; DNSName : string }.

Module Certificates.

Definition maxCertificateBytes : Z := 2 ^ 20.
Definition maxIdentities : Z := 128.

(** [big.Int.Text(16)]. *)
Definition Text16 (z : Z) : string :=
  match z with
  | Z0 => "0"
  | Zpos p => NilZero.string_of_uint (N.to_hex_uint (Npos p))
  | Zneg p => "-" +:+ NilZero.string_of_uint (N.to_hex_uint (Npos p))
  end.

Section certificates.
Context `{X509}.
Abbreviation certificate := (Certificate Key) (only parsing).

Record IssuedOptions := {
  Peer : PeerOptions; Roots : option CertPool; Intermediates : option CertPool;
  ExpectedPublicKeyDER : list byte; PinnedRoot : option certificate
}.

(** [tls.ConnectionState]: certificates behind pointers. *)
Record ConnectionState := {
  PeerCertificates : list (option certificate); VerifiedChains : list (list (option certificate))
}.

Definition validOptions (o : PeerOptions) : bool :=
  negb (IsZero (Now o)) &&
  ((Usage o == ExtKeyUsageClientAuth) || (Usage o == ExtKeyUsageServerAuth)) &&
  ((Usage o != ExtKeyUsageServerAuth) || (DNSName o != "")).

Definition canonical (c : option certificate) : result certificate_error certificate :=
  match c with
  | None => Err ErrInvalidInput
  | Some c =>
      if (blen (Raw c) =? 0) || (maxCertificateBytes <? blen (Raw c)) then Err ErrInvalidInput
      else match ParseCertificate (Raw c) with Some leaf => Ok leaf | None => Err ErrInvalidInput end
  end.

Definition validLeaf (c : certificate) (o : PeerOptions) : bool :=
  match SerialNumber c with
  | None => false
  | Some serial =>
      if (serial <=? 0) || Before (Now o) (NotBefore c) || After (Now o) (NotAfter c) then false
      else
        let explicit := fold_left (fun explicit usage => explicit || (usage == Usage o)) (ExtKeyUsages c) false in
        if negb explicit then false else (DNSName o == "") || VerifyHostname c (DNSName o)
  end.

(** The URIs, or [None] at a nil one. *)
Fixpoint collectURIs (uris : list (option string)) (acc : list string) : option (list string) :=
  match uris with
  | [] => Some acc
  | None :: _ => None
  | Some uri :: uris => collectURIs uris (acc ++ [uri])
  end.

(** [c.SerialNumber.Text(16)] of a nil number is "<nil>". *)
Definition metadata (c : certificate) : result certificate_error Metadata :=
  if maxIdentities <? blen (URIs c) + blen (DNSNames c) + blen (EmailAddresses c) + blen (IPAddresses c)
  then Err ErrCertificateRejected
  else match collectURIs (URIs c) [] with
  | None => Err ErrCertificateRejected
  | Some uris =>
      Ok {| FingerprintSHA256 := hexEncode (Sha256.Sum256 (Raw c));
            Serial := match SerialNumber c with Some n => Text16 n | None => "<nil>" end;
            mNotBefore := NotBefore c; mNotAfter := NotAfter c; mURIs := uris; mDNSNames := DNSNames c;
            mEmailAddresses := EmailAddresses c; mIPAddresses := IPAddresses c |}
  end.

Definition VerifiedPeer (state : option ConnectionState) (o : PeerOptions) : result certificate_error Metadata :=
  if negb (validOptions o) then Err ErrInvalidInput
  else match state with
  | Some {| PeerCertificates := Some peer :: _; VerifiedChains := (Some verified :: _) :: _ |} =>
      if Raw peer != Raw verified then Err ErrUnverifiedPeer
      else
        leaf ← canonical (Some peer);
        if negb (validLeaf leaf o) then Err ErrCertificateRejected else metadata leaf
  | _ => Err ErrUnverifiedPeer
  end.

(** The loop over the verified chains. *)
Definition pinMatches (want : list byte) (chains : list (list certificate)) : bool :=
  fold_left (fun matches chain =>
    match last chain with
    | None => matches
    | Some root => matches || (Sha256.Sum256 (Raw root) == want)
    end) chains false.

Definition verifyOptions (o : IssuedOptions) : VerifyOptions CertPool :=
  {| vRoots := Roots o; vIntermediates := Intermediates o; CurrentTime := Now (Peer o);
     KeyUsages := [Usage (Peer o)]; vDNSName := DNSName (Peer o) |}.

Definition VerifyIssued (cert : option certificate) (o : IssuedOptions) : result certificate_error Metadata :=
  if negb (validOptions (Peer o)) || negb (bool_decide (is_Some (Roots o))) ||
     (blen (ExpectedPublicKeyDER o) =? 0) || (maxCertificateBytes <? blen (ExpectedPublicKeyDER o))
  then Err ErrInvalidInput
  else match ParsePKIXPublicKey (ExpectedPublicKeyDER o) with
  | None => Err ErrInvalidInput
  | Some expected =>
      match MarshalPKIXPublicKey expected with
      | None => Err ErrInvalidInput
      | Some expectedDER =>
          leaf ← canonical cert;
          if negb (validLeaf leaf (Peer o)) then Err ErrCertificateRejected
          else match MarshalPKIXPublicKey (PublicKey leaf) with
          | None => Err ErrCertificateRejected
          | Some actualDER =>
              if actualDER != expectedDER then Err ErrKeyMismatch
              else match Verify leaf (verifyOptions o) with
              | None => Err ErrCertificateRejected
              | Some chains =>
                  match PinnedRoot o with
                  | None => metadata leaf
                  | Some pinned =>
                      match canonical (Some pinned) with
                      | Err _ => Err ErrInvalidInput
                      | Ok pin =>
                          if negb (pinMatches (Sha256.Sum256 (Raw pin)) chains) then Err ErrPinMismatch
                          else metadata leaf
                      end
                  end
              end
          end
      end
  end.
End certificates.
End Certificates.

(** ** Facts *)

Module CertificatesCorrect.
Import Certificates.

(** What usable options say: a clock, client or server authentication, and a
    name to check for a server. *)
Definition usable (o : PeerOptions) : Prop :=
  Now o <> zeroTime /\
  (Usage o = ExtKeyUsageClientAuth \/ (Usage o = ExtKeyUsageServerAuth /\ DNSName o <> "")).

Section facts.
Context `{X509}.
Implicit Types (c leaf : Certificate Key) (o : PeerOptions) (m : Metadata).

(** A leaf with a positive serial, in its validity period, with the usage in its
    own extension and the expected name. *)
Definition fresh_for leaf o : Prop :=
  (exists n, SerialNumber leaf = Some n /\ 0 < n) /\
  NotBefore leaf <= Now o <= NotAfter leaf /\
  Usage o ∈ ExtKeyUsages leaf /\
  (DNSName o = "" \/ VerifyHostname leaf (DNSName o) = true).

(** The metadata of a leaf: its fields, and at most 128 identities. *)
Definition described leaf m : Prop :=
  blen (URIs leaf) + blen (DNSNames leaf) + blen (EmailAddresses leaf) + blen (IPAddresses leaf) <= 128 /\
  FingerprintSHA256 m = hexEncode (Sha256.Sum256 (Raw leaf)) /\
  Serial m = match SerialNumber leaf with Some n => Text16 n | None => "<nil>" end /\
  mNotBefore m = NotBefore leaf /\ mNotAfter m = NotAfter leaf /\
  URIs leaf = map Some (mURIs m) /\ mDNSNames m = DNSNames leaf /\
  mEmailAddresses m = EmailAddresses leaf /\ mIPAddresses m = IPAddresses leaf.

Lemma validOptions_spec o : validOptions o = true <-> usable o.
Proof.
  unfold validOptions, usable, IsZero. rewrite !andb_true_iff, !orb_true_iff, !negb_true_iff, !bool_decide_eq_true,
    Z.eqb_neq, !bool_decide_eq_false. destruct (Usage o); naive_solver.
Qed.

Lemma explicit_spec (usages : list ExtKeyUsage) u : forall b,
  fold_left (fun explicit usage => explicit || (usage == u)) usages b = true <-> b = true \/ u ∈ usages.
Proof.
  induction usages as [|v usages IH]; intros b; simpl.
  - rewrite elem_of_nil. naive_solver.
  - rewrite IH, orb_true_iff, bool_decide_eq_true, elem_of_cons. naive_solver.
Qed.

Lemma validLeaf_spec leaf o : validLeaf leaf o = true <-> fresh_for leaf o.
Proof.
  unfold validLeaf, fresh_for, Before, After.
  destruct (SerialNumber leaf) as [n|]; [|split; [done|intros [(m & [=] & _) _]]].
  pose proof (explicit_spec (ExtKeyUsages leaf) (Usage o) false) as He.
  destruct (Z.leb_spec n 0), (Z.ltb_spec (Now o) (NotBefore leaf)), (Z.ltb_spec (NotAfter leaf) (Now o));
    cbn [orb]; try (split; [done|naive_solver lia]).
  destruct (fold_left _ _ _); cbn [negb].
  - rewrite orb_true_iff, bool_decide_eq_true. naive_solver lia.
  - split; [done|]. naive_solver.
Qed.

Lemma canonical_spec (c : option (Certificate Key)) leaf : canonical c = Ok leaf <->
  exists c', c = Some c' /\ 0 < blen (Raw c') <= 2 ^ 20 /\ ParseCertificate (Raw c') = Some leaf.
Proof.
  unfold canonical, maxCertificateBytes. destruct c as [c|]; [|naive_solver].
  pose proof (blen_nonneg (Raw c)).
  destruct (Z.eqb_spec (blen (Raw c)) 0), (Z.ltb_spec (2 ^ 20) (blen (Raw c))); cbn [orb];
    try (split; [done|intros (c' & [= <-] & ? & _); lia]).
  destruct (ParseCertificate (Raw c)) as [l|] eqn:E.
  - split; [intros [= ->]; exists c; split_and!; try done; lia|naive_solver].
  - split; [done|]. intros (c' & [= <-] & _ & ?). congruence.
Qed.

Lemma collectURIs_spec uris : forall acc l, collectURIs uris acc = Some l <->
  exists rest, uris = map Some rest /\ l = acc ++ rest.
Proof.
  induction uris as [|[u|] uris IH]; intros acc l; simpl.
  - split; [intros [= <-]; exists []; by rewrite app_nil_r|].
    intros ([|] & Hm & ->); [by rewrite app_nil_r|done].
  - rewrite IH. split; intros (rest & Hr & Hl).
    + exists (u :: rest). subst. by rewrite <- app_assoc.
    + destruct rest as [|u' rest]; [done|]. injection Hr as -> ->. exists rest. rewrite Hl, <- app_assoc. done.
  - split; [done|]. intros ([|] & ? & _); done.
Qed.

Lemma metadata_spec leaf m : metadata leaf = Ok m <-> described leaf m.
Proof.
  unfold metadata, described, maxIdentities. destruct (Z.ltb_spec 128
    (blen (URIs leaf) + blen (DNSNames leaf) + blen (EmailAddresses leaf) + blen (IPAddresses leaf)));
    [split; [done|naive_solver lia]|].
  pose proof (collectURIs_spec (URIs leaf) []) as HU.
  destruct (collectURIs (URIs leaf) []) as [uris|].
  - destruct (proj1 (HU uris) eq_refl) as (rest & Hr & ->). rewrite Hr in *. split.
    + intros [= <-]. by split_and!.
    + intros (_ & ? & ? & ? & ? & Hm & ? & ? & ?). apply (inj (map Some)) in Hm. destruct m; simpl in *. by subst.
  - split; [done|]. intros (_ & _ & _ & _ & _ & Hm & _).
    exfalso. assert (None = Some (mURIs m)) as Hx; [|done]. apply HU. by exists (mURIs m).
Qed.

Lemma pinMatches_spec want (chains : list (list (Certificate Key))) : pinMatches want chains = true <->
  exists chain root, chain ∈ chains /\ last chain = Some root /\ Sha256.Sum256 (Raw root) = want.
Proof.
  unfold pinMatches. enough (Hg : forall b, fold_left (fun matches chain =>
    match last chain with None => matches | Some root => matches || (Sha256.Sum256 (Raw root) == want) end)
    chains b = true <-> b = true \/ exists chain root, chain ∈ chains /\ last chain = Some root /\
      Sha256.Sum256 (Raw root) = want) by (rewrite Hg; naive_solver).
  induction chains as [|chain chains IH]; intros b; cbn [fold_left].
  - split; [by left|]. intros [?|(ch & r & Hch & _)]; [done|by apply elem_of_nil in Hch].
  - rewrite IH. destruct (last chain) as [root|] eqn:E.
    + rewrite orb_true_iff, bool_decide_eq_true. setoid_rewrite elem_of_cons. naive_solver.
    + setoid_rewrite elem_of_cons. naive_solver.
Qed.

(** The root pin, when there is one. *)
Definition pinned (pin : option (Certificate Key)) (chains : list (list (Certificate Key))) : Prop :=
  forall p, pin = Some p -> 0 < blen (Raw p) <= 2 ^ 20 /\ is_Some (ParseCertificate (Raw p)) /\
    exists chain root, chain ∈ chains /\ last chain = Some root /\
      Sha256.Sum256 (Raw root) = Sha256.Sum256 (Raw p).

(** The tail of [VerifyIssued], from the verified chains on. *)
Lemma pin_step (pin : option (Certificate Key)) chains leaf m :
  match pin with
  | None => metadata leaf
  | Some p =>
      match canonical (Some p) with
      | Err _ => Err ErrInvalidInput
      | Ok pin =>
          if negb (pinMatches (Sha256.Sum256 (Raw pin)) chains) then Err ErrPinMismatch else metadata leaf
      end
  end = Ok m <-> pinned pin chains /\ metadata leaf = Ok m.
Proof.
  unfold pinned. destruct pin as [p|]; [|naive_solver].
  destruct (canonical (Some p)) as [pc|e] eqn:Hc.
  - apply canonical_spec in Hc as (p' & [= <-] & Hl & Hp). rewrite (Parse_Raw _ _ Hp).
    pose proof (pinMatches_spec (Sha256.Sum256 (Raw p)) chains) as HM.
    destruct (pinMatches _ _); cbn [negb].
    + split; [|by intros [_ ?]]. intros Hm. split; [|done]. intros p' [= <-]. split_and!; [lia|lia|by eexists|].
      by apply HM.
    + split; [done|]. intros [Hp' _]. destruct (Hp' p eq_refl) as (_ & _ & Hx). by apply HM in Hx.
  - split; [done|]. intros [Hp _]. destruct (Hp p eq_refl) as (Hl & [pc Hpc] & _).
    assert (canonical (Some p) = Ok pc) by (apply canonical_spec; eauto). congruence.
Qed.
(** Everything [VerifyIssued] checks. *)
Lemma VerifyIssued_iff (cert : option (Certificate Key)) (o : IssuedOptions) (m : Metadata) :
  VerifyIssued cert o = Ok m <->
  exists c leaf expected der chains,
    usable (Peer o) /\ is_Some (Roots o) /\
    0 < blen (ExpectedPublicKeyDER o) <= 2 ^ 20 /\
    ParsePKIXPublicKey (ExpectedPublicKeyDER o) = Some expected /\
    MarshalPKIXPublicKey expected = Some der /\ MarshalPKIXPublicKey (PublicKey leaf) = Some der /\
    cert = Some c /\ 0 < blen (Raw c) <= 2 ^ 20 /\ ParseCertificate (Raw c) = Some leaf /\
    fresh_for leaf (Peer o) /\
    Verify leaf {| vRoots := Roots o; vIntermediates := Intermediates o; CurrentTime := Now (Peer o);
                   KeyUsages := [Usage (Peer o)]; vDNSName := DNSName (Peer o) |} = Some chains /\
    pinned (PinnedRoot o) chains /\ described leaf m.
Proof.
  unfold VerifyIssued, maxCertificateBytes. fold (verifyOptions o).
  pose proof (blen_nonneg (ExpectedPublicKeyDER o)) as Hnn. split.
  - case_match; [done|]. split_guards. destruct (ParsePKIXPublicKey _) as [expected|] eqn:HP; [|done].
    destruct (MarshalPKIXPublicKey expected) as [der|] eqn:HM; [|done].
    intros (leaf & Hc & Hk)%bind_Ok_inv. apply canonical_spec in Hc as (c & -> & Hl & Hpc).
    case_match; [done|]. split_guards.
    destruct (MarshalPKIXPublicKey (PublicKey leaf)) as [actual|] eqn:HA; [|done].
    case_match; [done|]. split_guards. subst actual.
    destruct (Verify leaf (verifyOptions o)) as [chains|] eqn:HV; [|done].
    apply pin_step in Hk as [Hpin Hm]. exists c, leaf, expected, der, chains.
    split_and!; try done; try lia.
    + by apply validOptions_spec.
    + by apply validLeaf_spec.
    + by apply metadata_spec.
  - intros (c & leaf & expected & der & chains & Ho & Hr & Hl & HP & HM & HA & -> & Hlc & Hpc & Hf & HV & Hp & Hm).
    rewrite (proj2 (validOptions_spec _) Ho), bool_decide_true by done.
    rewrite (proj2 (Z.eqb_neq _ _)), (proj2 (Z.ltb_ge _ _)) by lia. cbn [negb orb].
    rewrite HP, HM. rewrite (proj2 (canonical_spec (Some c) leaf)) by eauto. cbn [mbind result_bind].
    rewrite (proj2 (validLeaf_spec _ _) Hf). cbn [negb]. rewrite HA, bool_decide_true by done. cbn [negb].
    rewrite HV. apply pin_step. split; [done|]. by apply metadata_spec.
Qed.
End facts.
End CertificatesCorrect.

(** ** Properties *)

Module CertificatesProperties.
Import Certificates CertificatesCorrect.

(** C10.  An issued certificate is accepted exactly when every check holds, and
    then described by its own fields: usable options, explicit roots, a DER
    within a mebibyte, a positive serial, the clock in the validity period, the
    usage listed in the certificate itself, the expected name, the key that was
    asked for, a chain to the explicit roots for that usage, name and time, and,
    when a root is pinned, a verified chain that ends in it (in SHA-256 digest).
    A nil root pool never verifies, and a certificate with more than 128 identities is
    not described. *)
Theorem VerifyIssued_exact `{X509} (cert : option (Certificate Key)) (o : IssuedOptions) (m : Metadata) :
  VerifyIssued cert o = Ok m <->
  exists c leaf expected der chains,
    usable (Peer o) /\ is_Some (Roots o) /\
    0 < blen (ExpectedPublicKeyDER o) <= 2 ^ 20 /\
    ParsePKIXPublicKey (ExpectedPublicKeyDER o) = Some expected /\
    MarshalPKIXPublicKey expected = Some der /\ MarshalPKIXPublicKey (PublicKey leaf) = Some der /\
    cert = Some c /\ 0 < blen (Raw c) <= 2 ^ 20 /\ ParseCertificate (Raw c) = Some leaf /\
    fresh_for leaf (Peer o) /\
    Verify leaf {| vRoots := Roots o; vIntermediates := Intermediates o; CurrentTime := Now (Peer o);
                   KeyUsages := [Usage (Peer o)]; vDNSName := DNSName (Peer o) |} = Some chains /\
    pinned (PinnedRoot o) chains /\ described leaf m.
Proof. apply VerifyIssued_iff. Qed.

(** A TLS peer is described exactly when the handshake verified it: the
    first peer certificate is, byte for byte, the leaf of the first verified
    chain, it parses, it is fresh at the given clock for the given usage and
    name, and it has at most 128 identities.  A state without verified chains, or
    with a nil certificate, is never accepted. *)
Theorem VerifiedPeer_exact `{X509} (state : option ConnectionState) (o : PeerOptions) (m : Metadata) :
  VerifiedPeer state o = Ok m <->
  usable o /\
  exists s peer peers verified chain chains leaf,
    state = Some s /\ PeerCertificates s = Some peer :: peers /\
    VerifiedChains s = (Some verified :: chain) :: chains /\ Raw peer = Raw verified /\
    0 < blen (Raw peer) <= 2 ^ 20 /\ ParseCertificate (Raw peer) = Some leaf /\
    fresh_for leaf o /\ described leaf m.
Proof.
  unfold VerifiedPeer. pose proof (validOptions_spec o) as Ho.
  destruct (validOptions o); cbn [negb]; [|split; [done|intros [Hu _]; by apply Ho in Hu]]. split.
  - destruct state as [[[|[peer|] peers] [|[|[verified|] chain] chains]]|]; try done.
    case_match; [done|]. split_guards. intros (leaf & Hc & Hk)%bind_Ok_inv.
    apply canonical_spec in Hc as (c & [= <-] & Hl & Hp). case_match; [done|]. split_guards.
    split; [by apply Ho|]. eexists _, peer, peers, verified, chain, chains, leaf.
    split_and!; try done; try lia; [by apply validLeaf_spec|by apply metadata_spec].
  - intros (_ & [ps vs] & peer & peers & verified & chain & chains & leaf & -> & Hps & Hvs & Hraw & Hl & Hp & Hf & Hm).
    simpl in Hps, Hvs. subst ps vs. rewrite bool_decide_true by done. cbn [negb].
    rewrite (proj2 (canonical_spec (Some peer) leaf)) by eauto. cbn [mbind result_bind].
    rewrite (proj2 (validLeaf_spec _ _) Hf). by apply metadata_spec.
Qed.

(** *** Evaluations *)

(** A toy authority: certificates are their first byte, keys are bytes, and a
    certificate chains to itself. *)
Definition toyCertificate (der : list byte) : Certificate byte :=
  {| Raw := der; SerialNumber := Some 10; NotBefore := 0; NotAfter := 100;
     ExtKeyUsages := [ExtKeyUsageClientAuth]; URIs := [Some "spiffe://a"]; DNSNames := []; EmailAddresses := [];
     IPAddresses := []; PublicKey := hd (byte_of 0) der; IsCA := false |}.

Definition toyX509 : X509 :=
  {| Key := byte; CertPool := unit; ParseCertificate := fun der => Some (toyCertificate der);
     ParsePKIXPublicKey := head; MarshalPKIXPublicKey := fun k => Some [k];
     Verify := fun c _ => Some [[c]]; VerifyHostname := fun _ _ => false;
     Parse_Raw := fun der c E => match E in _ = o return match o with Some c => Raw c = der | None => True end
                                 with eq_refl => eq_refl end |}.

Definition toyDER : list byte := [byte_of 7].
Definition toyPeer : PeerOptions := {| Now := 50; Usage := ExtKeyUsageClientAuth; DNSName := "" |}.
Definition toyIssued : @IssuedOptions toyX509 :=
  @Build_IssuedOptions toyX509 toyPeer (Some tt) None toyDER (Some (toyCertificate toyDER)).

Definition toyMetadata : Metadata :=
  {| FingerprintSHA256 := hexEncode (Sha256.Sum256 toyDER); Serial := "a"; mNotBefore := 0; mNotAfter := 100;
     mURIs := ["spiffe://a"]; mDNSNames := []; mEmailAddresses := []; mIPAddresses := [] |}.

Lemma VerifyIssued_exact_witness :
  @VerifyIssued toyX509 (Some (toyCertificate toyDER)) toyIssued = Ok toyMetadata /\
  @fresh_for toyX509 (toyCertificate toyDER) toyPeer.
Proof.
  assert (HV : @VerifyIssued toyX509 (Some (toyCertificate toyDER)) toyIssued = Ok toyMetadata)
    by (vm_compute; reflexivity).
  split; [exact HV|]. apply (@VerifyIssued_exact toyX509) in HV.
  destruct HV as (c & leaf & e & der & chains & _ & _ & _ & _ & _ & _ & Hc & _ & Hp & Hf & _).
  injection Hc as <-. injection Hp as <-. exact Hf.
Defined.

Lemma VerifiedPeer_exact_witness :
  @VerifiedPeer toyX509 (Some (@Build_ConnectionState toyX509 [Some (toyCertificate toyDER)]
    [[Some (toyCertificate toyDER)]])) toyPeer = Ok toyMetadata /\ usable toyPeer.
Proof.
  assert (HV : @VerifiedPeer toyX509 (Some (@Build_ConnectionState toyX509 [Some (toyCertificate toyDER)]
    [[Some (toyCertificate toyDER)]])) toyPeer = Ok toyMetadata) by (vm_compute; reflexivity).
  split; [exact HV|]. apply (@VerifiedPeer_exact toyX509) in HV. exact (proj1 HV).
Defined.

End CertificatesProperties.
