(* ===== verification/CertificateContract.v ===== *)
(** * The certificate contract suites ([internal/testutil/certificatecontract])

    [RunPeer] and [RunIssued] are conformance suites over a validator: they issue
    certificates, present them in valid and invalid ways, and compare what the
    validator answers.  A suite is the list of its cases with their verdicts, or
    [None] when its set-up fails.  The adapters are the consumer's
    ([security/certificates/consumer_contract_test.go]).  Key generation,
    certificate creation, PEM and URL parsing are an interface; [n] in a call is
    the number of the draw from the random source. *)

From S2P Require Import Prelude GoTime GoStrings Sha256 Certificates.
Import Certificates.

Inductive KeyUsage := KeyUsageDigitalSignature | KeyUsageCertSign.

(** The fields of a template that the suites set. *)
Record Template := {
  tSerial : Z; tNotBefore : time; tNotAfter : time; tKeyUsage : KeyUsage; tExtKeyUsage : list ExtKeyUsage;
  tURIs : list string; tDNSNames : list string; tIPAddresses : list string; tEmailAddresses : list string;
  tCommonName : string; tIsCA : bool; tBasicConstraintsValid : bool
}.

(** What the suites call besides [crypto/x509]'s parser and verifier; the parent
    of a certificate is another certificate or, with [None], its own template. *)
Class Issuer `{X509} := {
  PrivateKey : Type;
  Public : PrivateKey -> Key;
  GenerateKey : nat -> option PrivateKey;
  CreateCertificate : nat -> Template -> option (Certificate Key) -> Key -> PrivateKey -> option (list byte);
  ParseURL : string -> option string;
  EncodeToMemory : string -> list byte -> list byte;
  Decode : list byte -> option (string * list byte * list byte);
  CertPoolOf : list (Certificate Key) -> CertPool;
  FormatRFC3339 : time -> string
}.

(** What a device identity projects to. *)
Record Peer := { URI : string; Fingerprint : string; PeerSerial : string }.

#[export] Instance Peer_eq_dec : EqDecision Peer.
Proof. solve_decision. Defined.

Module Contract.

(** [time.Date(2030, 1, 2, 3, 4, 5, 0, time.UTC)], 21916 days after the epoch. *)
Definition now : time := ((21916 * 24 + 3) * 3600 + 4 * 60 + 5) * Second.

Definition noPeer : Peer := {| URI := ""; Fingerprint := ""; PeerSerial := "" |}.

(** The template of [issue] before [mutate]. *)
Definition deviceTemplate (u : string) : Template :=
  {| tSerial := 42; tNotBefore := Add now (- Hour); tNotAfter := Add now Hour; tKeyUsage := KeyUsageDigitalSignature;
     tExtKeyUsage := [ExtKeyUsageClientAuth]; tURIs := [u]; tDNSNames := []; tIPAddresses := [];
     tEmailAddresses := []; tCommonName := ""; tIsCA := false; tBasicConstraintsValid := false |}.
(** The mutations of the suites. *)
Definition withExtKeyUsage (us : list ExtKeyUsage) (c : Template) : Template :=
  {| tSerial := tSerial c; tNotBefore := tNotBefore c; tNotAfter := tNotAfter c; tKeyUsage := tKeyUsage c;
     tExtKeyUsage := us; tURIs := tURIs c; tDNSNames := tDNSNames c; tIPAddresses := tIPAddresses c;
     tEmailAddresses := tEmailAddresses c; tCommonName := tCommonName c; tIsCA := tIsCA c;
     tBasicConstraintsValid := tBasicConstraintsValid c |}.
Definition withNames (uris dns ips mails : list string) (name : string) (c : Template) : Template :=
  {| tSerial := tSerial c; tNotBefore := tNotBefore c; tNotAfter := tNotAfter c; tKeyUsage := tKeyUsage c;
     tExtKeyUsage := tExtKeyUsage c; tURIs := uris; tDNSNames := dns; tIPAddresses := ips;
     tEmailAddresses := mails; tCommonName := name; tIsCA := tIsCA c;
     tBasicConstraintsValid := tBasicConstraintsValid c |}.
Definition withSerial (n : Z) (c : Template) : Template :=
  {| tSerial := n; tNotBefore := tNotBefore c; tNotAfter := tNotAfter c; tKeyUsage := tKeyUsage c;
     tExtKeyUsage := tExtKeyUsage c; tURIs := tURIs c; tDNSNames := tDNSNames c; tIPAddresses := tIPAddresses c;
     tEmailAddresses := tEmailAddresses c; tCommonName := tCommonName c; tIsCA := tIsCA c;
     tBasicConstraintsValid := tBasicConstraintsValid c |}.
Definition withNotAfter (t : time) (c : Template) : Template :=
  {| tSerial := tSerial c; tNotBefore := tNotBefore c; tNotAfter := t; tKeyUsage := tKeyUsage c;
     tExtKeyUsage := tExtKeyUsage c; tURIs := tURIs c; tDNSNames := tDNSNames c; tIPAddresses := tIPAddresses c;
     tEmailAddresses := tEmailAddresses c; tCommonName := tCommonName c; tIsCA := tIsCA c;
     tBasicConstraintsValid := tBasicConstraintsValid c |}.

Definition ExtKeyUsageAny : ExtKeyUsage := ExtKeyUsageOther 0.

Definition mixedEKUs : Template -> Template := withExtKeyUsage [ExtKeyUsageClientAuth; ExtKeyUsageServerAuth].
Definition serverEKU : Template -> Template := withExtKeyUsage [ExtKeyUsageServerAuth].
Definition extraDNS (c : Template) : Template :=
  withNames (tURIs c) ["device.example.test"] (tIPAddresses c) (tEmailAddresses c) (tCommonName c) c.

(** The certificates [RunPeer] must see rejected. *)
Definition peerMutations : list (string * (Template -> Template)) :=
  [("server EKU", serverEKU);
   ("missing explicit EKU", withExtKeyUsage []);
   ("any EKU only", withExtKeyUsage [ExtKeyUsageAny]);
   ("missing URI", fun c => withNames [] (tDNSNames c) (tIPAddresses c) (tEmailAddresses c) (tCommonName c) c);
   ("CN cannot replace URI",
     fun c => withNames [] (tDNSNames c) (tIPAddresses c) (tEmailAddresses c) "contract-device" c);
   ("duplicate URI", fun c => withNames (tURIs c ++ take 1 (tURIs c)) (tDNSNames c) (tIPAddresses c)
     (tEmailAddresses c) (tCommonName c) c);
   ("extra DNS SAN", extraDNS);
   ("extra IP SAN", fun c => withNames (tURIs c) (tDNSNames c) ["192.0.2.1"] (tEmailAddresses c) (tCommonName c) c);
   ("extra mail SAN",
     fun c => withNames (tURIs c) (tDNSNames c) (tIPAddresses c) ["device@example.test"] (tCommonName c) c);
   ("zero serial", withSerial 0)].

Section peer.
Context `{Issuer}.
Abbreviation certificate := (Certificate Key) (only parsing).

(** A validator returns a value and an error. *)
Definition PeerValidator : Type := option ConnectionState -> time -> Peer * option certificate_error.

Definition accepted (r : Peer * option certificate_error) : bool := bool_decide (snd r = None).
Definition refused (r : Peer * option certificate_error) : bool :=
  bool_decide (snd r <> None) && (fst r == noPeer).

(** [issue]: the [n]-th key and self-signed certificate. *)
Definition issuePeer (uri : string) (n : nat) (mutate : Template -> Template) : option certificate :=
  key ← GenerateKey n; u ← ParseURL uri;
  der ← CreateCertificate n (mutate (deviceTemplate u)) None (Public key) key;
  ParseCertificate der.

Definition state_ (peers : list (option certificate)) (chains : list (list (option certificate)))
    : option ConnectionState := Some {| PeerCertificates := peers; VerifiedChains := chains |}.
Definition verified (c : certificate) : option ConnectionState := state_ [Some c] [[Some c]].

(** [c := *valid; c.URIs = []*url.URL{nil}]. *)
Definition withNilURI (c : certificate) : certificate :=
  {| Raw := Raw c; SerialNumber := SerialNumber c; NotBefore := NotBefore c; NotAfter := NotAfter c;
     ExtKeyUsages := ExtKeyUsages c; URIs := [None]; DNSNames := DNSNames c; EmailAddresses := EmailAddresses c;
     IPAddresses := IPAddresses c; PublicKey := PublicKey c; IsCA := IsCA c |}.

Definition RunPeer (validate : PeerValidator) (uri : string) : option (list (string * bool)) :=
  valid ← issuePeer uri 0 id;
  different ← issuePeer uri 2 id;
  Some (
    [("projection",
      let '(got, err) := validate (verified valid) now in
      bool_decide (err = None) && (URI got == uri) && (PeerSerial got == "2a") &&
      (Fingerprint got == hexEncode (Sha256.Sum256 (Raw valid))));
     ("mixed explicit EKUs retain client usage",
      match issuePeer uri 1 mixedEKUs with
      | Some c => accepted (validate (verified c) now)
      | None => false
      end)] ++
    map (fun at_ => ("inclusive_x509_" +:+ FormatRFC3339 at_, accepted (validate (verified valid) at_)))
      [NotBefore valid; NotAfter valid] ++
    map (fun tc => (fst (fst tc), refused (validate (snd (fst tc)) (snd tc))))
      [("missing state", None, now); ("missing leaf", state_ [] [], now);
       ("unverified leaf", state_ [Some valid] [], now);
       ("empty verified chain", state_ [Some valid] [[]], now);
       ("different verified leaf", state_ [Some valid] [[Some different]], now);
       ("nil peer leaf", state_ [None] [[Some valid]], now);
       ("nil verified leaf", state_ [Some valid] [[None]], now);
       ("zero time", verified valid, zeroTime);
       ("before validity", verified valid, Add (NotBefore valid) (- 1));
       ("after validity", verified valid, Add (NotAfter valid) 1)] ++
    imap (fun i tc =>
      (fst tc, match issuePeer uri (3 + i) (snd tc) with
               | Some c => refused (validate (verified c) now)
               | None => false
               end)) peerMutations ++
    [("nil URI value", refused (validate (verified (withNilURI valid)) now))]).
End peer.

(** *** Issued material *)

Definition rootTemplate : Template :=
  {| tSerial := 1; tNotBefore := Add now (- (24 * Hour)); tNotAfter := Add now (365 * 24 * Hour);
     tKeyUsage := KeyUsageCertSign; tExtKeyUsage := []; tURIs := []; tDNSNames := []; tIPAddresses := [];
     tEmailAddresses := []; tCommonName := ""; tIsCA := true; tBasicConstraintsValid := true |}.
Definition expiredTemplate : Template := withNotAfter (Add now (- Second)) rootTemplate.

Definition unexpectedURI (c : Template) : Template :=
  withNames ["urn:example:other-device"] (tDNSNames c) (tIPAddresses c) (tEmailAddresses c) (tCommonName c) c.

(** The leaves [RunIssued] must see rejected. *)
Definition leafMutations : list (string * (Template -> Template)) :=
  [("server EKU", serverEKU); ("missing EKU", withExtKeyUsage []); ("unexpected URI", unexpectedURI);
   ("extra DNS identity", extraDNS)].

Section issued.
Context `{Issuer} {E : Type}.

Record IssuedInput := {
  CertificatePEM : list byte; CAPEM : list byte; PinnedCAPEM : list byte; InputKey : option PrivateKey;
  ExpiresAt : time
}.

(** A validator returns nil or an error. *)
Definition IssuedValidator : Type := IssuedInput -> time -> option E.

Definition passed (r : option E) : bool := match r with None => true | Some _ => false end.

Definition onCertificate (pem : list byte) (v : IssuedInput) : IssuedInput :=
  {| CertificatePEM := pem; CAPEM := CAPEM v; PinnedCAPEM := PinnedCAPEM v; InputKey := InputKey v;
     ExpiresAt := ExpiresAt v |}.
Definition onCA (pem : list byte) (v : IssuedInput) : IssuedInput :=
  {| CertificatePEM := CertificatePEM v; CAPEM := pem; PinnedCAPEM := PinnedCAPEM v; InputKey := InputKey v;
     ExpiresAt := ExpiresAt v |}.
Definition onPin (pem : list byte) (v : IssuedInput) : IssuedInput :=
  {| CertificatePEM := CertificatePEM v; CAPEM := CAPEM v; PinnedCAPEM := pem; InputKey := InputKey v;
     ExpiresAt := ExpiresAt v |}.
Definition onKey (key : option PrivateKey) (v : IssuedInput) : IssuedInput :=
  {| CertificatePEM := CertificatePEM v; CAPEM := CAPEM v; PinnedCAPEM := PinnedCAPEM v; InputKey := key;
     ExpiresAt := ExpiresAt v |}.
Definition onExpiry (t : time) (v : IssuedInput) : IssuedInput :=
  {| CertificatePEM := CertificatePEM v; CAPEM := CAPEM v; PinnedCAPEM := PinnedCAPEM v; InputKey := InputKey v;
     ExpiresAt := t |}.

Definition pemOf (der : list byte) : list byte := EncodeToMemory "CERTIFICATE" der.

(** The material of [issue] for a leaf. *)
Definition material (rootDER der : list byte) (key : PrivateKey) (leaf : Template) : IssuedInput :=
  {| CertificatePEM := pemOf der; CAPEM := pemOf rootDER; PinnedCAPEM := pemOf rootDER; InputKey := Some key;
     ExpiresAt := tNotAfter leaf |}.

Definition issueLeaf (u : string) (key caKey : PrivateKey) (rootDER : list byte) (root : Certificate Key) (n : nat)
    (mutate : Template -> Template) : option IssuedInput :=
  der ← CreateCertificate n (mutate (deviceTemplate u)) (Some root) (Public key) caKey;
  Some (material rootDER der key (mutate (deviceTemplate u))).

(** The inputs made of valid material, with the key a case may draw. *)
Definition inputMutations (otherCA expiredCA : list byte) : list (string * (IssuedInput -> option IssuedInput)) :=
  [("wrong public key", fun v => key ← GenerateKey 3; Some (onKey (Some key) v));
   ("missing expected key", fun v => Some (onKey None v));
   ("wrong CA pin", fun v => Some (onPin (CertificatePEM v) v));
   ("chain not issued by supplied root", fun v => Some (onPin [] (onCA otherCA v)));
   ("expired root", fun v => Some (onPin [] (onCA expiredCA v)));
   ("CA is leaf", fun v => Some (onCA (CertificatePEM v) v));
   ("malformed certificate", fun v => Some (onCertificate (bytes_of "invalid") v));
   ("malformed CA", fun v => Some (onCA (bytes_of "invalid") v));
   ("extra certificate", fun v => Some (onCertificate (CertificatePEM v ++ CertificatePEM v) v));
   ("extra CA", fun v => Some (onCA (CAPEM v ++ CAPEM v) v));
   ("wrong expiry metadata", fun v => Some (onExpiry (Add (ExpiresAt v) Second) v))].

(** A case that must be refused; it fails when its set-up does. *)
Definition refusedCase (validate : IssuedValidator) (v : option IssuedInput) (t : time) : bool :=
  match v with Some v => negb (passed (validate v t)) | None => false end.

Definition newline : list byte := [byte_of 10].

Definition RunIssued (validate : IssuedValidator) (identityURI : string) : option (list (string * bool)) :=
  key ← GenerateKey 0; caKey ← GenerateKey 1; u ← ParseURL identityURI;
  rootDER ← CreateCertificate 0 rootTemplate None (Public caKey) caKey;
  root ← ParseCertificate rootDER;
  let issue := issueLeaf u key caKey rootDER root in
  valid ← issue 1%nat id;
  otherCAKey ← GenerateKey 2;
  otherDER ← CreateCertificate 2 rootTemplate None (Public otherCAKey) otherCAKey;
  expiredDER ← CreateCertificate 3 expiredTemplate None (Public caKey) caKey;
  Some (
    [("verified pinned material", passed (validate valid now))] ++
    map (fun at_ => ("inclusive_x509_" +:+ FormatRFC3339 at_, passed (validate valid at_)))
      [Add now (- Hour); Add now Hour] ++
    [("mixed explicit EKUs retain client usage",
      match issue 4%nat mixedEKUs with Some v => passed (validate v now) | None => false end);
     ("bootstrap without prior device CA pin", passed (validate (onPin [] valid) now))] ++
    map (fun tc => (fst tc, refusedCase validate (Some valid) (snd tc)))
      [("before certificate validity", Add now (- (2 * Hour))); ("expired certificate", Add now (2 * Hour));
       ("zero validation clock", zeroTime)] ++
    map (fun tc => (fst tc, refusedCase validate (snd tc valid) now)) (inputMutations (pemOf otherDER) (pemOf expiredDER)) ++
    imap (fun i tc => (fst tc, refusedCase validate (issue (5 + i)%nat (snd tc)) now)) leafMutations ++
    [("pin compares certificate DER not PEM layout",
      passed (validate (onPin (newline ++ PinnedCAPEM valid ++ newline) valid) now))]).
End issued.

(** *** The consumer's adapter *)

Definition contractURI : string := "urn:example:device:contract-device".

Definition strictDeviceProfile (m : Metadata) : bool :=
  (mURIs m == [contractURI]) && (mDNSNames m == []) && (mEmailAddresses m == []) && (mIPAddresses m == []).

(** What the adapter for issued material returns. *)
Inductive adapter_error := Framework (e : certificate_error) | ParseFailed | MarshalFailed.

Section adapter.
Context `{Issuer}.

Definition clientAt (t : time) : PeerOptions := {| Now := t; Usage := ExtKeyUsageClientAuth; DNSName := "" |}.

(** A peer certificate with a nil URI. *)
Definition hasNilURI (s : option ConnectionState) : bool :=
  match s with
  | Some {| PeerCertificates := Some c :: _ |} => existsb (fun u => bool_decide (u = None)) (URIs c)
  | _ => false
  end.

Definition strictPeer : PeerValidator := fun s t =>
  if hasNilURI s then (noPeer, Some ErrInvalidInput)
  else match VerifiedPeer s (clientAt t) with
  | Err err => (noPeer, Some err)
  | Ok m =>
      if negb (strictDeviceProfile m) then (noPeer, Some ErrCertificateRejected)
      else ({| URI := hd "" (mURIs m); Fingerprint := FingerprintSHA256 m; PeerSerial := Serial m |}, None)
  end.

(** [bytes.TrimSpace(rest)] is empty. *)
Definition blank (bs : list byte) : bool := TrimSpace (string_of bs) == "".

Definition singleCertificate (raw : list byte) : result adapter_error (Certificate Key) :=
  match Decode raw with
  | Some (ty, der, rest) =>
      if (ty != "CERTIFICATE") || negb (blank rest) then Err (Framework ErrInvalidInput)
      else match ParseCertificate der with Some c => Ok c | None => Err ParseFailed end
  | None => Err (Framework ErrInvalidInput)
  end.

(** The pin, if the input has one. *)
Definition pinOf (v : IssuedInput) : result adapter_error (option (Certificate Key)) :=
  match PinnedCAPEM v with [] => Ok None | raw => Some <$> singleCertificate raw end.

Definition issuedOptionsOf (t : time) (root : Certificate Key) (public : list byte) (pin : option (Certificate Key))
    : IssuedOptions :=
  {| Certificates.Peer := clientAt t; Roots := Some (CertPoolOf [root]); Intermediates := None;
     ExpectedPublicKeyDER := public; PinnedRoot := pin |}.

Definition strictIssued : IssuedValidator (E := adapter_error) := fun v t =>
  match InputKey v with
  | None => Some (Framework ErrInvalidInput)
  | Some key =>
      match singleCertificate (CertificatePEM v) with
      | Err err => Some err
      | Ok leaf =>
          match singleCertificate (CAPEM v) with
          | Err _ => Some (Framework ErrInvalidInput)
          | Ok root =>
              if negb (IsCA root) then Some (Framework ErrInvalidInput)
              else match pinOf v with
              | Err err => Some err
              | Ok pin =>
                  match MarshalPKIXPublicKey (Public key) with
                  | None => Some MarshalFailed
                  | Some public =>
                      match VerifyIssued (Some leaf) (issuedOptionsOf t root public pin) with
                      | Err err => Some (Framework err)
                      | Ok m =>
                          if negb (strictDeviceProfile m) || negb (mNotAfter m =? ExpiresAt v)
                          then Some (Framework ErrCertificateRejected)
                          else None
                      end
                  end
              end
          end
      end
  end.
End adapter.

End Contract.

(** ** What issuing gives *)

Module ContractCorrect.
Import Contract CertificatesCorrect.

Section facts.
Context `{Issuer}.
Implicit Types (c : Certificate Key) (t : Template).

(** A parsed certificate carries the fields of its template. *)
Record carries t (k : Key) c : Prop := {
  ca_serial : SerialNumber c = Some (tSerial t);
  ca_from : NotBefore c = tNotBefore t;
  ca_to : NotAfter c = tNotAfter t;
  ca_usages : ExtKeyUsages c = tExtKeyUsage t;
  ca_uris : URIs c = map Some (tURIs t);
  ca_dns : DNSNames c = tDNSNames t;
  ca_mails : EmailAddresses c = tEmailAddresses t;
  ca_ips : IPAddresses c = tIPAddresses t;
  ca_key : PublicKey c = k;
  ca_ca : IsCA c = tIsCA t
}.

(** The certificate is what its DER parses to, and the DER is of moderate size. *)
Definition genuine c : Prop := ParseCertificate (Raw c) = Some c /\ 0 < blen (Raw c) <= 2 ^ 20.

(** Creating a certificate from a template, with a key for its holder and a
    signer, works as documented: it parses back to the template. *)
Definition creates (n : nat) t (parent : option (Certificate Key)) (k : Key) (signer : PrivateKey) c : Prop :=
  exists der, CreateCertificate n t parent k signer = Some der /\ ParseCertificate der = Some c /\
    0 < blen der <= 2 ^ 20 /\ carries t k c.

Lemma creates_genuine n t parent k signer c : creates n t parent k signer c -> genuine c /\ carries t k c.
Proof.
  intros (der & _ & Hp & Hl & Hc). pose proof (Parse_Raw _ _ Hp) as Hraw. unfold genuine. by rewrite Hraw.
Qed.

(** *** Peers *)

(** What [strictPeer] answers on a genuine certificate presented as its own
    verified leaf. *)
Lemma strictPeer_verified t k c at_ : genuine c -> carries t k c -> at_ <> zeroTime ->
  blen (tURIs t) + blen (tDNSNames t) + blen (tEmailAddresses t) + blen (tIPAddresses t) <= 128 ->
  strictPeer (verified c) at_ =
  if (0 <? tSerial t) && (tNotBefore t <=? at_) && (at_ <=? tNotAfter t) &&
     bool_decide (ExtKeyUsageClientAuth ∈ tExtKeyUsage t) && (tURIs t == [contractURI]) && (tDNSNames t == []) &&
     (tEmailAddresses t == []) && (tIPAddresses t == [])
  then ({| URI := contractURI; Fingerprint := hexEncode (Sha256.Sum256 (Raw c)); PeerSerial := Text16 (tSerial t) |}, None)
  else (noPeer, Some ErrCertificateRejected).
Proof.
  intros [Hp Hl] Hc Hz Hids. unfold strictPeer.
  assert (Hnil : hasNilURI (verified c) = false).
  { cbn. rewrite (ca_uris _ _ _ Hc). generalize (tURIs t). by induction l. }
  rewrite Hnil. unfold VerifiedPeer, verified, state_.
  rewrite (proj2 (validOptions_spec (clientAt at_))) by (split; [done|by left]). cbn [negb].
  rewrite bool_decide_true by done. cbn [negb].
  rewrite (proj2 (canonical_spec (Some c) c)) by eauto. cbn [mbind result_bind].
  pose proof (validLeaf_spec c (clientAt at_)) as Hleaf. unfold fresh_for in Hleaf.
  destruct Hc as [Hserial Hfrom Hto Huse Huri Hdns Hmail Hip _ _].
  rewrite Hserial, Hfrom, Hto, Huse in Hleaf. cbn [Now Usage DNSName clientAt] in Hleaf.
  destruct (validLeaf c (clientAt at_)) eqn:HV; cbn [negb].
  - apply proj1 in Hleaf. destruct (Hleaf eq_refl) as ((n & [= <-] & Hn) & [H1 H2] & Hu & _).
    rewrite (proj2 (Z.ltb_lt 0 _)), !(proj2 (Z.leb_le _ _)), bool_decide_true by done. cbn [andb].
    destruct (metadata c) as [m|e] eqn:HM.
    + apply metadata_spec in HM as (_ & Hf & Hs & _ & _ & Hmu & Hmd & Hme & Hmi).
      rewrite Huri in Hmu. apply (inj (map Some)) in Hmu. rewrite Hserial in Hs.
      unfold strictDeviceProfile. rewrite <- Hmu, Hmd, Hme, Hmi, Hdns, Hmail, Hip.
      case_bool_decide as Hone; [|done]. cbn [andb]. rewrite Hone. destruct (_ && _ && _); cbn [negb]; [|done].
      by rewrite Hf, Hs.
    + exfalso. assert (Hd : metadata c = Ok {| FingerprintSHA256 := hexEncode (Sha256.Sum256 (Raw c));
        Serial := Text16 (tSerial t); mNotBefore := tNotBefore t; mNotAfter := tNotAfter t; mURIs := tURIs t;
        mDNSNames := tDNSNames t; mEmailAddresses := tEmailAddresses t; mIPAddresses := tIPAddresses t |}); [|congruence].
      apply metadata_spec. unfold described. rewrite Huri, Hdns, Hmail, Hip, Hserial. cbn.
      unfold blen in *. rewrite length_map. by split_and!.
  - case_match eqn:Ht; [|done]. split_guards. exfalso. assert (false = true); [|done]. apply Hleaf.
    split_and!; [exists (tSerial t); split; [done|lia]|lia|lia|done|by left].
Qed.

(** *** Issued material *)

Lemma strictIssued_iff v at_ : strictIssued v at_ = None <->
  exists key leaf root pin public m, InputKey v = Some key /\ singleCertificate (CertificatePEM v) = Ok leaf /\
    singleCertificate (CAPEM v) = Ok root /\ IsCA root = true /\ pinOf v = Ok pin /\
    MarshalPKIXPublicKey (Public key) = Some public /\
    VerifyIssued (Some leaf) (issuedOptionsOf at_ root public pin) = Ok m /\
    strictDeviceProfile m = true /\ mNotAfter m = ExpiresAt v.
Proof.
  unfold strictIssued. split.
  - intros HS. destruct (InputKey v) as [key|]; [|done].
    destruct (singleCertificate (CertificatePEM v)) as [leaf|]; [|done].
    destruct (singleCertificate (CAPEM v)) as [root|]; [|done].
    destruct (IsCA root) eqn:Hca; cbn [negb] in HS; [|done]. destruct (pinOf v) as [pin|]; [|done].
    destruct (MarshalPKIXPublicKey (Public key)) as [public|] eqn:HM; [|done].
    destruct (VerifyIssued _ _) as [m|] eqn:HV; [|done].
    destruct (_ || _) eqn:Hg; [done|]. split_guards. exists key, leaf, root, pin, public, m. split_and!; try done. by apply Z.eqb_eq.
  - intros (key & leaf & root & pin & public & m & -> & -> & -> & -> & -> & -> & -> & -> & ->). cbn [negb].
    by rewrite Z.eqb_refl.
Qed.

(** PEM as documented: decoding finds the next block and returns the rest. *)
Record pemLaws : Prop := {
  pem_decode der rest : Decode (pemOf der ++ rest) = Some ("CERTIFICATE", der, rest);
  pem_newline der rest : Decode (newline ++ pemOf der ++ rest) = Some ("CERTIFICATE", der, rest);
  pem_text der : exists rest, pemOf der = bytes_of "-----BEGIN " ++ rest;
  pem_invalid : Decode (bytes_of "invalid") = None
}.

Lemma single_pem der c : pemLaws -> ParseCertificate der = Some c -> singleCertificate (pemOf der) = Ok c.
Proof.
  intros HL Hp. unfold singleCertificate. rewrite <- (app_nil_r (pemOf der)), (pem_decode HL), Hp. reflexivity.
Qed.

Lemma single_newlines der c : pemLaws -> ParseCertificate der = Some c ->
  singleCertificate (newline ++ pemOf der ++ newline) = Ok c.
Proof. intros HL Hp. unfold singleCertificate. rewrite (pem_newline HL), Hp. reflexivity. Qed.

Lemma single_invalid : pemLaws -> singleCertificate (bytes_of "invalid") = Err (Framework ErrInvalidInput).
Proof. intros HL. unfold singleCertificate. by rewrite (pem_invalid HL). Qed.

Lemma single_twice der der' : pemLaws -> singleCertificate (pemOf der ++ pemOf der') = Err (Framework ErrInvalidInput).
Proof.
  intros HL. unfold singleCertificate. rewrite (pem_decode HL). destruct (pem_text HL der') as [rest ->].
  assert (Hb : blank (bytes_of "-----BEGIN " ++ rest) = false); [|by rewrite Hb].
  unfold blank. apply bool_decide_eq_false_2. intros He.
  assert (Hin : "-"%char ∈ chars (TrimSpace (string_of (bytes_of "-----BEGIN " ++ rest)))).
  { apply TrimSpace_keeps; [by apply (bool_decide_eq_true_1 _)|]. left. }
  rewrite He in Hin. by apply elem_of_nil in Hin.
Qed.

(** A public key that survives its encoding, of moderate size. *)
Definition encodable (k : Key) : Prop := exists der, MarshalPKIXPublicKey k = Some der /\
  0 < blen der <= 2 ^ 20 /\ ParsePKIXPublicKey der = Some k.

Lemma encodable_inj k k' der : encodable k -> encodable k' -> MarshalPKIXPublicKey k = Some der ->
  MarshalPKIXPublicKey k' = Some der -> k = k'.
Proof. intros (d & Hd & _ & Hp) (d' & Hd' & _ & Hp') H1 H2. congruence. Qed.

(** What a chain check for the client usage is asked. *)
Definition clientChain root at_ : VerifyOptions CertPool :=
  {| vRoots := Some (CertPoolOf [root]); vIntermediates := None; CurrentTime := at_;
     KeyUsages := [ExtKeyUsageClientAuth]; vDNSName := "" |}.

Definition strictTemplate t : Prop :=
  tURIs t = [contractURI] /\ tDNSNames t = [] /\ tEmailAddresses t = [] /\ tIPAddresses t = [].

Definition fewNames t : Prop :=
  blen (tURIs t) + blen (tDNSNames t) + blen (tEmailAddresses t) + blen (tIPAddresses t) <= 128.

(** The profile of a described leaf is that of its template. *)
Lemma described_profile t k c m : carries t k c -> described c m ->
  (strictDeviceProfile m = true <-> strictTemplate t) /\ mNotAfter m = tNotAfter t.
Proof.
  intros Hc (_ & _ & _ & _ & Hto & Hu & Hd & He & Hi). destruct Hc. rewrite ca_uris0 in Hu. apply (inj (map Some)) in Hu.
  unfold strictDeviceProfile, strictTemplate. rewrite !andb_true_iff, !bool_decide_eq_true, <- Hu, Hd, He, Hi, Hto.
  rewrite ca_to0, ca_dns0, ca_mails0, ca_ips0. tauto.
Qed.

(** When the adapter accepts a genuine leaf under a root. *)
Lemma strictIssued_answer v t k leaf root pin key at_ : genuine leaf -> carries t k leaf -> fewNames t ->
  InputKey v = Some key -> encodable k -> encodable (Public key) ->
  singleCertificate (CertificatePEM v) = Ok leaf -> singleCertificate (CAPEM v) = Ok root -> pinOf v = Ok pin ->
  strictIssued v at_ = None <->
  (IsCA root = true /\ at_ <> zeroTime /\ 0 < tSerial t /\ tNotBefore t <= at_ <= tNotAfter t /\
   ExtKeyUsageClientAuth ∈ tExtKeyUsage t /\ Public key = k /\
   (exists chains, Verify leaf (clientChain root at_) = Some chains /\ pinned pin chains) /\
   strictTemplate t /\ tNotAfter t = ExpiresAt v).
Proof.
  intros [Hp Hl] Hc Hfew Hkey Hk Hk' Hleaf Hroot Hpin. rewrite strictIssued_iff. pose proof Hc as Hc'.
  destruct Hc as [Hserial Hfrom Hto Huse Huri Hdns Hmail Hip Hpk _]. split.
  - intros (key' & leaf' & root' & pin' & public & m & E1 & E2 & E3 & Hca & E5 & Hpub & HV & Hprof & Hexp).
    assert (key' = key /\ leaf' = leaf /\ root' = root /\ pin' = pin) as (-> & -> & -> & ->) by (split_and!; congruence).
    apply VerifyIssued_iff in HV
      as (c & l & expected & der & chains & [Hz _] & _ & _ & HP & HM & HA & [= <-] & _ & Hpc & Hf & HV & Hpin' & Hd).
    rewrite Hp in Hpc. injection Hpc as <-. cbn in *. destruct Hf as ((n & Hn & Hpos) & Hb & Hu & _).
    rewrite Hserial in Hn. injection Hn as <-. rewrite Hfrom, Hto in Hb. rewrite Huse in Hu.
    destruct (described_profile _ _ _ _ Hc' Hd) as [Hstrict Hm]. rewrite Hstrict in Hprof.
    pose proof Hk' as (pub & Hmar & _ & Hpar). rewrite Hpub in Hmar. injection Hmar as <-. rewrite HP in Hpar.
    injection Hpar as ->. split_and!; try done; [apply Hb|apply Hb| |by exists chains|congruence].
    apply (encodable_inj _ _ der); [done|done|done|congruence].
  - intros (Hca & Hz & Hpos & Hb & Hu & Heq & (chains & HV & Hpin') & Hstrict & Hexp).
    pose proof Hk' as (public & Hmar & Hlen & Hpar).
    set (m := {| FingerprintSHA256 := hexEncode (Sha256.Sum256 (Raw leaf)); Serial := Text16 (tSerial t);
      mNotBefore := tNotBefore t; mNotAfter := tNotAfter t; mURIs := tURIs t; mDNSNames := tDNSNames t;
      mEmailAddresses := tEmailAddresses t; mIPAddresses := tIPAddresses t |}).
    assert (Hd : described leaf m).
    { unfold described. rewrite Huri, Hdns, Hmail, Hip, Hserial. unfold fewNames, blen in *. cbn. rewrite length_map.
      by split_and!. }
    exists key, leaf, root, pin, public, m. split_and!; try done; [|by apply (described_profile _ _ _ _ Hc' Hd)].
    apply VerifyIssued_iff. exists leaf, leaf, (Public key), public, chains.
    assert (Hf : fresh_for leaf (clientAt at_)).
    { unfold fresh_for. rewrite Hserial, Hfrom, Hto, Huse. cbn. split_and!; eauto; lia. }
    assert (Hus : usable (clientAt at_)) by (split; [done|by left]).
    rewrite Hpk, <- Heq. cbn. split_and!; try done; lia.
Qed.

End facts.
End ContractCorrect.

(** ** Properties *)

Module ContractProperties.
Import Contract CertificatesCorrect ContractCorrect.

Section peer.
Context `{Issuer}.

(** The calls of [issue] in a run of [RunPeer]. *)
Definition peerIssues : list (nat * (Template -> Template)) :=
  [(0%nat, id); (1%nat, mixedEKUs); (2%nat, id)] ++ imap (fun i tc => ((3 + i)%nat, snd tc)) peerMutations.

(** The set-up of [RunPeer] behaves as documented: the URI parses to itself, every
    certificate of the suite can be created and parses back to its template, and
    two draws of a key differ. *)
Record peerIssuing (uri : string) : Prop := {
  pi_url : ParseURL uri = Some uri;
  pi_created n mutate : (n, mutate) ∈ peerIssues -> exists key c,
    GenerateKey n = Some key /\ creates n (mutate (deviceTemplate uri)) None (Public key) key c;
  pi_distinct k0 k2 : GenerateKey 0 = Some k0 -> GenerateKey 2 = Some k2 -> Public k0 <> Public k2
}.

Lemma issuePeer_spec uri n mutate : peerIssuing uri -> (n, mutate) ∈ peerIssues ->
  exists key c, issuePeer uri n mutate = Some c /\ GenerateKey n = Some key /\ genuine c /\
    carries (mutate (deviceTemplate uri)) (Public key) c.
Proof.
  intros Hi Hin. destruct (pi_created _ Hi n mutate Hin) as (key & c & Hk & Hc). exists key, c.
  pose proof (creates_genuine _ _ _ _ _ _ Hc) as [Hg Hca]. destruct Hc as (der & Hd & Hp & _).
  unfold issuePeer. rewrite Hk. cbn [mbind option_bind]. rewrite (pi_url _ Hi). cbn [mbind option_bind].
  by rewrite Hd.
Qed.

(** One answer of the adapter to a genuine certificate of the suite. *)
Ltac peer_case Hg Hc := rewrite (strictPeer_verified _ _ _ _ Hg Hc); [vm_compute; reflexivity|discriminate|discriminate].

Lemma mutations_refused : peerIssuing contractURI ->
  Forall (fun r : string * bool => snd r = true)
    (imap (fun i tc => (fst tc, match issuePeer contractURI (3 + i) (snd tc) with
                                | Some c => refused (strictPeer (verified c) now)
                                | None => false
                                end)) peerMutations).
Proof.
  intros Hi. apply Forall_lookup. intros i r. rewrite list_lookup_imap.
  destruct (peerMutations !! i) as [[name f]|] eqn:Hf; [|done]. intros [= <-]. cbn [fst snd].
  destruct (issuePeer_spec contractURI (3 + i) f Hi) as (key & c & Hiss & _ & Hg & Hc).
  { apply elem_of_app. right. apply elem_of_lookup_imap. by exists i, (name, f). }
  cbn [Nat.add] in Hiss |- *. rewrite Hiss. clear Hiss.
  do 10 (destruct i as [|i]; [injection Hf as <- <-; peer_case Hg Hc|]). done.
Qed.

(** Whatever the verifier refuses, the adapter refuses without a partial
    identity. *)
Lemma strictPeer_refused s t : (forall m, VerifiedPeer s (clientAt t) <> Ok m) -> refused (strictPeer s t) = true.
Proof.
  intros Hr. unfold strictPeer. destruct (hasNilURI s); [done|].
  destruct (VerifiedPeer s (clientAt t)) as [m|e]; [by destruct (Hr m)|done].
Qed.

Lemma invalid_states_refused valid different t k t' k' : genuine valid -> carries t k valid ->
  genuine different -> carries t' k' different -> k <> k' ->
  Forall (fun tc : string * option ConnectionState * time => refused (strictPeer (snd (fst tc)) (snd tc)) = true)
      [("missing state", None, now); ("missing leaf", state_ [] [], now);
       ("unverified leaf", state_ [Some valid] [], now);
       ("empty verified chain", state_ [Some valid] [[]], now);
       ("different verified leaf", state_ [Some valid] [[Some different]], now);
       ("nil peer leaf", state_ [None] [[Some valid]], now);
       ("nil verified leaf", state_ [Some valid] [[None]], now);
       ("zero time", verified valid, zeroTime);
       ("before validity", verified valid, Add (NotBefore valid) (- 1));
       ("after validity", verified valid, Add (NotAfter valid) 1)].
Proof.
  intros [Hp _] Hc [Hp' _] Hc' Hk.
  repeat (apply Forall_cons; split; [cbn [fst snd]; apply strictPeer_refused; intros m HV;
    apply CertificatesProperties.VerifiedPeer_exact in HV
      as ([Hz _] & s & peer & peers & ver & ch & chs & leaf & Hs & Hps & Hvs & Hraw & _ & Hpar & Hf & _);
    cbn in Hz; injection Hs as <- || discriminate Hs; cbn in Hps, Hvs; simplify_eq|]); [| | |constructor].
  - apply Hk. rewrite Hraw, Hp' in Hp. rewrite <- (ca_key _ _ _ Hc), <- (ca_key _ _ _ Hc'). congruence.
  - destruct Hf as (_ & Hb & _). cbn in Hb. unfold Add in Hb. lia.
  - destruct Hf as (_ & Hb & _). cbn in Hb. unfold Add in Hb. lia.
Qed.

(** The framework's verifier meets the peer contract: with the strict
    consumer adapter, every case of [RunPeer] passes for every key and every
    certificate that issuing may produce.  The verified leaf is projected to its
    URI, serial and fingerprint; validity includes both its ends to the
    nanosecond; missing, unverified, different or nil evidence, a missing clock,
    wrong usages, extra or missing identities and a zero serial are refused, and
    never with a partial identity. *)
Theorem RunPeer_passes : peerIssuing contractURI ->
  exists results, RunPeer strictPeer contractURI = Some results /\ Forall (fun r => snd r = true) results.
Proof.
  intros Hi. unfold RunPeer.
  destruct (issuePeer_spec contractURI 0 id Hi ltac:(left)) as (k0 & valid & -> & Hk0 & Hg & Hc).
  destruct (issuePeer_spec contractURI 2 id Hi ltac:(right; right; left)) as (k2 & different & -> & Hk2 & Hg2 & Hc2).
  destruct (issuePeer_spec contractURI 1 mixedEKUs Hi ltac:(right; left)) as (k1 & mixed & -> & _ & Hg1 & Hc1).
  cbn [mbind option_bind]. eexists. split; [reflexivity|].
  rewrite !Forall_app. split_and!.
  - constructor; [|constructor; [|constructor]]; cbn [snd].
    + rewrite (strictPeer_verified _ _ _ _ Hg Hc) by discriminate.
      lazymatch goal with |- (let '(_, _) := if ?b then _ else _ in _) = true => replace b with true by reflexivity end.
      cbn [URI Fingerprint PeerSerial]. by rewrite !bool_decide_true.
    + peer_case Hg1 Hc1.
  - rewrite (ca_from _ _ _ Hc), (ca_to _ _ _ Hc). constructor; [|constructor; [|constructor]]; cbn [snd]; peer_case Hg Hc.
  - apply Forall_map. apply (invalid_states_refused valid different _ _ _ _ Hg Hc Hg2 Hc2).
    by apply (pi_distinct _ Hi).
  - by apply mutations_refused.
  - constructor; [reflexivity|constructor].
Qed.
End peer.

(** *** Issued material *)

(** The leaves a run of [RunIssued] creates. *)
Definition issuedIssues : list (nat * (Template -> Template)) :=
  [(1%nat, id); (4%nat, mixedEKUs)] ++ imap (fun i tc => ((5 + i)%nat, snd tc)) leafMutations.

(** The keys and authorities of a run. *)
Record authority `{Issuer} := {
  aKey : PrivateKey; aCAKey : PrivateKey; aOtherKey : PrivateKey; aWrongKey : PrivateKey;
  aRoot : Certificate Key; aOther : Certificate Key; aExpired : Certificate Key
}.

Section issued.
Context `{Issuer} (a : authority) (uri : string).

Definition createsLeaf (n : nat) (mutate : Template -> Template) (c : Certificate Key) : Prop :=
  creates n (mutate (deviceTemplate uri)) (Some (aRoot a)) (Public (aKey a)) (aCAKey a) c.

(** The extended key usages with which [x509.Certificate.Verify] accepts a certificate
    for a client: no such extension at all, any usage, or the usage itself. *)
Definition clientUsages (us : list ExtKeyUsage) : Prop :=
  us = [] \/ ExtKeyUsageAny ∈ us \/ ExtKeyUsageClientAuth ∈ us.

(** The set-up of [RunIssued] behaves as documented: keys are drawn and differ,
    certificates can be created and parse back, PEM blocks decode; asked at a time
    other than the zero one, for which it would take the current time, [Verify] chains
    a leaf signed by the CA key to a single root exactly when that root has the CA key,
    is an authority, both are in their validity period, and the leaf's usages are
    acceptable for a client; and the digests of the leaf and the root differ. *)
Record issuedIssuing : Prop := {
  is_url : ParseURL uri = Some uri;
  is_draws : GenerateKey 0 = Some (aKey a) /\ GenerateKey 1 = Some (aCAKey a) /\ GenerateKey 2 = Some (aOtherKey a) /\
    GenerateKey 3 = Some (aWrongKey a);
  is_encodable k : k ∈ [aKey a; aWrongKey a] -> encodable (Public k);
  is_wrong : Public (aWrongKey a) <> Public (aKey a);
  is_other : Public (aOtherKey a) <> Public (aCAKey a);
  is_root : creates 0 rootTemplate None (Public (aCAKey a)) (aCAKey a) (aRoot a);
  is_otherCA : creates 2 rootTemplate None (Public (aOtherKey a)) (aOtherKey a) (aOther a);
  is_expired : creates 3 expiredTemplate None (Public (aCAKey a)) (aCAKey a) (aExpired a);
  is_leaf n mutate : (n, mutate) ∈ issuedIssues -> exists c, createsLeaf n mutate c;
  is_pem : pemLaws;
  is_verify n mutate c r at_ : (n, mutate) ∈ issuedIssues -> createsLeaf n mutate c ->
    r ∈ [aRoot a; aOther a; aExpired a] -> at_ <> zeroTime ->
    let chainable := PublicKey r = Public (aCAKey a) /\ IsCA r = true /\ NotBefore r <= at_ <= NotAfter r /\
      NotBefore c <= at_ <= NotAfter c /\ clientUsages (ExtKeyUsages c) in
    match Verify c (clientChain r at_) with
    | Some chains => chainable /\ chains <> [] /\ forall chain, chain ∈ chains -> last chain = Some r
    | None => ~ chainable
    end;
  is_digest c : createsLeaf 1 id c -> Sha256.Sum256 (Raw c) <> Sha256.Sum256 (Raw (aRoot a))
}.

Hypothesis Hi : issuedIssuing.

(** The answer to a leaf of the run under one of its roots. *)
Lemma issued_answer n mutate c v r pin key at_ : (n, mutate) ∈ issuedIssues -> createsLeaf n mutate c ->
  r ∈ [aRoot a; aOther a; aExpired a] -> fewNames (mutate (deviceTemplate uri)) ->
  key ∈ [aKey a; aWrongKey a] -> InputKey v = Some key ->
  singleCertificate (CertificatePEM v) = Ok c -> singleCertificate (CAPEM v) = Ok r -> pinOf v = Ok pin ->
  let t := mutate (deviceTemplate uri) in
  strictIssued v at_ = None <->
  (at_ <> zeroTime /\ 0 < tSerial t /\ tNotBefore t <= at_ <= tNotAfter t /\
   ExtKeyUsageClientAuth ∈ tExtKeyUsage t /\ Public key = Public (aKey a) /\
   PublicKey r = Public (aCAKey a) /\ IsCA r = true /\ NotBefore r <= at_ <= NotAfter r /\
   (forall p, pin = Some p -> 0 < blen (Raw p) <= 2 ^ 20 /\ is_Some (ParseCertificate (Raw p)) /\
      Sha256.Sum256 (Raw r) = Sha256.Sum256 (Raw p)) /\
   strictTemplate t /\ tNotAfter t = ExpiresAt v).
Proof.
  intros Hn Hc Hr Hfew Hk Hkey Hleaf Hroot Hpin t. destruct (creates_genuine _ _ _ _ _ _ Hc) as [Hg Hca].
  rewrite (strictIssued_answer v t (Public (aKey a)) c r pin key at_ Hg Hca Hfew Hkey (is_encodable Hi _ ltac:(left))
    (is_encodable Hi _ Hk) Hleaf Hroot Hpin).
  destruct (decide (at_ = zeroTime)) as [Hz|Hz]; [naive_solver|].
  assert (Hus : ExtKeyUsageClientAuth ∈ tExtKeyUsage t -> clientUsages (tExtKeyUsage t)) by (intros ?; by do 2 right).
  pose proof (is_verify Hi n mutate c r at_ Hn Hc Hr Hz) as HV. cbv zeta in HV.
  rewrite (ca_from _ _ _ Hca), (ca_to _ _ _ Hca), (ca_usages _ _ _ Hca) in HV. fold t in HV. unfold pinned.
  destruct (Verify c (clientChain r at_)) as [chains|].
  - destruct HV as [Hch [Hne Hlast]]. destruct chains as [|chain chains]; [done|].
    assert (Hpins : forall p : Certificate Key, (exists ch root, ch ∈ chain :: chains /\ last ch = Some root /\
      Sha256.Sum256 (Raw root) = Sha256.Sum256 (Raw p)) <-> Sha256.Sum256 (Raw r) = Sha256.Sum256 (Raw p)).
    { intros p. split; [intros (ch & root & Hin & Hl & <-); rewrite (Hlast _ Hin) in Hl; by injection Hl as <-|].
      intros He. exists chain, r. split; [left|]. split; [apply Hlast; left|done]. }
    setoid_rewrite <- Hpins. naive_solver.
  - naive_solver.
Qed.

Lemma pinOf_single v raw c : PinnedCAPEM v = raw -> raw <> [] -> singleCertificate raw = Ok c -> pinOf v = Ok (Some c).
Proof. intros <- Hne Hs. unfold pinOf. destruct (PinnedCAPEM v); [done|]. by rewrite Hs. Qed.

(** The material of a leaf decodes to it, its root and its pin. *)
Lemma pinOf_pem v der c : PinnedCAPEM v = pemOf der -> ParseCertificate der = Some c -> pinOf v = Ok (Some c).
Proof.
  intros Hv Hp. apply (pinOf_single v (pemOf der)); [done| |by apply single_pem; [apply Hi|]].
  destruct (pem_text (is_pem Hi) der) as [rest ->]. done.
Qed.

Lemma root_facts : PublicKey (aRoot a) = Public (aCAKey a) /\ IsCA (aRoot a) = true /\
  NotBefore (aRoot a) = tNotBefore rootTemplate /\ NotAfter (aRoot a) = tNotAfter rootTemplate /\
  ParseCertificate (Raw (aRoot a)) = Some (aRoot a) /\ 0 < blen (Raw (aRoot a)) <= 2 ^ 20.
Proof. destruct (creates_genuine _ _ _ _ _ _ (is_root Hi)) as [[Hp Hl] []]. split_and!; try done; apply Hl. Qed.

Lemma root_window : tNotBefore rootTemplate <= Add now (- Hour) /\ Add now Hour <= tNotAfter rootTemplate.
Proof. split; vm_compute; discriminate. Qed.

Lemma issued_accepted n mutate c v pin at_ : (n, mutate) ∈ [(1%nat, id); (4%nat, mixedEKUs)] -> uri = contractURI ->
  createsLeaf n mutate c -> InputKey v = Some (aKey a) -> singleCertificate (CertificatePEM v) = Ok c ->
  singleCertificate (CAPEM v) = Ok (aRoot a) -> pinOf v = Ok pin -> pin = None \/ pin = Some (aRoot a) ->
  ExpiresAt v = Add now Hour -> at_ ∈ [now; Add now (- Hour); Add now Hour] -> passed (strictIssued v at_) = true.
Proof.
  intros Hn Hu Hc Hk Hleaf Hroot Hpin Hpins Hexp Hat. destruct root_facts as (R1 & R2 & R3 & R4 & R5 & R6).
  assert (Hw : Add now (- Hour) <= at_ <= Add now Hour).
  { repeat (apply elem_of_cons in Hat as [->|Hat]; [split; vm_compute; discriminate|]). by apply elem_of_nil in Hat. }
  assert (Hnz : at_ <> zeroTime) by (intros ->; vm_compute in Hw; destruct Hw as [Hw _]; by apply Hw).
  assert (Hsome : strictIssued v at_ = None); [|by rewrite Hsome].
  assert (Hm : mutate (deviceTemplate uri) = deviceTemplate uri \/
    mutate (deviceTemplate uri) = mixedEKUs (deviceTemplate uri)).
  { apply elem_of_cons in Hn as [[= -> ->]|Hn]; [by left|]. apply elem_of_cons in Hn as [[= -> ->]|Hn]; [by right|].
    by apply elem_of_nil in Hn. }
  assert (Hin : (n, mutate) ∈ issuedIssues) by (apply elem_of_app; by left).
  assert (Hfew : fewNames (mutate (deviceTemplate uri))) by (destruct Hm as [->| ->]; vm_compute; discriminate).
  apply (issued_answer n mutate c v (aRoot a) pin (aKey a) at_ Hin Hc ltac:(left) Hfew ltac:(left) Hk Hleaf Hroot Hpin).
  rewrite R1, R2, R3, R4, Hexp. pose proof root_window as [W1 W2]. clear Hi Hc Hk Hleaf Hroot Hat Hfew Hin.
  assert (HT : forall P : Template -> Prop, P (deviceTemplate uri) -> P (mixedEKUs (deviceTemplate uri)) ->
    P (mutate (deviceTemplate uri))) by (intros P P1 P2; by destruct Hm as [->| ->]).
  split; [exact Hnz|]. split; [by apply HT|]. split; [apply HT; exact Hw|]. split; [apply HT; left|].
  do 3 (split; [done|]). split; [lia|]. split; [|apply HT; by rewrite Hu].
  intros p ->. destruct Hpins as [[=]|[= ->]]. split; [exact R6|]. split; [by eexists|done].
Qed.

Lemma createsLeaf_raw n mutate c : createsLeaf n mutate c ->
  singleCertificate (pemOf (Raw c)) = Ok c /\ ParseCertificate (Raw c) = Some c /\ IsCA c = tIsCA (mutate (deviceTemplate uri)).
Proof.
  intros Hc. destruct (creates_genuine _ _ _ _ _ _ Hc) as [[Hp _] Hca]. split; [by apply single_pem; [apply Hi|]|].
  split; [done|]. by destruct Hca.
Qed.

Lemma refused_case v at_ : strictIssued v at_ <> None -> refusedCase strictIssued (Some v) at_ = true.
Proof. intros Hn. cbn. by destruct (strictIssued v at_). Qed.

(** Input that does not decode, or without a key, is refused. *)
Lemma undecodable_refused v at_ :
  InputKey v = None \/ (exists e, singleCertificate (CertificatePEM v) = Err e) \/
  (exists e, singleCertificate (CAPEM v) = Err e) \/ (exists root, singleCertificate (CAPEM v) = Ok root /\ IsCA root = false) ->
  refusedCase strictIssued (Some v) at_ = true.
Proof.
  intros Hb. apply refused_case.
  intros (key & leaf & root & pin & public & m & E1 & E2 & E3 & E4 & _)%strictIssued_iff.
  destruct Hb as [Hb|[[e Hb]|[[e Hb]|(root' & Hb & Hca)]]]; congruence.
Qed.

(** The valid material of a run, changed in one way. *)
Lemma changed_refused c v r pin key : createsLeaf 1 id c -> r ∈ [aRoot a; aOther a; aExpired a] ->
  key ∈ [aKey a; aWrongKey a] -> InputKey v = Some key -> singleCertificate (CertificatePEM v) = Ok c ->
  singleCertificate (CAPEM v) = Ok r -> pinOf v = Ok pin ->
  Public key <> Public (aKey a) \/ PublicKey r <> Public (aCAKey a) \/ NotAfter r < now \/
  (exists p, pin = Some p /\ Sha256.Sum256 (Raw r) <> Sha256.Sum256 (Raw p)) \/ ExpiresAt v <> Add now Hour ->
  refusedCase strictIssued (Some v) now = true.
Proof.
  intros Hc Hr Hkin Hk Hleaf Hroot Hpin Hbad. apply refused_case.
  intros (_ & _ & _ & _ & B1 & B2 & _ & B3 & B4 & _ & B5)%(issued_answer 1 id c v r pin key now ltac:(left) Hc Hr
    ltac:(vm_compute; discriminate) Hkin Hk Hleaf Hroot Hpin).
  destruct Hbad as [Hb|[Hb|[Hb|[(p & Hb & Hd)|Hb]]]]; [done|done|lia|by apply B4 in Hb as (_ & _ & Hb)|by apply Hb].
Qed.

Lemma input_mutations_refused c : createsLeaf 1 id c ->
  Forall (fun tc => refusedCase strictIssued
      (snd tc (material (Raw (aRoot a)) (Raw c) (aKey a) (deviceTemplate uri))) now = true)
    (inputMutations (pemOf (Raw (aOther a))) (pemOf (Raw (aExpired a)))).
Proof.
  intros Hc. destruct (createsLeaf_raw 1 id c Hc) as (Hleaf & Hpc & Hca). destruct root_facts as (R1 & _ & _ & _ & R5 & _).
  pose proof (is_pem Hi) as HP. pose proof (single_pem _ _ HP R5) as Hroot.
  destruct (creates_genuine _ _ _ _ _ _ (is_otherCA Hi)) as [[Ho _] Hoc].
  destruct (creates_genuine _ _ _ _ _ _ (is_expired Hi)) as [[He _] Hec].
  destruct (is_draws Hi) as (_ & _ & _ & Hw).
  repeat (apply Forall_cons; split); [..|constructor]; cbn [snd].
  - rewrite Hw. cbn [mbind option_bind]. apply (changed_refused c _ (aRoot a) (Some (aRoot a)) (aWrongKey a)); try done;
      [left|right; left|by apply (pinOf_pem _ (Raw (aRoot a)))|]. left. apply (is_wrong Hi).
  - apply undecodable_refused. by left.
  - apply (changed_refused c _ (aRoot a) (Some c) (aKey a)); try done; [left|left|by apply (pinOf_pem _ (Raw c))|].
    do 3 right. left. exists c. split; [done|]. intros Heq. by apply (is_digest Hi c).
  - apply (changed_refused c _ (aOther a) None (aKey a)); try done; [right; left|left|by apply single_pem|].
    right. left. rewrite (ca_key _ _ _ Hoc). apply (is_other Hi).
  - apply (changed_refused c _ (aExpired a) None (aKey a)); try done; [right; right; left|left|by apply single_pem|].
    do 2 right. left. rewrite (ca_to _ _ _ Hec). vm_compute. reflexivity.
  - apply undecodable_refused. do 3 right. exists c. split; [exact Hleaf|exact Hca].
  - apply undecodable_refused. right. left. eexists. apply (single_invalid HP).
  - apply undecodable_refused. do 2 right. left. eexists. apply (single_invalid HP).
  - apply undecodable_refused. right. left. eexists. apply (single_twice _ _ HP).
  - apply undecodable_refused. do 2 right. left. eexists. apply (single_twice _ _ HP).
  - apply (changed_refused c _ (aRoot a) (Some (aRoot a)) (aKey a)); try done;
      [left|left|by apply (pinOf_pem _ (Raw (aRoot a)))|]. do 4 right. vm_compute. discriminate.
Qed.

(** The material of the [n]-th leaf. *)
Lemma issueLeaf_spec n mutate c rootDER : createsLeaf n mutate c ->
  issueLeaf uri (aKey a) (aCAKey a) rootDER (aRoot a) n mutate =
    Some (material rootDER (Raw c) (aKey a) (mutate (deviceTemplate uri))).
Proof.
  intros (der & Hd & Hp & _). unfold issueLeaf. rewrite Hd. cbn [mbind option_bind].
  by rewrite (Parse_Raw _ _ Hp).
Qed.

(** A leaf of the run in its own material, at any time. *)
Lemma leaf_refused n mutate c at_ : (n, mutate) ∈ issuedIssues -> createsLeaf n mutate c ->
  let t := mutate (deviceTemplate uri) in
  fewNames t -> at_ = zeroTime \/ at_ < tNotBefore t \/ tNotAfter t < at_ \/
    ExtKeyUsageClientAuth ∉ tExtKeyUsage t \/ ~ strictTemplate t ->
  refusedCase strictIssued (Some (material (Raw (aRoot a)) (Raw c) (aKey a) t)) at_ = true.
Proof.
  intros Hn Hc t Hfew Hbad. destruct (createsLeaf_raw n mutate c Hc) as (Hleaf & _ & _).
  destruct root_facts as (_ & _ & _ & _ & R5 & _). apply refused_case.
  set (v := material (Raw (aRoot a)) (Raw c) (aKey a) t).
  intros (B1 & _ & B2 & B3 & _ & _ & _ & _ & _ & B4 & _)%(issued_answer n mutate c v (aRoot a) (Some (aRoot a))
    (aKey a) at_ Hn Hc ltac:(left) Hfew ltac:(left) eq_refl Hleaf (single_pem _ _ (is_pem Hi) R5)
    (pinOf_pem v (Raw (aRoot a)) _ eq_refl R5)).
  fold t in B2, B3, B4. destruct Hbad as [Hb|[Hb|[Hb|[Hb|Hb]]]]; [done|lia|lia|done|done].
Qed.

Lemma leaf_mutations_refused : uri = contractURI ->
  Forall (fun r : string * bool => snd r = true)
    (imap (fun i tc => (fst tc, refusedCase strictIssued
      (issueLeaf uri (aKey a) (aCAKey a) (Raw (aRoot a)) (aRoot a) (5 + i) (snd tc)) now)) leafMutations).
Proof.
  intros Hu. apply Forall_lookup. intros i r. rewrite list_lookup_imap.
  destruct (leafMutations !! i) as [[name f]|] eqn:Hf; [|done]. intros [= <-]. cbn [fst snd].
  assert (Hn : ((5 + i)%nat, f) ∈ issuedIssues).
  { apply elem_of_app. right. apply elem_of_lookup_imap. by exists i, (name, f). }
  destruct (is_leaf Hi _ _ Hn) as [c Hc]. pose proof (issueLeaf_spec _ _ _ (Raw (aRoot a)) Hc) as Hiss.
  cbn [Nat.add] in Hiss |- *. rewrite Hiss. apply (leaf_refused (5 + i) f c now Hn Hc).
  - do 4 (destruct i as [|i]; [injection Hf as <- <-; vm_compute; discriminate|]). done.
  - do 3 right. destruct i as [|[|[|[|i]]]]; [injection Hf as <- <-..|done].
    + left. by apply (bool_decide_eq_true_1 _).
    + left. by apply (bool_decide_eq_true_1 _).
    + right. by intros [[=] _].
    + right. by intros (_ & [=] & _).
Qed.
End issued.

(** C31.  The framework's verifier meets the contract for issued material: with the
    strict consumer adapter, every case of [RunIssued] passes for every key,
    certificate and PEM encoding that issuing may produce.  Pinned and
    bootstrapped material is accepted, at both ends of its validity too, whatever
    the layout of the pin's PEM; a wrong or missing key, another or expired root,
    a leaf as root, another pin, malformed or extra blocks, wrong expiry metadata,
    a clock outside the validity and wrong usages or identities are refused; so is the
    leaf without any extended key usage, which Go's own verifier would accept. *)
Theorem RunIssued_passes `{Issuer} (a : authority) : issuedIssuing a contractURI ->
  exists results, RunIssued strictIssued contractURI = Some results /\ Forall (fun r => snd r = true) results.
Proof.
  intros Hi. unfold RunIssued. destruct (is_draws _ _ Hi) as (-> & -> & -> & _). cbn [mbind option_bind].
  rewrite (is_url _ _ Hi). cbn [mbind option_bind].
  destruct (is_root _ _ Hi) as (rootDER & -> & Hroot & _). cbn [mbind option_bind]. rewrite Hroot.
  cbn [mbind option_bind]. pose proof (Parse_Raw _ _ Hroot) as <-.
  destruct (is_leaf _ _ Hi 1%nat id ltac:(left)) as [c Hc]. destruct (is_leaf _ _ Hi 4%nat mixedEKUs ltac:(right; left)) as [c4 Hc4].
  rewrite (issueLeaf_spec a contractURI 1 id c _ Hc), (issueLeaf_spec a contractURI 4 mixedEKUs c4 _ Hc4).
  cbn [mbind option_bind]. destruct (is_otherCA _ _ Hi) as (otherDER & -> & Hother & _). cbn [mbind option_bind].
  destruct (is_expired _ _ Hi) as (expiredDER & -> & Hexpired & _). cbn [mbind option_bind].
  pose proof (Parse_Raw _ _ Hother) as <-. pose proof (Parse_Raw _ _ Hexpired) as <-.
  eexists. split; [reflexivity|].
  destruct (createsLeaf_raw a contractURI Hi 1 id c Hc) as (Hleaf & Hp & _).
  destruct (createsLeaf_raw a contractURI Hi 4 mixedEKUs c4 Hc4) as (Hleaf4 & _ & _).
  pose proof (single_pem _ _ (is_pem _ _ Hi) Hroot) as HrootS.
  pose proof (fun v Hv => pinOf_pem a contractURI Hi v (Raw (aRoot a)) _ Hv Hroot) as Hpin.
  rewrite !Forall_app. split_and!.
  - constructor; [|constructor]. apply (issued_accepted a contractURI Hi 1 id c _ (Some (aRoot a))); try done;
      [left|by apply Hpin|by right|left].
  - constructor; [|constructor; [|constructor]]; (apply (issued_accepted a contractURI Hi 1 id c _ (Some (aRoot a))); try done;
      [left|by apply Hpin|by right|]); [right; left|right; right; left].
  - constructor; [|constructor; [|constructor]]; cbn [snd].
    + apply (issued_accepted a contractURI Hi 4 mixedEKUs c4 _ (Some (aRoot a))); try done;
        [right; left|by apply Hpin|by right|left].
    + apply (issued_accepted a contractURI Hi 1 id c _ None); try done; [left|by left|left].
  - apply Forall_map. repeat (apply Forall_cons; split); [..|constructor]; cbn [snd];
      (apply (leaf_refused a contractURI Hi 1 id c _ ltac:(left) Hc); [vm_compute; discriminate|]); auto.
    + right. left. vm_compute. reflexivity.
    + do 2 right. left. vm_compute. reflexivity.
  - apply Forall_map. by apply input_mutations_refused.
  - by apply leaf_mutations_refused.
  - constructor; [|constructor]. apply (issued_accepted a contractURI Hi 1 id c _ (Some (aRoot a))); try done;
      [left| |by right|left]. by eapply pinOf_single; [| |apply (single_newlines _ _ (is_pem _ _ Hi) Hroot)].
Qed.

(** *** Evaluations *)

(** A toy authority: keys are numbers, a DER is the number of its draw, and a
    table says what was created in which draw and for which key; a leaf chains to
    a root with key 1. *)
Definition toyBuild (b : byte) (t : Template) (k : nat) : Certificate nat :=
  {| Raw := [b]; SerialNumber := Some (tSerial t); NotBefore := tNotBefore t; NotAfter := tNotAfter t;
     ExtKeyUsages := tExtKeyUsage t; URIs := map Some (tURIs t); DNSNames := tDNSNames t;
     EmailAddresses := tEmailAddresses t; IPAddresses := tIPAddresses t; PublicKey := k; IsCA := tIsCA t |}.

Definition toyParse (table : list (Template * nat)) (der : list byte) : option (Certificate nat) :=
  match der with
  | [b] => tk ← table !! Z.to_nat (bval b); Some (toyBuild b (fst tk) (snd tk))
  | _ => None
  end.

Lemma toyParse_Raw table der c : toyParse table der = Some c -> Raw c = der.
Proof.
  destruct der as [|b [|]]; cbn [toyParse]; try done. destruct (table !! _) as [tk|]; cbn; [|done]. by intros [= <-].
Qed.

#[local] Instance clientUsages_dec us : Decision (clientUsages us).
Proof. unfold clientUsages. apply _. Defined.

Definition toyVerify (c : Certificate nat) (o : VerifyOptions (list (Certificate nat)))
    : option (list (list (Certificate nat))) :=
  let at_ := if IsZero (CurrentTime o) then now else CurrentTime o in
  match vRoots o with
  | Some [r] =>
      if bool_decide (PublicKey r = 1%nat /\ IsCA r = true /\ NotBefore r <= at_ <= NotAfter r /\
           NotBefore c <= at_ <= NotAfter c /\ clientUsages (ExtKeyUsages c))
      then Some [[c; r]] else None
  | _ => None
  end.

#[local] Instance toyX509 (table : list (Template * nat)) : X509 :=
  {| Key := nat; CertPool := list (Certificate nat); ParseCertificate := toyParse table;
     ParsePKIXPublicKey := fun der => Z.to_nat ∘ bval <$> head der;
     MarshalPKIXPublicKey := fun k => Some [byte_of (Z.of_nat k)];
     Verify := toyVerify; VerifyHostname := fun _ _ => false; Parse_Raw := toyParse_Raw table |}.

(** A PEM block: each byte behind a 1, and a 0 at the end. *)
Fixpoint toyBody (der : list byte) : list byte :=
  match der with [] => [Byte.x00] | b :: der => Byte.x01 :: b :: toyBody der end.
Fixpoint toyRead (l : list byte) : option (list byte * list byte) :=
  match l with
  | Byte.x00 :: rest => Some ([], rest)
  | Byte.x01 :: b :: l => dr ← toyRead l; Some (b :: fst dr, snd dr)
  | _ => None
  end.
Definition toyDecode (l : list byte) : option (string * list byte * list byte) :=
  let l := match l with Byte.x0a :: l => l | _ => l end in
  if take 11 l == bytes_of "-----BEGIN " then dr ← toyRead (drop 11 l); Some ("CERTIFICATE", fst dr, snd dr) else None.

Lemma toyRead_body der rest : toyRead (toyBody der ++ rest) = Some (der, rest).
Proof. induction der as [|b der IH]; [done|]. cbn. by rewrite IH. Qed.

#[local] Instance toyIssuer (table : list (Template * nat)) : @Issuer (toyX509 table) :=
  {| PrivateKey := nat; Public := fun k => k : @Key (toyX509 table); GenerateKey := Some;
     CreateCertificate := fun n _ _ _ _ => Some [byte_of (Z.of_nat n)]; ParseURL := Some;
     EncodeToMemory := fun _ der => bytes_of "-----BEGIN " ++ toyBody der; Decode := toyDecode;
     CertPoolOf := fun cs => cs; FormatRFC3339 := fun _ => "" |}.

Definition peerTable : list (Template * nat) :=
  map (fun nm => (snd nm (deviceTemplate contractURI), fst nm)) peerIssues.

Lemma toy_peerIssuing : @peerIssuing _ (toyIssuer peerTable) contractURI.
Proof.
  split.
  - reflexivity.
  - intros n mutate Hn. exists n. cbn in Hn.
    repeat (apply elem_of_cons in Hn as [[= -> ->]|Hn];
      [eexists; split; [reflexivity|]; eexists; split; [reflexivity|]; split; [vm_compute; reflexivity|];
       split; [split; vm_compute; congruence|split; reflexivity]|]).
    by apply elem_of_nil in Hn.
  - intros k0 k2 [= <-] [= <-]. discriminate.
Qed.

Lemma RunPeer_passes_witness :
  exists results, @RunPeer _ (toyIssuer peerTable) (@strictPeer (toyX509 peerTable)) contractURI = Some results /\
    Forall (fun r => snd r = true) results.
Proof. apply (@RunPeer_passes _ (toyIssuer peerTable)). exact toy_peerIssuing. Defined.

Definition issuedTable : list (Template * nat) :=
  [(rootTemplate, 1%nat); (deviceTemplate contractURI, 0%nat); (rootTemplate, 2%nat); (expiredTemplate, 1%nat)] ++
  map (fun nm => (snd nm (deviceTemplate contractURI), 0%nat)) (drop 1 issuedIssues).

Definition toyAuthority : @authority _ (toyIssuer issuedTable) :=
  @Build_authority _ (toyIssuer issuedTable) 0%nat 1%nat 2%nat 3%nat (toyBuild (byte_of 0) rootTemplate 1)
    (toyBuild (byte_of 2) rootTemplate 2) (toyBuild (byte_of 3) expiredTemplate 1).

Lemma toy_pemLaws table : @pemLaws _ (toyIssuer table).
Proof.
  split.
  - intros der rest. cbn. unfold toyDecode. rewrite bool_decide_true by reflexivity. cbn. by rewrite drop_0, toyRead_body.
  - intros der rest. change newline with [Byte.x0a]. cbn. unfold toyDecode. rewrite bool_decide_true by reflexivity. cbn. by rewrite drop_0, toyRead_body.
  - intros der. by eexists.
  - reflexivity.
Qed.

Ltac toy_creates :=
  eexists; split; [reflexivity|]; split; [vm_compute; reflexivity|];
  split; [split; vm_compute; congruence|split; reflexivity].

Lemma toy_issuedIssuing : @issuedIssuing _ (toyIssuer issuedTable) toyAuthority contractURI.
Proof.
  split.
  - reflexivity.
  - by split_and!.
  - intros k Hk. repeat (apply elem_of_cons in Hk as [->|Hk];
      [eexists; split; [reflexivity|]; split; [split; vm_compute; congruence|reflexivity]|]). by apply elem_of_nil in Hk.
  - discriminate.
  - discriminate.
  - toy_creates.
  - toy_creates.
  - toy_creates.
  - intros n mutate Hn. cbn in Hn. repeat (apply elem_of_cons in Hn as [[= -> ->]|Hn]; [eexists; toy_creates|]).
    by apply elem_of_nil in Hn.
  - apply toy_pemLaws.
  - intros n mutate c r at_ _ _ _ Hz chainable. cbn. unfold toyVerify, IsZero. cbn.
    rewrite (proj2 (Z.eqb_neq at_ zeroTime) Hz). case_bool_decide as Hc; [|exact Hc].
    split; [exact Hc|]. split; [done|]. intros chain ->%list_elem_of_singleton. reflexivity.
  - intros c (der & [= <-] & Hp & _). vm_compute in Hp. injection Hp as <-. vm_compute. discriminate.
Qed.

Lemma RunIssued_passes_witness :
  exists results, @RunIssued _ (toyIssuer issuedTable) _ (@strictIssued _ (toyIssuer issuedTable)) contractURI =
    Some results /\ Forall (fun r => snd r = true) results.
Proof. apply (@RunIssued_passes _ (toyIssuer issuedTable) toyAuthority). exact toy_issuedIssuing. Defined.

(** The suites tell verifiers apart: one that checks nothing fails. *)
Example careless_validators_fail :
  existsb (fun r => negb (snd r)) (default [] (@RunPeer _ (toyIssuer peerTable)
    (fun _ _ => ({| URI := contractURI; Fingerprint := ""; PeerSerial := "2a" |}, None)) contractURI)) = true /\
  existsb (fun r => negb (snd r)) (default [] (@RunIssued _ (toyIssuer issuedTable) unit
    (fun _ _ => None) contractURI)) = true.
Proof. split; vm_compute; reflexivity. Qed.

End ContractProperties.
