(* ===== verification/Validation.v ===== *)
(** * Bounded JSON input ([web/validation/json.go]) and build metadata
      ([core/version/version.go])

    The policy of [DecodeJSON]: media type, body limit, exactly one value, and
    the public error each failure maps to, on the decoder of [encoding/json] and
    the media types of [mime]. *)

From S2P Require Import Prelude GoStrings GoJson GoJsonScan GoJsonDecode GoMime GoHttp Problem.

(** What [errors.As] and [errors.Is] find in the decoder's errors. *)
Inductive errorKind := MaxBytesError | SyntaxError | ErrUnexpectedEOF | EOF | UnmarshalTypeError.

#[export] Instance errorKind_eq_dec : EqDecision errorKind.
Proof. solve_decision. Defined.

Definition kinds (e : JsonDecode.decodeFailure) : list errorKind :=
  match e with
  | JsonDecode.LimitReached => [MaxBytesError]
  | JsonDecode.SyntaxFailure => [SyntaxError]
  | JsonDecode.UnexpectedEOF => [ErrUnexpectedEOF]
  | JsonDecode.AtEOF => [EOF]
  | JsonDecode.StoreFailure TypeMismatch => [UnmarshalTypeError]
  | JsonDecode.StoreFailure (UnknownField _) => []
  end.

(** A body behind [http.MaxBytesReader]: the bytes that can be read, and whether
    the limit, not the end of the body, stops them. *)
Record source := { rest : list byte; exceeded : bool }.

Definition MaxBytesReader (body : list byte) (maxBytes : Z) : source :=
  {| rest := take (Z.to_nat maxBytes) body; exceeded := maxBytes <? blen body |}.

Module Validation.
Import Http Errors.

Section decode.
Context `{UnicodeCase}.
(** The text of the decoder's errors. *)
Variable describe : JsonDecode.decodeFailure -> string.

Definition decodeError (err : JsonDecode.decodeFailure) : goerror :=
  let as_ k := bool_decide (k ∈ kinds err) in
  let cause := Plain (describe err) in
  if as_ MaxBytesError then Wrap "request_too_large" "Request body is too large" (Some cause)
  else if as_ SyntaxError || as_ ErrUnexpectedEOF then
    Wrap "malformed_json" "Request body contains malformed JSON" (Some cause)
  else if as_ EOF then Wrap "empty_body" "Request body must not be empty" (Some cause)
  else if as_ UnmarshalTypeError then
    Wrap "invalid_json_type" "Request body contains an invalid value type" (Some cause)
  else Wrap "invalid_json" "Request body is invalid" (Some (Wrapped "decode JSON" cause)).

(** [DecodeJSON]: [destination] is [None] for nil, else the type and the value of
    the variable it points to; on success the value it holds then. *)
Definition DecodeJSON (r : Request) (body : list byte) (destination : option (gotype * goval)) (maxBytes : Z)
    : result goerror goval :=
  match destination with
  | None => Err (New "invalid_decoder_target" "The server could not process the request")
  | Some (target, cur) =>
      if maxBytes <=? 0 then Err (New "invalid_body_limit" "The server could not process the request")
      else
        let unsupported cause :=
          Err (Wrap "unsupported_media_type" "Content-Type must be application/json" cause) in
        match Mime.ParseMediaType (hGet (rHeader r) "Content-Type") with
        | Err e => unsupported (Some (Plain e))
        | Ok mediaType =>
            if mediaType != "application/json" then unsupported None
            else
              let s := MaxBytesReader body maxBytes in
              let '(first, l) := JsonDecode.DecodeInto true target cur (exceeded s) (JsonDecode.textOf (rest s)) in
              match first with
              | Err e => Err (decodeError e)
              | Ok v =>
                  match fst (JsonDecode.Decode true (TStruct []) (exceeded s) l) with
                  | Err e => if bool_decide (EOF ∈ kinds e) then Ok v else Err (decodeError e)
                  | Ok _ => Err (New "malformed_json" "Request body must contain exactly one JSON value")
                  end
              end
        end
  end.
End decode.

(** ** Build metadata *)

Record Info := { Version : string; Commit : string; BuildTime : string; Dirty : bool }.

(** [debug.BuildInfo]: the main module's version and the build settings. *)
Record BuildInfo := { MainVersion : string; Settings : list (string * string) }.

Definition applySetting (info : Info) (setting : string * string) : Info :=
  let '(key, value) := setting in
  if key == "vcs.revision" then
    {| Version := Version info; Commit := if Commit info == "" then value else Commit info;
       BuildTime := BuildTime info; Dirty := Dirty info |}
  else if key == "vcs.time" then
    {| Version := Version info; Commit := Commit info;
       BuildTime := if BuildTime info == "" then value else BuildTime info; Dirty := Dirty info |}
  else if key == "vcs.modified" then
    {| Version := Version info; Commit := Commit info; BuildTime := BuildTime info; Dirty := value == "true" |}
  else info.

(** [Current]: [version], [commit] and [buildTime] are the values set by the
    linker ("dev" and empty when they are not). *)
Definition Current (version commit buildTime : string) (build : option BuildInfo) : Info :=
  let info := {| Version := version; Commit := commit; BuildTime := buildTime; Dirty := false |} in
  match build with
  | None => info
  | Some build =>
      let info :=
        if (Version info == "dev") && (MainVersion build != "") && (MainVersion build != "(devel)")
        then {| Version := MainVersion build; Commit := Commit info; BuildTime := BuildTime info;
                Dirty := Dirty info |}
        else info in
      fold_left applySetting (Settings build) info
  end.

End Validation.

(** ** Properties *)

Module ValidationProperties.
Import Http Errors Validation.

(** The codes and messages a client may see. *)
Definition publicErrors : list (string * string) :=
  [("invalid_decoder_target", "The server could not process the request");
   ("invalid_body_limit", "The server could not process the request");
   ("unsupported_media_type", "Content-Type must be application/json");
   ("request_too_large", "Request body is too large");
   ("malformed_json", "Request body contains malformed JSON");
   ("malformed_json", "Request body must contain exactly one JSON value");
   ("empty_body", "Request body must not be empty");
   ("invalid_json_type", "Request body contains an invalid value type");
   ("invalid_json", "Request body is invalid")].

Lemma decodeError_public describe e : exists p, As (decodeError describe e) = Some p /\ p ∈ publicErrors.
Proof.
  unfold decodeError. repeat case_match; (eexists; split; [reflexivity|]); unfold publicErrors; set_solver.
Qed.

(** The end of the input, and nothing else, is [io.EOF]. *)
Lemma kinds_EOF e : EOF ∈ kinds e <-> e = JsonDecode.AtEOF.
Proof.
  split; [|intros ->; by left].
  destruct e as [| | | |[]]; cbn; rewrite ?elem_of_cons, ?elem_of_nil; naive_solver.
Qed.

(** A body that is longer than the limit is cut. *)
Lemma MaxBytesReader_within body maxBytes : exceeded (MaxBytesReader body maxBytes) = false <-> blen body <= maxBytes.
Proof. cbn. rewrite Z.ltb_ge. lia. Qed.

Lemma MaxBytesReader_whole body maxBytes : blen body <= maxBytes -> rest (MaxBytesReader body maxBytes) = body.
Proof. intros Hl. cbn. apply take_ge. unfold blen in *. lia. Qed.

(** C40.  A body is accepted exactly when it is declared as JSON and holds one
    value of the target and nothing else but white space within the limit; every
    rejection carries one of nine fixed codes and public messages, never text of
    the decoder or of the client. *)
Theorem DecodeJSON_exact `{UnicodeCase} (describe : JsonDecode.decodeFailure -> string) (r : Request)
    (body : list byte) (destination : option (gotype * goval)) (maxBytes : Z) :
  (forall v, DecodeJSON describe r body destination maxBytes = Ok v <->
     0 < maxBytes /\ blen body <= maxBytes /\
     Mime.ParseMediaType (hGet (rHeader r) "Content-Type") = Ok "application/json" /\
     exists target cur text ws j, destination = Some (target, cur) /\
       JsonDecode.textOf body = text ++ ws /\ JsonGrammar.value 0 text j /\ JsonGrammar.spaces ws /\
       JsonDecode.store true target cur j = (v, None)) /\
  (forall e, DecodeJSON describe r body destination maxBytes = Err e ->
     exists p, As e = Some p /\ p ∈ publicErrors).
Proof.
  split.
  - intros v. unfold DecodeJSON. cbv zeta. split.
    + destruct destination as [[target cur]|]; [|done]. destruct (Z.leb_spec maxBytes 0); [done|].
      destruct (Mime.ParseMediaType _) as [mediaType|]; [|done]. case_match; [done|]. split_guards. subst mediaType.
      destruct (JsonDecode.DecodeInto true target cur _ _) as [[v'|e] l] eqn:HD; [|done].
      destruct (fst (JsonDecode.Decode true (TStruct []) _ l)) as [|e] eqn:HE; [done|].
      destruct (bool_decide (EOF ∈ kinds e)) eqn:HF; [|done]. intros [= <-].
      apply bool_decide_eq_true_1, kinds_EOF in HF as ->.
      destruct (proj1 (JsonOne.Decode_then_EOF _ _ _ _ _ _ _ _) (ex_intro _ l (conj HD HE)))
        as (Hl%MaxBytesReader_within & text & ws & j & Ht & Hj).
      rewrite MaxBytesReader_whole in Ht by done. split_and!; [done..|]. by exists target, cur, text, ws, j.
    + intros (Hpos & Hl & HP & target & cur & text & ws & j & -> & Hj). rewrite (proj2 (Z.leb_gt _ _)) by lia.
      rewrite HP, bool_decide_true by done. cbn [negb]. rewrite MaxBytesReader_whole by done.
      rewrite (proj2 (MaxBytesReader_within body maxBytes) Hl).
      destruct (proj2 (JsonOne.Decode_then_EOF true target cur true (TStruct []) false (JsonDecode.textOf body) v))
        as (l & -> & ->); [by split; [|exists text, ws, j]|]. done.
  - intros e. unfold DecodeJSON. cbv zeta.
    repeat (case_match; try done); intros [= <-]; try apply decodeError_public;
      (eexists; split; [reflexivity|]); unfold publicErrors; set_solver.
Qed.

(** Linker values win over what the toolchain recorded, and the version
    falls back to the main module's only for a development build. *)
Lemma Current_precedence version commit buildTime build :
  (version <> "dev" -> Version (Current version commit buildTime build) = version) /\
  (commit <> "" -> Commit (Current version commit buildTime build) = commit) /\
  (buildTime <> "" -> BuildTime (Current version commit buildTime build) = buildTime).
Proof.
  assert (HV : forall l info, Version (fold_left applySetting l info) = Version info).
  { induction l as [|[k x] l IH]; intros info; [done|]. cbn [fold_left]. rewrite IH.
    unfold applySetting. by repeat case_match. }
  assert (HC : forall l info, Commit info <> "" -> Commit (fold_left applySetting l info) = Commit info).
  { induction l as [|[k x] l IH]; intros info Hc; [done|]. cbn [fold_left].
    assert (He : Commit (applySetting info (k, x)) = Commit info).
    { unfold applySetting. repeat case_match; cbn [Commit]; split_guards; by try rewrite bool_decide_false. }
    rewrite IH, He; [done|by rewrite He]. }
  assert (HB : forall l info, BuildTime info <> "" -> BuildTime (fold_left applySetting l info) = BuildTime info).
  { induction l as [|[k x] l IH]; intros info Hc; [done|]. cbn [fold_left].
    assert (He : BuildTime (applySetting info (k, x)) = BuildTime info).
    { unfold applySetting. repeat case_match; cbn [BuildTime]; split_guards; by try rewrite bool_decide_false. }
    rewrite IH, He; [done|by rewrite He]. }
  unfold Current. destruct build as [b|]; [|done]. cbn [Version Commit BuildTime]. split_and!; intros Hne.
  - rewrite HV, (bool_decide_false (version = "dev")) by done. done.
  - rewrite HC; case_match; done.
  - rewrite HB; case_match; done.
Qed.

(** *** Evaluations: the cases of the package's tests *)

Definition sampleRequest (contentType : string) : Request :=
  {| rObject := 1; rMethod := "POST"; rPath := ["users"; "7"]; rHeader := {[ "Content-Type" := [contentType] ]};
     rTLS := true; rContextID := "" |}.
Definition input : gotype := TStruct [("name", TString)].
Definition decode (contentType body : string) (limit : Z) : result goerror goval :=
  @DecodeJSON Mime.asciiCase (fun _ => "detail") (sampleRequest contentType) (JsonDecode.quoted body)
    (Some (input, VStruct [VString ""])) limit.

Example DecodeJSON_sample :
  decode "application/json; charset=utf-8" "{'name':'Ada'}" 1024 = Ok (VStruct [VString "Ada"]) /\
  map (fun t => match decode (fst (fst t)) (snd (fst t)) (snd t) with Err e => As e | Ok _ => None end)
    [("text/plain", "{}", 1024); ("application/json", "{'other':true}", 1024); ("application/json", "{} {}", 1024);
     ("application/json", "{'name':'Ada'}", 4); ("application/json", "{}          ", 4); ("application/json", "", 1024);
     ("application/json", "{'name':7}", 1024); ("application/json", "{'name':'A", 1024)] =
  map Some [("unsupported_media_type", "Content-Type must be application/json");
    ("invalid_json", "Request body is invalid"); ("malformed_json", "Request body must contain exactly one JSON value");
    ("request_too_large", "Request body is too large"); ("request_too_large", "Request body is too large");
    ("empty_body", "Request body must not be empty"); ("invalid_json_type", "Request body contains an invalid value type");
    ("malformed_json", "Request body contains malformed JSON")].
Proof. vm_compute. done. Qed.

Lemma DecodeJSON_exact_witness : exists p,
  As (decodeError (fun _ => "detail") JsonDecode.LimitReached) = Some p /\
  decode "application/json" "{'name':'Ada'}" 4 = Err (Coded (fst p) (snd p) (Some (Plain "detail"))) /\ p ∈ publicErrors.
Proof.
  destruct (proj2 (@DecodeJSON_exact Mime.asciiCase (fun _ => "detail") (sampleRequest "application/json")
    (JsonDecode.quoted "{'name':'Ada'}") (Some (input, VStruct [VString ""])) 4)
    (Coded "request_too_large" "Request body is too large" (Some (Plain "detail")))) as (p & Hp & Hin);
    [vm_compute; reflexivity|].
  exists p. cbn [As] in Hp. injection Hp as <-. split; [reflexivity|]. split; [vm_compute; reflexivity|exact Hin].
Defined.

End ValidationProperties.
