(* ===== verification/MinimalApp.v ===== *)
(** * The example service ([examples/minimal-app/main.go])

    [main] composes the framework: configuration, build metadata, the application,
    an optional database that the application owns and readiness checks, the two
    health routes, the standard chain around the concurrency limiter, and a run.
    [MinimalAppProperties] shows that the pieces fit, and what a client of the
    running service observes. *)

From S2P Require Import Prelude GoTime GoStrings GoJson GoHttp Ids Problem Middleware Concurrency Health.
From S2P Require Import Config Transactions Postgres Validation App.

(** What is decided anew for each request: the random bytes of its ID, how the
    limiter's [select] ends, and the order in which readiness checks answer before
    the deadline. *)
Record chance := { random : option (list byte); admitted : Concurrency.admission; answers : list (string * answer) }.

(** The handlers of the service. *)
Abbreviation service := (chance -> Http.Handler logEntry) (only parsing).

(** Why [main] exits with status 1, or panics. *)
Inductive main_error :=
  | ConfigurationInvalid (e : config_error) | CreateApplication (e : app_error)
  | DatabaseUnavailable (e : postgres_error) | RegisterDatabase (e : app_error)
  | RegisterHealthCheck (e : health_error) | RouterPanic | RegisterMiddleware (e : app_error)
  | ConfigureLimit (e : limit_error) | RegisterLimit (e : app_error) | ApplicationFailed (e : app_error).

Module MinimalApp.
Import Http.

(** Mapping the error of a call to the branch of [main] that logs it. *)
Definition failing {E A} (f : E -> main_error) (r : result E A) : result main_error A :=
  match r with Ok a => Ok a | Err e => Err (f e) end.

(** A call that returns the changed receiver with its error. *)
Definition updated {E S} (f : E -> main_error) (sr : S * result E unit) : result main_error S :=
  _ ← failing f (snd sr); Ok (fst sr).

Definition liveRoute : route service :=
  {| rtMethod := "GET"; rtPath := ["health"; "live"];
     rtHandler := fun _ _ s => (onWriter Health.Live s, Returns) |}.

(** The readiness deadline always comes. *)
Definition readyRoute {Check} (h : handler Check) : route service :=
  {| rtMethod := "GET"; rtPath := ["health"; "ready"];
     rtHandler := fun c _ s =>
       let arrivals := map (fun na => Result (fst na) (snd na)) (answers c) ++ [Done] in
       (onWriter (fun w => default w (Health.Ready h arrivals w)) s, Returns) |}.

(** [func(next http.Handler) http.Handler { return middleware.Chain(next, logger) }]
    and the limiter. *)
Definition chain (next : service) : service := fun c => Middleware.Chain (random c) (next c).
Definition limit (next : service) : service := fun c => Concurrency.limited (admitted c) (next c).

Section main.
(** The process's surroundings: environment and file system; the
    linker's variables and the build information; pgx; and the router's own
    answers. *)
Variable env : gmap string string.
Variable readFile : string -> option (list byte).
Variable version commit buildTime : string.
Variable build : option Validation.BuildInfo.
Variable ParseConfig : string -> option poolConfig.
Variable newOk pingOk : poolConfig -> bool.
Variable own : Request -> string * list action.

Definition router (routes : list (route service)) : service := fun c =>
  serveMux own (map (fun t => {| rtMethod := rtMethod t; rtPath := rtPath t; rtHandler := rtHandler t c |}) routes).

Definition appOptionsOf (cfg : Config) : App.Options :=
  {| App.Name := "minimal-app"; App.Version := Validation.Version (Validation.Current version commit buildTime build);
     App.Address := Config.Address (cHTTP cfg); App.ReadTimeout := Config.ReadTimeout (cHTTP cfg);
     App.ReadHeaderTimeout := Config.ReadHeaderTimeout (cHTTP cfg);
     App.WriteTimeout := Config.WriteTimeout (cHTTP cfg); App.IdleTimeout := Config.IdleTimeout (cHTTP cfg);
     App.ShutdownTimeout := Config.ShutdownTimeout cfg; App.MaxHeaderBytes := Config.MaxHeaderBytes (cHTTP cfg);
     App.Logger := true |}.

Definition poolOptionsOf (p : Config.Postgres) : Postgres.Options :=
  {| oURL := DatabaseURL p; oMaxConnections := MaxConnections p; oMinConnections := MinConnections p;
     oConnectTimeout := ConnectTimeout p; oMaxMessageBytes := MaxMessageBytes p;
     oAllowInsecure := AllowInsecure p |}.

(** The database block: the pools that were opened, and the application and
    health handler with the pool registered; the check is [database.Ping]. *)
Definition database (cfg : Config) (application : App service poolConfig) (healthHandler : handler poolConfig)
    : list poolConfig * result main_error (App service poolConfig * handler poolConfig) :=
  if DatabaseURL (cPostgres cfg) == "" then ([], Ok (application, healthHandler))
  else
    match Postgres.Open ParseConfig newOk pingOk (poolOptionsOf (cPostgres cfg)) with
    | (pools, Err e) => (pools, Err (DatabaseUnavailable e))
    | (pools, Ok pool) =>
        (pools,
         application ← updated RegisterDatabase (Lifecycle.Use application (Some (Nilable false, pool)));
         healthHandler ← updated RegisterHealthCheck (Health.Register healthHandler "postgres" (Some pool));
         Ok (application, healthHandler))
    end.

(** The routes and the middleware, in the order they are registered. *)
Definition assemble (cfg : Config) (application : App service poolConfig) (healthHandler : handler poolConfig)
    : result main_error (App service poolConfig) :=
  match Lifecycle.Handle application liveRoute ≫= fun application => Lifecycle.Handle application (readyRoute healthHandler) with
  | None => Err RouterPanic
  | Some application =>
      application ← updated RegisterMiddleware (Lifecycle.UseHTTP application (Some chain));
      _ ← failing ConfigureLimit
        (Concurrency.LimitConcurrency (MaxConcurrentRequests (cHTTP cfg)) (Config.QueueTimeout (cHTTP cfg)));
      updated RegisterLimit (Lifecycle.UseHTTP application (Some limit))
  end.

(** [main] with the values of its two flags: the pools it opened, what its run
    did, and the branch it exits by.  [listenOk] and [c] are what the listener and
    the server do. *)
Definition main (configFlag addressFlag : string) (listenOk : bool) (c : Lifecycle.serveCase)
    : list poolConfig * list (Lifecycle.effect service poolConfig) * result main_error unit :=
  match Load.LoadWithOverrides env readFile
          {| ConfigFile := configFlag; HTTPAddress := addressFlag |} with
  | Err e => ([], [], Err (ConfigurationInvalid e))
  | Ok cfg =>
      match Lifecycle.New (appOptionsOf cfg) with
      | Err e => ([], [], Err (CreateApplication e))
      | Ok application =>
          let '(pools, registered) := database cfg application Health.New in
          match registered ≫= fun ah => assemble cfg (fst ah) (snd ah) with
          | Err e => (pools, [], Err e)
          | Ok application =>
              let '(effects, r) := Lifecycle.Run router application true listenOk c in
              (pools, effects, failing ApplicationFailed r)
          end
      end
  end.

End main.

End MinimalApp.

(** ** How [main] runs *)

Module MinimalAppCorrect.
Import Http MinimalApp.

(** The pools a run closes. *)
Definition closedPools : list (Lifecycle.effect service poolConfig) -> list poolConfig :=
  omap (fun e => match e with Lifecycle.CloseResource p => Some p | _ => None end).

Definition orderly (listenOk : bool) (c : Lifecycle.serveCase) : Prop :=
  listenOk = true /\ (c = Lifecycle.ServerStopped Lifecycle.ErrServerClosed \/
                      c = Lifecycle.ContextDone None Lifecycle.ErrServerClosed).

Lemma Run_closes mux (a : App service poolConfig) listenOk c :
  closedPools (fst (Lifecycle.Run mux a true listenOk c)) = rev (resources a) /\
  (snd (Lifecycle.Run mux a true listenOk c) = Ok tt <-> orderly listenOk c) /\
  forall server, Lifecycle.Serving server ∈ fst (Lifecycle.Run mux a true listenOk c) ->
    server = Lifecycle.newServer mux a.
Proof.
  unfold Lifecycle.Run, orderly, closedPools. rewrite LifecycleProperties.closeResources_order. cbn [negb].
  assert (Hclosed : forall ps, omap (fun e : Lifecycle.effect service poolConfig =>
    match e with Lifecycle.CloseResource p => Some p | _ => None end) (map Lifecycle.CloseResource ps) = ps).
  { induction ps as [|p ps IH]; [done|]. cbn. f_equal. exact IH. }
  assert (Hserving : forall server (ps : list poolConfig), Lifecycle.Serving server ∉ map (Lifecycle.CloseResource (H := service)) ps).
  { intros server ps (p & [=] & _)%list_elem_of_In%in_map_iff. }
  destruct listenOk; cbn [negb fst snd app].
  - destruct (Lifecycle.serve mux a c) as [effects r] eqn:HS. cbn [fst snd].
    destruct (LifecycleProperties.serve_effects mux a c effects r HS) as (rest & -> & H1 & H2 & _ & _ & H3). split; [|split].
    + rewrite omap_app, Hclosed. replace (omap _ (Lifecycle.Listening :: _ :: rest)) with (@nil poolConfig); [done|].
      cbn. clear -H1. induction rest as [|e rest IH]; [done|]. cbn.
      destruct e; try (apply IH; intros x Hx; apply (H1 x); by right). destruct (H1 r). by left.
    + rewrite H3. naive_solver.
    + intros server [[[=]|[[= ->]|Hs]%elem_of_cons]%elem_of_cons|Hs]%elem_of_app;
        [done|by apply H2 in Hs|by apply Hserving in Hs].
  - split; [apply Hclosed|]. split; [naive_solver|]. intros server Hs. by apply Hserving in Hs.
Qed.

Section main.
Context (env : gmap string string) (readFile : string -> option (list byte)).
Context (version commit buildTime : string).
Context (build : option Validation.BuildInfo) (ParseConfig : string -> option poolConfig).
Context (newOk pingOk : poolConfig -> bool) (own : Request -> string * list action).

Local Abbreviation loaded o := (Load.LoadWithOverrides env readFile o).
Local Abbreviation runMain :=
  (main env readFile version commit buildTime build ParseConfig newOk pingOk own).

Lemma loaded_operable o cfg : loaded o = Ok cfg -> LoadSpec.operable cfg.
Proof.
  unfold Load.LoadWithOverrides. intros (c0 & _ & (c1 & _ & HV)%bind_Ok_inv)%bind_Ok_inv. cbv zeta in HV.
  apply bind_Ok_inv in HV as ([] & HV & [= <-]). by apply LoadCorrect.Validate_iff.
Qed.

(** The application [main] runs. *)
Definition assembled (cfg : Config) (pools : list poolConfig) (h : handler poolConfig) : App service poolConfig :=
  {| appOptions := appOptionsOf version commit buildTime build cfg; routes := [liveRoute; readyRoute h];
     middleware := [chain; limit]; resources := pools |}.

(** The readiness checks of an application with the given database. *)
Definition checksOf (pools : list poolConfig) : handler poolConfig :=
  {| checks := list_to_map (map (pair "postgres") pools); timeout := 2 * Second |}.

Lemma New_ok cfg : LoadSpec.operable cfg ->
  Lifecycle.New (H := service) (R := poolConfig) (appOptionsOf version commit buildTime build cfg) =
  Ok {| appOptions := appOptionsOf version commit buildTime build cfg; routes := []; middleware := []; resources := [] |}.
Proof.
  intros []. unfold Lifecycle.New. cbn [App.Name App.Address App.Logger App.ReadTimeout App.ReadHeaderTimeout
    App.WriteTimeout App.IdleTimeout App.ShutdownTimeout App.MaxHeaderBytes appOptionsOf].
  rewrite bool_decide_false, bool_decide_false by done. cbn [negb]. repeat (case_match; try lia). done.
Qed.

Lemma assemble_ok cfg o pools h : LoadSpec.operable cfg ->
  assemble cfg {| appOptions := o; routes := []; middleware := []; resources := pools |} h =
  Ok {| appOptions := o; routes := [liveRoute; readyRoute h]; middleware := [chain; limit]; resources := pools |}.
Proof.
  intros []. assert (HL : Concurrency.LimitConcurrency (MaxConcurrentRequests (cHTTP cfg)) (Config.QueueTimeout (cHTTP cfg))
    = Ok {| maximum := MaxConcurrentRequests (cHTTP cfg); queueTimeout := Config.QueueTimeout (cHTTP cfg) |}).
  { unfold Concurrency.LimitConcurrency. by rewrite (proj2 (Z.leb_gt _ _)), (proj2 (Z.ltb_ge _ _)) by done. }
  unfold assemble. rewrite HL. reflexivity.
Qed.

(** Opening never refuses the options that come from a loaded configuration. *)
Lemma Open_options cfg pools e : LoadSpec.operable cfg -> DatabaseURL (cPostgres cfg) <> "" ->
  Postgres.Open ParseConfig newOk pingOk (poolOptionsOf (cPostgres cfg)) = (pools, Err e) ->
  pools = [] /\ forall msg, e <> InvalidOptions msg.
Proof.
  intros [] Hu. unfold Postgres.Open, Postgres.validate. cbn [oURL oMaxConnections oMinConnections oConnectTimeout
    oMaxMessageBytes oAllowInsecure poolOptionsOf]. rewrite bool_decide_false by done.
  repeat (case_match; try lia); intros HO; by simplify_eq.
Qed.

(** Once the configuration is loaded, [main] either fails to open the database or
    runs the assembled application, which owns exactly the pool that was opened. *)
Lemma main_loaded configFlag addressFlag listenOk c cfg :
  loaded {| ConfigFile := configFlag; HTTPAddress := addressFlag |} = Ok cfg ->
  (exists e, DatabaseURL (cPostgres cfg) <> "" /\
     snd (Postgres.Open ParseConfig newOk pingOk (poolOptionsOf (cPostgres cfg))) = Err e /\
     (forall msg, e <> InvalidOptions msg) /\
     runMain configFlag addressFlag listenOk c = ([], [], Err (DatabaseUnavailable e))) \/
  (exists pools, (DatabaseURL (cPostgres cfg) = "" /\ pools = [] \/
       exists pool, pools = [pool] /\ DatabaseURL (cPostgres cfg) <> "" /\
         Postgres.Open ParseConfig newOk pingOk (poolOptionsOf (cPostgres cfg)) = (pools, Ok pool)) /\
     runMain configFlag addressFlag listenOk c =
       (let '(effects, r) := Lifecycle.Run (router own) (assembled cfg pools (checksOf pools)) true listenOk c in
        (pools, effects, failing ApplicationFailed r))).
Proof.
  intros HL. pose proof (loaded_operable _ _ HL) as Hop. unfold main. rewrite HL, New_ok by done.
  unfold database. destruct (decide (DatabaseURL (cPostgres cfg) = "")) as [Hu|Hu].
  - right. exists []. split; [by left|]. rewrite bool_decide_true by done. cbn [mbind result_bind fst snd].
    rewrite assemble_ok by done. reflexivity.
  - rewrite bool_decide_false by done.
    destruct (Postgres.Open _ _ _ _) as [pools [pool|e]] eqn:HO.
    + right. exists pools. assert (pools = [pool]) as ->.
      { by apply PostgresProperties.Open_is_secure in HO as [-> _]. }
      split; [right; by exists pool|].
      change (Health.Register Health.New "postgres" (Some pool)) with (checksOf [pool], Ok (E := health_error) tt).
      cbn -[assemble Lifecycle.Run checksOf]. rewrite assemble_ok by done. reflexivity.
    + left. exists e. destruct (Open_options _ _ _ Hop Hu HO) as [-> He]. by split_and!.
Qed.

End main.
End MinimalAppCorrect.

(** ** Exchanges with the service *)

Module ServiceExchange.
Import Http Middleware MiddlewareCorrect MinimalApp.

(** A request that has not been answered or routed yet. *)
Record unanswered (r : Request) (s : World logEntry) : Prop := {
  un_committed : committed (writer s) = None;
  un_informational : informational (writer s) = [];
  un_body : body (writer s) = [];
  un_routed : Pattern r s = ""
}.

(** The calls of [respond]. *)
Definition respondActions (status : Z) (b : healthBody) : list action :=
  [ASet "Content-Type" "application/json"; ASet "Cache-Control" "no-store"; AWriteHeader status;
   AWrite (HealthCorrect.document b)].

Lemma respond_actions status b w : Health.respond status b w = performAll (respondActions status b) w.
Proof. reflexivity. Qed.

(** What the client and the log get for a request to a health route whose
    handler answers with [status] and [b]: that answer when the request got a
    slot; 503 when it did not; an empty answer, which nobody reads, when the
    client went away; always under the security policy and the request ID. *)
Record answered (ch : chance) (r : Request) (s s' : World logEntry) (pattern : string) (status : Z)
    (b : healthBody) : Prop := {
  an_headers k v : (k, v) ∈ ("X-Request-Id", chainID (random ch) r) :: policy (rTLS r) ->
    snd (finish (writer s')) !! k = Some [v];
  an_outcome :
    let logged route status :=
      logs s' = logs s ++ [RequestCompleted (chainID (random ch) r) (rMethod r) route status] in
    match admitted ch with
    | Concurrency.GotSlot =>
        fst (finish (writer s')) = status /\ body (writer s') = [HealthCorrect.document b] /\ logged pattern status
    | Concurrency.NoSlot =>
        fst (finish (writer s')) = 503 /\ hGet (snd (finish (writer s'))) "Retry-After" = "1" /\ logged "unmatched" 503
    | Concurrency.ClientGone =>
        fst (finish (writer s')) = 200 /\ body (writer s') = [] /\ logged "unmatched" 200
    end
}.

(** The headers of the policy are none of those the handlers set. *)
Lemma policy_keys k v id tls : (k, v) ∈ ("X-Request-Id", id) :: policy tls ->
  k <> "Content-Type" /\ k <> "Cache-Control" /\ k <> "Retry-After".
Proof.
  intros Hk. unfold policy in Hk. split_and!; intros ->; destruct tls;
    repeat (apply elem_of_cons in Hk as [[=]|Hk]); by apply elem_of_nil in Hk.
Qed.

(** The writer after the limiter and the handler. *)
Definition answerOf (a : Concurrency.admission) (status : Z) (b : healthBody) (w : Writer) : Writer :=
  match a with
  | Concurrency.GotSlot => performAll (respondActions status b) w
  | Concurrency.NoSlot => Concurrency.unavailable w
  | Concurrency.ClientGone => w
  end.

Lemma holds_answer k vs a status b w :
  k <> "Content-Type" -> k <> "Cache-Control" -> k <> "Retry-After" -> holds k vs w -> holds k vs (answerOf a status b w).
Proof.
  intros H1 H2 H3 Hw. destruct a; cbn [answerOf].
  - apply holds_performAll; [|done]. repeat constructor; simpl; auto.
  - apply holds_problem; [done|done|]. apply holds_onHeader; [|done]. intros h. unfold hSet. by rewrite lookup_insert_ne.
  - done.
Qed.

Lemma tracked_answer a status b w : validStatus status -> tracked w -> tracked (answerOf a status b w).
Proof.
  intros Hs Hw. destruct a; cbn [answerOf].
  - apply tracked_performAll; [|done]. by repeat (apply Forall_cons; split; [done|]).
  - by apply tracked_problem.
  - done.
Qed.

(** How a fresh response ends: the status of the branch and its body or retry
    advice; no informational response is sent. *)
Lemma answer_finish a status b w : committed w = None -> informational w = [] -> isInformational status = false ->
  fst (finish (answerOf a status b w)) =
    match a with Concurrency.GotSlot => status | Concurrency.NoSlot => 503 | Concurrency.ClientGone => 200 end /\
  informational (answerOf a status b w) = [] /\
  match a with
  | Concurrency.GotSlot => body (answerOf a status b w) = body w ++ [HealthCorrect.document b]
  | Concurrency.NoSlot => hGet (snd (finish (answerOf a status b w))) "Retry-After" = "1"
  | Concurrency.ClientGone => body (answerOf a status b w) = body w
  end.
Proof.
  intros Hc Hi Hs. destruct a; cbn [answerOf].
  - rewrite <- respond_actions. destruct (HealthCorrect.respond_finish status b w Hc Hs) as [-> ->].
    split_and!; [done| |done]. unfold Health.respond, Http.Write, WriteHeader. cbn. by rewrite Hc, Hs, Hi.
  - destruct (ProblemCorrect.Write_commits {| Type_ := "https://docs.stumpfworks.de/problems/overloaded";
      Title := "Service temporarily unavailable"; Status := 503; Code := "service_overloaded"; CorrelationID := "";
      Errors_ := [] |} (onHeader (hSet "Retry-After" "1") w) Hc) as (H1 & _ & _ & H4).
    unfold finish, Concurrency.unavailable. rewrite H1, H4. split_and!; [done|done|]. cbn. unfold hGet, hSet.
    rewrite !lookup_insert_ne by done. by rewrite lookup_insert_eq.
  - unfold finish. by rewrite Hc.
Qed.

(** A request to a health route. *)
Lemma service_answers (own : Request -> string * list action) (rts : list (route service)) (ch : chance)
    (r : Request) (s : World logEntry) (pattern : string) (status : Z) (b : healthBody) :
  unanswered r s -> chainID (random ch) r <> "" -> pattern <> "" -> validStatus status -> isInformational status = false ->
  (forall r' s', rMethod r' = rMethod r -> rPath r' = rPath r ->
     router own rts ch r' s' = (onWriter (Health.respond status b) (setPattern r' pattern s'), Returns)) ->
  exists s', chain (limit (router own rts)) ch r s = (s', Returns) /\ answered ch r s s' pattern status b.
Proof.
  intros [Hc Hi Hb Hp] Hid Hpat Hv Hs Hrouter.
  destruct (Chain_inner (random ch) (limit (router own rts) ch) r s Hc Hi)
    as (r' & s1 & (Hm & _ & _ & Hctx & Hpath) & Hpr & Hb1 & [Hl1 Hp1] & HC).
  rewrite bool_decide_false in Hctx by done. rewrite Hp in Hp1. unfold Pattern in Hp1.
  set (w := pushTracker (writer s1)).
  assert (Hinner : exists pats, limit (router own rts) ch r' (onWriter pushTracker s1) =
      ({| writer := answerOf (admitted ch) status b w; patterns := pats; logs := logs s1 |}, Returns) /\
    routeLabel (default "" (pats !! rObject r')) =
      match admitted ch with Concurrency.GotSlot => pattern | _ => "unmatched" end).
  { unfold limit, Concurrency.limited. destruct (admitted ch).
    - rewrite Hrouter by done. eexists. split; [reflexivity|]. cbn. rewrite lookup_insert_eq. unfold routeLabel.
      cbn. by rewrite bool_decide_false.
    - eexists. split; [reflexivity|]. cbn. unfold routeLabel. by rewrite Hp1.
    - eexists. split; [reflexivity|]. cbn. unfold routeLabel. by rewrite Hp1. }
  destruct Hinner as (pats & Hin & Hroute).
  assert (Hcw : committed w = None) by apply Hpr. assert (Hiw : informational w = []) by apply Hpr.
  destruct (answer_finish (admitted ch) status b w Hcw Hiw Hs) as (Hfin & Hinf & Hrest).
  assert (Htr : tracked (answerOf (admitted ch) status b w)) by (apply tracked_answer, pushTracker_tracked; apply Hpr || done).
  eexists. split; [exact HC|]. rewrite Hin. unfold concluded. cbn [fst snd writer logged onWriter]. split.
  - intros k v Hk. destruct (policy_keys _ _ _ _ Hk) as (K1 & K2 & K3).
    assert (Hh : holds k [v] w).
    { apply elem_of_cons in Hk as [[= -> ->]|Hk]; [by apply (pr_id _ _ _ Hpr)|by apply (pr_policy _ _ _ Hpr)]. }
    destruct (holds_answer k [v] (admitted ch) status b w K1 K2 K3 Hh) as [G1 G2]. cbn [writer]. unfold finish in *.
    cbn. destruct (committed (answerOf _ _ _ _)) as [[c h]|]; done.
  - cbv zeta. cbn [logs]. rewrite tracked_finish, Hfin, Hctx, Hm, Hl1 by done. unfold Pattern. cbn [patterns].
    rewrite Hroute. change (body w) with (body (writer s1)) in Hrest. rewrite Hb1, Hb in Hrest.
    destruct (admitted ch); (split; [exact Hfin|]); (split; [exact Hrest|done]).
Qed.

End ServiceExchange.

(** ** Properties *)

Module MinimalAppProperties.
Import Http Middleware MiddlewareCorrect MinimalApp MinimalAppCorrect ServiceExchange.

(** The two routes, for GET and, as the router does, HEAD. *)
Definition reads (r : Request) : Prop := rMethod r = "GET" \/ rMethod r = "HEAD".

Lemma router_live own (h : Health.handler poolConfig) ch r s : reads r -> rPath r = ["health"; "live"] ->
  router own [liveRoute; readyRoute h] ch r s =
  (onWriter (Health.respond 200 Up) (setPattern r "GET /health/live" s), Returns).
Proof. intros [Hm|Hm] Hp; unfold router, serveMux, findRoute; rewrite Hm, Hp; reflexivity. Qed.

(** What readiness answers given the one check of the service. *)
Definition verdict (pools : list poolConfig) (answers : list (string * answer)) : Z * healthBody :=
  match pools, answers with
  | [], _ | _, (_, Ready_) :: _ => (200, Up)
  | _, _ => (503, Down ["postgres"])
  end.

(** The check of a registered database answers at most once, under its name. *)
Definition sound (answers : list (string * answer)) : Prop :=
  answers = [] \/ exists a, answers = [("postgres", a)].

Lemma router_ready own pools ch r s : (length pools <= 1)%nat -> sound (answers ch) ->
  reads r -> rPath r = ["health"; "ready"] ->
  router own [liveRoute; readyRoute (checksOf pools)] ch r s =
  (onWriter (Health.respond (fst (verdict pools (answers ch))) (snd (verdict pools (answers ch))))
     (setPattern r "GET /health/ready" s), Returns).
Proof.
  intros Hl Ha Hr Hp. assert (Hfind : router own [liveRoute; readyRoute (checksOf pools)] ch r s =
    rtHandler (readyRoute (checksOf pools)) ch r (setPattern r "GET /health/ready" s)).
  { destruct Hr as [Hm|Hm]; unfold router, serveMux, findRoute; rewrite Hm, Hp; reflexivity. }
  rewrite Hfind. unfold readyRoute. cbn [rtHandler]. do 2 f_equal.
  destruct pools as [|pool [|]]; [| |simpl in Hl; lia].
  - by destruct Ha as [->|[a ->]].
  - destruct Ha as [->|[[] ->]]; reflexivity.
Qed.

Section main.
Context (env : gmap string string) (readFile : string -> option (list byte)).
Context (version commit buildTime : string).
Context (build : option Validation.BuildInfo) (ParseConfig : string -> option poolConfig).
Context (newOk pingOk : poolConfig -> bool) (own : Request -> string * list action).

Local Abbreviation loaded o := (Load.LoadWithOverrides env readFile o).
Local Abbreviation runMain :=
  (main env readFile version commit buildTime build ParseConfig newOk pingOk own).

(** What a run serves is the assembled application, on the pool that was
    opened. *)
Lemma main_serves configFlag addressFlag listenOk c pools effects r server :
  runMain configFlag addressFlag listenOk c = (pools, effects, r) -> Lifecycle.Serving server ∈ effects ->
  (length pools <= 1)%nat /\
  Lifecycle.Handler server = chain (limit (router own [liveRoute; readyRoute (checksOf pools)])).
Proof.
  intros HM Hs. destruct (loaded {| ConfigFile := configFlag; HTTPAddress := addressFlag |}) as [cfg|e] eqn:HL.
  2: { unfold main in HM. rewrite HL in HM. simplify_eq. by apply elem_of_nil in Hs. }
  destruct (main_loaded env readFile version commit buildTime build ParseConfig newOk pingOk
    own configFlag addressFlag listenOk c cfg HL) as [(e & _ & _ & _ & Hrun)|(pools' & Hpools & Hrun)];
    rewrite HM in Hrun; [simplify_eq; by apply elem_of_nil in Hs|].
  destruct (Lifecycle.Run _ _ _ _ _) as [effects' r'] eqn:HR. simplify_eq.
  destruct (Run_closes (router own) (assembled version commit buildTime build cfg pools' (checksOf pools')) listenOk c)
    as (_ & _ & Hserver). rewrite HR in Hserver. apply Hserver in Hs as ->.
  split; [|reflexivity]. destruct Hpools as [[_ ->]|(pool & -> & _)]; simpl; lia.
Qed.

(** C28.  The pieces of the service fit: once its configuration is accepted, [main]
    never stops for a reason that validation should have caught.  It exits with an
    error only when the configuration itself is refused, when the database cannot
    be opened (never because of the options), or when listening, serving or
    shutting down failed; the branches for a refused application, resource, check,
    route, middleware or limit are unreachable; and every pool it opened is
    closed, whatever happens. *)
Theorem main_fails_only_outside (configFlag addressFlag : string) (listenOk : bool) (c : Lifecycle.serveCase)
    (pools : list poolConfig) (effects : list (Lifecycle.effect service poolConfig)) (r : result main_error unit) :
  runMain configFlag addressFlag listenOk c = (pools, effects, r) ->
  closedPools effects = pools /\
  match r with
  | Ok _ => orderly listenOk c
  | Err (ConfigurationInvalid e) => loaded {| ConfigFile := configFlag; HTTPAddress := addressFlag |} = Err e
  | Err (DatabaseUnavailable e) =>
      exists cfg, loaded {| ConfigFile := configFlag; HTTPAddress := addressFlag |} = Ok cfg /\
        DatabaseURL (cPostgres cfg) <> "" /\
        snd (Postgres.Open ParseConfig newOk pingOk (poolOptionsOf (cPostgres cfg))) = Err e /\
        forall msg, e <> InvalidOptions msg
  | Err (ApplicationFailed _) => ~ orderly listenOk c
  | Err _ => False
  end.
Proof.
  intros HM. destruct (loaded {| ConfigFile := configFlag; HTTPAddress := addressFlag |}) as [cfg|e] eqn:HL.
  2: { unfold main in HM. rewrite HL in HM. by simplify_eq. }
  destruct (main_loaded env readFile version commit buildTime build ParseConfig newOk pingOk
    own configFlag addressFlag listenOk c cfg HL) as [(e & Hu & Ho & He & Hrun)|(pools' & Hpools & Hrun)];
    rewrite HM in Hrun; [simplify_eq; by eauto 10|].
  destruct (Lifecycle.Run _ _ _ _ _) as [effects' r'] eqn:HR. simplify_eq.
  destruct (Run_closes (router own) (assembled version commit buildTime build cfg pools' (checksOf pools')) listenOk c)
    as (Hc & Hok & _). rewrite HR in Hc, Hok. cbn [fst snd assembled resources] in Hc, Hok. split.
  - rewrite Hc. by destruct Hpools as [[_ ->]|(pool & -> & _)].
  - destruct r' as [[]|e]; cbn [failing]; [by apply Hok|]. intros Hord%Hok. done.
Qed.

(** C12.  The health endpoints, end to end: for the server that [main] runs, every
    GET or HEAD of /health/live and /health/ready is answered without a panic.  A
    request that got a slot is answered 200 with the document of a live process on
    the first, and on the second exactly when no database is configured or its ping
    succeeded before the deadline, else 503 with the name of the check; one that
    got none is answered 503 with a retry advice, and one whose client went away while
    it waited with an empty 200 that nobody reads; always with every security
    header and the request ID, provided there is one (the request brings one or the
    random source works), and with exactly one log line that has that ID, the status,
    and the route, which is "unmatched" for a request that did not get a slot. *)
Theorem health_end_to_end (configFlag addressFlag : string) (listenOk : bool) (c : Lifecycle.serveCase)
    (pools : list poolConfig) (effects : list (Lifecycle.effect service poolConfig)) (r : result main_error unit)
    (server : Lifecycle.Server service) (ch : chance) (req : Request) (s : World logEntry) :
  runMain configFlag addressFlag listenOk c = (pools, effects, r) -> Lifecycle.Serving server ∈ effects ->
  unanswered req s -> chainID (random ch) req <> "" -> reads req -> sound (answers ch) ->
  (rPath req = ["health"; "live"] ->
     exists s', Lifecycle.Handler server ch req s = (s', Returns) /\
       answered ch req s s' "GET /health/live" 200 Up) /\
  (rPath req = ["health"; "ready"] ->
     exists s', Lifecycle.Handler server ch req s = (s', Returns) /\
       answered ch req s s' "GET /health/ready" (fst (verdict pools (answers ch))) (snd (verdict pools (answers ch)))).
Proof.
  intros HM Hs Hun Hid Hr Ha. destruct (main_serves _ _ _ _ _ _ _ _ HM Hs) as [Hl ->].
  assert (Hreads : forall r', rMethod r' = rMethod req -> reads r') by (intros r' Hm; unfold reads; by rewrite Hm).
  split; intros Hp.
  - apply service_answers; try done. intros r' s' Hm' Hp'. apply router_live; [auto|congruence].
  - assert (Hv : fst (verdict pools (answers ch)) = 200 \/ fst (verdict pools (answers ch)) = 503).
    { unfold verdict. repeat case_match; auto. }
    apply service_answers; try done.
    + unfold validStatus. destruct Hv as [->| ->]; lia.
    + by destruct Hv as [->| ->].
    + intros r' s' Hm' Hp'. apply router_ready; [done|done|auto|congruence].
Qed.
End main.

(** *** A run with a database *)

Definition sampleEnv : gmap string string :=
  {[ "SWF_POSTGRES_URL" := "postgres://db"; "SWF_HTTP_ADDRESS" := ":8080" ]}.
Definition samplePool : poolConfig := Postgres.configured PostgresProperties.sampleParsed
  {| oURL := "postgres://db"; oMaxConnections := 10; oMinConnections := 1; oConnectTimeout := 5 * Second;
     oMaxMessageBytes := 2 ^ 24; oAllowInsecure := false |}.
Definition notFound (r : Request) : string * list action := ("", [AWriteHeader 404]).
Definition sampleMain (c : Lifecycle.serveCase)
    : list poolConfig * list (Lifecycle.effect service poolConfig) * result main_error unit :=
  main sampleEnv (fun _ => None) "dev" "" "" None
    (fun _ => Some PostgresProperties.sampleParsed) (fun _ => true) (fun _ => true) notFound "" "" true c.
Definition stopped : Lifecycle.serveCase := Lifecycle.ContextDone None Lifecycle.ErrServerClosed.
Definition sampleEffects : list (Lifecycle.effect service poolConfig) := snd (fst (sampleMain stopped)).

Definition getRequest (last : string) : Request :=
  {| rObject := 1; rMethod := "GET"; rPath := ["health"; last]; rHeader := ∅; rTLS := true; rContextID := "" |}.
Definition startWorld : World logEntry :=
  {| writer := newWriter; patterns := {[ 1%positive := "" ]}; logs := [] |}.
Definition sampleChance : chance :=
  {| random := MiddlewareProperties.sampleRandom; admitted := Concurrency.GotSlot; answers := [] |}.

Lemma sampleMain_eq : sampleMain stopped = (fst (fst (sampleMain stopped)), sampleEffects, snd (sampleMain stopped)).
Proof. unfold sampleEffects. by destruct (sampleMain stopped) as [[pools effects] r]. Qed.

Lemma sampleMain_pools : fst (fst (sampleMain stopped)) = [samplePool].
Proof. vm_compute. reflexivity. Qed.

Lemma sampleMain_serves : exists server, Lifecycle.Serving server ∈ sampleEffects.
Proof.
  assert (Hs : existsb (fun e => match e with Lifecycle.Serving _ => true | _ => false end) sampleEffects = true)
    by (vm_compute; reflexivity).
  apply existsb_exists in Hs as (e & He%list_elem_of_In & Hs). destruct e; try done. eauto.
Qed.

Lemma main_fails_only_outside_witness : closedPools sampleEffects = [samplePool].
Proof.
  destruct (main_fails_only_outside _ _ _ _ _ _ _ _ _ _ _ _ _ _ _ _ _ sampleMain_eq) as [Hc _].
  rewrite sampleMain_pools in Hc. exact Hc.
Defined.

Lemma health_end_to_end_witness :
  exists server s', Lifecycle.Serving server ∈ sampleEffects /\
    Lifecycle.Handler server sampleChance (getRequest "ready") startWorld = (s', Returns) /\
    answered sampleChance (getRequest "ready") startWorld s' "GET /health/ready" 503 (Down ["postgres"]).
Proof.
  destruct sampleMain_serves as [server Hs]. exists server.
  destruct (health_end_to_end _ _ _ _ _ _ _ _ _ _ _ _ _ _ _ _ _ server sampleChance (getRequest "ready")
    startWorld sampleMain_eq Hs) as [_ (s' & HH & Ha)].
  - split; reflexivity.
  - vm_compute. discriminate.
  - left. reflexivity.
  - left. reflexivity.
  - reflexivity.
  - rewrite sampleMain_pools in Ha. exists s'. split; [exact Hs|]. split; [exact HH|exact Ha].
Defined.

End MinimalAppProperties.
